(** * Frame coordination core of src/frames.ts

    A shallow embedding of the classes [FrameManager], [Frame],
    [RerunnableTask], [SignalBarrier] and [FrameTask].  JavaScript objects
    live in stores indexed by reference (a [nat]); promises live in typed
    heaps, one per TypeScript result type, so that the aliasing between a
    promise and the resolve/reject closures captured by a waiter is kept.
    Methods are computations in a state-and-exception monad over one
    [World]. *)

From Stdlib Require Import ZArith.
From stdpp Require Import base gmap strings list.

Open Scope Z_scope.
Open Scope nat_scope.

(** ** Errors and strings *)

Record Error := { message : string }.

#[global] Instance Error_eq_dec : EqDecision Error.
Proof. solve_decision. Defined.

(** The double-quote character of template strings. *)
Definition dq : string :=
  String (Ascii.Ascii false true false false false true false false) EmptyString.

(** [String.prototype.includes]. *)
Fixpoint includes (s sub : string) : bool :=
  String.prefix sub s ||
  match s with
  | EmptyString => false
  | String _ s' => includes s' sub
  end.

(** JavaScript truthiness of [string | undefined]. *)
Definition truthy (s : option string) : bool :=
  match s with
  | Some s => negb (String.eqb s "")
  | None => false
  end.

(** Insertion-ordered [Set]: [add] and [delete]. *)
Definition set_add `{EqDecision A} (x : A) (l : list A) : list A :=
  if decide (x ∈ l) then l else l ++ [x].

Definition set_delete `{EqDecision A} (x : A) (l : list A) : list A :=
  filter (λ y, y ≠ x) l.

Definition set_has `{EqDecision A} (x : A) (l : list A) : bool :=
  bool_decide (x ∈ l).

(** ** Promises *)

Inductive PromiseState (T : Type) : Type :=
| Pending
| Fulfilled (value : T)
| Rejected (reason : Error).
Arguments Pending {T}.
Arguments Fulfilled {T} value.
Arguments Rejected {T} reason.

Module Promise.

(** A settled promise ignores later calls of its resolve and reject
    functions. *)
Definition settle {T} (p : nat) (s : PromiseState T)
  (h : list (PromiseState T)) : list (PromiseState T) :=
  match h !! p with
  | Some Pending => <[p := s]> h
  | _ => h
  end.

Definition isSettled {T} (s : option (PromiseState T)) : bool :=
  match s with
  | Some (Fulfilled _) | Some (Rejected _) => true
  | _ => false
  end.

End Promise.

(** ** Data model *)

Definition Context := nat.
Definition Handle := nat.

Inductive ContextType := main | utility.

#[global] Instance ContextType_eq_dec : EqDecision ContextType.
Proof. solve_decision. Defined.

(** The part of [network.Request] that frames.ts reads. *)
Record Request := {
  request_id : nat;
  request_frame : nat;
  _isFavicon : bool;
  _documentId : option string;
  redirectedFrom : bool;
  _route : bool;
  failure_errorText : option string
}.

#[global] Instance Request_eq_dec : EqDecision Request.
Proof. solve_decision. Defined.

(** Modelled from the spec: [helper.urlMatches] and [types.URLMatch] are not
    in frames.ts; the matcher is either absent (matches all) or a
    predicate-like shape on the URL. *)
Definition URLMatch := string → bool.

Definition urlMatches (url : string) (m : option URLMatch) : bool :=
  match m with
  | None => true
  | Some f => f url
  end.

(** Modelled from the spec: [types.kLifecycleEvents] is not in frames.ts; the
    accepted lifecycle values are domcontentloaded, load and networkidle. *)
Definition kLifecycleEvents : list string :=
  ["load"; "domcontentloaded"; "networkidle"]%string.

Record ContextData := {
  contextPromise : nat;
  contextResolveCallback : option nat;
  context : option Context;
  rerunnableTasks : list nat
}.

Record Frame := {
  _id : string;
  _firedLifecycleEvents : list string;
  _lastDocumentId : string;
  _pendingDocumentId : string;
  _frameTasks : list nat;
  _parentFrame : option nat;
  _url : string;
  _detached : bool;
  _contextData : ContextType → ContextData;
  _childFrames : list nat;
  _name : string;
  _inflightRequests : list Request;
  _networkIdleTimer : option nat;
  _detachedPromise : nat
}.

Record RerunnableTask := {
  promise : nat;
  _task : nat;
  rerunnable_progress : nat
}.

Record SignalBarrier := {
  barrier_progress : option nat;
  _protectCount : Z;
  _promise : nat
}.

Record FrameTask := {
  _frame : nat;
  _requestMap : gmap string Request;
  _progress : option nat;
  _onSameDocument : option (option URLMatch * nat);
  _onSpecificDocument : option (string * nat);
  _onNewDocument : option (option URLMatch * nat);
  _onLifecycle : option (string * nat)
}.

(** Timers of [setTimeout]: the callback, the due time and whether the timer
    is still scheduled. *)
Inductive TimerCallback :=
| NetworkIdleCallback (frame : nat).

Inductive TimerStatus := Scheduled | Cleared | Fired.

#[global] Instance TimerStatus_eq_dec : EqDecision TimerStatus.
Proof. solve_decision. Defined.

Record Timer := {
  callback : TimerCallback;
  due : Z;
  status : TimerStatus
}.

Module Events.
Inductive Page :=
| FrameAttached (frame : nat)
| FrameDetached (frame : nat)
| FrameNavigated (frame : nat)
| Load
| DOMContentLoaded
| Response (request : Request)
| RequestFinished (request : Request)
| RequestFailed (request : Request).
End Events.

Inductive Cleanup :=
| CleanupTaskDone (task : nat)
| CleanupBarrierDelete (barrier : nat).

(** Calls into the collaborators of the file (page, progress, routes, the
    injected poll), recorded in order. *)
Inductive Effect :=
| Emit (event : Events.Page)
| PageRequestStarted (request : Request)
| RouteContinue (request : Request)
| ProgressLog (progress : nat) (text : string)
| CleanupWhenAborted (progress : nat) (cleanup : Cleanup)
| TaskInvoked (task : nat) (context : Context)
| PollCancelled (task : nat)
| AwaitNavigation (barrier task : nat).

Record World := {
  _frames : gmap string nat;
  _mainFrame : option nat;
  _signalBarriers : list nat;
  frameStore : list Frame;
  taskStore : list FrameTask;
  rerunnableStore : list RerunnableTask;
  barrierStore : list SignalBarrier;
  voidPromises : list (PromiseState unit);
  documentPromises : list (PromiseState string);
  contextPromises : list (PromiseState Context);
  handlePromises : list (PromiseState Handle);
  timers : list Timer;
  now : Z;
  _disconnectedPromise : nat;
  effects : list Effect
}.

(** ** Field updates *)

Definition set_firedLifecycleEvents (g : list string → list string) (fr : Frame) : Frame :=
  {| _id := _id fr; _firedLifecycleEvents := g (_firedLifecycleEvents fr);
     _lastDocumentId := _lastDocumentId fr; _pendingDocumentId := _pendingDocumentId fr;
     _frameTasks := _frameTasks fr; _parentFrame := _parentFrame fr; _url := _url fr;
     _detached := _detached fr; _contextData := _contextData fr;
     _childFrames := _childFrames fr; _name := _name fr;
     _inflightRequests := _inflightRequests fr;
     _networkIdleTimer := _networkIdleTimer fr; _detachedPromise := _detachedPromise fr |}.

Definition set_id (v : string) (fr : Frame) : Frame :=
  {| _id := v; _firedLifecycleEvents := _firedLifecycleEvents fr;
     _lastDocumentId := _lastDocumentId fr; _pendingDocumentId := _pendingDocumentId fr;
     _frameTasks := _frameTasks fr; _parentFrame := _parentFrame fr; _url := _url fr;
     _detached := _detached fr; _contextData := _contextData fr;
     _childFrames := _childFrames fr; _name := _name fr;
     _inflightRequests := _inflightRequests fr;
     _networkIdleTimer := _networkIdleTimer fr; _detachedPromise := _detachedPromise fr |}.

Definition set_lastDocumentId (v : string) (fr : Frame) : Frame :=
  {| _id := _id fr; _firedLifecycleEvents := _firedLifecycleEvents fr;
     _lastDocumentId := v; _pendingDocumentId := _pendingDocumentId fr;
     _frameTasks := _frameTasks fr; _parentFrame := _parentFrame fr; _url := _url fr;
     _detached := _detached fr; _contextData := _contextData fr;
     _childFrames := _childFrames fr; _name := _name fr;
     _inflightRequests := _inflightRequests fr;
     _networkIdleTimer := _networkIdleTimer fr; _detachedPromise := _detachedPromise fr |}.

Definition set_pendingDocumentId (v : string) (fr : Frame) : Frame :=
  {| _id := _id fr; _firedLifecycleEvents := _firedLifecycleEvents fr;
     _lastDocumentId := _lastDocumentId fr; _pendingDocumentId := v;
     _frameTasks := _frameTasks fr; _parentFrame := _parentFrame fr; _url := _url fr;
     _detached := _detached fr; _contextData := _contextData fr;
     _childFrames := _childFrames fr; _name := _name fr;
     _inflightRequests := _inflightRequests fr;
     _networkIdleTimer := _networkIdleTimer fr; _detachedPromise := _detachedPromise fr |}.

Definition set_frameTasks (g : list nat → list nat) (fr : Frame) : Frame :=
  {| _id := _id fr; _firedLifecycleEvents := _firedLifecycleEvents fr;
     _lastDocumentId := _lastDocumentId fr; _pendingDocumentId := _pendingDocumentId fr;
     _frameTasks := g (_frameTasks fr); _parentFrame := _parentFrame fr; _url := _url fr;
     _detached := _detached fr; _contextData := _contextData fr;
     _childFrames := _childFrames fr; _name := _name fr;
     _inflightRequests := _inflightRequests fr;
     _networkIdleTimer := _networkIdleTimer fr; _detachedPromise := _detachedPromise fr |}.

Definition set_parentFrame (v : option nat) (fr : Frame) : Frame :=
  {| _id := _id fr; _firedLifecycleEvents := _firedLifecycleEvents fr;
     _lastDocumentId := _lastDocumentId fr; _pendingDocumentId := _pendingDocumentId fr;
     _frameTasks := _frameTasks fr; _parentFrame := v; _url := _url fr;
     _detached := _detached fr; _contextData := _contextData fr;
     _childFrames := _childFrames fr; _name := _name fr;
     _inflightRequests := _inflightRequests fr;
     _networkIdleTimer := _networkIdleTimer fr; _detachedPromise := _detachedPromise fr |}.

Definition set_url (v : string) (fr : Frame) : Frame :=
  {| _id := _id fr; _firedLifecycleEvents := _firedLifecycleEvents fr;
     _lastDocumentId := _lastDocumentId fr; _pendingDocumentId := _pendingDocumentId fr;
     _frameTasks := _frameTasks fr; _parentFrame := _parentFrame fr; _url := v;
     _detached := _detached fr; _contextData := _contextData fr;
     _childFrames := _childFrames fr; _name := _name fr;
     _inflightRequests := _inflightRequests fr;
     _networkIdleTimer := _networkIdleTimer fr; _detachedPromise := _detachedPromise fr |}.

Definition set_detached (v : bool) (fr : Frame) : Frame :=
  {| _id := _id fr; _firedLifecycleEvents := _firedLifecycleEvents fr;
     _lastDocumentId := _lastDocumentId fr; _pendingDocumentId := _pendingDocumentId fr;
     _frameTasks := _frameTasks fr; _parentFrame := _parentFrame fr; _url := _url fr;
     _detached := v; _contextData := _contextData fr;
     _childFrames := _childFrames fr; _name := _name fr;
     _inflightRequests := _inflightRequests fr;
     _networkIdleTimer := _networkIdleTimer fr; _detachedPromise := _detachedPromise fr |}.

Definition set_contextData (ty : ContextType) (d : ContextData) (fr : Frame) : Frame :=
  {| _id := _id fr; _firedLifecycleEvents := _firedLifecycleEvents fr;
     _lastDocumentId := _lastDocumentId fr; _pendingDocumentId := _pendingDocumentId fr;
     _frameTasks := _frameTasks fr; _parentFrame := _parentFrame fr; _url := _url fr;
     _detached := _detached fr;
     _contextData :=
       (let m := match ty with main => d | utility => _contextData fr main end in
        let u := match ty with main => _contextData fr utility | utility => d end in
        λ ty', match ty' with main => m | utility => u end);
     _childFrames := _childFrames fr; _name := _name fr;
     _inflightRequests := _inflightRequests fr;
     _networkIdleTimer := _networkIdleTimer fr; _detachedPromise := _detachedPromise fr |}.

Definition set_childFrames (g : list nat → list nat) (fr : Frame) : Frame :=
  {| _id := _id fr; _firedLifecycleEvents := _firedLifecycleEvents fr;
     _lastDocumentId := _lastDocumentId fr; _pendingDocumentId := _pendingDocumentId fr;
     _frameTasks := _frameTasks fr; _parentFrame := _parentFrame fr; _url := _url fr;
     _detached := _detached fr; _contextData := _contextData fr;
     _childFrames := g (_childFrames fr); _name := _name fr;
     _inflightRequests := _inflightRequests fr;
     _networkIdleTimer := _networkIdleTimer fr; _detachedPromise := _detachedPromise fr |}.

Definition set_name (v : string) (fr : Frame) : Frame :=
  {| _id := _id fr; _firedLifecycleEvents := _firedLifecycleEvents fr;
     _lastDocumentId := _lastDocumentId fr; _pendingDocumentId := _pendingDocumentId fr;
     _frameTasks := _frameTasks fr; _parentFrame := _parentFrame fr; _url := _url fr;
     _detached := _detached fr; _contextData := _contextData fr;
     _childFrames := _childFrames fr; _name := v;
     _inflightRequests := _inflightRequests fr;
     _networkIdleTimer := _networkIdleTimer fr; _detachedPromise := _detachedPromise fr |}.

Definition set_inflightRequests (g : list Request → list Request) (fr : Frame) : Frame :=
  {| _id := _id fr; _firedLifecycleEvents := _firedLifecycleEvents fr;
     _lastDocumentId := _lastDocumentId fr; _pendingDocumentId := _pendingDocumentId fr;
     _frameTasks := _frameTasks fr; _parentFrame := _parentFrame fr; _url := _url fr;
     _detached := _detached fr; _contextData := _contextData fr;
     _childFrames := _childFrames fr; _name := _name fr;
     _inflightRequests := g (_inflightRequests fr);
     _networkIdleTimer := _networkIdleTimer fr; _detachedPromise := _detachedPromise fr |}.

Definition set_networkIdleTimer (v : option nat) (fr : Frame) : Frame :=
  {| _id := _id fr; _firedLifecycleEvents := _firedLifecycleEvents fr;
     _lastDocumentId := _lastDocumentId fr; _pendingDocumentId := _pendingDocumentId fr;
     _frameTasks := _frameTasks fr; _parentFrame := _parentFrame fr; _url := _url fr;
     _detached := _detached fr; _contextData := _contextData fr;
     _childFrames := _childFrames fr; _name := _name fr;
     _inflightRequests := _inflightRequests fr;
     _networkIdleTimer := v; _detachedPromise := _detachedPromise fr |}.

Definition set_protectCount (v : Z) (b : SignalBarrier) : SignalBarrier :=
  {| barrier_progress := barrier_progress b; _protectCount := v; _promise := _promise b |}.

Definition set_requestMap (g : gmap string Request → gmap string Request) (t : FrameTask) : FrameTask :=
  {| _frame := _frame t; _requestMap := g (_requestMap t); _progress := _progress t;
     _onSameDocument := _onSameDocument t; _onSpecificDocument := _onSpecificDocument t;
     _onNewDocument := _onNewDocument t; _onLifecycle := _onLifecycle t |}.

Definition set_onSameDocument (v : option (option URLMatch * nat)) (t : FrameTask) : FrameTask :=
  {| _frame := _frame t; _requestMap := _requestMap t; _progress := _progress t;
     _onSameDocument := v; _onSpecificDocument := _onSpecificDocument t;
     _onNewDocument := _onNewDocument t; _onLifecycle := _onLifecycle t |}.

Definition set_onSpecificDocument (v : option (string * nat)) (t : FrameTask) : FrameTask :=
  {| _frame := _frame t; _requestMap := _requestMap t; _progress := _progress t;
     _onSameDocument := _onSameDocument t; _onSpecificDocument := v;
     _onNewDocument := _onNewDocument t; _onLifecycle := _onLifecycle t |}.

Definition set_onNewDocument (v : option (option URLMatch * nat)) (t : FrameTask) : FrameTask :=
  {| _frame := _frame t; _requestMap := _requestMap t; _progress := _progress t;
     _onSameDocument := _onSameDocument t; _onSpecificDocument := _onSpecificDocument t;
     _onNewDocument := v; _onLifecycle := _onLifecycle t |}.

Definition set_onLifecycle (v : option (string * nat)) (t : FrameTask) : FrameTask :=
  {| _frame := _frame t; _requestMap := _requestMap t; _progress := _progress t;
     _onSameDocument := _onSameDocument t; _onSpecificDocument := _onSpecificDocument t;
     _onNewDocument := _onNewDocument t; _onLifecycle := v |}.

Definition set_status (v : TimerStatus) (t : Timer) : Timer :=
  {| callback := callback t; due := due t; status := v |}.

Definition with_frames (g : gmap string nat → gmap string nat) (w : World) : World :=
  {| _frames := g (_frames w); _mainFrame := _mainFrame w; _signalBarriers := _signalBarriers w;
     frameStore := frameStore w; taskStore := taskStore w; rerunnableStore := rerunnableStore w;
     barrierStore := barrierStore w; voidPromises := voidPromises w;
     documentPromises := documentPromises w; contextPromises := contextPromises w;
     handlePromises := handlePromises w; timers := timers w; now := now w;
     _disconnectedPromise := _disconnectedPromise w; effects := effects w |}.

Definition with_mainFrame (v : option nat) (w : World) : World :=
  {| _frames := _frames w; _mainFrame := v; _signalBarriers := _signalBarriers w;
     frameStore := frameStore w; taskStore := taskStore w; rerunnableStore := rerunnableStore w;
     barrierStore := barrierStore w; voidPromises := voidPromises w;
     documentPromises := documentPromises w; contextPromises := contextPromises w;
     handlePromises := handlePromises w; timers := timers w; now := now w;
     _disconnectedPromise := _disconnectedPromise w; effects := effects w |}.

Definition with_signalBarriers (g : list nat → list nat) (w : World) : World :=
  {| _frames := _frames w; _mainFrame := _mainFrame w; _signalBarriers := g (_signalBarriers w);
     frameStore := frameStore w; taskStore := taskStore w; rerunnableStore := rerunnableStore w;
     barrierStore := barrierStore w; voidPromises := voidPromises w;
     documentPromises := documentPromises w; contextPromises := contextPromises w;
     handlePromises := handlePromises w; timers := timers w; now := now w;
     _disconnectedPromise := _disconnectedPromise w; effects := effects w |}.

Definition with_frameStore (g : list Frame → list Frame) (w : World) : World :=
  {| _frames := _frames w; _mainFrame := _mainFrame w; _signalBarriers := _signalBarriers w;
     frameStore := g (frameStore w); taskStore := taskStore w; rerunnableStore := rerunnableStore w;
     barrierStore := barrierStore w; voidPromises := voidPromises w;
     documentPromises := documentPromises w; contextPromises := contextPromises w;
     handlePromises := handlePromises w; timers := timers w; now := now w;
     _disconnectedPromise := _disconnectedPromise w; effects := effects w |}.

Definition with_taskStore (g : list FrameTask → list FrameTask) (w : World) : World :=
  {| _frames := _frames w; _mainFrame := _mainFrame w; _signalBarriers := _signalBarriers w;
     frameStore := frameStore w; taskStore := g (taskStore w); rerunnableStore := rerunnableStore w;
     barrierStore := barrierStore w; voidPromises := voidPromises w;
     documentPromises := documentPromises w; contextPromises := contextPromises w;
     handlePromises := handlePromises w; timers := timers w; now := now w;
     _disconnectedPromise := _disconnectedPromise w; effects := effects w |}.

Definition with_rerunnableStore (g : list RerunnableTask → list RerunnableTask) (w : World) : World :=
  {| _frames := _frames w; _mainFrame := _mainFrame w; _signalBarriers := _signalBarriers w;
     frameStore := frameStore w; taskStore := taskStore w; rerunnableStore := g (rerunnableStore w);
     barrierStore := barrierStore w; voidPromises := voidPromises w;
     documentPromises := documentPromises w; contextPromises := contextPromises w;
     handlePromises := handlePromises w; timers := timers w; now := now w;
     _disconnectedPromise := _disconnectedPromise w; effects := effects w |}.

Definition with_barrierStore (g : list SignalBarrier → list SignalBarrier) (w : World) : World :=
  {| _frames := _frames w; _mainFrame := _mainFrame w; _signalBarriers := _signalBarriers w;
     frameStore := frameStore w; taskStore := taskStore w; rerunnableStore := rerunnableStore w;
     barrierStore := g (barrierStore w); voidPromises := voidPromises w;
     documentPromises := documentPromises w; contextPromises := contextPromises w;
     handlePromises := handlePromises w; timers := timers w; now := now w;
     _disconnectedPromise := _disconnectedPromise w; effects := effects w |}.

Definition with_voidPromises (h : list (PromiseState unit)) (w : World) : World :=
  {| _frames := _frames w; _mainFrame := _mainFrame w; _signalBarriers := _signalBarriers w;
     frameStore := frameStore w; taskStore := taskStore w; rerunnableStore := rerunnableStore w;
     barrierStore := barrierStore w; voidPromises := h;
     documentPromises := documentPromises w; contextPromises := contextPromises w;
     handlePromises := handlePromises w; timers := timers w; now := now w;
     _disconnectedPromise := _disconnectedPromise w; effects := effects w |}.

Definition with_documentPromises (h : list (PromiseState string)) (w : World) : World :=
  {| _frames := _frames w; _mainFrame := _mainFrame w; _signalBarriers := _signalBarriers w;
     frameStore := frameStore w; taskStore := taskStore w; rerunnableStore := rerunnableStore w;
     barrierStore := barrierStore w; voidPromises := voidPromises w;
     documentPromises := h; contextPromises := contextPromises w;
     handlePromises := handlePromises w; timers := timers w; now := now w;
     _disconnectedPromise := _disconnectedPromise w; effects := effects w |}.

Definition with_contextPromises (h : list (PromiseState Context)) (w : World) : World :=
  {| _frames := _frames w; _mainFrame := _mainFrame w; _signalBarriers := _signalBarriers w;
     frameStore := frameStore w; taskStore := taskStore w; rerunnableStore := rerunnableStore w;
     barrierStore := barrierStore w; voidPromises := voidPromises w;
     documentPromises := documentPromises w; contextPromises := h;
     handlePromises := handlePromises w; timers := timers w; now := now w;
     _disconnectedPromise := _disconnectedPromise w; effects := effects w |}.

Definition with_handlePromises (h : list (PromiseState Handle)) (w : World) : World :=
  {| _frames := _frames w; _mainFrame := _mainFrame w; _signalBarriers := _signalBarriers w;
     frameStore := frameStore w; taskStore := taskStore w; rerunnableStore := rerunnableStore w;
     barrierStore := barrierStore w; voidPromises := voidPromises w;
     documentPromises := documentPromises w; contextPromises := contextPromises w;
     handlePromises := h; timers := timers w; now := now w;
     _disconnectedPromise := _disconnectedPromise w; effects := effects w |}.

Definition with_timers (g : list Timer → list Timer) (w : World) : World :=
  {| _frames := _frames w; _mainFrame := _mainFrame w; _signalBarriers := _signalBarriers w;
     frameStore := frameStore w; taskStore := taskStore w; rerunnableStore := rerunnableStore w;
     barrierStore := barrierStore w; voidPromises := voidPromises w;
     documentPromises := documentPromises w; contextPromises := contextPromises w;
     handlePromises := handlePromises w; timers := g (timers w); now := now w;
     _disconnectedPromise := _disconnectedPromise w; effects := effects w |}.

Definition with_now (v : Z) (w : World) : World :=
  {| _frames := _frames w; _mainFrame := _mainFrame w; _signalBarriers := _signalBarriers w;
     frameStore := frameStore w; taskStore := taskStore w; rerunnableStore := rerunnableStore w;
     barrierStore := barrierStore w; voidPromises := voidPromises w;
     documentPromises := documentPromises w; contextPromises := contextPromises w;
     handlePromises := handlePromises w; timers := timers w; now := v;
     _disconnectedPromise := _disconnectedPromise w; effects := effects w |}.

Definition with_effects (g : list Effect → list Effect) (w : World) : World :=
  {| _frames := _frames w; _mainFrame := _mainFrame w; _signalBarriers := _signalBarriers w;
     frameStore := frameStore w; taskStore := taskStore w; rerunnableStore := rerunnableStore w;
     barrierStore := barrierStore w; voidPromises := voidPromises w;
     documentPromises := documentPromises w; contextPromises := contextPromises w;
     handlePromises := handlePromises w; timers := timers w; now := now w;
     _disconnectedPromise := _disconnectedPromise w; effects := g (effects w) |}.

(** ** The monad of methods: state and exceptions *)

Inductive Result (A : Type) : Type :=
| Ok (a : A) (w : World)
| Throw (e : Error) (w : World).
Arguments Ok {A} a w.
Arguments Throw {A} e w.

Definition M (A : Type) : Type := World → Result A.

#[global] Instance M_ret : MRet M := λ A a w, Ok a w.

#[global] Instance M_bind : MBind M := λ A B k m w,
  match m w with
  | Ok a w' => k a w'
  | Throw e w' => Throw e w'
  end.

Definition throw {A} (e : Error) : M A := λ w, Throw e w.

Definition get : M World := λ w, Ok w w.

Definition modify (g : World → World) : M unit := λ w, Ok tt (g w).

Definition world_of {A} (r : Result A) : World :=
  match r with
  | Ok _ w => w
  | Throw _ w => w
  end.

(** [for (const x of l) f(x)] over a snapshot of the collection. *)
Fixpoint forM_ {A} (l : list A) (f : A → M unit) : M unit :=
  match l with
  | [] => mret tt
  | x :: l => f x;; forM_ l f
  end.

Definition when (b : bool) (m : M unit) : M unit :=
  if b then m else mret tt.

(** Modelled from the spec: [helper.assert] is not in frames.ts; a failed
    assertion is an exception. *)
Definition AssertionError : Error := {| message := "Assertion error" |}.

Definition assert (b : bool) : M unit :=
  if b then mret tt else throw AssertionError.

(** Reading a property of [undefined]. *)
Definition TypeError : Error :=
  {| message := "Cannot read property of undefined" |}.

(** Unbounded recursion over a cyclic frame graph exhausts the stack. *)
Definition RangeError : Error :=
  {| message := "Maximum call stack size exceeded" |}.

Definition effect (e : Effect) : M unit :=
  modify (with_effects (λ l, l ++ [e])).

Definition emit (e : Events.Page) : M unit := effect (Emit e).

(** *** Object stores *)

Definition getFrame (frame : nat) : M Frame := λ w,
  match frameStore w !! frame with
  | Some fr => Ok fr w
  | None => Throw TypeError w
  end.

Definition updateFrame (frame : nat) (g : Frame → Frame) : M unit := λ w,
  match frameStore w !! frame with
  | Some fr => Ok tt (with_frameStore (λ s, <[frame := g fr]> s) w)
  | None => Throw TypeError w
  end.

Definition getTask (task : nat) : M FrameTask := λ w,
  match taskStore w !! task with
  | Some t => Ok t w
  | None => Throw TypeError w
  end.

Definition updateTask (task : nat) (g : FrameTask → FrameTask) : M unit := λ w,
  match taskStore w !! task with
  | Some t => Ok tt (with_taskStore (λ s, <[task := g t]> s) w)
  | None => Throw TypeError w
  end.

Definition getRerunnable (task : nat) : M RerunnableTask := λ w,
  match rerunnableStore w !! task with
  | Some t => Ok t w
  | None => Throw TypeError w
  end.

Definition getBarrier (barrier : nat) : M SignalBarrier := λ w,
  match barrierStore w !! barrier with
  | Some b => Ok b w
  | None => Throw TypeError w
  end.

Definition updateBarrier (barrier : nat) (g : SignalBarrier → SignalBarrier) : M unit := λ w,
  match barrierStore w !! barrier with
  | Some b => Ok tt (with_barrierStore (λ s, <[barrier := g b]> s) w)
  | None => Throw TypeError w
  end.

(** *** Promise heaps *)

Record PromiseHeap (T : Type) := {
  heap_get : World → list (PromiseState T);
  heap_set : list (PromiseState T) → World → World
}.
Arguments heap_get {T} _ _.
Arguments heap_set {T} _ _ _.

Definition Void : PromiseHeap unit :=
  {| heap_get := voidPromises; heap_set := with_voidPromises |}.
Definition Document : PromiseHeap string :=
  {| heap_get := documentPromises; heap_set := with_documentPromises |}.
Definition Contexts : PromiseHeap Context :=
  {| heap_get := contextPromises; heap_set := with_contextPromises |}.
Definition Handles : PromiseHeap Handle :=
  {| heap_get := handlePromises; heap_set := with_handlePromises |}.

(** [new Promise(...)]: a fresh promise in state [s]. *)
Definition newPromise {T} (H : PromiseHeap T) (s : PromiseState T) : M nat := λ w,
  Ok (length (heap_get H w)) (heap_set H (heap_get H w ++ [s]) w).

Definition resolve {T} (H : PromiseHeap T) (p : nat) (v : T) : M unit :=
  modify (λ w, heap_set H (Promise.settle p (Fulfilled v) (heap_get H w)) w).

Definition reject {T} (H : PromiseHeap T) (p : nat) (e : Error) : M unit :=
  modify (λ w, heap_set H (Promise.settle p (Rejected e) (heap_get H w)) w).

(** ** class FrameTask *)

Definition NavigationInterrupted : Error :=
  {| message := "Navigation interrupted by another one" |}.

Module FrameTask.

Definition new (frame : nat) (progress : option nat) : M nat :=
  task ← (λ w, Ok (length (taskStore w))
               (with_taskStore (λ s, s ++ [
                  {| _frame := frame; _requestMap := ∅; _progress := progress;
                     _onSameDocument := None; _onSpecificDocument := None;
                     _onNewDocument := None; _onLifecycle := None |}]) w));
  updateFrame frame (set_frameTasks (set_add task));;
  match progress with
  | Some p => effect (CleanupWhenAborted p (CleanupTaskDone task))
  | None => mret tt
  end;;
  mret task.

Definition onRequest (task : nat) (request : Request) : M unit :=
  match _documentId request with
  | Some documentId =>
      if negb (truthy (Some documentId)) || redirectedFrom request then mret tt
      else updateTask task (set_requestMap (λ m, <[documentId := request]> m))
  | None => mret tt
  end.

Definition request (task : nat) (documentId : string) : M (option Request) :=
  t ← getTask task;
  mret (_requestMap t !! documentId).

Definition onSameDocument (task : nat) : M unit :=
  t ← getTask task;
  match _progress t with
  | Some p =>
      fr ← getFrame (_frame t);
      effect (ProgressLog p ("navigated to " +:+ dq +:+ _url fr +:+ dq))
  | None => mret tt
  end;;
  match _onSameDocument t with
  | Some (url, p) =>
      fr ← getFrame (_frame t);
      when (urlMatches (_url fr) url) (resolve Void p tt)
  | None => mret tt
  end.

Definition onNewDocument (task : nat) (documentId : string) (error : option Error) : M unit :=
  t ← getTask task;
  match _progress t, error with
  | Some p, None =>
      fr ← getFrame (_frame t);
      effect (ProgressLog p ("navigated to " +:+ dq +:+ _url fr +:+ dq))
  | _, _ => mret tt
  end;;
  match _onSpecificDocument t with
  | Some (expectedDocumentId, p) =>
      if decide (documentId = expectedDocumentId) then
        match error with
        | Some e => reject Void p e
        | None => resolve Void p tt
        end
      else
        match error with
        | None => reject Void p NavigationInterrupted
        | Some _ => mret tt
        end
  | None => mret tt
  end;;
  match _onNewDocument t with
  | Some (url, p) =>
      match error with
      | Some e => reject Document p e
      | None =>
          fr ← getFrame (_frame t);
          when (urlMatches (_url fr) url) (resolve Document p documentId)
      end
  | None => mret tt
  end.

(** The recursion of the source is bounded here by [fuel]; running out of it
    is the stack overflow of an unbounded recursion. *)
Fixpoint checkLifecycle (fuel : nat) (store : list Frame) (frame : nat)
  (waitUntil : string) : Error + bool :=
  match fuel with
  | 0 => inl RangeError
  | S fuel =>
      match store !! frame with
      | None => inl TypeError
      | Some fr =>
          if negb (set_has waitUntil (_firedLifecycleEvents fr)) then inr false
          else
            (fix loop (children : list nat) : Error + bool :=
               match children with
               | [] => inr true
               | child :: children =>
                   match checkLifecycle fuel store child waitUntil with
                   | inr true => loop children
                   | r => r
                   end
               end) (_childFrames fr)
      end
  end.

Definition _checkLifecycleRecursively (frame : nat) (waitUntil : string) : M bool := λ w,
  match checkLifecycle (length (frameStore w)) (frameStore w) frame waitUntil with
  | inr b => Ok b w
  | inl e => Throw e w
  end.

Definition onLifecycle (task : nat) (frame : nat) (lifecycleEvent : string) : M unit :=
  t ← getTask task;
  match _progress t with
  | Some p =>
      if decide (frame = _frame t) then
        fr ← getFrame frame;
        when (negb (String.eqb (_url fr) "about:blank"))
          (effect (ProgressLog p (dq +:+ lifecycleEvent +:+ dq +:+ " event fired")))
      else mret tt
  | None => mret tt
  end;;
  match _onLifecycle t with
  | Some (waitUntil, p) =>
      b ← _checkLifecycleRecursively (_frame t) waitUntil;
      when b (resolve Void p tt)
  | None => mret tt
  end.

(** An exception thrown by the executor of [new Promise] rejects the new
    promise; this is what the [assert] of the three executors below does. *)
Definition waitForSameDocumentNavigation (task : nat) (url : option URLMatch) : M nat :=
  p ← newPromise Void Pending;
  t ← getTask task;
  match _onSameDocument t with
  | Some _ => reject Void p AssertionError
  | None => updateTask task (set_onSameDocument (Some (url, p)))
  end;;
  mret p.

Definition waitForSpecificDocument (task : nat) (expectedDocumentId : string) : M nat :=
  p ← newPromise Void Pending;
  t ← getTask task;
  match _onSpecificDocument t with
  | Some _ => reject Void p AssertionError
  | None => updateTask task (set_onSpecificDocument (Some (expectedDocumentId, p)))
  end;;
  mret p.

Definition waitForNewDocument (task : nat) (url : option URLMatch) : M nat :=
  p ← newPromise Document Pending;
  t ← getTask task;
  match _onNewDocument t with
  | Some _ => reject Document p AssertionError
  | None => updateTask task (set_onNewDocument (Some (url, p)))
  end;;
  mret p.

Definition waitForLifecycle (task : nat) (waitUntil : string) : M nat :=
  let waitUntil :=
    if decide (waitUntil = "networkidle0"%string) then "networkidle"%string else waitUntil in
  if negb (set_has waitUntil kLifecycleEvents) then
    throw {| message := "Unsupported waitUntil option " +:+ waitUntil |}
  else
    t ← getTask task;
    b ← _checkLifecycleRecursively (_frame t) waitUntil;
    if b : bool then (newPromise Void (Fulfilled tt) : M nat)
    else (
      p ← newPromise Void Pending;
      match _onLifecycle t with
      | Some _ => reject Void p AssertionError
      | None => updateTask task (set_onLifecycle (Some (waitUntil, p)))
      end;;
      mret p).

Definition done (task : nat) : M unit :=
  t ← getTask task;
  updateFrame (_frame t) (set_frameTasks (set_delete task)).

End FrameTask.

(** ** class RerunnableTask *)

(** What the awaits of [rerun] produced: the task builder failed, the poll
    failed after its handler was created, or the poll gave a result. *)
Inductive RerunOutcome :=
| TaskFailed (e : Error)
| PollFailed (e : Error)
| PollResult (result : Handle).

Module RerunnableTask.

Definition new (frame : nat) (contextType : ContextType) (progress : nat) (task : nat) : M nat :=
  p ← newPromise Handles Pending;
  t ← (λ w, Ok (length (rerunnableStore w))
            (with_rerunnableStore (λ s, s ++ [
               {| promise := p; _task := task; rerunnable_progress := progress |}]) w));
  fr ← getFrame frame;
  let data := _contextData fr contextType in
  updateFrame frame (set_contextData contextType
    {| contextPromise := contextPromise data;
       contextResolveCallback := contextResolveCallback data;
       context := context data;
       rerunnableTasks := set_add t (rerunnableTasks data) |});;
  mret t.

Definition terminate (task : nat) (error : Error) : M unit :=
  t ← getRerunnable task;
  reject Handles (promise t) error.

(** [rerun] up to its first await: the task builder is called with the
    context. *)
Definition rerun (task : nat) (context : Context) : M unit :=
  effect (TaskInvoked task context).

(** [rerun] after its awaits: the body of the [try] on a result, the
    [catch] on an error. *)
Definition rerun_settled (task : nat) (outcome : RerunOutcome) : M unit :=
  t ← getRerunnable task;
  match outcome with
  | PollResult result => resolve Handles (promise t) result
  | TaskFailed e | PollFailed e =>
      match outcome with
      | PollFailed _ => effect (PollCancelled task)
      | _ => mret tt
      end;;
      if includes (message e) "Execution context was destroyed" then mret tt
      else if includes (message e) "Cannot find context with specified id" then mret tt
      else reject Handles (promise t) e
  end.

End RerunnableTask.

(** ** class SignalBarrier *)

Module SignalBarrier.

Definition retain (barrier : nat) : M unit :=
  updateBarrier barrier (λ b, set_protectCount (_protectCount b + 1)%Z b).

Definition release (barrier : nat) : M unit :=
  updateBarrier barrier (λ b, set_protectCount (_protectCount b - 1)%Z b);;
  b ← getBarrier barrier;
  when (bool_decide (_protectCount b = 0%Z)) (resolve Void (_promise b) tt).

Definition new (progress : option nat) : M nat :=
  p ← newPromise Void Pending;
  barrier ← (λ w, Ok (length (barrierStore w))
                  (with_barrierStore (λ s, s ++ [
                     {| barrier_progress := progress; _protectCount := 0%Z; _promise := p |}]) w));
  retain barrier;;
  mret barrier.

Definition waitFor (barrier : nat) : M nat :=
  release barrier;;
  b ← getBarrier barrier;
  mret (_promise b).

(** [addFrameNavigation] up to its await: the race of the four promises is
    left to the scheduler. *)
Definition addFrameNavigation (barrier : nat) (frame : nat) : M unit :=
  retain barrier;;
  b ← getBarrier barrier;
  frameTask ← FrameTask.new frame (barrier_progress b);
  _ ← FrameTask.waitForNewDocument frameTask None;
  _ ← FrameTask.waitForSameDocumentNavigation frameTask None;
  effect (AwaitNavigation barrier frameTask).

(** [addFrameNavigation] after the race has settled. *)
Definition addFrameNavigation_settled (barrier : nat) (frameTask : nat) : M unit :=
  FrameTask.done frameTask;;
  release barrier.

End SignalBarrier.

(** ** Timers *)

Definition setTimeout (cb : TimerCallback) (delay : Z) : M nat := λ w,
  Ok (length (timers w))
     (with_timers (λ s, s ++ [{| callback := cb; due := (now w + delay)%Z; status := Scheduled |}]) w).

Definition clearedTimers (t : nat) (s : list Timer) : list Timer :=
  match s !! t with
  | Some tm => if decide (status tm = Scheduled) then <[t := set_status Cleared tm]> s else s
  | None => s
  end.

Definition clearTimeout (t : nat) : M unit :=
  modify (with_timers (clearedTimers t)).

(** An async function does not throw to its caller: an exception in its
    body rejects the promise it returned. *)
Definition async (m : M unit) : M unit := λ w,
  match m w with
  | Ok _ w' => Ok tt w'
  | Throw _ w' => Ok tt w'
  end.

(** ** class Frame *)

Definition FrameDetachedError : Error :=
  {| message := "waitForFunction failed: frame got detached." |}.

Definition DetachedFrameError (url : string) : Error :=
  {| message := "Execution Context is not available in detached frame " +:+ dq
                +:+ url +:+ dq +:+ " (are you trying to evaluate?)" |}.

Module Frame.

Definition updateContextData (frame : nat) (contextType : ContextType)
  (g : ContextData → ContextData) : M unit :=
  updateFrame frame (λ fr, set_contextData contextType (g (_contextData fr contextType)) fr).

Definition _setContext (frame : nat) (contextType : ContextType) (ctx : option Context) : M unit :=
  updateContextData frame contextType (λ data,
    {| contextPromise := contextPromise data;
       contextResolveCallback := contextResolveCallback data;
       context := ctx; rerunnableTasks := rerunnableTasks data |});;
  fr ← getFrame frame;
  let data := _contextData fr contextType in
  match ctx with
  | Some c =>
      match contextResolveCallback data with
      | Some p => resolve Contexts p c
      | None => mret tt
      end;;
      forM_ (rerunnableTasks data) (λ t, async (RerunnableTask.rerun t c))
  | None =>
      p ← newPromise Contexts Pending;
      updateContextData frame contextType (λ data,
        {| contextPromise := p; contextResolveCallback := Some p;
           context := context data; rerunnableTasks := rerunnableTasks data |})
  end.

Definition new (id : string) (parentFrame : option nat) : M nat :=
  detachedPromise ← newPromise Void Pending;
  pmain ← newPromise Contexts Pending;
  putility ← newPromise Contexts Pending;
  frame ← (λ w, Ok (length (frameStore w))
                (with_frameStore (λ s, s ++ [
                   {| _id := id; _firedLifecycleEvents := []; _lastDocumentId := "";
                      _pendingDocumentId := ""; _frameTasks := [];
                      _parentFrame := parentFrame; _url := ""; _detached := false;
                      _contextData := λ ty,
                        {| contextPromise := match ty with main => pmain | utility => putility end;
                           contextResolveCallback := None; context := None;
                           rerunnableTasks := [] |};
                      _childFrames := []; _name := ""; _inflightRequests := [];
                      _networkIdleTimer := None; _detachedPromise := detachedPromise |}]) w));
  _setContext frame main None;;
  _setContext frame utility None;;
  match parentFrame with
  | Some parent => updateFrame parent (set_childFrames (set_add frame))
  | None => mret tt
  end;;
  mret frame.

Definition url (frame : nat) : M string :=
  fr ← getFrame frame; mret (_url fr).

Definition parentFrame (frame : nat) : M (option nat) :=
  fr ← getFrame frame; mret (_parentFrame fr).

Definition childFrames (frame : nat) : M (list nat) :=
  fr ← getFrame frame; mret (_childFrames fr).

Definition isDetached (frame : nat) : M bool :=
  fr ← getFrame frame; mret (_detached fr).

Definition _context (frame : nat) (contextType : ContextType) : M nat :=
  fr ← getFrame frame;
  if _detached fr then throw (DetachedFrameError (_url fr))
  else mret (contextPromise (_contextData fr contextType)).

Definition _onDetached (frame : nat) : M unit :=
  updateFrame frame (set_detached true);;
  fr ← getFrame frame;
  resolve Void (_detachedPromise fr) tt;;
  forM_ [main; utility] (λ ty,
    forM_ (rerunnableTasks (_contextData fr ty)) (λ rerunnableTask,
      RerunnableTask.terminate rerunnableTask FrameDetachedError));;
  match _parentFrame fr with
  | Some parent => updateFrame parent (set_childFrames (set_delete frame))
  | None => mret tt
  end;;
  updateFrame frame (set_parentFrame None).

Definition _scheduleRerunnableTask (frame : nat) (progress : nat)
  (contextType : ContextType) (task : nat) : M nat :=
  rerunnableTask ← RerunnableTask.new frame contextType progress task;
  fr ← getFrame frame;
  match context (_contextData fr contextType) with
  | Some c => async (RerunnableTask.rerun rerunnableTask c)
  | None => mret tt
  end;;
  t ← getRerunnable rerunnableTask;
  mret (promise t).

Definition _contextCreated (frame : nat) (contextType : ContextType) (ctx : Context) : M unit :=
  fr ← getFrame frame;
  match context (_contextData fr contextType) with
  | Some _ => _setContext frame contextType None
  | None => mret tt
  end;;
  _setContext frame contextType (Some ctx).

Definition _contextDestroyed (frame : nat) (ctx : Context) : M unit :=
  forM_ [main; utility] (λ contextType,
    fr ← getFrame frame;
    if decide (context (_contextData fr contextType) = Some ctx)
    then _setContext frame contextType None
    else mret tt).

Definition _startNetworkIdleTimer (frame : nat) : M unit :=
  fr ← getFrame frame;
  assert (negb (bool_decide (is_Some (_networkIdleTimer fr))));;
  if set_has "networkidle"%string (_firedLifecycleEvents fr) then mret tt
  else
    t ← setTimeout (NetworkIdleCallback frame) 500;
    updateFrame frame (set_networkIdleTimer (Some t)).

Definition _stopNetworkIdleTimer (frame : nat) : M unit :=
  fr ← getFrame frame;
  match _networkIdleTimer fr with
  | Some t => clearTimeout t
  | None => mret tt
  end;;
  updateFrame frame (set_networkIdleTimer None).

(** [_waitForLoadState] up to its await: the frame task and the promise of
    [waitForLifecycle]; an exception rejects the promise of the async
    function before [done] is reached. *)
Definition _waitForLoadState (frame : nat) (progress : nat) (state : string) : M (nat * nat) :=
  frameTask ← FrameTask.new frame (Some progress);
  p ← FrameTask.waitForLifecycle frameTask state;
  mret (frameTask, p).

(** [_waitForLoadState] once the awaited promise is fulfilled. *)
Definition _waitForLoadState_settled (frameTask : nat) : M unit :=
  FrameTask.done frameTask.

End Frame.

(** ** class FrameManager *)

(** A loop or recursion that the source leaves unbounded is bounded by the
    number of frame objects; a parent is constructed before its children, so
    no chain of parents or children is longer than that. *)
Definition Diverges : Error := {| message := "does not terminate" |}.

(** The part of [ConsoleMessage] that frames.ts reads, and the handlers of
    [_consoleMessageTags]. *)
Record ConsoleMessage := {
  message_type : string;
  message_text : string
}.

Definition ConsoleTagHandler := M unit.

Module FrameManager.

(** [new FrameManager(page)], together with the page's
    [_disconnectedPromise]. *)
Definition new : World :=
  {| _frames := ∅; _mainFrame := None; _signalBarriers := [];
     frameStore := []; taskStore := []; rerunnableStore := []; barrierStore := [];
     voidPromises := [Pending]; documentPromises := []; contextPromises := [];
     handlePromises := []; timers := []; now := 0%Z;
     _disconnectedPromise := 0; effects := [] |}.

Definition mainFrame : M (option nat) :=
  w ← get; mret (_mainFrame w).

Definition frame (frameId : string) : M (option nat) :=
  w ← get; mret (_frames w !! frameId).

Definition frameAttached (frameId : string) (parentFrameId : option string) : M nat :=
  w ← get;
  let parentFrame :=
    match parentFrameId with
    | Some id => if truthy parentFrameId then _frames w !! id else None
    | None => None
    end in
  match parentFrame with
  | None =>
      match _mainFrame w with
      | Some mainFrame =>
          fr ← getFrame mainFrame;
          modify (with_frames (delete (_id fr)));;
          updateFrame mainFrame (set_id frameId)
      | None =>
          assert (negb (bool_decide (is_Some (_frames w !! frameId))));;
          f ← Frame.new frameId None;
          modify (with_mainFrame (Some f))
      end;;
      w ← get;
      match _mainFrame w with
      | Some mainFrame =>
          modify (with_frames (<[frameId := mainFrame]>));;
          mret mainFrame
      | None => throw TypeError
      end
  | Some parentFrame =>
      assert (negb (bool_decide (is_Some (_frames w !! frameId))));;
      f ← Frame.new frameId (Some parentFrame);
      modify (with_frames (<[frameId := f]>));;
      emit (Events.FrameAttached f);;
      mret f
  end.

Definition frameWillPotentiallyRequestNavigation : M unit :=
  w ← get;
  forM_ (_signalBarriers w) SignalBarrier.retain.

Definition frameDidPotentiallyRequestNavigation : M unit :=
  w ← get;
  forM_ (_signalBarriers w) SignalBarrier.release.

Definition frameRequestedNavigation (frameId documentId : string) : M unit :=
  w ← get;
  match _frames w !! frameId with
  | None => mret tt
  | Some frame =>
      forM_ (_signalBarriers w) (λ barrier,
        async (SignalBarrier.addFrameNavigation barrier frame));;
      updateFrame frame (set_pendingDocumentId documentId)
  end.

Definition frameUpdatedDocumentIdForNavigation (frameId documentId : string) : M unit :=
  w ← get;
  match _frames w !! frameId with
  | None => mret tt
  | Some frame => updateFrame frame (set_pendingDocumentId documentId)
  end.

Fixpoint _removeFramesRecursively_fuel (fuel : nat) (frame : nat) : M unit :=
  match fuel with
  | 0 => throw RangeError
  | S fuel =>
      children ← Frame.childFrames frame;
      forM_ children (_removeFramesRecursively_fuel fuel);;
      Frame._onDetached frame;;
      fr ← getFrame frame;
      modify (with_frames (delete (_id fr)));;
      emit (Events.FrameDetached frame)
  end.

Definition _removeFramesRecursively (frame : nat) : M unit :=
  w ← get;
  _removeFramesRecursively_fuel (length (frameStore w)) frame.

Definition removeChildFramesRecursively (frame : nat) : M unit :=
  children ← Frame.childFrames frame;
  forM_ children _removeFramesRecursively.

Definition _inflightRequestFinished (request : Request) : M unit :=
  let frame := request_frame request in
  if _isFavicon request then mret tt
  else
    fr ← getFrame frame;
    if negb (set_has request (_inflightRequests fr)) then mret tt
    else
      updateFrame frame (set_inflightRequests (set_delete request));;
      fr ← getFrame frame;
      when (bool_decide (length (_inflightRequests fr) = 0)) (Frame._startNetworkIdleTimer frame).

Definition _inflightRequestStarted (request : Request) : M unit :=
  let frame := request_frame request in
  if _isFavicon request then mret tt
  else
    updateFrame frame (set_inflightRequests (set_add request));;
    fr ← getFrame frame;
    when (bool_decide (length (_inflightRequests fr) = 1)) (Frame._stopNetworkIdleTimer frame).

Definition clearFrameLifecycle (frame : nat) : M unit :=
  updateFrame frame (set_firedLifecycleEvents (λ _, []));;
  updateFrame frame (λ fr, set_inflightRequests
    (filter (λ request, _documentId request = Some (_lastDocumentId fr))) fr);;
  Frame._stopNetworkIdleTimer frame;;
  fr ← getFrame frame;
  when (bool_decide (length (_inflightRequests fr) = 0)) (Frame._startNetworkIdleTimer frame).

Fixpoint notifyLifecycle_loop (fuel : nat) (parent : option nat) (frame : nat)
  (lifecycleEvent : string) : M unit :=
  match parent with
  | None => mret tt
  | Some p =>
      match fuel with
      | 0 => throw Diverges
      | S fuel =>
          fr ← getFrame p;
          forM_ (_frameTasks fr) (λ frameTask,
            FrameTask.onLifecycle frameTask frame lifecycleEvent);;
          next ← Frame.parentFrame p;
          notifyLifecycle_loop fuel next frame lifecycleEvent
      end
  end.

Definition _notifyLifecycle (frame : nat) (lifecycleEvent : string) : M unit :=
  w ← get;
  notifyLifecycle_loop (length (frameStore w)) (Some frame) frame lifecycleEvent.

Definition frameLifecycleEvent (frameId : string) (event : string) : M unit :=
  w ← get;
  match _frames w !! frameId with
  | None => mret tt
  | Some frame =>
      fr ← getFrame frame;
      if set_has event (_firedLifecycleEvents fr) then mret tt
      else
        updateFrame frame (set_firedLifecycleEvents (set_add event));;
        _notifyLifecycle frame event;;
        when (bool_decide (Some frame = _mainFrame w ∧ event = "load"%string))
          (emit Events.Load);;
        when (bool_decide (Some frame = _mainFrame w ∧ event = "domcontentloaded"%string))
          (emit Events.DOMContentLoaded)
  end.

Definition frameStoppedLoading (frameId : string) : M unit :=
  frameLifecycleEvent frameId "domcontentloaded";;
  frameLifecycleEvent frameId "load".

(** Modelled from the spec: [debugAssert] is not in frames.ts; a mismatch of
    the pending and the committed document id is expected but not
    guaranteed, and the commit goes on. *)
Definition debugAssert (b : bool) : M unit := mret tt.

Definition frameCommittedNewDocumentNavigation (frameId url name documentId : string)
  (initial : bool) : M unit :=
  w ← get;
  match _frames w !! frameId with
  | None => throw TypeError
  | Some frame =>
      removeChildFramesRecursively frame;;
      updateFrame frame (set_url url);;
      updateFrame frame (set_name name);;
      fr ← getFrame frame;
      debugAssert (negb (truthy (Some (_pendingDocumentId fr)))
                   || bool_decide (_pendingDocumentId fr = documentId));;
      updateFrame frame (set_lastDocumentId documentId);;
      updateFrame frame (set_pendingDocumentId "");;
      forM_ (_frameTasks fr) (λ task, FrameTask.onNewDocument task documentId None);;
      clearFrameLifecycle frame;;
      when (negb initial) (emit (Events.FrameNavigated frame))
  end.

Definition frameCommittedSameDocumentNavigation (frameId url : string) : M unit :=
  w ← get;
  match _frames w !! frameId with
  | None => mret tt
  | Some frame =>
      updateFrame frame (set_url url);;
      fr ← getFrame frame;
      forM_ (_frameTasks fr) FrameTask.onSameDocument;;
      emit (Events.FrameNavigated frame)
  end.

Definition frameDetached (frameId : string) : M unit :=
  w ← get;
  match _frames w !! frameId with
  | Some frame => _removeFramesRecursively frame
  | None => mret tt
  end.

Definition requestStarted (request : Request) : M unit :=
  _inflightRequestStarted request;;
  fr ← getFrame (request_frame request);
  forM_ (_frameTasks fr) (λ task, FrameTask.onRequest task request);;
  if _isFavicon request then when (_route request) (effect (RouteContinue request))
  else effect (PageRequestStarted request).

Definition requestReceivedResponse (request : Request) : M unit :=
  when (negb (_isFavicon request)) (emit (Events.Response request)).

Definition requestFinished (request : Request) : M unit :=
  _inflightRequestFinished request;;
  when (negb (_isFavicon request)) (emit (Events.RequestFinished request)).

Definition requestFailed (request : Request) (canceled : bool) : M unit :=
  _inflightRequestFinished request;;
  match _documentId request with
  | Some documentId =>
      if truthy (Some documentId) then
        fr ← getFrame (request_frame request);
        if decide (_pendingDocumentId fr = documentId) then
          updateFrame (request_frame request) (set_pendingDocumentId "");;
          match failure_errorText request with
          | None => throw TypeError
          | Some errorText =>
              let errorText :=
                if canceled then errorText +:+ "; maybe frame was detached?" else errorText in
              forM_ (_frameTasks fr) (λ task,
                FrameTask.onNewDocument task documentId (Some {| message := errorText |}))
          end
        else mret tt
      else mret tt
  | None => mret tt
  end;;
  when (negb (_isFavicon request)) (emit (Events.RequestFailed request)).

Definition provisionalLoadFailed (frame : nat) (documentId error : string) : M unit :=
  fr ← getFrame frame;
  forM_ (_frameTasks fr) (λ task,
    FrameTask.onNewDocument task documentId (Some {| message := error |})).

(** [frames()]: the local function [collect] pushes the frame and then
    visits its children; the recursion is bounded by [fuel] as in
    [checkLifecycle]. *)
Fixpoint collect (fuel : nat) (store : list Frame) (frame : nat) (frames : list nat)
  : Error + list nat :=
  match fuel with
  | 0 => inl RangeError
  | S fuel =>
      match store !! frame with
      | None => inl TypeError
      | Some fr =>
          (fix loop (children : list nat) (frames : list nat) : Error + list nat :=
             match children with
             | [] => inr frames
             | subframe :: children =>
                 match collect fuel store subframe frames with
                 | inr frames => loop children frames
                 | inl e => inl e
                 end
             end) (_childFrames fr) (frames ++ [frame])
      end
  end.

Definition frames : M (list nat) := λ w,
  match _mainFrame w with
  | None => Throw TypeError w
  | Some mainFrame =>
      match collect (length (frameStore w)) (frameStore w) mainFrame [] with
      | inr frames => Ok frames w
      | inl e => Throw e w
      end
  end.

(** [waitForSignalsCreatedBy] up to the call of [action]: with noWaitAfter
    there is no barrier and the action is all that runs. *)
Definition waitForSignalsCreatedBy (progress : option nat) (noWaitAfter : bool)
  : M (option nat) :=
  if noWaitAfter then mret None
  else
    barrier ← SignalBarrier.new progress;
    modify (with_signalBarriers (set_add barrier));;
    match progress with
    | Some p => effect (CleanupWhenAborted p (CleanupBarrierDelete barrier))
    | None => mret tt
    end;;
    mret (Some barrier).

(** [waitForSignalsCreatedBy] once the action (and the input epilogue) has
    returned: the promise of [barrier.waitFor()] is awaited. *)
Definition waitForSignalsCreatedBy_acted (barrier : nat) : M nat :=
  SignalBarrier.waitFor barrier.

(** [waitForSignalsCreatedBy] once the barrier's promise is fulfilled. *)
Definition waitForSignalsCreatedBy_settled (barrier : nat) : M unit :=
  modify (with_signalBarriers (set_delete barrier)).

(** [interceptConsoleMessage]: the map [_consoleMessageTags] is passed in
    and handed back; a handler is a closure over the page. *)
Definition interceptConsoleMessage (message : ConsoleMessage)
  (_consoleMessageTags : gmap string ConsoleTagHandler)
  : World → Result bool * gmap string ConsoleTagHandler := λ w,
  if negb (String.eqb (message_type message) "debug") then (Ok false w, _consoleMessageTags)
  else
    let tag := message_text message in
    match _consoleMessageTags !! tag with
    | None => (Ok false w, _consoleMessageTags)
    | Some handler =>
        ((handler;; mret true) w, delete tag _consoleMessageTags)
    end.

End FrameManager.

(** The handler that [setContent] registers under its tag in
    [_consoleMessageTags]; [_waitForLoadState] is async, so an exception of
    its body does not reach the handler. *)
Definition setContent_handler (frame : nat) (progress : nat) (waitUntil : string) : M unit :=
  effect (ProgressLog progress "content written");;
  FrameManager.clearFrameLifecycle frame;;
  async (_ ← Frame._waitForLoadState frame progress waitUntil; mret tt).

(** ** The event loop: time and timers *)

Module EventLoop.

Definition advance (dt : Z) : M unit :=
  modify (λ w, with_now (now w + Z.max 0 dt)%Z w).

Definition timerDue (w : World) (t : nat) : bool :=
  match timers w !! t with
  | Some tm => bool_decide (status tm = Scheduled) && (due tm <=? now w)%Z
  | None => false
  end.

(** The callback of a scheduled timer runs once its delay has elapsed;
    [None] when the timer cannot fire. *)
Definition fireTimer (t : nat) (w : World) : option (Result unit) :=
  match timers w !! t with
  | Some tm =>
      if timerDue w t then
        Some ((modify (with_timers (<[t := set_status Fired tm]>));;
               match callback tm with
               | NetworkIdleCallback frame =>
                   fr ← getFrame frame;
                   FrameManager.frameLifecycleEvent (_id fr) "networkidle"
               end) w)
      else None
  | None => None
  end.

End EventLoop.

(** * Specification vocabulary *)

(** ** Running a method *)

(** The world a method leaves behind. *)
Definition exec {A} (m : M A) (w : World) : World := world_of (m w).

(** [preserves proj m]: whatever [m] does, and whether it returns or throws,
    the part [proj] of the world is afterwards as before. *)
Definition preserves {X A} (proj : World → X) (m : M A) : Prop :=
  ∀ w, proj (world_of (m w)) = proj w.

(** [hoare P m Q E]: a run of [m] that starts in a world with [P] ends, when
    it returns [a], in a world with [Q a] and, when it throws, in a world
    with [E]. *)
Definition hoare {A} (P : World → Prop) (m : M A) (Q : A → World → Prop)
  (E : World → Prop) : Prop :=
  ∀ w, P w → match m w with Ok a w' => Q a w' | Throw _ w' => E w' end.

(** [stable P m]: whether [m] returns or throws, [P] holds afterwards if it
    held before. *)
Definition stable {A} (P : World → Prop) (m : M A) : Prop :=
  hoare P m (λ _, P) P.

(** ** Signal barrier *)

Inductive BarrierOp := OpRetain | OpRelease.

Definition runOp (barrier : nat) (op : BarrierOp) : M unit :=
  match op with
  | OpRetain => SignalBarrier.retain barrier
  | OpRelease => SignalBarrier.release barrier
  end.

Fixpoint countAfter (c : Z) (ops : list BarrierOp) : Z :=
  match ops with
  | [] => c
  | OpRetain :: ops => countAfter (c + 1) ops
  | OpRelease :: ops => countAfter (c - 1) ops
  end.

(** Some release of the trace brought the count to zero. *)
Fixpoint releasedToZero (c : Z) (ops : list BarrierOp) : bool :=
  match ops with
  | [] => false
  | OpRetain :: ops => releasedToZero (c + 1) ops
  | OpRelease :: ops => bool_decide (c - 1 = 0)%Z || releasedToZero (c - 1) ops
  end.

Definition latch (w : World) (barrier : nat) : option (PromiseState unit) :=
  b ← barrierStore w !! barrier; voidPromises w !! _promise b.

Definition protectCount (w : World) (barrier : nat) : option Z :=
  _protectCount <$> barrierStore w !! barrier.

(** ** Frame tasks *)

(** What [onNewDocument] does to the promises of void type: only the
    specific-document waiter is concerned. *)
Definition specificOutcome (t : FrameTask) (documentId : string) (error : option Error)
  (h : list (PromiseState unit)) : list (PromiseState unit) :=
  match _onSpecificDocument t with
  | Some (expectedDocumentId, p) =>
      if decide (documentId = expectedDocumentId) then
        Promise.settle p (match error with Some e => Rejected e | None => Fulfilled tt end) h
      else
        match error with
        | None => Promise.settle p (Rejected NavigationInterrupted) h
        | Some _ => h
        end
  | None => h
  end.

(** The frame tree as the spec words it: the frame itself and, recursively,
    all descendant frames. *)
Inductive inSubtree (store : list Frame) : nat → nat → Prop :=
| inSubtree_self f : inSubtree store f f
| inSubtree_child f fr c g :
    store !! f = Some fr → c ∈ _childFrames fr → inSubtree store c g →
    inSubtree store f g.

Definition firedIn (store : list Frame) (event : string) (g : nat) : Prop :=
  ∃ fr, store !! g = Some fr ∧ event ∈ _firedLifecycleEvents fr.

Definition subtreeFired (store : list Frame) (frame : nat) (event : string) : Prop :=
  ∀ g, inSubtree store frame g → firedIn store event g.

(** A child frame is constructed after its parent: its reference is the
    larger one. *)
Definition childrenLater (store : list Frame) : Prop :=
  ∀ f fr c, store !! f = Some fr → c ∈ _childFrames fr → f < c ∧ c < length store.

Fixpoint childrenLaterFrom (n len : nat) (store : list Frame) : bool :=
  match store with
  | [] => true
  | fr :: store =>
      forallb (λ c, (n <? c) && (c <? len)) (_childFrames fr)
      && childrenLaterFrom (S n) len store
  end.

(** ** Rerunnable tasks *)

(** The handle promises after [terminate] has been called on every task of
    a list. *)
Definition terminateAll (store : list RerunnableTask) (tasks : list nat) (e : Error)
  (h : list (PromiseState Handle)) : list (PromiseState Handle) :=
  foldl (λ h t,
    match store !! t with
    | Some r => Promise.settle (promise r) (Rejected e) h
    | None => h
    end) h tasks.

(** ** The network-idle timer *)

Definition activeIn (ts : list Timer) (h : option nat) : bool :=
  match h with
  | Some t =>
      match ts !! t with
      | Some tm => bool_decide (status tm = Scheduled)
      | None => false
      end
  | None => false
  end.

(** The timer of the frame is running: its handle names a timer that is
    still scheduled. *)
Definition timerActive (w : World) (fr : Frame) : bool :=
  activeIn (timers w) (_networkIdleTimer fr).

Definition networkIdleFired (fr : Frame) : bool :=
  set_has "networkidle"%string (_firedLifecycleEvents fr).

(** The property of C4 on one frame. *)
Definition idleOk (w : World) (fr : Frame) : Prop :=
  timerActive w fr = true ↔ _inflightRequests fr = [] ∧ networkIdleFired fr = false.

(** Every scheduled timer of the frame is the one in its handle. *)
Definition ownsScheduled (ts : list Timer) (frame : nat) (h : option nat) : Prop :=
  ∀ t tm, ts !! t = Some tm → callback tm = NetworkIdleCallback frame →
          status tm = Scheduled → h = Some t.

(** The handle of a frame names a timer of that frame. *)
Definition ownsHandle (ts : list Timer) (frame : nat) (h : option nat) : Prop :=
  ∀ t, h = Some t → ∃ tm, ts !! t = Some tm ∧ callback tm = NetworkIdleCallback frame.

(** The bookkeeping of one frame is consistent: with requests in flight it
    has no timer handle, a scheduled timer of the frame is the one in its
    handle, and its handle names a timer of its own. *)
Definition bookOk (w : World) (frame : nat) (fr : Frame) : Prop :=
  (_inflightRequests fr ≠ [] → _networkIdleTimer fr = None) ∧
  ownsScheduled (timers w) frame (_networkIdleTimer fr) ∧
  ownsHandle (timers w) frame (_networkIdleTimer fr).

(** An attached frame with consistent bookkeeping: it is in the frame map
    under its id. *)
Definition idleBase (w : World) (frame : nat) (fr : Frame) : Prop :=
  frameStore w !! frame = Some fr ∧
  _frames w !! _id fr = Some frame ∧
  bookOk w frame fr.

(** The frame is as its constructor left it, as far as network idle goes:
    no request is in flight, networkidle has not fired, and no timer was
    ever started for it. *)
Definition untouched (w : World) (frame : nat) (fr : Frame) : Prop :=
  _inflightRequests fr = [] ∧ networkIdleFired fr = false ∧
  ∀ t tm, timers w !! t = Some tm → callback tm ≠ NetworkIdleCallback frame.

(** What holds of every frame between two events: its bookkeeping is
    consistent and, unless it is detached, it has the property of C4 or is
    still untouched. *)
Definition frameInv (w : World) (frame : nat) (fr : Frame) : Prop :=
  bookOk w frame fr ∧ (_detached fr = false → idleOk w fr ∨ untouched w frame fr).

Definition newTimer (w : World) (frame : nat) : Timer :=
  {| callback := NetworkIdleCallback frame; due := (now w + 500)%Z; status := Scheduled |}.

(** The timers after [_stopNetworkIdleTimer] on a frame with handle [h]. *)
Definition stoppedTimers (h : option nat) (ts : list Timer) : list Timer :=
  match h with
  | Some t => clearedTimers t ts
  | None => ts
  end.

Definition keptRequests (fr : Frame) : list Request :=
  filter (λ request, _documentId request = Some (_lastDocumentId fr)) (_inflightRequests fr).

Definition timerStarted (w w' : World) : Prop :=
  length (timers w') = S (length (timers w)).

(** The stores that hold frames and timers. *)
Definition storeView (w : World) : list Frame * list Timer * gmap string nat * Z :=
  (frameStore w, timers w, _frames w, now w).

(** The network-idle fields of a frame. *)
Definition idleFields (fr : Frame) : string * list Request * option nat * bool :=
  (_id fr, _inflightRequests fr, _networkIdleTimer fr, networkIdleFired fr).

(** All that the bookkeeping reads: of every frame its id, its requests in
    flight, its timer handle, whether networkidle has fired and whether it
    is detached; the timers; the frame map. *)
Definition bookFields (fr : Frame)
  : string * list Request * option nat * bool * bool :=
  (_id fr, _inflightRequests fr, _networkIdleTimer fr, networkIdleFired fr, _detached fr).

Definition pageView (w : World)
  : list (string * list Request * option nat * bool * bool) * list Timer * gmap string nat :=
  (bookFields <$> frameStore w, timers w, _frames w).

(** The timer handles of the frames together with the timers. *)
Definition handleView (w : World) : list (option nat) * list Timer :=
  (_networkIdleTimer <$> frameStore w, timers w).

(** The ids and timer handles of the frames together with the timers. *)
Definition detachView (w : World) : list (string * option nat) * list Timer :=
  ((λ fr, (_id fr, _networkIdleTimer fr)) <$> frameStore w, timers w).

(** ** The network-idle bookkeeping of the whole page *)

(** What holds of the page between two events: frame objects have distinct
    ids, the frame map leads from an id to the frame with that id, a frame
    that is not detached is in the frame map, a timer belongs to a frame
    that exists, and every frame has [frameInv]. *)
Record pageInv (w : World) : Prop := {
  inv_ids : ∀ f g frf frg,
    frameStore w !! f = Some frf → frameStore w !! g = Some frg →
    _id frf = _id frg → f = g;
  inv_map : ∀ frameId f,
    _frames w !! frameId = Some f →
    ∃ fr, frameStore w !! f = Some fr ∧ _id fr = frameId;
  inv_live : ∀ f fr,
    frameStore w !! f = Some fr → _detached fr = false → _frames w !! _id fr = Some f;
  inv_callbacks : ∀ t tm g,
    timers w !! t = Some tm → callback tm = NetworkIdleCallback g →
    g < length (frameStore w);
  inv_frames : ∀ f fr, frameStore w !! f = Some fr → frameInv w f fr
}.

(** The timers of a frame are the same in two lists. *)
Definition sameTimersOf (frame : nat) (ts ts' : list Timer) : Prop :=
  ∀ t tm, callback tm = NetworkIdleCallback frame →
          ts' !! t = Some tm ↔ ts !! t = Some tm.

(** Two lists of timers differ in timers of one frame only. *)
Definition onlyTimersOf (frame : nat) (ts ts' : list Timer) : Prop :=
  ∀ t tm, callback tm ≠ NetworkIdleCallback frame →
          ts' !! t = Some tm ↔ ts !! t = Some tm.

(** The frame is detached. *)
Definition detachedIn (w : World) (frame : nat) : Prop :=
  ∃ fr, frameStore w !! frame = Some fr ∧ _detached fr = true.

(** The world [w'] is [w] after frames were removed: ids, requests, handles,
    fired events and timers are as they were, detached frames stay
    detached, and an id that is gone from the frame map is that of a frame
    now detached. *)
Definition removed (w w' : World) : Prop :=
  length (frameStore w') = length (frameStore w) ∧
  timers w' = timers w ∧
  (∀ f fr', frameStore w' !! f = Some fr' →
     ∃ fr, frameStore w !! f = Some fr ∧ idleFields fr' = idleFields fr ∧
           (_detached fr = true → _detached fr' = true)) ∧
  (∀ frameId, _frames w' !! frameId = _frames w !! frameId ∨
     (_frames w' !! frameId = None ∧
      ∃ f fr', frameStore w' !! f = Some fr' ∧ _id fr' = frameId ∧ _detached fr' = true)).

(** ** The events of a page *)

(** The id was never given to a frame of this page. *)
Definition freshId (w : World) (frameId : string) : Prop :=
  ∀ f fr, frameStore w !! f = Some fr → _id fr ≠ frameId.

(** What the browser and the page deliver to the frame manager. *)
Inductive Event :=
| EFrameAttached (frameId : string) (parentFrameId : option string)
| EFrameDetached (frameId : string)
| ECommittedNewDocument (frameId url name documentId : string) (initial : bool)
| ECommittedSameDocument (frameId url : string)
| EWillPotentiallyRequestNavigation
| EDidPotentiallyRequestNavigation
| ERequestedNavigation (frameId documentId : string)
| EUpdatedDocumentId (frameId documentId : string)
| EStoppedLoading (frameId : string)
| ELifecycle (frameId event : string)
| EProvisionalLoadFailed (frame : nat) (documentId error : string)
| ERequestStarted (request : Request)
| ERequestReceivedResponse (request : Request)
| ERequestFinished (request : Request)
| ERequestFailed (request : Request) (canceled : bool)
| EClearFrameLifecycle (frame : nat)
| ETimePassed (dt : Z).

Definition dispatch (e : Event) : M unit :=
  match e with
  | EFrameAttached frameId parentFrameId =>
      _ ← FrameManager.frameAttached frameId parentFrameId; mret tt
  | EFrameDetached frameId => FrameManager.frameDetached frameId
  | ECommittedNewDocument frameId url name documentId initial =>
      FrameManager.frameCommittedNewDocumentNavigation frameId url name documentId initial
  | ECommittedSameDocument frameId url =>
      FrameManager.frameCommittedSameDocumentNavigation frameId url
  | EWillPotentiallyRequestNavigation => FrameManager.frameWillPotentiallyRequestNavigation
  | EDidPotentiallyRequestNavigation => FrameManager.frameDidPotentiallyRequestNavigation
  | ERequestedNavigation frameId documentId =>
      FrameManager.frameRequestedNavigation frameId documentId
  | EUpdatedDocumentId frameId documentId =>
      FrameManager.frameUpdatedDocumentIdForNavigation frameId documentId
  | EStoppedLoading frameId => FrameManager.frameStoppedLoading frameId
  | ELifecycle frameId event => FrameManager.frameLifecycleEvent frameId event
  | EProvisionalLoadFailed frame documentId error =>
      FrameManager.provisionalLoadFailed frame documentId error
  | ERequestStarted request => FrameManager.requestStarted request
  | ERequestReceivedResponse request => FrameManager.requestReceivedResponse request
  | ERequestFinished request => FrameManager.requestFinished request
  | ERequestFailed request canceled => FrameManager.requestFailed request canceled
  | EClearFrameLifecycle frame => FrameManager.clearFrameLifecycle frame
  | ETimePassed dt => EventLoop.advance dt
  end.

(** What is assumed of the browser: a frame id is not used twice, and
    networkidle is declared by the timer only. *)
Definition admissible (w : World) (e : Event) : Prop :=
  match e with
  | EFrameAttached frameId _ => freshId w frameId
  | ELifecycle _ event => event ≠ "networkidle"%string
  | _ => True
  end.

(** One step of the page: the handler of an event runs, and returns or
    throws; a timer fires; or any other call runs that leaves the
    bookkeeping as it is (waiting for a navigation, scheduling a task,
    creating or destroying a context). *)
Inductive pageStep : World → World → Prop :=
| step_event e w w' :
    admissible w e → exec (dispatch e) w = w' → pageStep w w'
| step_timer t w r :
    EventLoop.fireTimer t w = Some r → pageStep w (world_of r)
| step_call {A} (m : M A) w w' :
    preserves pageView m → exec m w = w' → pageStep w w'.

(** ** Concrete pages *)

(** The request of document D1 and a subresource request, both of frame 0. *)
Definition R1 : Request :=
  {| request_id := 1; request_frame := 0; _isFavicon := false; _documentId := Some "D1"%string;
     redirectedFrom := false; _route := false; failure_errorText := None |}.

Definition R2 : Request :=
  {| request_id := 2; request_frame := 0; _isFavicon := false; _documentId := None;
     redirectedFrom := false; _route := false; failure_errorText := None |}.

(** A page whose main frame has just been attached: frame 0. *)
Definition attached_page : World := Eval vm_compute in
  exec (FrameManager.frameAttached "main" None) FrameManager.new.

(** The main frame detached again. *)
Definition detached_page : World := Eval vm_compute in
  exec (FrameManager.frameDetached "main") attached_page.

(** The main world of the main frame holds execution context 7. *)
Definition context_page : World := Eval vm_compute in
  exec (Frame._contextCreated 0 main 7) attached_page.

(** A frame task on the main frame, and the same task waiting for D1. *)
Definition task_page : World := Eval vm_compute in
  exec (FrameTask.new 0 None) attached_page.

Definition waiting_page : World := Eval vm_compute in
  exec (FrameTask.waitForSpecificDocument 0 "D1") task_page.

(** A main frame that has fired load, with a child frame that has not, and a
    frame task on the main frame. *)
Definition tree_page : World := Eval vm_compute in
  exec (FrameTask.new 0 None)
    (exec (FrameManager.frameLifecycleEvent "main" "load")
      (exec (FrameManager.frameAttached "child" (Some "main"%string)) attached_page)).

(** A main frame with one rerunnable task waiting in the main world. *)
Definition polling_page : World := Eval vm_compute in
  exec (Frame._scheduleRerunnableTask 0 0 main 0) attached_page.

(** The main frame after its first new-document commit, and detached after
    that commit. *)
Definition committed_page : World := Eval vm_compute in
  exec (FrameManager.frameCommittedNewDocumentNavigation "main" "https://a/" "" "D1" true)
    attached_page.

Definition committed_detached_page : World := Eval vm_compute in
  exec (FrameManager.frameDetached "main") committed_page.

(** A goto that is answered with document D1: the task and its waiters. *)
Definition navigating : World := Eval vm_compute in
  exec (FrameTask.waitForSpecificDocument 0 "D1")
    (exec (FrameManager.requestStarted R1)
      (exec (FrameManager.frameRequestedNavigation "main" "D1")
        (exec (FrameTask.waitForSameDocumentNavigation 0 None)
          (exec (FrameTask.new 0 None) attached_page)))).

(** Network idle: the last request finishes at time 0. *)
Definition idle_pending : World := Eval vm_compute in
  exec (FrameManager.requestFinished R2)
    (exec (FrameManager.requestStarted R2) committed_page).

(** ** The frame tree *)

(** The frame object that [new Frame(page, id, parentFrame)] leaves behind
    in world [w]: nothing has fired, no document, no task, no request, and
    both context slots empty with a pending promise each. *)
Definition freshFrame (w : World) (id : string) (parentFrame : option nat) : Frame :=
  {| _id := id; _firedLifecycleEvents := []; _lastDocumentId := "";
     _pendingDocumentId := ""; _frameTasks := [];
     _parentFrame := parentFrame; _url := ""; _detached := false;
     _contextData := λ ty,
       match ty with
       | main =>
           {| contextPromise := length (contextPromises w) + 2;
              contextResolveCallback := Some (length (contextPromises w) + 2);
              context := None; rerunnableTasks := [] |}
       | utility =>
           {| contextPromise := length (contextPromises w) + 3;
              contextResolveCallback := Some (length (contextPromises w) + 3);
              context := None; rerunnableTasks := [] |}
       end;
     _childFrames := []; _name := ""; _inflightRequests := [];
     _networkIdleTimer := None; _detachedPromise := length (voidPromises w) |}.

(** The frame store after [_onDetached] on [frame]: the frame is marked
    detached, leaves the children of its parent and forgets the parent. *)
Definition detachedStore (frame : nat) (parentFrame : option nat) (s : list Frame)
  : list Frame :=
  alter (set_parentFrame None) frame
    (match parentFrame with
     | Some parent => alter (set_childFrames (set_delete frame)) parent
     | None => λ s, s
     end (alter (set_detached true) frame s)).

Definition isDetachedIn (s : list Frame) (g : nat) : bool :=
  match s !! g with
  | Some fr => _detached fr
  | None => false
  end.

(** The frame objects form a tree: a child was constructed after its parent
    and points back to it, a parent was constructed before the frame,
    rerunnable tasks exist, and a detached frame has neither children nor a
    parent. *)
Definition treeOk (w : World) : Prop :=
  ∀ f fr, frameStore w !! f = Some fr →
    (∀ c, c ∈ _childFrames fr →
       f < c ∧ ∃ cfr, frameStore w !! c = Some cfr ∧ _parentFrame cfr = Some f) ∧
    (∀ p, _parentFrame fr = Some p → p < f) ∧
    (∀ ty t, t ∈ rerunnableTasks (_contextData fr ty) → t < length (rerunnableStore w)) ∧
    (_detached fr = true → _childFrames fr = [] ∧ _parentFrame fr = None).

(** A frame object once the frames that are detached in [s'] have left the
    tree: the detached ones are gone from its children, and if it is
    detached itself it has no parent. *)
Definition afterDetach (s' : list Frame) (g : nat) (fr : Frame) : Frame :=
  let fr1 := set_childFrames (filter (λ c, isDetachedIn s' c = false)) fr in
  if isDetachedIn s' g then set_parentFrame None (set_detached true fr1) else fr1.

(** [w'] is [w] with more frames detached, and no other change to any frame
    object. *)
Definition detachedMore (w w' : World) : Prop :=
  rerunnableStore w' = rerunnableStore w ∧
  (∀ g, isDetachedIn (frameStore w) g = true → isDetachedIn (frameStore w') g = true) ∧
  ∀ g, frameStore w' !! g = afterDetach (frameStore w') g <$> frameStore w !! g.

Definition idOf (s : list Frame) (g : nat) : string :=
  match s !! g with
  | Some fr => _id fr
  | None => ""
  end.

(** What removing frames leaves alone. *)
Definition removalRest (w : World) :=
  (_mainFrame w, _signalBarriers w, taskStore w, barrierStore w, documentPromises w,
   contextPromises w, timers w, now w, _disconnectedPromise w).

(** [w'] is [w] after the subtrees of [roots] were removed, their frames
    visited in the order [order]: the visited frames are the ones that are
    newly detached, each lies below a root, and each lost its entry in the
    frame map and was announced as detached. *)
Record removedSubtrees (roots : list nat) (w w' : World) (order : list nat) : Prop := {
  rs_tree : treeOk w';
  rs_more : detachedMore w w';
  rs_effects :
    effects w' = effects w ++ map (λ g, Emit (Events.FrameDetached g)) order;
  rs_frames :
    _frames w' = foldl (λ m g, delete (idOf (frameStore w) g) m) (_frames w) order;
  rs_order : ∀ g, g ∈ order →
    (∃ r, r ∈ roots ∧ inSubtree (frameStore w) r g) ∧ isDetachedIn (frameStore w') g = true;
  rs_new : ∀ g,
    isDetachedIn (frameStore w) g = false → isDetachedIn (frameStore w') g = true →
    g ∈ order;
  rs_roots : ∀ r, r ∈ roots → isDetachedIn (frameStore w') r = true ∧ r ∈ order;
  rs_rest : removalRest w' = removalRest w
}.

(** The world after a frame was visited by [_removeFramesRecursively]:
    [_onDetached] has run, the id of the frame has left the frame map and
    the page was told. *)
Definition visited (w : World) (frame : nat) (fr : Frame) : World :=
  with_effects (λ l, l ++ [Emit (Events.FrameDetached frame)])
    (with_frames (delete (_id fr))
      (with_frameStore (detachedStore frame (_parentFrame fr))
        (with_handlePromises
          (terminateAll (rerunnableStore w) (rerunnableTasks (_contextData fr utility))
             FrameDetachedError
             (terminateAll (rerunnableStore w) (rerunnableTasks (_contextData fr main))
                FrameDetachedError (handlePromises w)))
          (with_voidPromises
             (Promise.settle (_detachedPromise fr) (Fulfilled tt) (voidPromises w)) w)))).

(** ** Notifying the tasks of a frame *)

(** A heap of promises after a sequence of calls of resolve and reject
    functions. *)
Definition settled {T} (acts : list (nat * PromiseState T)) (h : list (PromiseState T))
  : list (PromiseState T) :=
  foldl (λ h a, Promise.settle a.1 a.2 h) h acts.

(** The task objects behind a list of references. *)
Definition tasksOf (w : World) (tasks : list nat) : list FrameTask :=
  omap (λ t, taskStore w !! t) tasks.

Definition frameUrl (w : World) (frame : nat) : string :=
  match frameStore w !! frame with
  | Some fr => _url fr
  | None => ""
  end.

(** Every task of the list exists, and so does its frame. *)
Definition tasksValid (w : World) (tasks : list nat) : Prop :=
  ∀ t, t ∈ tasks → ∃ tk, taskStore w !! t = Some tk ∧ _frame tk < length (frameStore w).

(** What [onNewDocument] calls on the waiters of one task. *)
Definition specificActs (documentId : string) (error : option Error) (tk : FrameTask)
  : list (nat * PromiseState unit) :=
  match _onSpecificDocument tk with
  | Some (expectedDocumentId, p) =>
      if decide (documentId = expectedDocumentId) then
        [(p, match error with Some e => Rejected e | None => Fulfilled tt end)]
      else
        match error with
        | None => [(p, Rejected NavigationInterrupted)]
        | Some _ => []
        end
  | None => []
  end.

Definition newDocumentActs (w : World) (documentId : string) (error : option Error)
  (tk : FrameTask) : list (nat * PromiseState string) :=
  match _onNewDocument tk with
  | Some (url, p) =>
      match error with
      | Some e => [(p, Rejected e)]
      | None =>
          if urlMatches (frameUrl w (_frame tk)) url then [(p, Fulfilled documentId)] else []
      end
  | None => []
  end.

Definition navigatedLog (w : World) (tk : FrameTask) : list Effect :=
  match _progress tk with
  | Some p => [ProgressLog p ("navigated to " +:+ dq +:+ frameUrl w (_frame tk) +:+ dq)]
  | None => []
  end.

(** The world after [onNewDocument(documentId, error)] was called on each
    task of a list. *)
Definition newDocumentNotified (tasks : list nat) (documentId : string)
  (error : option Error) (w : World) : World :=
  with_effects
    (λ l, l ++ match error with
               | None => flat_map (navigatedLog w) (tasksOf w tasks)
               | Some _ => []
               end)
    (with_documentPromises
       (settled (flat_map (newDocumentActs w documentId error) (tasksOf w tasks))
          (documentPromises w))
       (with_voidPromises
          (settled (flat_map (specificActs documentId error) (tasksOf w tasks))
             (voidPromises w)) w)).

(** What [onSameDocument] calls on the waiter of one task. *)
Definition sameDocumentActs (w : World) (tk : FrameTask) : list (nat * PromiseState unit) :=
  match _onSameDocument tk with
  | Some (url, p) =>
      if urlMatches (frameUrl w (_frame tk)) url then [(p, Fulfilled tt)] else []
  | None => []
  end.

(** The world after [onSameDocument()] was called on each task of a list. *)
Definition sameDocumentNotified (tasks : list nat) (w : World) : World :=
  with_effects (λ l, l ++ flat_map (navigatedLog w) (tasksOf w tasks))
    (with_voidPromises
       (settled (flat_map (sameDocumentActs w) (tasksOf w tasks)) (voidPromises w)) w).

(** ** What the network bookkeeping leaves alone *)

(** The fields of a frame that requests and timers never write. *)
Definition navFields (fr : Frame) :=
  (_id fr, _lastDocumentId fr, _pendingDocumentId fr, _frameTasks fr, _parentFrame fr,
   _url fr, _detached fr, _childFrames fr, _name fr, _detachedPromise fr).

Definition navView (w : World) :=
  (navFields <$> frameStore w, _frames w, _mainFrame w, _signalBarriers w, taskStore w,
   rerunnableStore w, barrierStore w, voidPromises w, documentPromises w,
   contextPromises w, handlePromises w, now w, _disconnectedPromise w, effects w).

(** The tasks registered on a frame are tasks of that frame. *)
Definition ownTasks (w : World) (frame : nat) (fr : Frame) : Prop :=
  ∀ t, t ∈ _frameTasks fr → ∃ tk, taskStore w !! t = Some tk ∧ _frame tk = frame.

(** ** Lifecycle notifications *)

(** A frame and the chain of its parents. *)
Inductive ancestorOf (store : list Frame) : nat → nat → Prop :=
| ancestorOf_self g : ancestorOf store g g
| ancestorOf_parent g fr p a :
    store !! g = Some fr → _parentFrame fr = Some p → ancestorOf store a p →
    ancestorOf store a g.

(** The tasks that [_notifyLifecycle] visits: those of the frame, then those
    of its parent, and so on. *)
Fixpoint ancestorTasks (fuel : nat) (store : list Frame) (parent : option nat) : list nat :=
  match parent, fuel with
  | Some p, S fuel =>
      match store !! p with
      | Some fr => _frameTasks fr ++ ancestorTasks fuel store (_parentFrame fr)
      | None => []
      end
  | _, _ => []
  end.

(** The tasks of every frame exist, and so do their frames. *)
Definition allTasksValid (w : World) : Prop :=
  ∀ f fr, frameStore w !! f = Some fr → tasksValid w (_frameTasks fr).

(** What [onLifecycle] calls on the waiter of one task. *)
Definition lifecycleActs (w : World) (tk : FrameTask) : list (nat * PromiseState unit) :=
  match _onLifecycle tk with
  | Some (waitUntil, p) =>
      match FrameTask.checkLifecycle (length (frameStore w)) (frameStore w) (_frame tk)
              waitUntil with
      | inr true => [(p, Fulfilled tt)]
      | _ => []
      end
  | None => []
  end.

Definition lifecycleLog (w : World) (frame : nat) (lifecycleEvent : string) (tk : FrameTask)
  : list Effect :=
  match _progress tk with
  | Some p =>
      if decide (frame = _frame tk) then
        if negb (String.eqb (frameUrl w frame) "about:blank")
        then [ProgressLog p (dq +:+ lifecycleEvent +:+ dq +:+ " event fired")]
        else []
      else []
  | None => []
  end.

(** The world after [onLifecycle(frame, lifecycleEvent)] was called on each
    task of a list. *)
Definition lifecycleNotified (tasks : list nat) (frame : nat) (lifecycleEvent : string)
  (w : World) : World :=
  with_effects (λ l, l ++ flat_map (lifecycleLog w frame lifecycleEvent) (tasksOf w tasks))
    (with_voidPromises
       (settled (flat_map (lifecycleActs w) (tasksOf w tasks)) (voidPromises w)) w).

(** ** Frame tasks *)

(** The task object that [new FrameTask(frame, progress)] constructs. *)
Definition freshTask (frame : nat) (progress : option nat) : FrameTask :=
  {| _frame := frame; _requestMap := ∅; _progress := progress;
     _onSameDocument := None; _onSpecificDocument := None;
     _onNewDocument := None; _onLifecycle := None |}.

(** The world after [new FrameTask(frame, progress)] on a frame object
    [fr]. *)
Definition taskCreated (frame : nat) (fr : Frame) (progress : option nat) (w : World)
  : World :=
  with_effects
    (λ l, l ++ match progress with
               | Some p => [CleanupWhenAborted p (CleanupTaskDone (length (taskStore w)))]
               | None => []
               end)
    (with_frameStore
       (λ s, <[frame := set_frameTasks (set_add (length (taskStore w))) fr]> s)
       (with_taskStore (λ s, s ++ [freshTask frame progress]) w)).


(** ** More concrete pages *)

(** The request of document D1 after it failed, and a favicon request. *)
Definition R1_failed : Request :=
  {| request_id := 1; request_frame := 0; _isFavicon := false; _documentId := Some "D1"%string;
     redirectedFrom := false; _route := false;
     failure_errorText := Some "net::ERR_ABORTED"%string |}.

Definition R3_favicon : Request :=
  {| request_id := 3; request_frame := 0; _isFavicon := true; _documentId := None;
     redirectedFrom := false; _route := true; failure_errorText := None |}.

(** The main frame has fired load. *)
Definition loaded_page : World := Eval vm_compute in
  exec (FrameManager.frameLifecycleEvent "main" "load") attached_page.

(** A page on which an action has opened a signal barrier. *)
Definition barrier_page : World := Eval vm_compute in
  exec (FrameManager.waitForSignalsCreatedBy None false) attached_page.

(** ** Signal barriers and navigations *)

(** The world after [addFrameNavigation(frame)] has run up to its await on
    a barrier object [b] and a frame object [fr]: the barrier is retained,
    and a new frame task of the frame waits for a new document and for a
    navigation within the document. *)
Definition navigationAdded (barrier frame : nat) (b : SignalBarrier) (fr : Frame)
  (w : World) : World :=
  let task := length (taskStore w) in
  let tk := set_onSameDocument (Some (None, length (voidPromises w)))
              (set_onNewDocument (Some (None, length (documentPromises w)))
                 (freshTask frame (barrier_progress b))) in
  with_effects (λ l, l ++ [AwaitNavigation barrier task])
    (with_taskStore (λ s, <[task := tk]> s)
      (with_voidPromises (voidPromises w ++ [Pending])
        (with_documentPromises (documentPromises w ++ [Pending])
          (taskCreated frame fr (barrier_progress b)
             (with_barrierStore
                (λ s, <[barrier := set_protectCount (_protectCount b + 1)%Z b]> s) w))))).

(** How often a barrier occurs in a list. *)
Definition occurrences (barrier : nat) (barriers : list nat) : nat :=
  length (filter (λ b, b = barrier) barriers).

(** * Verification *)

(** ** Reasoning about the monad, the sets and the promises *)

Example includes_inside :
  includes "Protocol error: Execution context was destroyed." "Execution context was destroyed"
  = true.
Proof. reflexivity. Qed.

Example includes_absent : includes "Timeout" "Execution context was destroyed" = false.
Proof. reflexivity. Qed.

Ltac munfold :=
  unfold FrameTask.onNewDocument, SignalBarrier.retain, SignalBarrier.release,
    updateBarrier, getBarrier, updateFrame, getFrame, updateTask, getTask,
    getRerunnable, resolve, reject, newPromise, effect, emit, when, assert,
    async, throw, modify, get, mbind, M_bind, mret, M_ret in *.

Ltac msimpl := repeat (progress (munfold; simpl in * )).

Lemma bind_Ok_inv {A B} (m : M A) (k : A → M B) w b w' :
  (m ≫= k) w = Ok b w' → ∃ a w1, m w = Ok a w1 ∧ k a w1 = Ok b w'.
Proof.
  unfold mbind, M_bind. destruct (m w) as [a w1|e w1]; [|done]. intros H. by exists a, w1.
Qed.

Lemma forM_cons {A} (x : A) l (f : A → M unit) w :
  forM_ (x :: l) f w =
  match f x w with
  | Ok _ w' => forM_ l f w'
  | Throw e w' => Throw e w'
  end.
Proof. reflexivity. Qed.

Lemma settle_lookup_pending {T} (h : list (PromiseState T)) p s :
  h !! p = Some Pending → Promise.settle p s h !! p = Some s.
Proof.
  intros H. unfold Promise.settle. rewrite H.
  apply list_lookup_insert_eq. by eapply lookup_lt_Some.
Qed.

Lemma settle_settled {T} (h : list (PromiseState T)) p s s0 :
  h !! p = Some s0 → s0 ≠ Pending → Promise.settle p s h = h.
Proof. intros H Hs. unfold Promise.settle. rewrite H. by destruct s0. Qed.

Lemma settle_lookup_ne {T} (h : list (PromiseState T)) p q s :
  p ≠ q → Promise.settle p s h !! q = h !! q.
Proof.
  intros H. unfold Promise.settle.
  destruct (h !! p) as [[]|]; try done. by apply list_lookup_insert_ne.
Qed.

Lemma settle_length {T} (h : list (PromiseState T)) p s :
  length (Promise.settle p s h) = length h.
Proof.
  unfold Promise.settle. destruct (h !! p) as [[]|]; try done. apply length_insert.
Qed.

Lemma lookup_insert_is_Some {A} (l : list A) i j x :
  is_Some (l !! i) → is_Some (<[j := x]> l !! i).
Proof. rewrite !lookup_lt_is_Some, length_insert. done. Qed.

Lemma set_add_nonempty `{EqDecision A} (x : A) l : set_add x l ≠ [].
Proof.
  unfold set_add. destruct (decide (x ∈ l)) as [Hel|Hel].
  - intros ->. by apply elem_of_nil in Hel.
  - by destruct l.
Qed.

Lemma set_has_set_add_ne `{EqDecision A} (x y : A) l :
  x ≠ y → set_has x (set_add y l) = set_has x l.
Proof.
  intros Hne. unfold set_has, set_add. destruct (decide (y ∈ l)); [done|].
  apply bool_decide_ext. rewrite elem_of_app, list_elem_of_singleton.
  split; [intros [Hl|Hl]; [done | by destruct Hne] | by left].
Qed.

Lemma set_has_set_add `{EqDecision A} (x : A) l : set_has x (set_add x l) = true.
Proof.
  unfold set_has, set_add. apply bool_decide_eq_true.
  destruct (decide (x ∈ l)); [done|]. apply elem_of_app. right. by left.
Qed.

(** ** Fields a computation leaves alone *)

Lemma preserves_ret {X A} (proj : World → X) (a : A) : preserves proj (mret a).
Proof. by intros w. Qed.

Lemma preserves_throw {X A} (proj : World → X) e : preserves proj (throw e : M A).
Proof. by intros w. Qed.

Lemma preserves_bind {X A B} (proj : World → X) (m : M A) (k : A → M B) :
  preserves proj m → (∀ a, preserves proj (k a)) → preserves proj (m ≫= k).
Proof.
  intros Hm Hk w. unfold mbind, M_bind. specialize (Hm w).
  destruct (m w) as [a w'|e w']; simpl in *; [|done]. by rewrite Hk.
Qed.

Lemma preserves_forM {X A} (proj : World → X) (l : list A) (f : A → M unit) :
  (∀ a, preserves proj (f a)) → preserves proj (forM_ l f).
Proof.
  intros Hf. induction l as [|a l IH]; [by intros w|].
  simpl. by apply preserves_bind.
Qed.

Lemma preserves_when {X} (proj : World → X) b m :
  preserves proj m → preserves proj (when b m).
Proof. intros Hm. destruct b; [done | by intros w]. Qed.

Lemma preserves_async {X} (proj : World → X) m :
  preserves proj m → preserves proj (async m).
Proof. intros Hm w. unfold async. specialize (Hm w). by destruct (m w). Qed.

Lemma preserves_get {X} (proj : World → X) : preserves proj get.
Proof. by intros w. Qed.

Lemma preserves_modify {X} (proj : World → X) g :
  (∀ w, proj (g w) = proj w) → preserves proj (modify g).
Proof. intros Hg w. apply Hg. Qed.

Lemma preserves_getFrame {X} (proj : World → X) f : preserves proj (getFrame f).
Proof. intros w. unfold getFrame. by destruct (_ !! _). Qed.

Lemma preserves_getRerunnable {X} (proj : World → X) t : preserves proj (getRerunnable t).
Proof. intros w. unfold getRerunnable. by destruct (_ !! _). Qed.

Lemma preserves_getTask {X} (proj : World → X) t : preserves proj (getTask t).
Proof. intros w. unfold getTask. by destruct (_ !! _). Qed.

Lemma preserves_updateFrame {X} (proj : World → X) f g :
  (∀ w s, proj (with_frameStore s w) = proj w) → preserves proj (updateFrame f g).
Proof. intros H w. unfold updateFrame. destruct (_ !! _); [apply H | done]. Qed.

Lemma preserves_updateTask {X} (proj : World → X) t g :
  (∀ w s, proj (with_taskStore s w) = proj w) → preserves proj (updateTask t g).
Proof. intros H w. unfold updateTask. destruct (_ !! _); [apply H | done]. Qed.

Lemma preserves_effect {X} (proj : World → X) e :
  (∀ w s, proj (with_effects s w) = proj w) → preserves proj (effect e).
Proof. intros H w. apply H. Qed.

Lemma preserves_resolve {X T} (proj : World → X) (H : PromiseHeap T) p v :
  (∀ w h, proj (heap_set H h w) = proj w) → preserves proj (resolve H p v).
Proof. intros Hh w. apply Hh. Qed.

Lemma preserves_reject {X T} (proj : World → X) (H : PromiseHeap T) p e :
  (∀ w h, proj (heap_set H h w) = proj w) → preserves proj (reject H p e).
Proof. intros Hh w. apply Hh. Qed.

Lemma preserves_newPromise {X T} (proj : World → X) (H : PromiseHeap T) s :
  (∀ w h, proj (heap_set H h w) = proj w) → preserves proj (newPromise H s).
Proof. intros Hh w. apply Hh. Qed.

Lemma preserves_getBarrier {X} (proj : World → X) b : preserves proj (getBarrier b).
Proof. intros w. unfold getBarrier. by destruct (_ !! _). Qed.

Lemma preserves_updateBarrier {X} (proj : World → X) b g :
  (∀ w s, proj (with_barrierStore s w) = proj w) → preserves proj (updateBarrier b g).
Proof. intros H w. unfold updateBarrier. destruct (_ !! _); [apply H | done]. Qed.

Create HintDb preserves.
#[global] Hint Resolve preserves_ret preserves_throw preserves_get preserves_getFrame
  preserves_getRerunnable preserves_getTask preserves_getBarrier preserves_when
  preserves_async preserves_forM : preserves.

(** One step of a preservation proof: split a bind, enter a branch, or close
    a primitive whose update is on another field. *)
Ltac preserves_step :=
  match goal with
  | |- preserves _ (_ ≫= _) => apply preserves_bind; [|intros ?]
  | |- preserves _ (forM_ _ _) => apply preserves_forM; intros ?
  | |- preserves _ (when _ _) => apply preserves_when
  | |- preserves _ (async _) => apply preserves_async
  | |- preserves _ (updateFrame _ _) => apply preserves_updateFrame; by intros
  | |- preserves _ (updateTask _ _) => apply preserves_updateTask; by intros
  | |- preserves _ (updateBarrier _ _) => apply preserves_updateBarrier; by intros
  | |- preserves _ (newPromise _ _) => apply preserves_newPromise; by intros
  | |- preserves _ (effect _) => apply preserves_effect; by intros
  | |- preserves _ (emit _) => apply preserves_effect; by intros
  | |- preserves _ (resolve _ _ _) => apply preserves_resolve; by intros
  | |- preserves _ (reject _ _ _) => apply preserves_reject; by intros
  | |- preserves _ (modify _) => apply preserves_modify; by intros
  | |- preserves _ (match ?x with _ => _ end) => destruct x
  | |- preserves _ (if ?x then _ else _) => destruct x
  | |- preserves _ (let '(_, _) := ?x in _) => destruct x
  | |- preserves _ _ => by auto with preserves
  end.

Ltac preserves_auto := repeat preserves_step.

Lemma preserves_Ok {X A} (proj : World → X) (m : M A) w a w' :
  preserves proj m → m w = Ok a w' → proj w' = proj w.
Proof. intros Hm Hrun. specialize (Hm w). by rewrite Hrun in Hm. Qed.

Lemma preserves_checkLifecycleRecursively {X} (proj : World → X) frame waitUntil :
  preserves proj (FrameTask._checkLifecycleRecursively frame waitUntil).
Proof.
  intros w. unfold FrameTask._checkLifecycleRecursively. by destruct (FrameTask.checkLifecycle _ _ _ _).
Qed.

Lemma onDetached_contextPromises frame :
  preserves contextPromises (Frame._onDetached frame).
Proof. unfold Frame._onDetached, RerunnableTask.terminate. preserves_auto. Qed.

Lemma onDetached_timers frame : preserves timers (Frame._onDetached frame).
Proof. unfold Frame._onDetached, RerunnableTask.terminate. preserves_auto. Qed.

Lemma removeFramesRecursively_fuel_preserves {X} (proj : World → X) fuel :
  (∀ frame, preserves proj (Frame._onDetached frame)) →
  (∀ w s, proj (with_frames s w) = proj w) →
  (∀ w s, proj (with_effects s w) = proj w) →
  ∀ frame, preserves proj (FrameManager._removeFramesRecursively_fuel fuel frame).
Proof.
  intros Hd Hf He. induction fuel as [|fuel IH]; intros frame; simpl; [by intros w|].
  unfold Frame.childFrames. preserves_auto; auto.
Qed.

Lemma frameDetached_contextPromises frameId :
  preserves contextPromises (FrameManager.frameDetached frameId).
Proof.
  unfold FrameManager.frameDetached, FrameManager._removeFramesRecursively.
  preserves_auto.
  apply removeFramesRecursively_fuel_preserves; try done.
  apply onDetached_contextPromises.
Qed.

Lemma frameDetached_timers frameId :
  preserves timers (FrameManager.frameDetached frameId).
Proof.
  unfold FrameManager.frameDetached, FrameManager._removeFramesRecursively.
  preserves_auto.
  apply removeFramesRecursively_fuel_preserves; try done.
  apply onDetached_timers.
Qed.

Lemma onLifecycle_storeView task frame event :
  preserves storeView (FrameTask.onLifecycle task frame event).
Proof.
  unfold FrameTask.onLifecycle. preserves_auto;
    try apply preserves_checkLifecycleRecursively.
Qed.

Lemma notifyLifecycle_loop_storeView fuel : ∀ parent frame event,
  preserves storeView (FrameManager.notifyLifecycle_loop fuel parent frame event).
Proof.
  induction fuel as [|fuel IH]; intros parent frame event; destruct parent as [p|]; simpl;
    try (by intros w).
  unfold Frame.parentFrame. preserves_auto; first [apply onLifecycle_storeView | apply IH].
Qed.

Lemma onRequest_storeView task request :
  preserves storeView (FrameTask.onRequest task request).
Proof.
  unfold FrameTask.onRequest. preserves_auto.
Qed.

Lemma onNewDocument_storeView task documentId error :
  preserves storeView (FrameTask.onNewDocument task documentId error).
Proof. unfold FrameTask.onNewDocument. preserves_auto. Qed.

Lemma onSameDocument_storeView task :
  preserves storeView (FrameTask.onSameDocument task).
Proof. unfold FrameTask.onSameDocument. preserves_auto. Qed.

(** ** Hoare rules *)

Lemma hoare_bind {A B} P (m : M A) Q E (k : A → M B) R :
  hoare P m Q E → (∀ a, hoare (Q a) (k a) R E) → hoare P (m ≫= k) R E.
Proof.
  intros Hm Hk w HP. unfold mbind, M_bind. specialize (Hm w HP).
  destruct (m w) as [a w1|e w1]; [by apply Hk | done].
Qed.

Lemma hoare_conseq {A} (P : World → Prop) (m : M A) (Q Q' : A → World → Prop)
  (E E' : World → Prop) :
  (∀ a w, Q a w → Q' a w) → (∀ w, E w → E' w) → hoare P m Q E → hoare P m Q' E'.
Proof.
  intros HQ HE Hm w HP. specialize (Hm w HP).
  destruct (m w); [by apply HQ | by apply HE].
Qed.

Lemma stable_exec {A} P (m : M A) w : stable P m → P w → P (exec m w).
Proof. intros Hm HP. specialize (Hm w HP). unfold exec. by destruct (m w). Qed.

Lemma stable_bind {A B} P (m : M A) (k : A → M B) :
  stable P m → (∀ a, stable P (k a)) → stable P (m ≫= k).
Proof. intros Hm Hk. by eapply hoare_bind. Qed.

Lemma stable_forM {A} P (l : list A) (f : A → M unit) :
  (∀ a, a ∈ l → stable P (f a)) → stable P (forM_ l f).
Proof.
  induction l as [|x l IH]; intros Hf; [by intros w|].
  simpl. apply stable_bind.
  - apply Hf. by left.
  - intros u. apply IH. intros a Ha. apply Hf. by right.
Qed.

Lemma stable_view {A X} (proj : World → X) (P : World → Prop) (m : M A) :
  (∀ w w', proj w' = proj w → P w → P w') →
  preserves proj m → stable P m.
Proof.
  intros HP Hm w Hw. specialize (Hm w).
  destruct (m w); simpl in Hm; by eapply HP.
Qed.

Lemma hoare_getFrame P frame :
  hoare P (getFrame frame) (λ fr w, P w ∧ frameStore w !! frame = Some fr) P.
Proof. intros w HP. unfold getFrame. by destruct (frameStore w !! frame) eqn:Hf. Qed.

(** ** Waiting for a specific document (C1) *)

Lemma onNewDocument_void w task t fr documentId error :
  taskStore w !! task = Some t →
  frameStore w !! _frame t = Some fr →
  ∃ w', FrameTask.onNewDocument task documentId error w = Ok tt w' ∧
    voidPromises w' = specificOutcome t documentId error (voidPromises w) ∧
    taskStore w' = taskStore w ∧ frameStore w' = frameStore w.
Proof.
  intros Ht Hf. unfold specificOutcome. msimpl. rewrite Ht. simpl.
  destruct (_progress t) as [pr|], error as [e|], (_onSpecificDocument t) as [[ex p]|],
    (_onNewDocument t) as [[u q]|]; simpl; rewrite ?Hf; simpl;
    repeat case_decide; simpl; rewrite ?Hf; simpl;
    try destruct (urlMatches _ _); simpl; eauto.
Qed.

Lemma waitForSpecificDocument_spec w task t expectedDocumentId :
  taskStore w !! task = Some t →
  _onSpecificDocument t = None →
  ∃ w', FrameTask.waitForSpecificDocument task expectedDocumentId w
        = Ok (length (voidPromises w)) w' ∧
    voidPromises w' = voidPromises w ++ [Pending] ∧
    taskStore w' =
      <[task := set_onSpecificDocument (Some (expectedDocumentId, length (voidPromises w))) t]>
        (taskStore w) ∧
    frameStore w' = frameStore w.
Proof.
  intros Ht Hn. unfold FrameTask.waitForSpecificDocument. msimpl.
  rewrite Ht. simpl. rewrite Hn. simpl. rewrite Ht. simpl. eauto.
Qed.

(** C1, amended. [waitForSpecificDocument(expectedId)] on a task without such
    a waiter returns a pending promise and registers the waiter.  While the
    promise is pending, [onNewDocument(expectedId)] resolves it,
    [onNewDocument(expectedId, error)] rejects it with that error, and
    [onNewDocument(id)] for a different id without an error rejects it with
    "Navigation interrupted by another one"; [onNewDocument(id, error)] for a
    different id leaves it pending. *)
Theorem C1_waitForSpecificDocument (w : World) (task : nat) (t : FrameTask) (fr : Frame)
  (expectedId : string) :
  taskStore w !! task = Some t →
  frameStore w !! _frame t = Some fr →
  _onSpecificDocument t = None →
  ∃ p w1 t1,
    FrameTask.waitForSpecificDocument task expectedId w = Ok p w1 ∧
    voidPromises w1 !! p = Some Pending ∧
    taskStore w1 !! task = Some t1 ∧
    _onSpecificDocument t1 = Some (expectedId, p) ∧
    ∀ (w2 : World) (t2 : FrameTask) (fr2 : Frame),
      taskStore w2 !! task = Some t2 →
      _onSpecificDocument t2 = Some (expectedId, p) →
      frameStore w2 !! _frame t2 = Some fr2 →
      voidPromises w2 !! p = Some Pending →
      (∃ w3, FrameTask.onNewDocument task expectedId None w2 = Ok tt w3 ∧
             voidPromises w3 !! p = Some (Fulfilled tt)) ∧
      (∀ e, ∃ w3, FrameTask.onNewDocument task expectedId (Some e) w2 = Ok tt w3 ∧
             voidPromises w3 !! p = Some (Rejected e)) ∧
      (∀ id, id ≠ expectedId →
         ∃ w3, FrameTask.onNewDocument task id None w2 = Ok tt w3 ∧
               voidPromises w3 !! p = Some (Rejected NavigationInterrupted)) ∧
      (∀ id e, id ≠ expectedId →
         ∃ w3, FrameTask.onNewDocument task id (Some e) w2 = Ok tt w3 ∧
               voidPromises w3 !! p = Some Pending).
Proof.
  intros Ht Hf Hn.
  destruct (waitForSpecificDocument_spec w task t expectedId Ht Hn)
    as (w1 & Hrun & Hv & Hts & Hfs).
  eexists _, w1, _. split; [exact Hrun|].
  split; [rewrite Hv; by apply list_lookup_middle|].
  split; [rewrite Hts; apply list_lookup_insert_eq; by eapply lookup_lt_Some|].
  split; [done|].
  intros w2 t2 fr2 Ht2 Hw2 Hf2 Hp2.
  repeat split; intros.
  - destruct (onNewDocument_void w2 task t2 fr2 expectedId None Ht2 Hf2) as (w3 & Hr & Hv3 & _).
    exists w3. split; [done|]. rewrite Hv3. unfold specificOutcome. rewrite Hw2.
    rewrite decide_True by done. by apply settle_lookup_pending.
  - destruct (onNewDocument_void w2 task t2 fr2 expectedId (Some e) Ht2 Hf2)
      as (w3 & Hr & Hv3 & _).
    exists w3. split; [done|]. rewrite Hv3. unfold specificOutcome. rewrite Hw2.
    rewrite decide_True by done. by apply settle_lookup_pending.
  - destruct (onNewDocument_void w2 task t2 fr2 id None Ht2 Hf2) as (w3 & Hr & Hv3 & _).
    exists w3. split; [done|]. rewrite Hv3. unfold specificOutcome. rewrite Hw2.
    rewrite decide_False by done. by apply settle_lookup_pending.
  - destruct (onNewDocument_void w2 task t2 fr2 id (Some e) Ht2 Hf2) as (w3 & Hr & Hv3 & _).
    exists w3. split; [done|]. rewrite Hv3. unfold specificOutcome. rewrite Hw2.
    by rewrite decide_False by done.
Qed.

Lemma C1_witness :
  ∃ p w1, FrameTask.waitForSpecificDocument 0 "D1" task_page = Ok p w1 ∧
          voidPromises w1 !! p = Some Pending.
Proof.
  edestruct (C1_waitForSpecificDocument task_page 0) as (p & w1 & t1 & H1 & H2 & _);
    [vm_compute; reflexivity | vm_compute; reflexivity | reflexivity |].
  exists p, w1. split; [exact H1 | exact H2].
Defined.

(** C1 as stated fails: a notification for a different document id that
    carries an error (a failed provisional load of another navigation)
    arrives first, and the promise is not rejected. *)
Lemma C1_counterexample :
  ∃ w',
    FrameTask.waitForSpecificDocument 0 "D1" task_page = Ok 2 waiting_page ∧
    FrameTask.onNewDocument 0 "D2" (Some {| message := "net::ERR_ABORTED" |}) waiting_page
      = Ok tt w' ∧
    voidPromises w' !! 2 = Some Pending ∧
    voidPromises w' !! 2 ≠ Some (Rejected NavigationInterrupted).
Proof.
  eexists. split; [vm_compute; reflexivity|].
  split; [vm_compute; reflexivity|]. split; [reflexivity | discriminate].
Qed.

(** ** Waiting for a lifecycle event (C2) *)

Lemma childrenLaterFrom_spec store : ∀ n len,
  childrenLaterFrom n len store = true →
  ∀ i fr c, store !! i = Some fr → c ∈ _childFrames fr → n + i < c ∧ c < len.
Proof.
  induction store as [|fr0 store IH]; intros n len H i fr c Hi Hc; [done|].
  simpl in H. apply andb_true_iff in H as [H1 H2].
  destruct i as [|i]; simpl in Hi.
  - injection Hi as ->. rewrite forallb_forall in H1.
    apply list_elem_of_In, H1, andb_true_iff in Hc as [Ha Hb].
    apply Nat.ltb_lt in Ha, Hb. lia.
  - destruct (IH _ _ H2 i fr c Hi Hc). lia.
Qed.

Lemma childrenLater_check store :
  childrenLaterFrom 0 (length store) store = true → childrenLater store.
Proof. intros H f fr c Hf Hc. by apply (childrenLaterFrom_spec store 0 _ H f fr c). Qed.

Lemma subtreeFired_unfold store f fr event :
  store !! f = Some fr →
  subtreeFired store f event ↔
  event ∈ _firedLifecycleEvents fr ∧ ∀ c, c ∈ _childFrames fr → subtreeFired store c event.
Proof.
  intros Hf. split.
  - intros H. split.
    + destruct (H f (inSubtree_self _ _)) as (fr' & Hf' & He). congruence.
    + intros c Hc g Hg. apply H. by eapply inSubtree_child.
  - intros [He Hcs] g Hg. inversion Hg as [|? fr' c ? Hf' Hc Hsub]; subst.
    + by exists fr.
    + assert (fr' = fr) as -> by congruence. by apply (Hcs c).
Qed.

Lemma checkLifecycle_spec store event : childrenLater store →
  ∀ fuel f, f < length store → length store - f ≤ fuel →
  ∃ b, FrameTask.checkLifecycle fuel store f event = inr b ∧
       (b = true ↔ subtreeFired store f event).
Proof.
  intros Hwf fuel. induction fuel as [|fuel IH]; intros f Hlt Hfuel; [lia|].
  destruct (lookup_lt_is_Some_2 store f Hlt) as [fr Hf].
  simpl. rewrite Hf. unfold set_has.
  case_bool_decide as Hfired; simpl.
  - assert (Hcs : ∀ c, c ∈ _childFrames fr → f < c ∧ c < length store)
      by (intros c Hc; by apply (Hwf f fr c)).
    setoid_rewrite (subtreeFired_unfold store f fr event Hf).
    revert Hcs. generalize (_childFrames fr) as cs.
    induction cs as [|c cs IHcs]; intros Hcs.
    + exists true. split; [done|]. split; [|done]. intros _.
      split; [done|]. intros c Hc. by apply elem_of_nil in Hc.
    + destruct (Hcs c) as [Hfc Hcl]; [by left|].
      destruct (IH c Hcl) as (b & Hb & Hspec); [lia|]. rewrite Hb.
      destruct b.
      * destruct IHcs as (b' & Hb' & Hspec'); [intros; apply Hcs; by right|].
        exists b'. split; [done|]. rewrite Hspec'. split.
        -- intros [He Hall]. split; [done|]. intros c' Hc'.
           apply elem_of_cons in Hc' as [-> | Hc']; [by apply Hspec | by apply Hall].
        -- intros [He Hall]. split; [done|]. intros c' Hc'. apply Hall. by right.
      * exists false. split; [done|]. split; [done|]. intros [_ Hall].
        apply Hspec, Hall. by left.
  - exists false. split; [done|]. split; [done|].
    rewrite (subtreeFired_unfold store f fr event Hf). by intros [He _].
Qed.

Lemma checkLifecycleRecursively_spec w frame fr event :
  childrenLater (frameStore w) →
  frameStore w !! frame = Some fr →
  ∃ b, FrameTask._checkLifecycleRecursively frame event w = Ok b w ∧
       (b = true ↔ subtreeFired (frameStore w) frame event).
Proof.
  intros Hwf Hf. apply lookup_lt_Some in Hf as Hlt.
  destruct (checkLifecycle_spec (frameStore w) event Hwf (length (frameStore w)) frame)
    as (b & Hb & Hspec); [done | lia |].
  exists b. unfold FrameTask._checkLifecycleRecursively. by rewrite Hb.
Qed.

(** C2. [waitForLifecycle] treats networkidle0 as networkidle and throws for
    any value outside domcontentloaded, load and networkidle.  For a valid
    value it returns a resolved promise if every frame of the subtree rooted
    at the task's frame has fired the event; otherwise the promise is pending
    and the waiter is registered, and a later lifecycle notification resolves
    it exactly if the subtree predicate holds at that notification. *)
Theorem C2_waitForLifecycle (w : World) (task : nat) (t : FrameTask) (fr : Frame) :
  taskStore w !! task = Some t →
  frameStore w !! _frame t = Some fr →
  childrenLater (frameStore w) →
  FrameTask.waitForLifecycle task "networkidle0" w
    = FrameTask.waitForLifecycle task "networkidle" w ∧
  (∀ E : string,
     E ∉ ["domcontentloaded"; "load"; "networkidle"; "networkidle0"]%string →
     FrameTask.waitForLifecycle task E w
       = Throw {| message := "Unsupported waitUntil option " +:+ E |} w) ∧
  (∀ E : string,
     E ∈ ["domcontentloaded"; "load"; "networkidle"]%string →
     (subtreeFired (frameStore w) (_frame t) E →
      ∃ p w', FrameTask.waitForLifecycle task E w = Ok p w' ∧
              voidPromises w' !! p = Some (Fulfilled tt)) ∧
     (¬ subtreeFired (frameStore w) (_frame t) E → _onLifecycle t = None →
      ∃ p w' t', FrameTask.waitForLifecycle task E w = Ok p w' ∧
                 voidPromises w' !! p = Some Pending ∧
                 taskStore w' !! task = Some t' ∧
                 _onLifecycle t' = Some (E, p) ∧
                 frameStore w' = frameStore w)) ∧
  (∀ (E : string) (p g : nat) (event : string),
     _onLifecycle t = Some (E, p) →
     voidPromises w !! p = Some Pending →
     ∃ w', FrameTask.onLifecycle task g event w = Ok tt w' ∧
           (subtreeFired (frameStore w) (_frame t) E →
            voidPromises w' !! p = Some (Fulfilled tt)) ∧
           (¬ subtreeFired (frameStore w) (_frame t) E →
            voidPromises w' !! p = Some Pending)).
Proof.
  intros Ht Hf Hwf.
  apply lookup_lt_Some in Hf as Hlt.
  split; [reflexivity|]. split; [|split].
  - intros E HE. unfold FrameTask.waitForLifecycle.
    rewrite decide_False by (intros ->; apply HE; repeat constructor).
    unfold set_has, kLifecycleEvents. rewrite bool_decide_eq_false_2; [done|].
    intros HE'. apply HE.
    repeat (apply elem_of_cons in HE' as [-> | HE']; [repeat constructor|]).
    by apply elem_of_nil in HE'.
  - intros E HE.
    assert (HE0 : E ≠ "networkidle0"%string).
    { intros ->. repeat (apply elem_of_cons in HE as [HE|HE]; [discriminate|]).
      by apply elem_of_nil in HE. }
    destruct (checkLifecycle_spec (frameStore w) E Hwf (length (frameStore w)) (_frame t))
      as (b & Hb & Hspec); [done | lia |].
    unfold FrameTask.waitForLifecycle, FrameTask._checkLifecycleRecursively.
    rewrite decide_False by done.
    unfold set_has, kLifecycleEvents. rewrite bool_decide_eq_true_2.
    2: { repeat (apply elem_of_cons in HE as [-> | HE]; [repeat constructor|]).
         by apply elem_of_nil in HE. }
    msimpl. rewrite Ht. simpl. rewrite Hb. split.
    + intros Hs. apply Hspec in Hs as ->. simpl.
      eexists _, _. split; [reflexivity|]. simpl. by apply list_lookup_middle.
    + intros Hs Hn. destruct b; [by destruct Hs; apply Hspec|]. simpl.
      rewrite Hn. simpl. rewrite Ht. simpl.
      eexists _, _, _. split; [reflexivity|]. simpl.
      split; [by apply list_lookup_middle|].
      split; [apply list_lookup_insert_eq; by eapply lookup_lt_Some|]. done.
  - intros E p g event Hw Hp.
    destruct (checkLifecycle_spec (frameStore w) E Hwf (length (frameStore w)) (_frame t))
      as (b & Hb & Hspec); [done | lia |].
    unfold FrameTask.onLifecycle, FrameTask._checkLifecycleRecursively.
    msimpl. rewrite Ht. simpl. rewrite Hw.
    assert (Hres : ∀ w0 : World, frameStore w0 = frameStore w →
      voidPromises w0 = voidPromises w →
      ∃ w',
        match
          match FrameTask.checkLifecycle (length (frameStore w0)) (frameStore w0)
                  (_frame t) E with
          | inl e => Throw e w0
          | inr b => Ok b w0
          end
        with
        | Ok a w' =>
            (if a then λ w1, Ok ()
               (with_voidPromises (Promise.settle p (Fulfilled ()) (voidPromises w1)) w1)
             else λ w1, Ok () w1) w'
        | Throw e w' => Throw e w'
        end = Ok () w' ∧
        (subtreeFired (frameStore w) (_frame t) E →
         voidPromises w' !! p = Some (Fulfilled ())) ∧
        (¬ subtreeFired (frameStore w) (_frame t) E →
         voidPromises w' !! p = Some Pending)).
    { intros w0 Hfs Hvs. rewrite Hfs, Hb. destruct b.
      - eexists. split; [reflexivity|]. simpl. rewrite Hvs. split.
        + intros _. by apply settle_lookup_pending.
        + intros Hs. by destruct Hs; apply Hspec.
      - eexists. split; [reflexivity|]. rewrite Hvs. split; [|done].
        intros Hs. apply Hspec in Hs. done. }
    destruct (_progress t) as [pr|]; simpl; [|by apply Hres].
    case_decide as Hg; simpl; [|by apply Hres].
    subst g. rewrite Hf. simpl.
    destruct (negb _); simpl; [|by apply Hres].
    by apply (Hres (with_effects
      (λ l, l ++ [ProgressLog pr (dq +:+ event +:+ dq +:+ " event fired")]) w)).
Qed.

Lemma C2_witness :
  ∃ p w', FrameTask.waitForLifecycle 0 "load" tree_page = Ok p w' ∧
          voidPromises w' !! p = Some Pending.
Proof.
  edestruct (C2_waitForLifecycle tree_page 0) as (_ & _ & Hc & _);
    [vm_compute; reflexivity | vm_compute; reflexivity
    | apply childrenLater_check; vm_compute; reflexivity |].
  destruct (Hc "load"%string) as [_ Hpending]; [repeat constructor|].
  destruct Hpending as (p & w' & t' & Hrun & Hp & _); [|reflexivity|].
  - intros Hs. destruct (Hs 1) as (fr & Hfr & Hfired).
    + eapply inSubtree_child; [vm_compute; reflexivity | repeat constructor | constructor].
    + vm_compute in Hfr. injection Hfr as <-. by apply elem_of_nil in Hfired.
  - exists p, w'. split; [exact Hrun | exact Hp].
Defined.

(** ** Rerunnable tasks (C3) *)

Lemma terminate_run w task r e :
  rerunnableStore w !! task = Some r →
  RerunnableTask.terminate task e w =
  Ok tt (with_handlePromises (Promise.settle (promise r) (Rejected e) (handlePromises w)) w).
Proof. intros Hr. unfold RerunnableTask.terminate. msimpl. by rewrite Hr. Qed.

Lemma forM_terminate e tasks : ∀ w,
  (∀ t, t ∈ tasks → is_Some (rerunnableStore w !! t)) →
  ∃ w', forM_ tasks (λ t, RerunnableTask.terminate t e) w = Ok tt w' ∧
    handlePromises w' = terminateAll (rerunnableStore w) tasks e (handlePromises w) ∧
    rerunnableStore w' = rerunnableStore w ∧ frameStore w' = frameStore w ∧
    contextPromises w' = contextPromises w ∧ timers w' = timers w.
Proof.
  induction tasks as [|t tasks IH]; intros w Hall; [by exists w|].
  destruct (Hall t) as [r Hr]; [by left|].
  rewrite forM_cons, (terminate_run w t r e Hr).
  edestruct (IH (with_handlePromises
    (Promise.settle (promise r) (Rejected e) (handlePromises w)) w)) as (w' & Hrun & H);
    [intros t' Ht'; apply Hall; by right|].
  exists w'. split; [done|]. simpl in H. simpl. by rewrite Hr.
Qed.

Lemma terminateAll_rejected store e tasks : ∀ h p,
  h !! p = Some (Rejected e) → terminateAll store tasks e h !! p = Some (Rejected e).
Proof.
  induction tasks as [|t tasks IH]; intros h p Hp; [done|].
  simpl. apply IH. destruct (store !! t) as [r|]; [|done].
  destruct (decide (promise r = p)) as [<-|Hne].
  - by erewrite settle_settled.
  - by rewrite settle_lookup_ne.
Qed.

Lemma terminateAll_pending store e tasks : ∀ h t r,
  t ∈ tasks → store !! t = Some r → h !! promise r = Some Pending →
  terminateAll store tasks e h !! promise r = Some (Rejected e).
Proof.
  induction tasks as [|t0 tasks IH]; intros h t r Hin Hr Hp; [by apply elem_of_nil in Hin|].
  simpl. apply elem_of_cons in Hin as [<- | Hin].
  - rewrite Hr. apply terminateAll_rejected. by apply settle_lookup_pending.
  - destruct (store !! t0) as [r0|]; [|by eapply IH].
    destruct (decide (promise r0 = promise r)) as [Heq|Hne].
    + apply terminateAll_rejected. rewrite Heq. by apply settle_lookup_pending.
    + eapply IH; [done..|]. by rewrite settle_lookup_ne.
Qed.

Lemma terminateAll_keeps_pending_or_rejected store e tasks : ∀ h p,
  h !! p = Some Pending →
  terminateAll store tasks e h !! p = Some Pending ∨
  terminateAll store tasks e h !! p = Some (Rejected e).
Proof.
  induction tasks as [|t tasks IH]; intros h p Hp; [by left|].
  simpl. destruct (store !! t) as [r|]; [|by apply IH].
  destruct (decide (promise r = p)) as [<-|Hne].
  - right. apply terminateAll_rejected. by apply settle_lookup_pending.
  - apply IH. by rewrite settle_lookup_ne.
Qed.

Lemma onDetached_spec w frame fr :
  frameStore w !! frame = Some fr →
  (∀ ty t, t ∈ rerunnableTasks (_contextData fr ty) → is_Some (rerunnableStore w !! t)) →
  (∀ parent, _parentFrame fr = Some parent → is_Some (frameStore w !! parent)) →
  ∃ w' fr',
    Frame._onDetached frame w = Ok tt w' ∧
    frameStore w' !! frame = Some fr' ∧ _detached fr' = true ∧ _parentFrame fr' = None ∧
    handlePromises w' =
      terminateAll (rerunnableStore w) (rerunnableTasks (_contextData fr utility))
        FrameDetachedError
        (terminateAll (rerunnableStore w) (rerunnableTasks (_contextData fr main))
           FrameDetachedError (handlePromises w)) ∧
    contextPromises w' = contextPromises w ∧ timers w' = timers w.
Proof.
  intros Hf Htasks Hparent.
  assert (Hlt : frame < length (frameStore w)) by by eapply lookup_lt_Some.
  unfold Frame._onDetached. msimpl. rewrite Hf. simpl.
  rewrite list_lookup_insert_eq by done. simpl.
  edestruct (forM_terminate FrameDetachedError (rerunnableTasks (_contextData fr main)))
    as (w1 & Hrun1 & Hh1 & Hr1 & Hf1 & Hc1 & Ht1); [|rewrite Hrun1].
  { intros t Ht. simpl. by eapply Htasks. }
  edestruct (forM_terminate FrameDetachedError (rerunnableTasks (_contextData fr utility)) w1)
    as (w2 & Hrun2 & Hh2 & Hr2 & Hf2 & Hc2 & Ht2); [|rewrite Hrun2].
  { intros t Ht. rewrite Hr1. simpl. by eapply Htasks. }
  simpl in *. rewrite Hr1, Hh1 in Hh2. rewrite Hf1 in Hf2. rewrite Hc1 in Hc2. rewrite Ht1 in Ht2.
  destruct (_parentFrame fr) as [parent|] eqn:Hp; cbv beta iota.
  - destruct (lookup_insert_is_Some (frameStore w) parent frame (set_detached true fr))
      as [pf Hpf]; [by apply Hparent|].
    rewrite Hf2, Hpf. simpl. rewrite Hf2.
    destruct (lookup_insert_is_Some
      (<[frame:=set_detached true fr]> (frameStore w)) frame parent
      (set_childFrames (set_delete frame) pf)) as [fr1 Hfr1];
      [rewrite list_lookup_insert_eq by done; eauto|].
    rewrite Hfr1.
    eexists _, _. split; [reflexivity|]. simpl. rewrite Hf2.
    rewrite list_lookup_insert_eq by (by rewrite !length_insert).
    split; [done|]. split; [|done].
    destruct (decide (parent = frame)) as [->|Hne].
    + rewrite list_lookup_insert_eq in Hfr1 by (by rewrite length_insert).
      injection Hfr1 as <-. rewrite list_lookup_insert_eq in Hpf by done.
      by injection Hpf as <-.
    + rewrite list_lookup_insert_ne in Hfr1 by done.
      rewrite list_lookup_insert_eq in Hfr1 by done. by injection Hfr1 as <-.
  - rewrite Hf2. rewrite list_lookup_insert_eq by done.
    eexists _, _. split; [reflexivity|]. simpl. rewrite Hf2.
    rewrite list_lookup_insert_eq by (by rewrite !length_insert). done.
Qed.

Lemma rerun_settled_spec w task t e outcome :
  rerunnableStore w !! task = Some t →
  outcome = TaskFailed e ∨ outcome = PollFailed e →
  ∃ w', RerunnableTask.rerun_settled task outcome w = Ok tt w' ∧
    frameStore w' = frameStore w ∧ rerunnableStore w' = rerunnableStore w ∧
    handlePromises w' =
      (if includes (message e) "Execution context was destroyed" then handlePromises w
       else if includes (message e) "Cannot find context with specified id"
            then handlePromises w
            else Promise.settle (promise t) (Rejected e) (handlePromises w)).
Proof.
  intros Ht [-> | ->]; unfold RerunnableTask.rerun_settled; msimpl; rewrite Ht; simpl;
    destruct (includes (message e) "Execution context was destroyed");
    destruct (includes (message e) "Cannot find context with specified id");
    simpl; eauto.
Qed.

(** C3. A rerun that fails with an error whose message contains "Execution
    context was destroyed" or "Cannot find context with specified id" leaves
    every handle promise as it was, so the task's promise stays unsettled,
    and leaves the task registered on its frame for the next context; a
    rerun that fails with any other error rejects the pending promise of the
    task with that error; and [_onDetached] rejects the pending promise of
    every task registered on the frame with "waitForFunction failed: frame
    got detached." *)
Theorem C3_rerunnable_task_errors (w : World) (task : nat) (t : RerunnableTask)
  (frame : nat) (fr : Frame) (ty : ContextType) :
  rerunnableStore w !! task = Some t →
  frameStore w !! frame = Some fr →
  task ∈ rerunnableTasks (_contextData fr ty) →
  (∀ ty' t', t' ∈ rerunnableTasks (_contextData fr ty') →
             is_Some (rerunnableStore w !! t')) →
  (∀ parent, _parentFrame fr = Some parent → is_Some (frameStore w !! parent)) →
  (∀ e outcome, outcome = TaskFailed e ∨ outcome = PollFailed e →
     (includes (message e) "Execution context was destroyed" = true ∨
      includes (message e) "Cannot find context with specified id" = true →
      ∃ w', RerunnableTask.rerun_settled task outcome w = Ok tt w' ∧
            handlePromises w' = handlePromises w ∧
            frameStore w' = frameStore w ∧ rerunnableStore w' = rerunnableStore w) ∧
     (includes (message e) "Execution context was destroyed" = false →
      includes (message e) "Cannot find context with specified id" = false →
      handlePromises w !! promise t = Some Pending →
      ∃ w', RerunnableTask.rerun_settled task outcome w = Ok tt w' ∧
            handlePromises w' !! promise t = Some (Rejected e))) ∧
  (∃ w' fr', Frame._onDetached frame w = Ok tt w' ∧
     frameStore w' !! frame = Some fr' ∧ _detached fr' = true ∧
     (handlePromises w !! promise t = Some Pending →
      handlePromises w' !! promise t = Some (Rejected FrameDetachedError))).
Proof.
  intros Ht Hf Hin Htasks Hparent. split.
  - intros e outcome Hout.
    destruct (rerun_settled_spec w task t e outcome Ht Hout) as (w' & Hrun & Hfs & Hrs & Hh).
    split.
    + intros Hdestroyed. exists w'. split; [done|]. rewrite Hh.
      split; [|done].
      destruct (includes (message e) "Execution context was destroyed"); [done|].
      destruct Hdestroyed as [? | ->]; done.
    + intros H1 H2 Hp. exists w'. split; [done|]. rewrite Hh, H1, H2.
      by apply settle_lookup_pending.
  - destruct (onDetached_spec w frame fr Hf Htasks Hparent)
      as (w' & fr' & Hrun & Hf' & Hd & _ & Hh & _).
    exists w', fr'. split; [done|]. split; [done|]. split; [done|].
    intros Hp. rewrite Hh. destruct ty.
    + apply terminateAll_rejected. by eapply terminateAll_pending.
    + destruct (terminateAll_keeps_pending_or_rejected (rerunnableStore w)
        FrameDetachedError (rerunnableTasks (_contextData fr main)) _ _ Hp) as [Hq | Hq].
      * by eapply terminateAll_pending.
      * by apply terminateAll_rejected.
Qed.

Lemma C3_witness :
  ∃ w' fr', Frame._onDetached 0 polling_page = Ok tt w' ∧
    frameStore w' !! 0 = Some fr' ∧ _detached fr' = true ∧
    handlePromises w' !! 0 = Some (Rejected FrameDetachedError).
Proof.
  edestruct (C3_rerunnable_task_errors polling_page 0) with (frame := 0) (ty := main)
    as (_ & w' & fr' & Hrun & Hf & Hd & Hp).
  - vm_compute; reflexivity.
  - vm_compute; reflexivity.
  - simpl. repeat constructor.
  - intros ty' t' Hin. destruct ty'; simpl in Hin.
    + apply elem_of_cons in Hin as [-> | Hin]; [by eexists|by apply elem_of_nil in Hin].
    + by apply elem_of_nil in Hin.
  - intros parent Hp. simpl in Hp. discriminate.
  - exists w', fr'. split; [exact Hrun|]. split; [exact Hf|]. split; [exact Hd|].
    apply Hp. vm_compute. reflexivity.
Defined.

(** ** The network-idle timer (C4, C5, C6) *)

(** *** What the bookkeeping functions compute *)

Lemma clearedTimers_length t ts : length (clearedTimers t ts) = length ts.
Proof.
  unfold clearedTimers. destruct (ts !! t); [|done]. case_decide; [|done].
  apply length_insert.
Qed.

Lemma clearedTimers_scheduled t ts t' tm :
  clearedTimers t ts !! t' = Some tm → status tm = Scheduled →
  ts !! t' = Some tm ∧ t' ≠ t.
Proof.
  unfold clearedTimers. intros H Hs.
  destruct (ts !! t) as [tm0|] eqn:Htm0.
  - case_decide as Hs0.
    + destruct (decide (t = t')) as [<-|Hne].
      * rewrite list_lookup_insert_eq in H by by eapply lookup_lt_Some.
        injection H as <-. done.
      * rewrite list_lookup_insert_ne in H by done. done.
    + split; [done|]. intros ->. congruence.
  - split; [done|]. intros ->. congruence.
Qed.

Lemma clearedTimers_settled t ts t' tm :
  ts !! t' = Some tm → status tm ≠ Scheduled → clearedTimers t ts !! t' = Some tm.
Proof.
  unfold clearedTimers. intros H Hs.
  destruct (ts !! t) as [tm0|] eqn:Htm0; [|done].
  case_decide as Hs0; [|done].
  destruct (decide (t = t')) as [<-|Hne]; [congruence|].
  by rewrite list_lookup_insert_ne.
Qed.

Lemma clearedTimers_self t ts tm :
  ts !! t = Some tm →
  ∃ tm', clearedTimers t ts !! t = Some tm' ∧ status tm' ≠ Scheduled.
Proof.
  intros Htm. unfold clearedTimers. rewrite Htm. case_decide as Hs.
  - exists (set_status Cleared tm).
    by rewrite list_lookup_insert_eq by by eapply lookup_lt_Some.
  - by exists tm.
Qed.

Lemma stoppedTimers_length h ts : length (stoppedTimers h ts) = length ts.
Proof. destruct h; [apply clearedTimers_length | done]. Qed.

Lemma stoppedTimers_handle t ts tm :
  ts !! t = Some tm → activeIn (stoppedTimers (Some t) ts) (Some t) = false.
Proof.
  intros Htm. destruct (clearedTimers_self t ts tm Htm) as (tm' & Htm' & Hs).
  simpl. rewrite Htm'. by apply bool_decide_eq_false.
Qed.

Lemma activeIn_app_l ts tm0 t tm :
  ts !! t = Some tm → activeIn (ts ++ [tm0]) (Some t) = activeIn ts (Some t).
Proof.
  intros Htm. unfold activeIn.
  by rewrite lookup_app_l by by eapply lookup_lt_Some.
Qed.

Lemma activeIn_started ts frame w :
  activeIn (ts ++ [newTimer w frame]) (Some (length ts)) = true.
Proof. unfold activeIn. by rewrite list_lookup_middle. Qed.

Lemma stopNetworkIdleTimer_spec w frame fr :
  frameStore w !! frame = Some fr →
  ∃ w', Frame._stopNetworkIdleTimer frame w = Ok tt w' ∧
    frameStore w' = <[frame := set_networkIdleTimer None fr]> (frameStore w) ∧
    _frames w' = _frames w ∧ now w' = now w ∧
    timers w' = stoppedTimers (_networkIdleTimer fr) (timers w).
Proof.
  intros Hf. unfold Frame._stopNetworkIdleTimer, clearTimeout. msimpl. rewrite Hf. simpl.
  destruct (_networkIdleTimer fr) as [t|] eqn:Ht; simpl; rewrite Hf; simpl;
    eexists; (split; [reflexivity|]); done.
Qed.

Lemma startNetworkIdleTimer_spec w frame fr :
  frameStore w !! frame = Some fr →
  _networkIdleTimer fr = None →
  ∃ w', Frame._startNetworkIdleTimer frame w = Ok tt w' ∧
    _frames w' = _frames w ∧ now w' = now w ∧
    (if networkIdleFired fr
     then frameStore w' = frameStore w ∧ timers w' = timers w
     else frameStore w' =
            <[frame := set_networkIdleTimer (Some (length (timers w))) fr]> (frameStore w) ∧
          timers w' = timers w ++ [newTimer w frame]).
Proof.
  intros Hf Hnone. unfold Frame._startNetworkIdleTimer, setTimeout, networkIdleFired.
  msimpl. rewrite Hf. simpl. rewrite Hnone. simpl.
  destruct (set_has _ _); simpl.
  - by exists w.
  - rewrite Hf. simpl. eexists. split; [reflexivity|]. done.
Qed.

Lemma clearFrameLifecycle_spec w frame fr :
  frameStore w !! frame = Some fr →
  ∃ w' fr', FrameManager.clearFrameLifecycle frame w = Ok tt w' ∧
    frameStore w' = <[frame := fr']> (frameStore w) ∧
    _frames w' = _frames w ∧ now w' = now w ∧
    _id fr' = _id fr ∧ _detached fr' = _detached fr ∧ _firedLifecycleEvents fr' = [] ∧
    _inflightRequests fr' = keptRequests fr ∧
    (if decide (keptRequests fr = [])
     then _networkIdleTimer fr' = Some (length (timers w)) ∧
          timers w' = stoppedTimers (_networkIdleTimer fr) (timers w) ++ [newTimer w frame]
     else _networkIdleTimer fr' = None ∧
          timers w' = stoppedTimers (_networkIdleTimer fr) (timers w)).
Proof.
  intros Hf. assert (Hlt : frame < length (frameStore w)) by by eapply lookup_lt_Some.
  unfold FrameManager.clearFrameLifecycle.
  unfold mbind at 1 2 3 4, M_bind, updateFrame at 1 2. rewrite Hf. simpl.
  rewrite list_lookup_insert_eq by done. simpl.
  set (fr2 := set_inflightRequests _ _).
  set (w2 := with_frameStore _ (with_frameStore _ w)).
  assert (Hf2 : frameStore w2 !! frame = Some fr2).
  { simpl. apply list_lookup_insert_eq. by rewrite length_insert. }
  destruct (stopNetworkIdleTimer_spec w2 frame fr2 Hf2) as (w3 & Hrun3 & Hfs3 & Hfr3 & Hn3 & Ht3).
  rewrite Hrun3. unfold getFrame. rewrite Hfs3.
  rewrite list_lookup_insert_eq by (simpl; by rewrite !length_insert).
  simpl. fold (keptRequests fr).
  assert (Hf3 : frameStore w3 !! frame = Some (set_networkIdleTimer None fr2)).
  { rewrite Hfs3. apply list_lookup_insert_eq. simpl. by rewrite !length_insert. }
  destruct (decide (keptRequests fr = [])) as [Hk|Hk].
  - rewrite bool_decide_eq_true_2 by by rewrite Hk. simpl.
    destruct (startNetworkIdleTimer_spec w3 frame _ Hf3 eq_refl)
      as (w4 & Hrun4 & Hfr4 & Hn4 & Hfs4 & Ht4).
    simpl in Hfs4, Ht4. rewrite Hrun4. eexists w4, _. split; [reflexivity|].
    rewrite Hfs4, Hfs3, Ht4, Ht3, Hfr4, Hfr3, Hn4, Hn3. simpl.
    rewrite !list_insert_insert_eq. rewrite stoppedTimers_length.
    split; [reflexivity|]. unfold newTimer. rewrite Hn3. simpl. done.
  - rewrite bool_decide_eq_false_2.
    2: { intros Hl. apply Hk. by apply nil_length_inv. }
    simpl. eexists w3, _. split; [reflexivity|].
    rewrite Hfs3, Ht3, Hfr3, Hn3. simpl. rewrite !list_insert_insert_eq. done.
Qed.

Lemma clearFrameLifecycle_stops w w' frame fr t tm :
  frameStore w !! frame = Some fr →
  FrameManager.clearFrameLifecycle frame w = Ok tt w' →
  _networkIdleTimer fr = Some t → timers w !! t = Some tm →
  activeIn (timers w') (Some t) = false.
Proof.
  intros Hf Hrun Hh Htm.
  destruct (clearFrameLifecycle_spec w frame fr Hf)
    as (w1 & fr' & Hrun1 & _ & _ & _ & _ & _ & _ & _ & Hcase).
  assert (w1 = w') as -> by congruence. rewrite Hh in Hcase.
  destruct (decide (keptRequests fr = [])); destruct Hcase as [_ ->].
  - destruct (clearedTimers_self t (timers w) tm Htm) as (tm' & Htm' & Hs).
    rewrite (activeIn_app_l _ _ t tm') by done. by eapply stoppedTimers_handle.
  - by eapply stoppedTimers_handle.
Qed.

Lemma inflightRequestStarted_spec w request fr :
  frameStore w !! request_frame request = Some fr →
  ∃ w' fr', FrameManager._inflightRequestStarted request w = Ok tt w' ∧
    _frames w' = _frames w ∧ now w' = now w ∧
    (if _isFavicon request then w' = w ∧ fr' = fr
     else
       frameStore w' = <[request_frame request := fr']> (frameStore w) ∧
       _id fr' = _id fr ∧ _detached fr' = _detached fr ∧
       _firedLifecycleEvents fr' = _firedLifecycleEvents fr ∧
       _inflightRequests fr' = set_add request (_inflightRequests fr) ∧
       (if decide (length (set_add request (_inflightRequests fr)) = 1)
        then _networkIdleTimer fr' = None ∧
             timers w' = stoppedTimers (_networkIdleTimer fr) (timers w)
        else _networkIdleTimer fr' = _networkIdleTimer fr ∧ timers w' = timers w)).
Proof.
  intros Hf. set (frame := request_frame request) in *.
  assert (Hlt : frame < length (frameStore w)) by by eapply lookup_lt_Some.
  unfold FrameManager._inflightRequestStarted. fold frame.
  destruct (_isFavicon request); [by exists w, fr|].
  unfold mbind at 1 2, M_bind, updateFrame at 1, getFrame. rewrite Hf. simpl.
  rewrite list_lookup_insert_eq by done. simpl.
  set (fr1 := set_inflightRequests _ _).
  set (w1 := with_frameStore _ w).
  assert (Hf1 : frameStore w1 !! frame = Some fr1) by by apply list_lookup_insert_eq.
  destruct (decide (length (set_add request (_inflightRequests fr)) = 1)) as [Hl|Hl].
  - rewrite bool_decide_eq_true_2 by done. simpl.
    destruct (stopNetworkIdleTimer_spec w1 frame fr1 Hf1)
      as (w2 & Hrun2 & Hfs2 & Hfr2 & Hn2 & Ht2).
    rewrite Hrun2. eexists w2, _. split; [reflexivity|].
    rewrite Hfs2, Hfr2, Hn2, Ht2. simpl. by rewrite list_insert_insert_eq.
  - rewrite bool_decide_eq_false_2 by done. simpl.
    by eexists w1, _.
Qed.

Lemma inflightRequestFinished_spec w request fr :
  frameStore w !! request_frame request = Some fr →
  (_inflightRequests fr ≠ [] → _networkIdleTimer fr = None) →
  ∃ w' fr', FrameManager._inflightRequestFinished request w = Ok tt w' ∧
    _frames w' = _frames w ∧ now w' = now w ∧
    (if _isFavicon request || negb (set_has request (_inflightRequests fr))
     then w' = w ∧ fr' = fr
     else
       frameStore w' = <[request_frame request := fr']> (frameStore w) ∧
       _id fr' = _id fr ∧ _detached fr' = _detached fr ∧
       _firedLifecycleEvents fr' = _firedLifecycleEvents fr ∧
       _inflightRequests fr' = set_delete request (_inflightRequests fr) ∧
       (if bool_decide (set_delete request (_inflightRequests fr) = [])
           && negb (networkIdleFired fr)
        then _networkIdleTimer fr' = Some (length (timers w)) ∧
             timers w' = timers w ++ [newTimer w (request_frame request)]
        else _networkIdleTimer fr' = None ∧ timers w' = timers w)).
Proof.
  intros Hf Hbusy. set (frame := request_frame request) in *.
  assert (Hlt : frame < length (frameStore w)) by by eapply lookup_lt_Some.
  unfold FrameManager._inflightRequestFinished. fold frame.
  destruct (_isFavicon request); [by exists w, fr|]. simpl.
  unfold mbind at 1, M_bind, getFrame at 1. rewrite Hf. simpl.
  destruct (set_has request (_inflightRequests fr)) eqn:Hhas; simpl; [|by exists w, fr].
  assert (Hnone : _networkIdleTimer fr = None).
  { apply Hbusy. intros Hnil. unfold set_has in Hhas. rewrite Hnil in Hhas.
    apply bool_decide_eq_true in Hhas. by apply elem_of_nil in Hhas. }
  unfold mbind at 1 2, M_bind, updateFrame at 1, getFrame. rewrite Hf. simpl.
  rewrite list_lookup_insert_eq by done. simpl.
  set (fr1 := set_inflightRequests _ _).
  set (w1 := with_frameStore _ w).
  assert (Hf1 : frameStore w1 !! frame = Some fr1) by by apply list_lookup_insert_eq.
  destruct (decide (set_delete request (_inflightRequests fr) = [])) as [Hd|Hd]; simpl.
  - rewrite (bool_decide_eq_true_2 (set_delete _ _ = [])) by done.
    rewrite bool_decide_eq_true_2 by by rewrite Hd. simpl.
    destruct (startNetworkIdleTimer_spec w1 frame fr1 Hf1 Hnone)
      as (w2 & Hrun2 & Hfr2 & Hn2 & Hspec).
    rewrite Hrun2. unfold networkIdleFired in *. simpl in Hspec.
    destruct (set_has "networkidle"%string (_firedLifecycleEvents fr)); simpl.
    + destruct Hspec as [Hfs2 Ht2]. exists w2, fr1. split; [done|].
      rewrite Hfr2, Hn2, Hfs2, Ht2. simpl. by rewrite Hnone.
    + destruct Hspec as [Hfs2 Ht2]. eexists w2, _. split; [reflexivity|].
      rewrite Hfr2, Hn2, Hfs2, Ht2. simpl. by rewrite list_insert_insert_eq.
  - rewrite (bool_decide_eq_false_2 (set_delete _ _ = [])) by done.
    rewrite bool_decide_eq_false_2.
    2: { intros Hl. apply Hd. by apply nil_length_inv. }
    simpl. by eexists w1, fr1.
Qed.

Lemma frameLifecycleEvent_spec frameId event w w' :
  FrameManager.frameLifecycleEvent frameId event w = Ok tt w' →
  timers w' = timers w ∧ _frames w' = _frames w ∧ now w' = now w ∧
  match _frames w !! frameId with
  | None => frameStore w' = frameStore w
  | Some g =>
      ∃ frg, frameStore w !! g = Some frg ∧
        frameStore w' =
          if set_has event (_firedLifecycleEvents frg) then frameStore w
          else <[g := set_firedLifecycleEvents (set_add event) frg]> (frameStore w)
  end.
Proof.
  unfold FrameManager.frameLifecycleEvent.
  unfold mbind at 1, M_bind, get.
  destruct (_frames w !! frameId) as [g|] eqn:Hg; [|intros [= <-]; auto].
  unfold mbind at 1, M_bind, getFrame.
  destruct (frameStore w !! g) as [frg|] eqn:Hfrg; [|done].
  destruct (set_has event (_firedLifecycleEvents frg)) eqn:Hfired.
  { intros [= <-]. repeat (split; [done|]). exists frg. by rewrite Hfired. }
  unfold mbind at 1, M_bind, updateFrame. rewrite Hfrg.
  set (w1 := with_frameStore _ w). intros Hrun.
  assert (Hview : storeView w' = storeView w1).
  { eapply preserves_Ok; [|exact Hrun].
    unfold FrameManager._notifyLifecycle. preserves_auto.
    apply notifyLifecycle_loop_storeView. }
  unfold storeView in Hview. simpl in Hview. injection Hview as Hfs Ht Hfr Hn.
  split; [done|]. split; [done|]. split; [done|]. exists frg. by rewrite Hfired.
Qed.

(** *** The invariant of the page (C4) *)

Lemma Frame_new_spec w id parent :
  (∀ p, parent = Some p → is_Some (frameStore w !! p)) →
  ∃ w' fr,
    Frame.new id parent w = Ok (length (frameStore w)) w' ∧
    frameStore w' !! length (frameStore w) = Some fr ∧
    _id fr = id ∧ _detached fr = false ∧
    _inflightRequests fr = [] ∧ _firedLifecycleEvents fr = [] ∧
    _networkIdleTimer fr = None ∧ timers w' = timers w ∧ _frames w' = _frames w.
Proof.
  intros Hparent. unfold Frame.new, Frame._setContext, Frame.updateContextData. msimpl.
  rewrite !list_lookup_middle by done. simpl.
  repeat (rewrite list_lookup_insert_eq by (rewrite ?length_insert, length_app; simpl; lia);
          simpl).
  repeat rewrite list_insert_insert_eq.
  destruct parent as [p|]; simpl.
  - destruct (Hparent p eq_refl) as [pf Hpf]. apply lookup_lt_Some in Hpf as Hlt.
    repeat (rewrite list_lookup_insert_ne by lia).
    rewrite lookup_app_l by done. rewrite Hpf. simpl.
    eexists _, _. split; [reflexivity|]. simpl.
    rewrite list_lookup_insert_ne by lia.
    rewrite list_lookup_insert_eq by (rewrite ?length_insert, length_app; simpl; lia).
    done.
  - eexists _, _. split; [reflexivity|]. simpl.
    rewrite list_lookup_insert_eq by (rewrite ?length_insert, length_app; simpl; lia).
    done.
Qed.

(** The constructor starts no timer: a freshly constructed frame has
    consistent bookkeeping and is untouched, and the property of C4 does not
    hold of it. *)
Lemma Frame_new_not_idleOk w id parent :
  (∀ p, parent = Some p → is_Some (frameStore w !! p)) →
  (∀ t tm g, timers w !! t = Some tm → callback tm = NetworkIdleCallback g →
             g < length (frameStore w)) →
  ∃ w' fr,
    Frame.new id parent w = Ok (length (frameStore w)) w' ∧
    frameStore w' !! length (frameStore w) = Some fr ∧
    bookOk w' (length (frameStore w)) fr ∧
    untouched w' (length (frameStore w)) fr ∧
    ¬ idleOk w' fr.
Proof.
  intros Hparent Htimers.
  destruct (Frame_new_spec w id parent Hparent)
    as (w' & fr & Hrun & Hf & _ & _ & Hin & Hfired & Hh & Ht & _).
  assert (Hnone : ∀ t tm, timers w' !! t = Some tm →
                          callback tm ≠ NetworkIdleCallback (length (frameStore w))).
  { intros t tm Htm Hcb. rewrite Ht in Htm. specialize (Htimers t tm _ Htm Hcb). lia. }
  exists w', fr. split; [done|]. split; [done|]. split; [|split].
  - unfold bookOk. rewrite Hh. split; [done|]. split; [|by intros t].
    intros t tm Htm Hcb. by destruct (Hnone t tm Htm).
  - unfold untouched, networkIdleFired. by rewrite Hin, Hfired.
  - unfold idleOk, timerActive, networkIdleFired. rewrite Hh, Hin, Hfired. simpl.
    intros [_ H]. by specialize (H (conj eq_refl eq_refl)).
Qed.

Lemma ownsScheduled_stopped ts frame h :
  ownsScheduled ts frame h → ownsScheduled (stoppedTimers h ts) frame None.
Proof.
  intros Hown t tm Htm Hcb Hs. destruct h as [t0|]; simpl in Htm.
  - apply clearedTimers_scheduled in Htm as [Htm Hne]; [|done].
    specialize (Hown t tm Htm Hcb Hs). congruence.
  - specialize (Hown t tm Htm Hcb Hs). congruence.
Qed.

Lemma ownsScheduled_started ts frame tm0 :
  ownsScheduled ts frame None → ownsScheduled (ts ++ [tm0]) frame (Some (length ts)).
Proof.
  intros Hown t tm Htm Hcb Hs.
  destruct (decide (t < length ts)) as [Hlt|Hge].
  - rewrite lookup_app_l in Htm by done. specialize (Hown t tm Htm Hcb Hs). congruence.
  - apply lookup_lt_Some in Htm as Hlen. rewrite length_app in Hlen. simpl in Hlen.
    f_equal. lia.
Qed.

(** *** Timers of other frames *)

Lemma onlyTimersOf_refl frame ts : onlyTimersOf frame ts ts.
Proof. by intros t tm _. Qed.

Lemma onlyTimersOf_trans frame ts1 ts2 ts3 :
  onlyTimersOf frame ts1 ts2 → onlyTimersOf frame ts2 ts3 → onlyTimersOf frame ts1 ts3.
Proof. intros H12 H23 t tm Hcb. by rewrite (H23 t tm Hcb), (H12 t tm Hcb). Qed.

Lemma onlyTimersOf_insert frame ts t tm0 tm1 :
  ts !! t = Some tm0 →
  callback tm0 = NetworkIdleCallback frame → callback tm1 = NetworkIdleCallback frame →
  onlyTimersOf frame ts (<[t := tm1]> ts).
Proof.
  intros Htm0 Hcb0 Hcb1 t' tm Hcb.
  destruct (decide (t = t')) as [<-|Hne].
  - rewrite list_lookup_insert_eq by by eapply lookup_lt_Some.
    split; intros H.
    + injection H as <-. by destruct Hcb.
    + rewrite Htm0 in H. injection H as <-. by destruct Hcb.
  - by rewrite list_lookup_insert_ne.
Qed.

Lemma onlyTimersOf_stopped frame ts h :
  ownsHandle ts frame h → onlyTimersOf frame ts (stoppedTimers h ts).
Proof.
  intros Hh. destruct h as [t|]; [|apply onlyTimersOf_refl].
  destruct (Hh t eq_refl) as (tm0 & Htm0 & Hcb0).
  simpl. unfold clearedTimers. rewrite Htm0.
  case_decide; [|apply onlyTimersOf_refl]. by eapply onlyTimersOf_insert.
Qed.

Lemma onlyTimersOf_started frame ts tm0 :
  callback tm0 = NetworkIdleCallback frame → onlyTimersOf frame ts (ts ++ [tm0]).
Proof.
  intros Hcb0 t tm Hcb. split.
  - intros Htm. destruct (decide (t < length ts)) as [Hlt|Hge].
    + by rewrite lookup_app_l in Htm.
    + apply lookup_lt_Some in Htm as Hlen. rewrite length_app in Hlen. simpl in Hlen.
      assert (t = length ts) as -> by lia.
      rewrite list_lookup_middle in Htm by done. injection Htm as <-. congruence.
  - intros Htm. rewrite lookup_app_l; [done|]. by eapply lookup_lt_Some.
Qed.

Lemma onlyTimersOf_same frame g ts ts' :
  frame ≠ g → onlyTimersOf g ts ts' → sameTimersOf frame ts ts'.
Proof. intros Hne H t tm Hcb. apply H. rewrite Hcb. congruence. Qed.

Lemma sameTimersOf_refl frame ts : sameTimersOf frame ts ts.
Proof. by intros t tm _. Qed.

(** *** The invariant of one frame reads its own fields and timers only *)

Lemma frameInv_transfer w w' frame fr fr' :
  _inflightRequests fr' = _inflightRequests fr →
  _networkIdleTimer fr' = _networkIdleTimer fr →
  networkIdleFired fr' = networkIdleFired fr →
  _detached fr' = _detached fr →
  sameTimersOf frame (timers w) (timers w') →
  frameInv w frame fr → frameInv w' frame fr'.
Proof.
  intros Hin Hh Hfd Hd Hts ((Hbusy & Hown & Hhan) & Hphase).
  split; [split; [|split]|].
  - by rewrite Hin, Hh.
  - rewrite Hh. intros t tm Htm Hcb Hs.
    apply (Hown t tm); [by apply (Hts t tm Hcb)|done|done].
  - rewrite Hh. intros t Ht. destruct (Hhan t Ht) as (tm & Htm & Hcb).
    exists tm. split; [by apply (Hts t tm Hcb)|done].
  - rewrite Hd. intros Hlive.
    destruct (Hphase Hlive) as [Hok|(Hnil & Hnf & Hnone)].
    + left. unfold idleOk, timerActive in *. rewrite Hin, Hh, Hfd.
      assert (Heq : activeIn (timers w') (_networkIdleTimer fr)
                    = activeIn (timers w) (_networkIdleTimer fr)).
      { unfold activeIn. destruct (_networkIdleTimer fr) as [t|]; [|done].
        destruct (Hhan t eq_refl) as (tm & Htm & Hcb). rewrite Htm.
        apply (Hts t tm Hcb) in Htm. by rewrite Htm. }
      by rewrite Heq.
    + right. split; [by rewrite Hin|]. split; [by rewrite Hfd|].
      intros t tm Htm Hcb. apply (Hnone t tm); [by apply (Hts t tm Hcb)|done].
Qed.

Lemma pageView_lookup w w' f fr' :
  pageView w' = pageView w → frameStore w' !! f = Some fr' →
  ∃ fr, frameStore w !! f = Some fr ∧ bookFields fr = bookFields fr'.
Proof.
  unfold pageView. intros [= Hv _ _] Hf.
  assert (H : (bookFields <$> frameStore w) !! f = Some (bookFields fr'))
    by by rewrite <- Hv, list_lookup_fmap, Hf.
  rewrite list_lookup_fmap in H. destruct (frameStore w !! f) as [fr|]; [|done].
  exists fr. split; [done|]. simpl in H. congruence.
Qed.

Lemma pageView_length w w' :
  pageView w' = pageView w → length (frameStore w') = length (frameStore w).
Proof.
  unfold pageView. intros [= Hv _ _].
  by rewrite <- (length_fmap bookFields (frameStore w')), Hv, length_fmap.
Qed.

Lemma pageInv_view w w' : pageView w' = pageView w → pageInv w → pageInv w'.
Proof.
  intros Hv [Hids Hmap Hlive Hcbs Hfrs].
  pose proof Hv as Hv0. unfold pageView in Hv0. injection Hv0 as _ Ht Hfr.
  split.
  - intros f g frf frg Hf Hg Hid.
    destruct (pageView_lookup w w' f frf Hv Hf) as (frf0 & Hf0 & [= Hidf _ _ _ _]).
    destruct (pageView_lookup w w' g frg Hv Hg) as (frg0 & Hg0 & [= Hidg _ _ _ _]).
    apply (Hids f g frf0 frg0); [done|done|congruence].
  - intros frameId f Hf. rewrite Hfr in Hf.
    destruct (Hmap frameId f Hf) as (fr & Hfr0 & Hid).
    assert (Hv' : pageView w = pageView w') by done.
    destruct (pageView_lookup w' w f fr Hv' Hfr0) as (fr' & Hf' & [= Hid' _ _ _ _]).
    exists fr'. split; [done|]. congruence.
  - intros f fr' Hf Hd.
    destruct (pageView_lookup w w' f fr' Hv Hf) as (fr & Hf0 & [= Hid _ _ _ Hd0]).
    rewrite Hfr, <- Hid. apply Hlive; [done|congruence].
  - intros t tm g Htm Hcb. rewrite (pageView_length w w' Hv). rewrite Ht in Htm.
    by eapply Hcbs.
  - intros f fr' Hf.
    destruct (pageView_lookup w w' f fr' Hv Hf) as (fr & Hf0 & [= _ Hin Hh Hfd Hd]).
    apply (frameInv_transfer w w' f fr fr'); try done.
    + rewrite Ht. apply sameTimersOf_refl.
    + by apply Hfrs.
Qed.

(** *** An event that acts on one frame *)

Lemma pageInv_actsOn w w' g fr fr' :
  pageInv w →
  frameStore w !! g = Some fr →
  frameStore w' = <[g := fr']> (frameStore w) →
  _id fr' = _id fr → _detached fr' = _detached fr →
  _frames w' = _frames w →
  onlyTimersOf g (timers w) (timers w') →
  frameInv w' g fr' →
  pageInv w'.
Proof.
  intros [Hids Hmap Hlive Hcbs Hfrs] Hg Hfs Hid Hd Hfr Hts Hinv.
  assert (Hlt : g < length (frameStore w)) by by eapply lookup_lt_Some.
  assert (Hlook : ∀ f frf', frameStore w' !! f = Some frf' →
            ∃ frf, frameStore w !! f = Some frf ∧ _id frf = _id frf' ∧
                   _detached frf = _detached frf' ∧
                   (f = g ∧ frf' = fr' ∨ f ≠ g ∧ frf' = frf)).
  { intros f frf' Hf. rewrite Hfs in Hf. destruct (decide (g = f)) as [<-|Hne].
    - rewrite list_lookup_insert_eq in Hf by done. injection Hf as <-.
      exists fr. split; [done|]. split; [done|]. split; [done|]. by left.
    - rewrite list_lookup_insert_ne in Hf by done.
      exists frf'. split; [done|]. split; [done|]. split; [done|]. right. by split. }
  split.
  - intros f1 f2 fr1 fr2 H1 H2 Heq.
    destruct (Hlook f1 fr1 H1) as (fr1' & H1' & Hid1 & _).
    destruct (Hlook f2 fr2 H2) as (fr2' & H2' & Hid2 & _).
    apply (Hids f1 f2 fr1' fr2'); [done|done|congruence].
  - intros frameId f Hf. rewrite Hfr in Hf.
    destruct (Hmap frameId f Hf) as (frf & Hfrf & Hidf). rewrite Hfs.
    destruct (decide (g = f)) as [<-|Hne].
    + rewrite list_lookup_insert_eq by done. exists fr'. split; [done|]. congruence.
    + rewrite list_lookup_insert_ne by done. by exists frf.
  - intros f frf' Hf Hlv.
    destruct (Hlook f frf' Hf) as (frf & Hf0 & Hidf & Hdf & _).
    rewrite Hfr, <- Hidf. apply Hlive; [done|congruence].
  - intros t tm g' Htm Hcb. rewrite Hfs, length_insert.
    destruct (decide (g' = g)) as [->|Hne]; [done|].
    eapply Hcbs; [|exact Hcb]. apply (Hts t tm); [|done]. rewrite Hcb. congruence.
  - intros f frf' Hf.
    destruct (Hlook f frf' Hf) as (frf & Hf0 & _ & _ & [[-> ->]|[Hne ->]]); [done|].
    apply (frameInv_transfer w w' f frf frf); try done.
    + by eapply onlyTimersOf_same.
    + by apply Hfrs.
Qed.

Lemma ownsHandle_started ts frame tm0 :
  callback tm0 = NetworkIdleCallback frame →
  ownsHandle (ts ++ [tm0]) frame (Some (length ts)).
Proof. intros Hcb t [= <-]. exists tm0. by rewrite list_lookup_middle. Qed.

Lemma ownsHandle_None ts frame : ownsHandle ts frame None.
Proof. by intros t. Qed.

Lemma idleOk_busy w fr :
  _inflightRequests fr ≠ [] → _networkIdleTimer fr = None → idleOk w fr.
Proof.
  intros Hne Hh. unfold idleOk, timerActive. rewrite Hh. simpl.
  split; [done|]. by intros [? _].
Qed.

(** [clearFrameLifecycle] on a frame whose bookkeeping is consistent
    establishes the property of C4 on it. *)
Lemma clearFrameLifecycle_effect w w' g fr :
  frameStore w !! g = Some fr → bookOk w g fr →
  FrameManager.clearFrameLifecycle g w = Ok tt w' →
  ∃ fr', frameStore w' = <[g := fr']> (frameStore w) ∧
    _id fr' = _id fr ∧ _detached fr' = _detached fr ∧ _frames w' = _frames w ∧
    onlyTimersOf g (timers w) (timers w') ∧
    bookOk w' g fr' ∧ idleOk w' fr'.
Proof.
  intros Hf (Hbusy & Hown & Hhan) Hrun.
  destruct (clearFrameLifecycle_spec w g fr Hf)
    as (w1 & fr' & Hrun1 & Hfs & Hfr & Hn & Hid & Hdet & Hfired & Hin & Hcase).
  assert (w1 = w') as -> by congruence.
  exists fr'. split; [done|]. split; [done|]. split; [done|]. split; [done|].
  unfold bookOk, idleOk, timerActive, networkIdleFired. rewrite Hfired, Hin.
  destruct (decide (keptRequests fr = [])) as [Hk|Hk]; destruct Hcase as [Hh Ht];
    rewrite Hh, Ht.
  - split.
    { eapply onlyTimersOf_trans; [by apply onlyTimersOf_stopped|].
      by apply onlyTimersOf_started. }
    rewrite <- (stoppedTimers_length (_networkIdleTimer fr) (timers w)).
    rewrite activeIn_started. split; [|done]. split; [done|]. split.
    + by apply ownsScheduled_started, ownsScheduled_stopped.
    + by apply ownsHandle_started.
  - split; [by apply onlyTimersOf_stopped|]. split.
    + split; [done|]. split; [by apply ownsScheduled_stopped | apply ownsHandle_None].
    + simpl. split; [done | by intros [? _]].
Qed.

Lemma inflightRequestStarted_effect w w' request fr :
  frameStore w !! request_frame request = Some fr →
  frameInv w (request_frame request) fr →
  FrameManager._inflightRequestStarted request w = Ok tt w' →
  ∃ fr', frameStore w' = <[request_frame request := fr']> (frameStore w) ∧
    _id fr' = _id fr ∧ _detached fr' = _detached fr ∧ _frames w' = _frames w ∧
    onlyTimersOf (request_frame request) (timers w) (timers w') ∧
    frameInv w' (request_frame request) fr'.
Proof.
  intros Hf Hinv Hrun. pose proof Hinv as ((Hbusy & Hown & Hhan) & Hphase).
  destruct (inflightRequestStarted_spec w request fr Hf) as (w1 & fr' & Hrun1 & Hfr & Hn & Hcase).
  assert (w1 = w') as -> by congruence.
  destruct (_isFavicon request).
  { destruct Hcase as [-> ->]. exists fr. rewrite list_insert_id by done.
    do 4 (split; [done|]). split; [apply onlyTimersOf_refl | done]. }
  destruct Hcase as (Hfs & Hid & Hdet & Hfired & Hin & Hcase).
  exists fr'. split; [done|]. split; [done|]. split; [done|]. split; [done|].
  assert (Hne : _inflightRequests fr' ≠ []) by (rewrite Hin; apply set_add_nonempty).
  destruct (decide (length (set_add request (_inflightRequests fr)) = 1)) as [Hl|Hl];
    destruct Hcase as [Hh Ht]; rewrite Ht.
  - split; [by apply onlyTimersOf_stopped|]. split.
    + unfold bookOk. rewrite Hh, Ht. split; [done|].
      split; [by apply ownsScheduled_stopped | apply ownsHandle_None].
    + intros _. left. by apply idleOk_busy.
  - assert (Hpre : _inflightRequests fr ≠ []).
    { intros Hnil. apply Hl. by rewrite Hnil. }
    rewrite (Hbusy Hpre) in *.
    split; [apply onlyTimersOf_refl|]. split.
    + unfold bookOk. by rewrite Hh, Ht.
    + intros _. left. by apply idleOk_busy.
Qed.

Lemma inflightRequestFinished_effect w w' request fr :
  frameStore w !! request_frame request = Some fr →
  frameInv w (request_frame request) fr →
  FrameManager._inflightRequestFinished request w = Ok tt w' →
  ∃ fr', frameStore w' = <[request_frame request := fr']> (frameStore w) ∧
    _id fr' = _id fr ∧ _detached fr' = _detached fr ∧ _frames w' = _frames w ∧
    onlyTimersOf (request_frame request) (timers w) (timers w') ∧
    frameInv w' (request_frame request) fr'.
Proof.
  intros Hf Hinv Hrun. pose proof Hinv as ((Hbusy & Hown & Hhan) & Hphase).
  destruct (inflightRequestFinished_spec w request fr Hf Hbusy)
    as (w1 & fr' & Hrun1 & Hfr & Hn & Hcase).
  assert (w1 = w') as -> by congruence.
  destruct (_isFavicon request || negb (set_has request (_inflightRequests fr))) eqn:Hskip.
  { destruct Hcase as [-> ->]. exists fr. rewrite list_insert_id by done.
    do 4 (split; [done|]). split; [apply onlyTimersOf_refl | done]. }
  destruct Hcase as (Hfs & Hid & Hdet & Hfired & Hin & Hcase).
  apply orb_false_iff in Hskip as [_ Hhas]. apply negb_false_iff in Hhas.
  assert (Hpre : _inflightRequests fr ≠ []).
  { intros Hnil. unfold set_has in Hhas. rewrite Hnil in Hhas.
    apply bool_decide_eq_true in Hhas. by apply elem_of_nil in Hhas. }
  rewrite (Hbusy Hpre) in Hown.
  exists fr'. split; [done|]. split; [done|]. split; [done|]. split; [done|].
  unfold frameInv, bookOk, idleOk, timerActive, networkIdleFired in *.
  rewrite Hfired, Hin.
  destruct (bool_decide (set_delete request (_inflightRequests fr) = [])) eqn:Hd;
    destruct (set_has "networkidle"%string (_firedLifecycleEvents fr)) eqn:Hfd;
    simpl in Hcase; destruct Hcase as [Hh Ht]; rewrite Hh, Ht.
  - apply bool_decide_eq_true in Hd. split; [apply onlyTimersOf_refl|]. split.
    + split; [done|]. split; [done | apply ownsHandle_None].
    + intros _. left. simpl. split; [done | by intros [_ ?]].
  - apply bool_decide_eq_true in Hd. split; [by apply onlyTimersOf_started|]. split.
    + split; [by rewrite Hd|].
      split; [by apply ownsScheduled_started | by apply ownsHandle_started].
    + intros _. left. by rewrite activeIn_started.
  - apply bool_decide_eq_false in Hd. split; [apply onlyTimersOf_refl|]. split.
    + split; [done|]. split; [done | apply ownsHandle_None].
    + intros _. left. simpl. split; [done | by intros [? _]].
  - apply bool_decide_eq_false in Hd. split; [apply onlyTimersOf_refl|]. split.
    + split; [done|]. split; [done | apply ownsHandle_None].
    + intros _. left. simpl. split; [done | by intros [? _]].
Qed.

(** What [frameLifecycleEvent] leaves behind, whether it returns or throws. *)
Lemma frameLifecycleEvent_exec frameId event w :
  let w' := exec (FrameManager.frameLifecycleEvent frameId event) w in
  timers w' = timers w ∧ _frames w' = _frames w ∧
  match _frames w !! frameId with
  | None => frameStore w' = frameStore w
  | Some g =>
      match frameStore w !! g with
      | None => frameStore w' = frameStore w
      | Some frg =>
          frameStore w' =
            if set_has event (_firedLifecycleEvents frg) then frameStore w
            else <[g := set_firedLifecycleEvents (set_add event) frg]> (frameStore w)
      end
  end.
Proof.
  intros w'. assert (Hw' : w' = exec (FrameManager.frameLifecycleEvent frameId event) w) by done.
  clearbody w'. revert Hw'. unfold exec, FrameManager.frameLifecycleEvent.
  unfold mbind at 1, M_bind, get.
  destruct (_frames w !! frameId) as [g|] eqn:Hg; [|by intros ->].
  unfold mbind at 1, M_bind, getFrame.
  destruct (frameStore w !! g) as [frg|] eqn:Hfrg; [|by intros ->].
  destruct (set_has event (_firedLifecycleEvents frg)) eqn:Hfired; [by intros ->|].
  unfold mbind at 1, M_bind, updateFrame. rewrite Hfrg.
  set (w1 := with_frameStore _ w). intros Hw'.
  assert (Hview : storeView w' = storeView w1).
  { rewrite Hw'.
    match goal with |- storeView (world_of (?m w1)) = _ =>
      assert (Hm : preserves storeView m); [|apply Hm] end.
    unfold FrameManager._notifyLifecycle. preserves_auto.
    apply notifyLifecycle_loop_storeView. }
  unfold storeView in Hview. simpl in Hview. by injection Hview as -> -> -> _.
Qed.

(** A timer of frame [g] fires: if the frame is in the frame map,
    networkidle has fired on it afterwards; the timers of other frames and
    the other frames are as they were. *)
Lemma fireTimer_effect w r t tm g :
  pageInv w →
  timers w !! t = Some tm → callback tm = NetworkIdleCallback g →
  EventLoop.fireTimer t w = Some r →
  ∃ fr fr', frameStore w !! g = Some fr ∧
    frameStore (world_of r) = <[g := fr']> (frameStore w) ∧
    _id fr' = _id fr ∧ _detached fr' = _detached fr ∧ _frames (world_of r) = _frames w ∧
    onlyTimersOf g (timers w) (timers (world_of r)) ∧
    frameInv (world_of r) g fr' ∧
    (_frames w !! _id fr = Some g → networkIdleFired fr' = true).
Proof.
  intros [Hids Hmap Hlive Hcbs Hfrs] Htm Hcb.
  assert (Htlt : t < length (timers w)) by by eapply lookup_lt_Some.
  assert (Hlt : g < length (frameStore w)) by by eapply Hcbs.
  destruct (lookup_lt_is_Some_2 _ _ Hlt) as [fr Hf].
  unfold EventLoop.fireTimer, EventLoop.timerDue. rewrite Htm.
  destruct (bool_decide (status tm = Scheduled)) eqn:Hs; [|done].
  apply bool_decide_eq_true in Hs. destruct (due tm <=? now w)%Z; [|done]. simpl.
  rewrite Hcb. unfold mbind at 1 2, M_bind, modify, getFrame. simpl. rewrite Hf.
  set (w1 := with_timers _ w). intros [= <-].
  destruct (frameLifecycleEvent_exec (_id fr) "networkidle" w1) as (Ht & Hfr & Hfs).
  unfold exec in Ht, Hfr, Hfs. simpl in Ht, Hfr, Hfs.
  set (w' := world_of _) in *.
  destruct (Hfrs g fr Hf) as ((Hbusy & Hown & Hhan) & Hphase).
  pose proof (Hown t tm Htm Hcb Hs) as Hh.
  assert (Hts : onlyTimersOf g (timers w) (timers w')).
  { rewrite Ht. by eapply onlyTimersOf_insert. }
  assert (Hact : activeIn (timers w') (Some t) = false).
  { unfold activeIn. by rewrite Ht, list_lookup_insert_eq. }
  assert (Hbook : ∀ fr', _inflightRequests fr' = _inflightRequests fr →
                         _networkIdleTimer fr' = _networkIdleTimer fr → bookOk w' g fr').
  { intros fr' Hin' Hh'. unfold bookOk. rewrite Hin', Hh'. split; [done|]. split.
    - intros t' tm' Htm' Hcb' Hs'. rewrite Ht in Htm'.
      destruct (decide (t = t')) as [<-|Hne]; [done|].
      rewrite list_lookup_insert_ne in Htm' by done. by eapply Hown.
    - intros t' Ht'. destruct (Hhan t' Ht') as (tm' & Htm' & Hcb'). rewrite Ht.
      destruct (decide (t = t')) as [<-|Hne].
      + rewrite list_lookup_insert_eq by done. eexists. split; [done|]. simpl. congruence.
      + rewrite list_lookup_insert_ne by done. by exists tm'. }
  exists fr.
  destruct (_frames w !! _id fr) as [h|] eqn:Hmapped.
  - destruct (Hmap _ h Hmapped) as (frh & Hfrh & Hidh).
    assert (h = g) as -> by by eapply Hids.
    rewrite Hf in Hfs.
    destruct (set_has "networkidle"%string (_firedLifecycleEvents fr)) eqn:Hfired.
    + exists fr. rewrite list_insert_id by done.
      do 6 (split; [done|]). split; [|done]. split; [by apply Hbook|].
      intros _. left. unfold idleOk, timerActive, networkIdleFired.
      rewrite Hh, Hact, Hfired. split; [done | by intros [_ ?]].
    + exists (set_firedLifecycleEvents (set_add "networkidle"%string) fr).
      do 6 (split; [done|]).
      assert (Hnf : networkIdleFired (set_firedLifecycleEvents (set_add "networkidle"%string) fr)
                    = true) by apply set_has_set_add.
      split; [|done]. split; [by apply Hbook|].
      intros _. left. unfold idleOk, timerActive. rewrite Hnf. simpl.
      rewrite Hh, Hact. split; [done | by intros [_ ?]].
  - exists fr. rewrite list_insert_id by done.
    do 6 (split; [done|]). split; [|done]. split; [by apply Hbook|].
    intros Hlv. specialize (Hlive g fr Hf Hlv). congruence.
Qed.

(** *** Calls that leave the bookkeeping alone *)

Lemma updateFrame_pageView frame g :
  (∀ fr, bookFields (g fr) = bookFields fr) → preserves pageView (updateFrame frame g).
Proof.
  intros Hg w. unfold updateFrame.
  destruct (frameStore w !! frame) as [fr|] eqn:Hf; [|done].
  unfold pageView. simpl. rewrite list_fmap_insert, Hg.
  rewrite list_insert_id; [done|]. by rewrite list_lookup_fmap, Hf.
Qed.

Lemma preserves_storeView_pageView {A} (m : M A) :
  preserves storeView m → preserves pageView m.
Proof.
  intros Hm w. specialize (Hm w). unfold storeView, pageView in *.
  injection Hm as -> -> -> _. done.
Qed.

Lemma frameLifecycleEvent_pageView frameId event :
  event ≠ "networkidle"%string →
  preserves pageView (FrameManager.frameLifecycleEvent frameId event).
Proof.
  intros Hne. unfold FrameManager.frameLifecycleEvent, FrameManager._notifyLifecycle.
  preserves_auto.
  - apply updateFrame_pageView. intros fr. unfold bookFields, networkIdleFired. simpl.
    by rewrite set_has_set_add_ne.
  - apply preserves_storeView_pageView, notifyLifecycle_loop_storeView.
Qed.

Lemma advance_pageView dt : preserves pageView (EventLoop.advance dt).
Proof. by intros w. Qed.

Lemma frameStoppedLoading_pageView frameId :
  preserves pageView (FrameManager.frameStoppedLoading frameId).
Proof.
  unfold FrameManager.frameStoppedLoading.
  apply preserves_bind; [|intros _]; by apply frameLifecycleEvent_pageView.
Qed.

Lemma frameCommittedSameDocumentNavigation_pageView frameId url :
  preserves pageView (FrameManager.frameCommittedSameDocumentNavigation frameId url).
Proof.
  unfold FrameManager.frameCommittedSameDocumentNavigation.
  preserves_auto;
    first [ by apply updateFrame_pageView
          | apply preserves_storeView_pageView, onSameDocument_storeView ].
Qed.

Lemma frameUpdatedDocumentIdForNavigation_pageView frameId documentId :
  preserves pageView (FrameManager.frameUpdatedDocumentIdForNavigation frameId documentId).
Proof.
  unfold FrameManager.frameUpdatedDocumentIdForNavigation.
  preserves_auto. by apply updateFrame_pageView.
Qed.

Lemma provisionalLoadFailed_pageView frame documentId error :
  preserves pageView (FrameManager.provisionalLoadFailed frame documentId error).
Proof.
  unfold FrameManager.provisionalLoadFailed.
  preserves_auto. apply preserves_storeView_pageView, onNewDocument_storeView.
Qed.

Lemma requestReceivedResponse_pageView request :
  preserves pageView (FrameManager.requestReceivedResponse request).
Proof. unfold FrameManager.requestReceivedResponse. preserves_auto. Qed.

Lemma retain_pageView barrier : preserves pageView (SignalBarrier.retain barrier).
Proof. unfold SignalBarrier.retain. preserves_auto. Qed.

Lemma release_pageView barrier : preserves pageView (SignalBarrier.release barrier).
Proof. unfold SignalBarrier.release. preserves_auto. Qed.

Lemma FrameTask_new_pageView frame progress :
  preserves pageView (FrameTask.new frame progress).
Proof.
  unfold FrameTask.new. preserves_auto; by apply updateFrame_pageView.
Qed.

Lemma addFrameNavigation_pageView barrier frame :
  preserves pageView (SignalBarrier.addFrameNavigation barrier frame).
Proof.
  unfold SignalBarrier.addFrameNavigation, FrameTask.waitForNewDocument,
    FrameTask.waitForSameDocumentNavigation.
  preserves_auto; first [apply retain_pageView | apply FrameTask_new_pageView].
Qed.

Lemma frameRequestedNavigation_pageView frameId documentId :
  preserves pageView (FrameManager.frameRequestedNavigation frameId documentId).
Proof.
  unfold FrameManager.frameRequestedNavigation.
  preserves_auto; first [apply addFrameNavigation_pageView | by apply updateFrame_pageView].
Qed.

Lemma frameWillPotentiallyRequestNavigation_pageView :
  preserves pageView FrameManager.frameWillPotentiallyRequestNavigation.
Proof.
  unfold FrameManager.frameWillPotentiallyRequestNavigation.
  preserves_auto. apply retain_pageView.
Qed.

Lemma frameDidPotentiallyRequestNavigation_pageView :
  preserves pageView FrameManager.frameDidPotentiallyRequestNavigation.
Proof.
  unfold FrameManager.frameDidPotentiallyRequestNavigation.
  preserves_auto. apply release_pageView.
Qed.

(** Calls of the frame API that leave the bookkeeping alone. *)
Lemma setContext_pageView frame contextType ctx :
  preserves pageView (Frame._setContext frame contextType ctx).
Proof.
  unfold Frame._setContext, Frame.updateContextData, RerunnableTask.rerun.
  preserves_auto; by apply updateFrame_pageView.
Qed.

Lemma contextCreated_pageView frame contextType ctx :
  preserves pageView (Frame._contextCreated frame contextType ctx).
Proof. unfold Frame._contextCreated. preserves_auto; apply setContext_pageView. Qed.

Lemma contextDestroyed_pageView frame ctx :
  preserves pageView (Frame._contextDestroyed frame ctx).
Proof. unfold Frame._contextDestroyed. preserves_auto. apply setContext_pageView. Qed.

Lemma scheduleRerunnableTask_pageView frame progress contextType task :
  preserves pageView (Frame._scheduleRerunnableTask frame progress contextType task).
Proof.
  unfold Frame._scheduleRerunnableTask, RerunnableTask.new, RerunnableTask.rerun.
  preserves_auto; by apply updateFrame_pageView.
Qed.

Lemma waitForLifecycle_pageView task waitUntil :
  preserves pageView (FrameTask.waitForLifecycle task waitUntil).
Proof.
  unfold FrameTask.waitForLifecycle.
  preserves_auto; try apply preserves_checkLifecycleRecursively.
Qed.

Lemma waitForSpecificDocument_pageView task expectedDocumentId :
  preserves pageView (FrameTask.waitForSpecificDocument task expectedDocumentId).
Proof. unfold FrameTask.waitForSpecificDocument. preserves_auto. Qed.

Lemma FrameTask_done_pageView task : preserves pageView (FrameTask.done task).
Proof. unfold FrameTask.done. preserves_auto. by apply updateFrame_pageView. Qed.

Lemma rerun_settled_pageView task outcome :
  preserves pageView (RerunnableTask.rerun_settled task outcome).
Proof. unfold RerunnableTask.rerun_settled. preserves_auto. Qed.

(** *** The events of one frame keep the invariant of the page *)

Lemma pageInv_stable_view {A} (m : M A) : preserves pageView m → stable pageInv m.
Proof. apply stable_view, pageInv_view. Qed.

Lemma inflightRequestStarted_pageInv request :
  stable pageInv (FrameManager._inflightRequestStarted request).
Proof.
  intros w Hinv. destruct (frameStore w !! request_frame request) as [fr|] eqn:Hf.
  - destruct (inflightRequestStarted_spec w request fr Hf) as (w' & fr0 & Hrun & _).
    rewrite Hrun.
    destruct (inflightRequestStarted_effect w w' request fr Hf (inv_frames w Hinv _ _ Hf) Hrun)
      as (fr' & Hfs & Hid & Hdet & Hfr & Hts & Hfinv).
    by eapply pageInv_actsOn.
  - unfold FrameManager._inflightRequestStarted.
    destruct (_isFavicon request); [done|].
    unfold mbind, M_bind, updateFrame. by rewrite Hf.
Qed.

Lemma inflightRequestFinished_pageInv request :
  stable pageInv (FrameManager._inflightRequestFinished request).
Proof.
  intros w Hinv. destruct (frameStore w !! request_frame request) as [fr|] eqn:Hf.
  - pose proof (inv_frames w Hinv _ _ Hf) as Hfinv0.
    destruct (inflightRequestFinished_spec w request fr Hf (proj1 (proj1 Hfinv0)))
      as (w' & fr0 & Hrun & _).
    rewrite Hrun.
    destruct (inflightRequestFinished_effect w w' request fr Hf Hfinv0 Hrun)
      as (fr' & Hfs & Hid & Hdet & Hfr & Hts & Hfinv).
    by eapply pageInv_actsOn.
  - unfold FrameManager._inflightRequestFinished.
    destruct (_isFavicon request); [done|].
    unfold mbind, M_bind, getFrame. by rewrite Hf.
Qed.

Lemma clearFrameLifecycle_pageInv frame :
  stable pageInv (FrameManager.clearFrameLifecycle frame).
Proof.
  intros w Hinv. destruct (frameStore w !! frame) as [fr|] eqn:Hf.
  - destruct (clearFrameLifecycle_spec w frame fr Hf) as (w' & fr0 & Hrun & _).
    rewrite Hrun.
    destruct (inv_frames w Hinv _ _ Hf) as [Hbook _].
    destruct (clearFrameLifecycle_effect w w' frame fr Hf Hbook Hrun)
      as (fr' & Hfs & Hid & Hdet & Hfr & Hts & Hbook' & Hok).
    eapply pageInv_actsOn; try done. split; [done|]. intros _. by left.
  - unfold FrameManager.clearFrameLifecycle.
    unfold mbind, M_bind, updateFrame. by rewrite Hf.
Qed.

Lemma fireTimer_pageInv w r t :
  pageInv w → EventLoop.fireTimer t w = Some r → pageInv (world_of r).
Proof.
  intros Hinv Hrun.
  destruct (timers w !! t) as [tm|] eqn:Htm;
    [|unfold EventLoop.fireTimer in Hrun; by rewrite Htm in Hrun].
  destruct (callback tm) as [g] eqn:Hcb.
  destruct (fireTimer_effect w r t tm g Hinv Htm Hcb Hrun)
    as (fr & fr' & Hf & Hfs & Hid & Hdet & Hfr & Hts & Hfinv & _).
  by eapply pageInv_actsOn.
Qed.

Lemma requestStarted_pageInv request :
  stable pageInv (FrameManager.requestStarted request).
Proof.
  unfold FrameManager.requestStarted.
  apply stable_bind; [apply inflightRequestStarted_pageInv|intros u].
  apply pageInv_stable_view, preserves_storeView_pageView.
  preserves_auto. apply onRequest_storeView.
Qed.

Lemma requestFinished_pageInv request :
  stable pageInv (FrameManager.requestFinished request).
Proof.
  unfold FrameManager.requestFinished.
  apply stable_bind; [apply inflightRequestFinished_pageInv|intros u].
  apply pageInv_stable_view. preserves_auto.
Qed.

Lemma requestFailed_pageInv request canceled :
  stable pageInv (FrameManager.requestFailed request canceled).
Proof.
  unfold FrameManager.requestFailed.
  apply stable_bind; [apply inflightRequestFinished_pageInv|intros u].
  apply pageInv_stable_view.
  preserves_auto;
    first [ by apply updateFrame_pageView
          | apply preserves_storeView_pageView, onNewDocument_storeView
          | apply preserves_storeView_pageView; preserves_auto ].
Qed.

(** *** Removing frames *)

Lemma removed_refl w : removed w w.
Proof.
  split; [done|]. split; [done|]. split.
  - intros f fr Hf. by exists fr.
  - intros frameId. by left.
Qed.

Lemma removed_view w0 w w' : pageView w' = pageView w → removed w0 w → removed w0 w'.
Proof.
  intros Hv (Hlen & Ht & Hlook & Hmap).
  pose proof Hv as Hv0. unfold pageView in Hv0. injection Hv0 as _ Ht' Hfr'.
  split; [by rewrite (pageView_length w w' Hv)|]. split; [congruence|]. split.
  - intros f fr' Hf.
    destruct (pageView_lookup w w' f fr' Hv Hf) as (fr & Hf1 & [= Hid Hin Hh Hfd Hd]).
    destruct (Hlook f fr Hf1) as (fr0 & Hf0 & Hfields & Hmono).
    exists fr0. split; [done|]. split.
    + rewrite <- Hfields. unfold idleFields. congruence.
    + intros Hd0. rewrite <- Hd. by apply Hmono.
  - intros frameId. rewrite Hfr'.
    destruct (Hmap frameId) as [Heq|(Hnone & f & fr & Hf & Hid & Hd)]; [by left|].
    right. split; [done|].
    assert (Hv' : pageView w = pageView w') by done.
    destruct (pageView_lookup w' w f fr Hv' Hf) as (fr' & Hf' & [= Hid' _ _ _ Hd']).
    exists f, fr'. split; [done|]. split; congruence.
Qed.

Lemma detachedIn_view w w' frame :
  pageView w' = pageView w → detachedIn w frame → detachedIn w' frame.
Proof.
  intros Hv (fr & Hf & Hd).
  assert (Hv' : pageView w = pageView w') by done.
  destruct (pageView_lookup w' w frame fr Hv' Hf) as (fr' & Hf' & [= _ _ _ _ Hd']).
  exists fr'. split; [done|]. congruence.
Qed.

Lemma onDetached_removed w0 frame :
  hoare (removed w0) (Frame._onDetached frame)
    (λ _ w, removed w0 w ∧ detachedIn w frame) (removed w0).
Proof.
  unfold Frame._onDetached.
  apply (hoare_bind _ _ (λ _ w, removed w0 w ∧ detachedIn w frame)).
  - intros w (Hlen & Ht & Hlook & Hmap). unfold updateFrame.
    destruct (frameStore w !! frame) as [fr|] eqn:Hf; [|done].
    unfold removed, detachedIn. simpl.
    assert (Hlt : frame < length (frameStore w)) by by eapply lookup_lt_Some.
    split.
    + split; [by rewrite length_insert|]. split; [done|]. split.
      * intros f fr' Hf'. destruct (decide (frame = f)) as [<-|Hne].
        -- rewrite list_lookup_insert_eq in Hf' by done. injection Hf' as <-.
           destruct (Hlook frame fr Hf) as (fr0 & Hf0 & Hfields & _).
           exists fr0. by repeat split.
        -- rewrite list_lookup_insert_ne in Hf' by done. by apply Hlook.
      * intros frameId.
        destruct (Hmap frameId) as [Heq|(Hnone & f & fr1 & Hf1 & Hid & Hd)]; [by left|].
        right. split; [done|]. destruct (decide (frame = f)) as [<-|Hne].
        -- exists frame, (set_detached true fr).
           rewrite list_lookup_insert_eq by done. split; [done|]. split; [|done].
           simpl. congruence.
        -- exists f, fr1. by rewrite list_lookup_insert_ne.
    + exists (set_detached true fr). by rewrite list_lookup_insert_eq.
  - intros u.
    apply (hoare_conseq _ _ (λ _ w, removed w0 w ∧ detachedIn w frame) _
                        (λ w, removed w0 w ∧ detachedIn w frame)); [done | by intros w [? _]|].
    apply (stable_view pageView).
    + intros w w' Hv [Hr Hd]. split; [by eapply removed_view | by eapply detachedIn_view].
    + unfold RerunnableTask.terminate. preserves_auto; by apply updateFrame_pageView.
Qed.

Lemma removeFramesRecursively_fuel_removed w0 fuel :
  ∀ frame, stable (removed w0) (FrameManager._removeFramesRecursively_fuel fuel frame).
Proof.
  induction fuel as [|fuel IH]; intros frame; simpl; [by intros w|].
  apply stable_bind.
  { apply (stable_view pageView (removed w0)); [apply removed_view|].
    unfold Frame.childFrames. preserves_auto. }
  intros children. apply stable_bind.
  { apply stable_forM. intros child _. apply IH. }
  intros u. eapply hoare_bind; [apply onDetached_removed|].
  intros u'.
  apply (hoare_bind _ _ (λ fr w, (removed w0 w ∧ detachedIn w frame) ∧
                                  frameStore w !! frame = Some fr)).
  { eapply hoare_conseq; [| |apply hoare_getFrame]; [done | by intros w [? _]]. }
  intros fr. apply (hoare_bind _ _ (λ _, removed w0)).
  - intros w [[(Hlen & Ht & Hlook & Hmap) (fr1 & Hf1 & Hd1)] Hf].
    unfold removed. simpl.
    assert (fr1 = fr) as -> by congruence.
    split; [done|]. split; [done|]. split; [done|].
    intros frameId. destruct (decide (_id fr = frameId)) as [<-|Hne].
    + right. rewrite lookup_delete_eq. split; [done|]. by exists frame, fr.
    + rewrite lookup_delete_ne by done. apply Hmap.
  - intros u''. apply (stable_view pageView (removed w0)); [apply removed_view|].
    preserves_auto.
Qed.

Lemma removeFramesRecursively_removed w0 frame :
  stable (removed w0) (FrameManager._removeFramesRecursively frame).
Proof.
  unfold FrameManager._removeFramesRecursively. intros w Hr.
  unfold mbind, M_bind, get. by apply removeFramesRecursively_fuel_removed.
Qed.

Lemma removeChildFramesRecursively_removed w0 frame :
  stable (removed w0) (FrameManager.removeChildFramesRecursively frame).
Proof.
  unfold FrameManager.removeChildFramesRecursively. apply stable_bind.
  { apply (stable_view pageView (removed w0)); [apply removed_view|].
    unfold Frame.childFrames. preserves_auto. }
  intros children. apply stable_forM. intros child _.
  apply removeFramesRecursively_removed.
Qed.

Lemma pageInv_removed w w' : pageInv w → removed w w' → pageInv w'.
Proof.
  intros [Hids Hmap Hlive Hcbs Hfrs] (Hlen & Ht & Hlook & Hgone).
  split.
  - intros f g frf frg Hf Hg Hid.
    destruct (Hlook f frf Hf) as (frf0 & Hf0 & [= Hidf _ _ _] & _).
    destruct (Hlook g frg Hg) as (frg0 & Hg0 & [= Hidg _ _ _] & _).
    apply (Hids f g frf0 frg0); [done|done|congruence].
  - intros frameId f Hf.
    destruct (Hgone frameId) as [Heq|[Hnone _]]; [|congruence].
    rewrite Heq in Hf. destruct (Hmap frameId f Hf) as (fr & Hfr & Hid).
    assert (Hlt : f < length (frameStore w')).
    { rewrite Hlen. by eapply lookup_lt_Some. }
    apply lookup_lt_is_Some in Hlt as [fr' Hf'].
    destruct (Hlook f fr' Hf') as (fr0 & Hf0 & [= Hid' _ _ _] & _).
    exists fr'. split; [done|]. congruence.
  - intros f fr' Hf Hlv.
    destruct (Hlook f fr' Hf) as (fr & Hf0 & [= Hid _ _ _] & Hmono).
    assert (Hlv0 : _detached fr = false).
    { destruct (_detached fr) eqn:Hd; [|done]. rewrite Hmono in Hlv; done. }
    pose proof (Hlive f fr Hf0 Hlv0) as Hm.
    destruct (Hgone (_id fr')) as [Heq|(Hnone & g & frg & Hg & Hidg & Hdg)].
    + rewrite Heq, Hid. done.
    + destruct (Hlook g frg Hg) as (frg0 & Hg0 & [= Hidg0 _ _ _] & _).
      assert (g = f) as -> by (apply (Hids g f frg0 fr); [done|done|congruence]).
      congruence.
  - intros t tm g Htm Hcb. rewrite Hlen. rewrite Ht in Htm. by eapply Hcbs.
  - intros f fr' Hf.
    destruct (Hlook f fr' Hf) as (fr & Hf0 & [= Hid Hin Hh Hfd] & Hmono).
    pose proof (Hfrs f fr Hf0) as ((Hbusy & Hown & Hhan) & Hphase).
    split.
    + unfold bookOk. by rewrite Hin, Hh, Ht.
    + intros Hlv.
      assert (Hlv0 : _detached fr = false).
      { destruct (_detached fr) eqn:Hd; [|done]. rewrite Hmono in Hlv; done. }
      destruct (Hphase Hlv0) as [Hok|(Hnil & Hnf & Hnone)].
      * left. unfold idleOk, timerActive in *. by rewrite Hin, Hh, Hfd, Ht.
      * right. unfold untouched. by rewrite Hin, Hfd, Ht.
Qed.

(** A computation that only removes frames keeps the invariant. *)
Lemma pageInv_stable_removed {A} (m : M A) :
  (∀ w0, stable (removed w0) m) → stable pageInv m.
Proof.
  intros Hm w Hinv.
  pose proof (stable_exec _ _ w (Hm w) (removed_refl w)) as Hr. unfold exec in Hr.
  destruct (m w); by eapply pageInv_removed.
Qed.

Lemma frameDetached_pageInv frameId :
  stable pageInv (FrameManager.frameDetached frameId).
Proof.
  unfold FrameManager.frameDetached.
  apply stable_bind; [by intros w|intros w0].
  destruct (_frames w0 !! frameId) as [frame|]; [|by intros w].
  apply pageInv_stable_removed. intros w1. apply removeFramesRecursively_removed.
Qed.

Lemma frameCommittedNewDocumentNavigation_pageInv frameId url name documentId initial :
  stable pageInv
    (FrameManager.frameCommittedNewDocumentNavigation frameId url name documentId initial).
Proof.
  unfold FrameManager.frameCommittedNewDocumentNavigation.
  apply stable_bind; [by intros w|intros w0].
  destruct (_frames w0 !! frameId) as [frame|]; [|by intros w].
  apply stable_bind.
  { apply pageInv_stable_removed. intros w1. apply removeChildFramesRecursively_removed. }
  intros u.
  repeat (lazymatch goal with
          | |- stable _ (_ ≫= _) => apply stable_bind; [|intros ?]
          end);
    first [ apply clearFrameLifecycle_pageInv
          | apply pageInv_stable_view;
            first [ by apply updateFrame_pageView
                  | apply preserves_forM; intros ?;
                    apply preserves_storeView_pageView, onNewDocument_storeView
                  | by intros ?
                  | preserves_auto ] ].
Qed.

(** *** Attaching a frame *)

Lemma preserves_pair {A X Y} (p : World → X) (q : World → Y) (m : M A) :
  preserves p m → preserves q m → preserves (λ w, (p w, q w)) m.
Proof. intros Hp Hq w. by rewrite Hp, Hq. Qed.

Lemma setContext_null_pageView frame contextType :
  preserves (λ w, (pageView w, _mainFrame w)) (Frame._setContext frame contextType None).
Proof.
  apply preserves_pair; unfold Frame._setContext, Frame.updateContextData;
    preserves_auto; by apply updateFrame_pageView.
Qed.

(** The constructor appends a frame with nothing in flight, nothing fired
    and no timer, and leaves the other frames, the timers and the frame map
    as they are. *)
Lemma Frame_new_pageView w w' id parent f :
  Frame.new id parent w = Ok f w' →
  f = length (frameStore w) ∧
  bookFields <$> frameStore w'
    = (bookFields <$> frameStore w) ++ [(id, [], None, false, false)] ∧
  timers w' = timers w ∧ _frames w' = _frames w ∧ _mainFrame w' = _mainFrame w.
Proof.
  intros Hrun. unfold Frame.new in Hrun.
  apply bind_Ok_inv in Hrun as (p1 & w1 & [= _ <-] & Hrun).
  apply bind_Ok_inv in Hrun as (p2 & w2 & [= _ <-] & Hrun).
  apply bind_Ok_inv in Hrun as (p3 & w3 & [= _ <-] & Hrun).
  apply bind_Ok_inv in Hrun as (frame & w4 & [= <- <-] & Hrun).
  apply bind_Ok_inv in Hrun as ([] & w5 & H5 & Hrun).
  apply (preserves_Ok _ _ _ _ _ (setContext_null_pageView _ _)) in H5.
  apply bind_Ok_inv in Hrun as ([] & w6 & H6 & Hrun).
  apply (preserves_Ok _ _ _ _ _ (setContext_null_pageView _ _)) in H6.
  apply bind_Ok_inv in Hrun as ([] & w7 & H7 & [= <- <-]).
  apply (preserves_Ok (λ w, (pageView w, _mainFrame w))) in H7.
  2: { apply preserves_pair; destruct parent; preserves_auto; by apply updateFrame_pageView. }
  rewrite H6, H5 in H7. unfold pageView in H7. simpl in H7. injection H7 as Hfs Ht Hfr Hm.
  split; [done|]. rewrite Hfs, fmap_app. done.
Qed.

Lemma attached_lookup (store store' : list Frame) id f fr' :
  bookFields <$> store' = (bookFields <$> store) ++ [(id, [], None, false, false)] →
  store' !! f = Some fr' →
  (∃ fr, store !! f = Some fr ∧ bookFields fr = bookFields fr') ∨
  (f = length store ∧ bookFields fr' = (id, [], None, false, false)).
Proof.
  intros Hv Hf.
  assert (H : (bookFields <$> store') !! f = Some (bookFields fr'))
    by by rewrite list_lookup_fmap, Hf.
  rewrite Hv in H. destruct (decide (f < length store)) as [Hlt|Hge].
  - rewrite lookup_app_l in H by by rewrite length_fmap.
    rewrite list_lookup_fmap in H. destruct (store !! f) as [fr|]; [|done].
    left. exists fr. split; [done|]. simpl in H. congruence.
  - rewrite lookup_app_r in H by (rewrite length_fmap; lia).
    rewrite length_fmap in H. destruct (f - length store) as [|n] eqn:Hn; [|done].
    right. split; [lia|]. simpl in H. congruence.
Qed.

Lemma attached_lookup_old (store store' : list Frame) id f fr :
  bookFields <$> store' = (bookFields <$> store) ++ [(id, [], None, false, false)] →
  store !! f = Some fr →
  ∃ fr', store' !! f = Some fr' ∧ bookFields fr' = bookFields fr.
Proof.
  intros Hv Hf. apply lookup_lt_Some in Hf as Hlt.
  assert (H : (bookFields <$> store') !! f = Some (bookFields fr)).
  { rewrite Hv, lookup_app_l by by rewrite length_fmap. by rewrite list_lookup_fmap, Hf. }
  rewrite list_lookup_fmap in H. destruct (store' !! f) as [fr'|]; [|done].
  exists fr'. split; [done|]. simpl in H. congruence.
Qed.

Lemma attached_length (store store' : list Frame) id :
  bookFields <$> store' = (bookFields <$> store) ++ [(id, [], None, false, false)] →
  length store' = S (length store).
Proof.
  intros Hv. rewrite <- (length_fmap bookFields store'), Hv, length_app, length_fmap.
  simpl. lia.
Qed.

Lemma pageInv_attach w w' id :
  pageInv w → freshId w id →
  bookFields <$> frameStore w'
    = (bookFields <$> frameStore w) ++ [(id, [], None, false, false)] →
  timers w' = timers w →
  _frames w' = <[id := length (frameStore w)]> (_frames w) →
  pageInv w'.
Proof.
  intros [Hids Hmap Hlive Hcbs Hfrs] Hfresh Hv Ht Hfr.
  pose proof (attached_length _ _ _ Hv) as Hlen.
  split.
  - intros f g frf frg Hf Hg Hid.
    destruct (attached_lookup _ _ _ _ _ Hv Hf) as [(frf0 & Hf0 & [= Hidf _ _ _ _])|[-> [= Hidf _ _ _ _]]];
      destruct (attached_lookup _ _ _ _ _ Hv Hg) as [(frg0 & Hg0 & [= Hidg _ _ _ _])|[-> [= Hidg _ _ _ _]]].
    + apply (Hids f g frf0 frg0); [done|done|congruence].
    + destruct (Hfresh f frf0 Hf0). congruence.
    + destruct (Hfresh g frg0 Hg0). congruence.
    + done.
  - intros frameId f Hf. rewrite Hfr in Hf.
    destruct (decide (id = frameId)) as [<-|Hne].
    + rewrite lookup_insert_eq in Hf. injection Hf as <-.
      assert (Hlt : length (frameStore w) < length (frameStore w')) by lia.
      apply lookup_lt_is_Some in Hlt as [fr' Hf'].
      exists fr'. split; [done|].
      destruct (attached_lookup _ _ _ _ _ Hv Hf') as [(fr0 & Hf0 & _)|[_ [= Hid _ _ _ _]]]; [|done].
      apply lookup_lt_Some in Hf0. lia.
    + rewrite lookup_insert_ne in Hf by done.
      destruct (Hmap frameId f Hf) as (fr & Hf0 & Hid).
      destruct (attached_lookup_old _ _ _ _ _ Hv Hf0) as (fr' & Hf' & [= Hid' _ _ _ _]).
      exists fr'. split; [done|]. congruence.
  - intros f fr' Hf Hlv. rewrite Hfr.
    destruct (attached_lookup _ _ _ _ _ Hv Hf) as [(fr0 & Hf0 & [= Hid _ _ _ Hd])|[-> [= Hid _ _ _ _]]].
    + rewrite lookup_insert_ne.
      * rewrite <- Hid. apply Hlive; [done|congruence].
      * intros Heq. destruct (Hfresh f fr0 Hf0). congruence.
    + by rewrite Hid, lookup_insert_eq.
  - intros t tm g Htm Hcb. rewrite Ht in Htm. specialize (Hcbs t tm g Htm Hcb). lia.
  - intros f fr' Hf.
    destruct (attached_lookup _ _ _ _ _ Hv Hf) as [(fr0 & Hf0 & [= _ Hin Hh Hfd Hd])|[-> [= _ Hin Hh Hfd Hd]]].
    + apply (frameInv_transfer w w' f fr0 fr'); try done.
      * rewrite Ht. apply sameTimersOf_refl.
      * by apply Hfrs.
    + assert (Hnone : ∀ t tm, timers w' !! t = Some tm →
                              callback tm ≠ NetworkIdleCallback (length (frameStore w))).
      { intros t tm Htm Hcb. rewrite Ht in Htm. specialize (Hcbs t tm _ Htm Hcb). lia. }
      split.
      * unfold bookOk. rewrite Hh. split; [done|]. split; [|apply ownsHandle_None].
        intros t tm Htm Hcb. by destruct (Hnone t tm Htm).
      * intros _. right. by split.
Qed.

Lemma pageInv_reid w w' mainFrame fr id :
  pageInv w → freshId w id →
  frameStore w !! mainFrame = Some fr →
  frameStore w' = <[mainFrame := set_id id fr]> (frameStore w) →
  timers w' = timers w →
  _frames w' = <[id := mainFrame]> (delete (_id fr) (_frames w)) →
  pageInv w'.
Proof.
  intros [Hids Hmap Hlive Hcbs Hfrs] Hfresh Hm Hfs Ht Hfr.
  assert (Hlt : mainFrame < length (frameStore w)) by by eapply lookup_lt_Some.
  assert (Hlook : ∀ f fr', frameStore w' !! f = Some fr' →
            (f = mainFrame ∧ fr' = set_id id fr) ∨
            (f ≠ mainFrame ∧ frameStore w !! f = Some fr')).
  { intros f fr' Hf. rewrite Hfs in Hf. destruct (decide (mainFrame = f)) as [<-|Hne].
    - rewrite list_lookup_insert_eq in Hf by done. injection Hf as <-. by left.
    - rewrite list_lookup_insert_ne in Hf by done. right. by split. }
  split.
  - intros f g frf frg Hf Hg Hid.
    destruct (Hlook f frf Hf) as [[-> ->]|[Hnf Hf0]];
      destruct (Hlook g frg Hg) as [[-> ->]|[Hng Hg0]]; [done| | |by eapply Hids].
    + destruct (Hfresh g frg Hg0). by rewrite <- Hid.
    + destruct (Hfresh f frf Hf0). by rewrite Hid.
  - intros frameId f Hf. rewrite Hfr in Hf. rewrite Hfs.
    destruct (decide (id = frameId)) as [<-|Hne].
    + rewrite lookup_insert_eq in Hf. injection Hf as <-.
      rewrite list_lookup_insert_eq by done. by eexists.
    + rewrite lookup_insert_ne in Hf by done.
      destruct (decide (_id fr = frameId)) as [Heq|Hne'].
      { by rewrite Heq, lookup_delete_eq in Hf. }
      rewrite lookup_delete_ne in Hf by done.
      destruct (Hmap frameId f Hf) as (frf & Hf0 & Hid).
      destruct (decide (mainFrame = f)) as [<-|Hnm]; [congruence|].
      rewrite list_lookup_insert_ne by done. by exists frf.
  - intros f fr' Hf Hlv. rewrite Hfr.
    destruct (Hlook f fr' Hf) as [[-> ->]|[Hnf Hf0]].
    + simpl. by rewrite lookup_insert_eq.
    + rewrite lookup_insert_ne by (intros Heq; by destruct (Hfresh f fr' Hf0)).
      rewrite lookup_delete_ne; [by apply Hlive|].
      intros Heq. apply Hnf. by eapply Hids.
  - intros t tm g Htm Hcb. rewrite Hfs, length_insert. rewrite Ht in Htm. by eapply Hcbs.
  - intros f fr' Hf.
    destruct (Hlook f fr' Hf) as [[-> ->]|[Hnf Hf0]].
    + apply (frameInv_transfer w w' mainFrame fr (set_id id fr)); try done.
      * rewrite Ht. apply sameTimersOf_refl.
      * by apply Hfrs.
    + apply (frameInv_transfer w w' f fr' fr'); try done.
      * rewrite Ht. apply sameTimersOf_refl.
      * by apply Hfrs.
Qed.

Lemma frameAttached_pageInv w frameId parentFrameId :
  pageInv w → freshId w frameId →
  pageInv (exec (FrameManager.frameAttached frameId parentFrameId) w).
Proof.
  intros Hinv Hfresh. unfold exec, FrameManager.frameAttached.
  unfold mbind at 1, M_bind at 1, get.
  destruct (match parentFrameId with
            | Some id => if truthy parentFrameId then _frames w !! id else None
            | None => None
            end) as [parentFrame|] eqn:Hp.
  - assert (Hparent : ∀ p, Some parentFrame = Some p → is_Some (frameStore w !! p)).
    { intros p [= <-]. destruct parentFrameId as [id|]; [|done].
      destruct (truthy (Some id)); [|done].
      destruct (inv_map w Hinv id parentFrame Hp) as (fr & Hf & _). by exists fr. }
    destruct (Frame_new_spec w frameId (Some parentFrame) Hparent)
      as (w2 & fr & Hrun & _).
    unfold mbind, M_bind, assert, mret, M_ret, throw.
    destruct (negb _); [|done]. rewrite Hrun.
    apply Frame_new_pageView in Hrun as (_ & Hv & Ht & Hfr & _).
    apply (pageInv_attach w _ frameId); try done. simpl. by rewrite Hfr.
  - destruct (_mainFrame w) as [mainFrame|] eqn:Hmain.
    + unfold mbind, M_bind, getFrame, modify, updateFrame, get, mret, M_ret. simpl.
      destruct (frameStore w !! mainFrame) as [fr|] eqn:Hm; [|done]. simpl.
      rewrite Hm. simpl. rewrite Hmain. simpl.
      by apply (pageInv_reid w _ mainFrame fr frameId).
    + destruct (Frame_new_spec w frameId None) as (w2 & fr & Hrun & _); [done|].
      unfold mbind, M_bind, assert, mret, M_ret, throw, modify, get.
      destruct (negb _); [|done]. rewrite Hrun. simpl.
      apply Frame_new_pageView in Hrun as (_ & Hv & Ht & Hfr & _).
      apply (pageInv_attach w _ frameId); try done. simpl. by rewrite Hfr.
Qed.

(** *** Every step keeps the invariant *)

Lemma pageInv_new : pageInv FrameManager.new.
Proof. by split. Qed.

Lemma dispatch_pageInv e w :
  pageInv w → admissible w e → pageInv (exec (dispatch e) w).
Proof.
  intros Hinv Hadm.
  destruct e; simpl in Hadm;
    try (apply stable_exec; [|done]; simpl;
         first [ apply frameDetached_pageInv
               | apply frameCommittedNewDocumentNavigation_pageInv
               | apply requestStarted_pageInv
               | apply requestFinished_pageInv
               | apply requestFailed_pageInv
               | apply clearFrameLifecycle_pageInv
               | apply pageInv_stable_view;
                 first [ apply frameCommittedSameDocumentNavigation_pageView
                       | apply frameWillPotentiallyRequestNavigation_pageView
                       | apply frameDidPotentiallyRequestNavigation_pageView
                       | apply frameRequestedNavigation_pageView
                       | apply frameUpdatedDocumentIdForNavigation_pageView
                       | apply frameStoppedLoading_pageView
                       | by apply frameLifecycleEvent_pageView
                       | apply provisionalLoadFailed_pageView
                       | apply requestReceivedResponse_pageView
                       | apply advance_pageView ] ]).
  pose proof (frameAttached_pageInv w frameId parentFrameId Hinv Hadm) as H.
  unfold exec in *. simpl. unfold mbind, M_bind.
  by destruct (FrameManager.frameAttached frameId parentFrameId w).
Qed.

Lemma pageStep_pageInv w w' : pageStep w w' → pageInv w → pageInv w'.
Proof.
  intros [e w1 w2 Hadm <-|t w1 r Hrun|A m w1 w2 Hm <-] Hinv.
  - by apply dispatch_pageInv.
  - by eapply fireTimer_pageInv.
  - apply stable_exec; [|done]. by apply pageInv_stable_view.
Qed.

Lemma reachable_pageInv w : rtc pageStep FrameManager.new w → pageInv w.
Proof.
  intros Hsteps. assert (H : pageInv FrameManager.new) by apply pageInv_new.
  induction Hsteps as [|w1 w2 w3 Hstep _ IH]; [done|].
  apply IH. by eapply pageStep_pageInv.
Qed.

(** C4, amended. At every instant that a page reaches from a new frame
    manager through events of the browser (a frame id is not used twice,
    networkidle is declared by the timer only; the handler returns or
    throws), firings of timers and calls that leave the bookkeeping alone,
    every frame that is not detached has
    the property: its network-idle timer is active if and only if
    [_inflightRequests] is empty and networkidle has not fired, so that an
    empty [_inflightRequests] implies that the timer is active or networkidle
    has fired.  The one exception is a frame that is still untouched (no
    request in flight, networkidle not fired, no timer ever started for it:
    a frame before its first commit and its first request), which has no
    active timer. *)
Theorem C4_network_idle_invariant (w : World) (frame : nat) (fr : Frame) :
  rtc pageStep FrameManager.new w →
  frameStore w !! frame = Some fr → _detached fr = false →
  ((timerActive w fr = true ↔
    _inflightRequests fr = [] ∧ networkIdleFired fr = false) ∧
   (_inflightRequests fr = [] →
    timerActive w fr = true ∨ networkIdleFired fr = true)) ∨
  (untouched w frame fr ∧ timerActive w fr = false).
Proof.
  intros Hsteps Hf Hlive.
  destruct (inv_frames w (reachable_pageInv w Hsteps) frame fr Hf)
    as ((_ & _ & Hhan) & Hphase).
  destruct (Hphase Hlive) as [Hok|Hun].
  - left. split; [done|]. intros Hnil.
    destruct (networkIdleFired fr) eqn:Hfired; [by right|]. left. by apply Hok.
  - right. split; [done|]. unfold timerActive, activeIn.
    destruct (_networkIdleTimer fr) as [t|]; [|done].
    destruct (Hhan t eq_refl) as (tm & Htm & Hcb). destruct Hun as (_ & _ & Hnone).
    by destruct (Hnone t tm Htm).
Qed.

Lemma C4_witness :
  ∃ fr, frameStore committed_page !! 0 = Some fr ∧ timerActive committed_page fr = true.
Proof.
  assert (Hsteps : rtc pageStep FrameManager.new committed_page).
  { apply (rtc_l _ _ attached_page).
    - apply (step_event (EFrameAttached "main" None)); [|vm_compute; reflexivity].
      intros f fr Hf. by destruct f.
    - apply (rtc_l _ _ committed_page); [|apply rtc_refl].
      apply (step_event (ECommittedNewDocument "main" "https://a/" "" "D1" true));
        [exact I | vm_compute; reflexivity]. }
  destruct (C4_network_idle_invariant committed_page 0 _ Hsteps eq_refl eq_refl)
    as [[Hiff _]|[_ Hoff]].
  - eexists. split; [reflexivity|]. apply Hiff. by split.
  - discriminate Hoff.
Defined.

(** C4 as stated fails on a freshly constructed frame: no request is in
    flight, networkidle has not fired, and no timer is active. *)
Lemma C4_counterexample :
  ∃ fr,
    FrameManager.frameAttached "main" None FrameManager.new = Ok 0 attached_page ∧
    frameStore attached_page !! 0 = Some fr ∧
    _inflightRequests fr = [] ∧ networkIdleFired fr = false ∧
    timerActive attached_page fr = false ∧
    ¬ (timerActive attached_page fr = true ↔
       _inflightRequests fr = [] ∧ networkIdleFired fr = false) ∧
    ¬ (_inflightRequests fr = [] →
       timerActive attached_page fr = true ∨ networkIdleFired fr = true).
Proof.
  eexists. split; [vm_compute; reflexivity|]. split; [vm_compute; reflexivity|].
  split; [reflexivity|]. split; [reflexivity|]. split; [reflexivity|].
  split.
  - intros [_ H]. by specialize (H (conj eq_refl eq_refl)).
  - intros H. by destruct (H eq_refl).
Qed.

(** *** When the timer is started and stopped (C5) *)

(** A timer of a frame that is in the frame map fires: networkidle has
    fired on the frame afterwards. *)
Lemma fireTimer_declares w w' t tm frame fr :
  frameStore w !! frame = Some fr → _frames w !! _id fr = Some frame →
  timers w !! t = Some tm → callback tm = NetworkIdleCallback frame →
  EventLoop.fireTimer t w = Some (Ok tt w') →
  ∃ fr', frameStore w' !! frame = Some fr' ∧ networkIdleFired fr' = true.
Proof.
  intros Hf Hatt Htm Hcb.
  assert (Hlt : frame < length (frameStore w)) by by eapply lookup_lt_Some.
  unfold EventLoop.fireTimer, EventLoop.timerDue. rewrite Htm.
  destruct (bool_decide (status tm = Scheduled)); [|done].
  destruct (due tm <=? now w)%Z; [|done]. simpl.
  rewrite Hcb. unfold mbind at 1 2, M_bind, modify, getFrame. simpl. rewrite Hf.
  intros [= Hrun].
  apply frameLifecycleEvent_spec in Hrun as (_ & _ & _ & Hfs).
  simpl in Hfs. rewrite Hatt in Hfs. destruct Hfs as (frg & Hfrg & Hfs).
  assert (frg = fr) as -> by congruence.
  destruct (set_has "networkidle"%string (_firedLifecycleEvents fr)) eqn:Hfired.
  - exists fr. by rewrite Hfs.
  - exists (set_firedLifecycleEvents (set_add "networkidle"%string) fr).
    rewrite Hfs, list_lookup_insert_eq by done. split; [done|]. apply set_has_set_add.
Qed.

(** C5, amended. The timer is started by [_inflightRequestFinished] exactly
    when a tracked, non-favicon request leaves [_inflightRequests] empty
    while networkidle has not fired, and by [clearFrameLifecycle] (a
    new-document commit) exactly when no request of the committed document
    is left in flight, whether or not the set was empty before.  A started
    timer is due 500 ms later, cannot fire before that, and when it fires on
    an attached frame networkidle has fired on that frame afterwards.
    [_inflightRequestStarted] starts no timer and, when a non-favicon request
    makes the empty set non-empty, stops the timer; [clearFrameLifecycle]
    stops the timer that was running before it. *)
Theorem C5_network_idle_timer (w : World) (request : Request) (fr : Frame) :
  idleBase w (request_frame request) fr →
  (∃ w', FrameManager._inflightRequestFinished request w = Ok tt w' ∧
     (timerStarted w w' ↔
      _isFavicon request = false ∧ request ∈ _inflightRequests fr ∧
      set_delete request (_inflightRequests fr) = [] ∧ networkIdleFired fr = false) ∧
     (timerStarted w w' →
      timers w' !! length (timers w) = Some (newTimer w (request_frame request)))) ∧
  (∃ w' fr', FrameManager.clearFrameLifecycle (request_frame request) w = Ok tt w' ∧
     frameStore w' !! request_frame request = Some fr' ∧
     (timerStarted w w' ↔ keptRequests fr = []) ∧
     (timerStarted w w' →
      timers w' !! length (timers w) = Some (newTimer w (request_frame request)) ∧
      _networkIdleTimer fr' = Some (length (timers w))) ∧
     (∀ t tm, _networkIdleTimer fr = Some t → timers w !! t = Some tm →
              activeIn (timers w') (Some t) = false)) ∧
  (∃ w' fr', FrameManager._inflightRequestStarted request w = Ok tt w' ∧
     frameStore w' !! request_frame request = Some fr' ∧
     length (timers w') = length (timers w) ∧
     (_isFavicon request = false → _inflightRequests fr = [] →
      _inflightRequests fr' = [request] ∧ timerActive w' fr' = false ∧
      ∀ t tm, _networkIdleTimer fr = Some t → timers w !! t = Some tm →
              activeIn (timers w') (Some t) = false)) ∧
  (∀ t tm, timers w !! t = Some tm → callback tm = NetworkIdleCallback (request_frame request) →
     (is_Some (EventLoop.fireTimer t w) ↔ status tm = Scheduled ∧ (due tm ≤ now w)%Z) ∧
     (∀ w', EventLoop.fireTimer t w = Some (Ok tt w') →
            ∃ fr', frameStore w' !! request_frame request = Some fr' ∧
                   networkIdleFired fr' = true)).
Proof.
  intros Hbase. pose proof Hbase as (Hf & Hatt & Hbusy & Hown & Hhan).
  set (frame := request_frame request) in *.
  assert (Hlt : frame < length (frameStore w)) by by eapply lookup_lt_Some.
  split; [|split; [|split]].
  - destruct (inflightRequestFinished_spec w request fr Hf Hbusy)
      as (w' & fr' & Hrun & _ & _ & Hcase).
    exists w'. split; [done|]. unfold timerStarted.
    destruct (_isFavicon request); simpl in Hcase.
    { destruct Hcase as [-> _]. split; [split; [lia | by intros [? _]] | lia]. }
    destruct (set_has request (_inflightRequests fr)) eqn:Hhas; simpl in Hcase.
    2: { destruct Hcase as [-> _]. apply bool_decide_eq_false in Hhas.
         split; [split; [lia | by intros (_ & ? & _)] | lia]. }
    apply bool_decide_eq_true in Hhas.
    destruct Hcase as (_ & _ & _ & _ & _ & Hcase).
    destruct (bool_decide (set_delete request (_inflightRequests fr) = [])) eqn:Hd;
      destruct (networkIdleFired fr) eqn:Hfd; simpl in Hcase;
      destruct Hcase as [_ ->]; rewrite ?length_app; simpl.
    + split; [split; [lia | by intros (_ & _ & _ & ?)] | lia].
    + apply bool_decide_eq_true in Hd. split; [split; [done | lia]|].
      intros _. by apply list_lookup_middle.
    + apply bool_decide_eq_false in Hd. split; [split; [lia | by intros (_ & _ & ? & _)] | lia].
    + apply bool_decide_eq_false in Hd. split; [split; [lia | by intros (_ & _ & ? & _)] | lia].
  - destruct (clearFrameLifecycle_spec w frame fr Hf)
      as (w' & fr' & Hrun & Hfs & _ & _ & _ & _ & _ & _ & Hcase).
    exists w', fr'. split; [done|].
    split; [rewrite Hfs; by apply list_lookup_insert_eq|].
    assert (Hstops : ∀ t tm, _networkIdleTimer fr = Some t → timers w !! t = Some tm →
                             activeIn (timers w') (Some t) = false)
      by (intros; by eapply clearFrameLifecycle_stops).
    unfold timerStarted.
    destruct (decide (keptRequests fr = [])) as [Hk|Hk]; destruct Hcase as [Hh Ht];
      rewrite Ht in Hstops |- *; rewrite ?length_app, stoppedTimers_length; simpl.
    + split; [split; [done | lia]|]. split; [|done].
      intros _. split; [|done].
      rewrite <- (stoppedTimers_length (_networkIdleTimer fr) (timers w)).
      by apply list_lookup_middle.
    + split; [split; [lia | done]|]. split; [lia | done].
  - destruct (inflightRequestStarted_spec w request fr Hf)
      as (w' & fr' & Hrun & _ & _ & Hcase).
    exists w', fr'. split; [done|].
    destruct (_isFavicon request).
    { destruct Hcase as [-> ->]. done. }
    destruct Hcase as (Hfs & _ & _ & _ & Hin & Hcase).
    split; [rewrite Hfs; by apply list_lookup_insert_eq|].
    split.
    { destruct (decide _); destruct Hcase as [_ ->]; [apply stoppedTimers_length | done]. }
    intros _ Hnil. rewrite Hnil in *. simpl in Hcase. destruct Hcase as [Hh Ht].
    split; [done|]. unfold timerActive. rewrite Hh. split; [done|].
    intros t tm Hh' Htm. rewrite Ht, Hh'. by eapply stoppedTimers_handle.
  - intros t tm Htm Hcb. split.
    + unfold EventLoop.fireTimer, EventLoop.timerDue. rewrite Htm.
      destruct (bool_decide (status tm = Scheduled)) eqn:Hs; simpl.
      * apply bool_decide_eq_true in Hs.
        destruct (due tm <=? now w)%Z eqn:Hdue.
        -- apply Z.leb_le in Hdue. split; [done | by eexists].
        -- apply Z.leb_gt in Hdue. split; [by intros [? ?] | lia].
      * apply bool_decide_eq_false in Hs. split; [by intros [? ?] | by intros [? _]].
    + intros w' Hfire. by eapply fireTimer_declares.
Qed.

Lemma C5_witness :
  ∃ w' fr', FrameManager._inflightRequestStarted R2 committed_page = Ok tt w' ∧
            frameStore w' !! 0 = Some fr' ∧
            _inflightRequests fr' = [R2] ∧ timerActive w' fr' = false.
Proof.
  edestruct (C5_network_idle_timer committed_page R2)
    as (_ & _ & (w' & fr' & Hrun & Hf & _ & Hstop) & _).
  - split; [vm_compute; reflexivity|]. split; [vm_compute; reflexivity|].
    split; [done|]. split.
    + intros t tm Htm _ _. destruct t as [|t]; [done|]. by destruct t.
    + intros t [= <-]. eexists. split; reflexivity.
  - exists w', fr'. split; [exact Hrun|]. split; [exact Hf|].
    destruct Hstop as (Hin & Hact & _); [reflexivity | reflexivity |by split].
Defined.

(** C5 as stated fails: the first commit on a frame starts the timer although
    [_inflightRequests] was empty before and is empty after, so nothing
    transitioned to empty. *)
Lemma C5_counterexample :
  ∃ fr fr',
    FrameManager.frameCommittedNewDocumentNavigation "main" "https://a/" "" "D1" true attached_page
      = Ok tt committed_page ∧
    frameStore attached_page !! 0 = Some fr ∧ frameStore committed_page !! 0 = Some fr' ∧
    _inflightRequests fr = [] ∧ _inflightRequests fr' = [] ∧
    timerStarted attached_page committed_page ∧ timerActive committed_page fr' = true ∧
    ¬ (timerStarted attached_page committed_page →
       _inflightRequests fr ≠ [] ∧ _inflightRequests fr' = []).
Proof.
  eexists _, _. split; [vm_compute; reflexivity|].
  split; [vm_compute; reflexivity|]. split; [vm_compute; reflexivity|].
  split; [reflexivity|]. split; [reflexivity|]. split; [reflexivity|].
  split; [reflexivity|]. intros H. by destruct (H eq_refl).
Qed.

(** *** Detach and commit (C6) *)

Lemma updateFrame_handleView frame g :
  (∀ fr, _networkIdleTimer (g fr) = _networkIdleTimer fr) →
  preserves handleView (updateFrame frame g).
Proof.
  intros Hg w. unfold updateFrame.
  destruct (frameStore w !! frame) as [fr|] eqn:Hf; [|done].
  unfold handleView. simpl. rewrite list_fmap_insert, Hg.
  rewrite list_insert_id; [done|]. by rewrite list_lookup_fmap, Hf.
Qed.

Lemma preserves_storeView_handleView {A} (m : M A) :
  preserves storeView m → preserves handleView m.
Proof.
  intros Hm w. specialize (Hm w). unfold storeView, handleView in *.
  injection Hm as -> -> _ _. done.
Qed.

Lemma onDetached_handleView frame : preserves handleView (Frame._onDetached frame).
Proof.
  unfold Frame._onDetached, RerunnableTask.terminate.
  preserves_auto; by apply updateFrame_handleView.
Qed.

Lemma removeChildFramesRecursively_handleView frame :
  preserves handleView (FrameManager.removeChildFramesRecursively frame).
Proof.
  unfold FrameManager.removeChildFramesRecursively, Frame.childFrames,
    FrameManager._removeFramesRecursively.
  preserves_auto.
  apply removeFramesRecursively_fuel_preserves; try done.
  apply onDetached_handleView.
Qed.

Lemma handleView_lookup w w' frame fr :
  handleView w' = handleView w → frameStore w !! frame = Some fr →
  timers w' = timers w ∧
  ∃ fr', frameStore w' !! frame = Some fr' ∧ _networkIdleTimer fr' = _networkIdleTimer fr.
Proof.
  unfold handleView. intros [= Hh Ht] Hf. split; [done|].
  assert (Hl : (_networkIdleTimer <$> frameStore w') !! frame = Some (_networkIdleTimer fr))
    by by rewrite Hh, list_lookup_fmap, Hf.
  rewrite list_lookup_fmap in Hl.
  destruct (frameStore w' !! frame) as [fr'|]; [|done].
  injection Hl as Hl. by exists fr'.
Qed.

(** One statement of a handler that has returned: the world after it has the
    same handles and timers as the world before. *)
Ltac peel H Hv lem :=
  let a := fresh "a" in
  let w1 := fresh "w" in
  let H1 := fresh "Hp" in
  let Hv' := fresh "Hv" in
  apply bind_Ok_inv in H as (a & w1 & H1 & H);
  apply (preserves_Ok handleView) in H1; [|lem];
  pose proof (eq_trans H1 Hv) as Hv'; clear Hv H1; rename Hv' into Hv.

Lemma commit_cancels w w' frameId url name documentId initial frame fr t tm :
  _frames w !! frameId = Some frame →
  frameStore w !! frame = Some fr →
  _networkIdleTimer fr = Some t → timers w !! t = Some tm →
  FrameManager.frameCommittedNewDocumentNavigation frameId url name documentId initial w
    = Ok tt w' →
  activeIn (timers w') (Some t) = false.
Proof.
  intros Hid Hf Hh Htm Hrun.
  unfold FrameManager.frameCommittedNewDocumentNavigation in Hrun.
  unfold mbind at 1, M_bind at 1, get in Hrun. rewrite Hid in Hrun.
  assert (Hv : handleView w = handleView w) by done.
  peel Hrun Hv ltac:(apply removeChildFramesRecursively_handleView).
  peel Hrun Hv ltac:(by apply updateFrame_handleView).
  peel Hrun Hv ltac:(by apply updateFrame_handleView).
  peel Hrun Hv ltac:(apply preserves_getFrame).
  peel Hrun Hv ltac:(by intros ?).
  peel Hrun Hv ltac:(by apply updateFrame_handleView).
  peel Hrun Hv ltac:(by apply updateFrame_handleView).
  peel Hrun Hv ltac:(apply preserves_forM; intros ?;
                     apply preserves_storeView_handleView, onNewDocument_storeView).
  apply bind_Ok_inv in Hrun as ([] & w9 & Hclear & Hrun).
  destruct (handleView_lookup w w7 frame fr Hv Hf) as (Ht7 & fr7 & Hf7 & Hh7).
  assert (Ht' : timers w' = timers w9).
  { apply (preserves_Ok timers) in Hrun; [done|]. preserves_auto. }
  rewrite Ht'. eapply clearFrameLifecycle_stops; [exact Hf7 | exact Hclear | |].
  - by rewrite Hh7.
  - by rewrite Ht7.
Qed.

Lemma updateFrame_detachView frame g :
  (∀ fr, _id (g fr) = _id fr ∧ _networkIdleTimer (g fr) = _networkIdleTimer fr) →
  preserves detachView (updateFrame frame g).
Proof.
  intros Hg w. unfold updateFrame.
  destruct (frameStore w !! frame) as [fr|] eqn:Hf; [|done].
  unfold detachView. simpl. rewrite list_fmap_insert.
  destruct (Hg fr) as [-> ->].
  rewrite list_insert_id; [done|]. by rewrite list_lookup_fmap, Hf.
Qed.

Lemma onDetached_detachView frame : preserves detachView (Frame._onDetached frame).
Proof.
  unfold Frame._onDetached, RerunnableTask.terminate.
  preserves_auto; by apply updateFrame_detachView.
Qed.

Lemma detachView_lookup w w' frame fr :
  detachView w' = detachView w → frameStore w !! frame = Some fr →
  timers w' = timers w ∧
  ∃ fr', frameStore w' !! frame = Some fr' ∧ _id fr' = _id fr ∧
         _networkIdleTimer fr' = _networkIdleTimer fr.
Proof.
  unfold detachView. intros [= Hh Ht] Hf. split; [done|].
  assert (Hl : ((λ fr, (_id fr, _networkIdleTimer fr)) <$> frameStore w') !! frame
               = Some (_id fr, _networkIdleTimer fr))
    by by rewrite Hh, list_lookup_fmap, Hf.
  rewrite list_lookup_fmap in Hl.
  destruct (frameStore w' !! frame) as [fr'|]; [|done].
  injection Hl as Hl1 Hl2. by exists fr'.
Qed.

Lemma frameDetached_unmaps w w' frameId frame fr :
  _frames w !! frameId = Some frame →
  frameStore w !! frame = Some fr → _id fr = frameId →
  FrameManager.frameDetached frameId w = Ok tt w' →
  _frames w' !! frameId = None ∧ timers w' = timers w ∧
  ∃ fr', frameStore w' !! frame = Some fr' ∧ _id fr' = frameId ∧
         _networkIdleTimer fr' = _networkIdleTimer fr.
Proof.
  intros Hid Hf Hfid Hrun.
  unfold FrameManager.frameDetached in Hrun.
  unfold mbind at 1, M_bind at 1, get in Hrun. rewrite Hid in Hrun.
  unfold FrameManager._removeFramesRecursively in Hrun.
  unfold mbind at 1, M_bind at 1, get in Hrun.
  destruct (length (frameStore w)) as [|fuel]; [done|]. simpl in Hrun.
  apply bind_Ok_inv in Hrun as (children & w1 & H1 & Hrun).
  apply (preserves_Ok detachView) in H1; [|unfold Frame.childFrames; preserves_auto].
  apply bind_Ok_inv in Hrun as ([] & w2 & H2 & Hrun).
  apply (preserves_Ok detachView) in H2.
  2: { apply preserves_forM. intros child.
       apply removeFramesRecursively_fuel_preserves; try done.
       apply onDetached_detachView. }
  apply bind_Ok_inv in Hrun as ([] & w3 & H3 & Hrun).
  apply (preserves_Ok detachView) in H3; [|apply onDetached_detachView].
  assert (Hv : detachView w3 = detachView w) by congruence.
  destruct (detachView_lookup w w3 frame fr Hv Hf) as (Ht3 & fr3 & Hf3 & Hid3 & Hh3).
  unfold mbind, M_bind, getFrame, modify, emit, effect in Hrun.
  rewrite Hf3 in Hrun. simpl in Hrun. injection Hrun as <-. simpl.
  rewrite Hid3, Hfid, lookup_delete_eq. split; [done|]. split; [done|].
  exists fr3. by rewrite Hid3, Hfid.
Qed.

(** C6, amended. A new-document commit cancels the timer the committing
    frame had before it.  Detaching a frame cancels no timer: [_onDetached]
    and the [frameDetached] event leave every timer as it was, so a timer
    that was running on the frame is still running on it afterwards, while
    the frame's id is no longer in the frame map. *)
Theorem C6_timer_on_commit_and_detach (w : World) (frameId : string) (frame : nat)
  (fr : Frame) (t : nat) (tm : Timer) :
  _frames w !! frameId = Some frame →
  frameStore w !! frame = Some fr → _id fr = frameId →
  _networkIdleTimer fr = Some t →
  timers w !! t = Some tm →
  (∀ url name documentId initial w',
     FrameManager.frameCommittedNewDocumentNavigation frameId url name documentId initial w
       = Ok tt w' →
     activeIn (timers w') (Some t) = false) ∧
  timers (world_of (Frame._onDetached frame w)) = timers w ∧
  timers (world_of (FrameManager.frameDetached frameId w)) = timers w ∧
  (∀ w', FrameManager.frameDetached frameId w = Ok tt w' →
     _frames w' !! frameId = None ∧
     (∃ fr', frameStore w' !! frame = Some fr' ∧ _networkIdleTimer fr' = Some t ∧
             timerActive w' fr' = timerActive w fr)).
Proof.
  intros Hid Hf Hfid Hh Htm.
  split; [intros; by eapply commit_cancels|].
  split; [apply onDetached_timers|].
  split; [apply frameDetached_timers|].
  intros w' Hrun.
  destruct (frameDetached_unmaps w w' frameId frame fr Hid Hf Hfid Hrun)
    as (Hnone & Ht & fr' & Hf' & Hid' & Hh').
  split; [done|].
  exists fr'. split; [done|]. split; [congruence|].
  unfold timerActive. by rewrite Hh', Ht.
Qed.

Lemma C6_witness :
  ∃ fr', FrameManager.frameDetached "main" committed_page = Ok tt committed_detached_page ∧
         frameStore committed_detached_page !! 0 = Some fr' ∧ _networkIdleTimer fr' = Some 0.
Proof.
  edestruct (C6_timer_on_commit_and_detach committed_page "main" 0) with (t := 0)
    as (_ & _ & _ & Hdet);
    [vm_compute; reflexivity | vm_compute; reflexivity | reflexivity | reflexivity
    | vm_compute; reflexivity |].
  destruct (Hdet committed_detached_page) as (_ & fr' & Hf & Hh & _); [vm_compute; reflexivity|].
  exists fr'. split; [vm_compute; reflexivity|]. split; [exact Hf | exact Hh].
Defined.

(** C6 as stated fails for detach: the committed main frame has a running
    network-idle timer; after [frameDetached] the frame is detached and the
    timer is still scheduled. *)
Lemma C6_counterexample :
  ∃ fr fr',
    frameStore committed_page !! 0 = Some fr ∧ timerActive committed_page fr = true ∧
    FrameManager.frameDetached "main" committed_page = Ok tt committed_detached_page ∧
    frameStore committed_detached_page !! 0 = Some fr' ∧ _detached fr' = true ∧
    timerActive committed_detached_page fr' = true ∧
    _networkIdleTimer fr' = _networkIdleTimer fr.
Proof.
  eexists _, _. split; [vm_compute; reflexivity|]. split; [reflexivity|].
  split; [vm_compute; reflexivity|]. split; [vm_compute; reflexivity|].
  split; [reflexivity|]. split; reflexivity.
Qed.

(** The timer that is left behind can still tell the page: the detached
    main frame is given a new id by a later [frameAttached] without parent,
    and when the timer then fires it declares networkidle on the detached
    frame. *)
Lemma leftover_timer_after_rekey :
  ∃ w1 w2 fr,
    FrameManager.frameAttached "main2" None committed_detached_page = Ok 0 w1 ∧
    EventLoop.fireTimer 0 (exec (EventLoop.advance 500) w1) = Some (Ok tt w2) ∧
    frameStore w2 !! 0 = Some fr ∧ _detached fr = true ∧ networkIdleFired fr = true.
Proof.
  eexists _, _, _. split; [vm_compute; reflexivity|].
  split; [vm_compute; reflexivity|]. split; [vm_compute; reflexivity|].
  split; reflexivity.
Qed.

(** ** Signal barrier (C7) *)

Lemma runOps_spec ops : ∀ w barrier b s,
  barrierStore w !! barrier = Some b →
  voidPromises w !! _promise b = Some s →
  s = Pending ∨ s = Fulfilled tt →
  ∃ w', forM_ ops (runOp barrier) w = Ok tt w' ∧
    protectCount w' barrier = Some (countAfter (_protectCount b) ops) ∧
    latch w' barrier =
      Some (if releasedToZero (_protectCount b) ops then Fulfilled tt else s).
Proof.
  induction ops as [|op ops IH]; intros w barrier b s Hb Hp Hs.
  - exists w. unfold protectCount, latch. rewrite Hb. simpl. by rewrite Hp.
  - assert (Hlt : barrier < length (barrierStore w)) by by eapply lookup_lt_Some.
    destruct op; simpl; msimpl; rewrite Hb; simpl.
    + edestruct (IH (with_barrierStore
        (λ s0, <[barrier := set_protectCount (_protectCount b + 1) b]> s0) w)
        barrier (set_protectCount (_protectCount b + 1) b) s) as (w' & Hrun & Hc & Hl);
        [by apply list_lookup_insert_eq | done | done |].
      exists w'. by rewrite Hrun.
    + rewrite list_lookup_insert_eq by done. simpl.
      case_bool_decide as Hz; simpl.
      * edestruct (IH (with_voidPromises
          (Promise.settle (_promise b) (Fulfilled ()) (voidPromises w))
          (with_barrierStore
            (λ s0, <[barrier := set_protectCount (_protectCount b - 1) b]> s0) w))
          barrier (set_protectCount (_protectCount b - 1) b) (Fulfilled tt))
          as (w' & Hrun & Hc & Hl);
          [by apply list_lookup_insert_eq | | by right |].
        { simpl. destruct Hs as [-> | ->].
          - by apply settle_lookup_pending.
          - by erewrite settle_settled. }
        exists w'. rewrite Hrun. split; [done|]. split; [done|].
        rewrite Hl. simpl. by destruct (releasedToZero _ _).
      * edestruct (IH (with_barrierStore
          (λ s0, <[barrier := set_protectCount (_protectCount b - 1) b]> s0) w)
          barrier (set_protectCount (_protectCount b - 1) b) s) as (w' & Hrun & Hc & Hl);
          [by apply list_lookup_insert_eq | done | done |].
        exists w'. by rewrite Hrun.
Qed.

Lemma releasedToZero_iff ops : ∀ c,
  releasedToZero c ops = true ↔
  ∃ j, ops !! j = Some OpRelease ∧ countAfter c (take (S j) ops) = 0%Z.
Proof.
  induction ops as [|op ops IH]; intros c; simpl.
  - split; [done | by intros (j & Hj & _)].
  - destruct op.
    + rewrite IH. split.
      * intros (j & Hj & Hc). by exists (S j).
      * intros ([|j] & Hj & Hc); [done | by exists j].
    + rewrite orb_true_iff, bool_decide_eq_true, IH. split.
      * intros [Hz | (j & Hj & Hc)]; [by exists 0 | by exists (S j)].
      * intros ([|j] & Hj & Hc); [by left | right; by exists j].
Qed.

Lemma new_barrier_spec progress w :
  ∃ barrier w0 b,
    SignalBarrier.new progress w = Ok barrier w0 ∧
    barrierStore w0 !! barrier = Some b ∧
    _protectCount b = 1%Z ∧
    voidPromises w0 !! _promise b = Some Pending.
Proof.
  eexists _, _, _. unfold SignalBarrier.new. msimpl.
  rewrite list_lookup_middle by done. simpl.
  split; [reflexivity|]. simpl.
  rewrite list_lookup_insert_eq by (rewrite length_app; simpl; lia).
  split; [reflexivity|]. split; [done|]. simpl.
  by apply list_lookup_middle.
Qed.

(** C7. A barrier is created with [_protectCount] 1 and a pending latch;
    [waitFor] on it releases that self-retain and returns the latch, resolved
    when nothing else was retained.  After any prefix of any sequence of
    [retain] and [release] calls the count is 1 plus the retains minus the
    releases, the latch is pending or resolved, and it is resolved exactly
    if some earlier release of the sequence brought the count to zero; so it
    resolves at the first such release, stays resolved, and is never
    resolved while the count has stayed positive. *)
Theorem C7_signal_barrier_latch (progress : option nat) (w : World) (ops : list BarrierOp) :
  ∃ barrier w0,
    SignalBarrier.new progress w = Ok barrier w0 ∧
    protectCount w0 barrier = Some 1%Z ∧
    latch w0 barrier = Some Pending ∧
    (∃ p w1, SignalBarrier.waitFor barrier w0 = Ok p w1 ∧
             protectCount w1 barrier = Some 0%Z ∧
             voidPromises w1 !! p = Some (Fulfilled tt)) ∧
    ∀ k, ∃ wk,
      forM_ (take k ops) (runOp barrier) w0 = Ok tt wk ∧
      protectCount wk barrier = Some (countAfter 1 (take k ops)) ∧
      (latch wk barrier = Some Pending ∨ latch wk barrier = Some (Fulfilled tt)) ∧
      (latch wk barrier = Some (Fulfilled tt) ↔
       ∃ j, j < k ∧ ops !! j = Some OpRelease ∧ countAfter 1 (take (S j) ops) = 0%Z).
Proof.
  destruct (new_barrier_spec progress w) as (barrier & w0 & b & Hnew & Hb & Hc & Hp).
  exists barrier, w0. split; [done|].
  split; [unfold protectCount; by rewrite Hb; simpl; rewrite Hc|].
  split; [unfold latch; by rewrite Hb|].
  split.
  { destruct (runOps_spec [OpRelease] w0 barrier b Pending Hb Hp) as (w1 & Hrun & Hck & Hl);
      [by left|].
    rewrite Hc in Hck, Hl. simpl in Hrun, Hck, Hl.
    apply bind_Ok_inv in Hrun as ([] & w1' & Hrel & [= ->]).
    unfold protectCount in Hck. unfold latch in Hl.
    destruct (barrierStore w1 !! barrier) as [b1|] eqn:Hb1; [|done].
    exists (_promise b1), w1. unfold SignalBarrier.waitFor.
    unfold mbind at 1 2, M_bind. rewrite Hrel. unfold getBarrier. rewrite Hb1.
    split; [done|]. split; [unfold protectCount; by rewrite Hb1 | done]. }
  intros k.
  destruct (runOps_spec (take k ops) w0 barrier b Pending Hb Hp) as (wk & Hrun & Hck & Hl);
    [by left|].
  rewrite Hc in Hck, Hl.
  exists wk. split; [done|]. split; [done|].
  split; [rewrite Hl; destruct (releasedToZero _ _); auto|].
  rewrite Hl. split.
  - destruct (releasedToZero 1 (take k ops)) eqn:Hr; [|done]. intros _.
    apply releasedToZero_iff in Hr as (j & Hj & Hz).
    assert (j < k) by (apply lookup_lt_Some in Hj; rewrite length_take in Hj; lia).
    exists j. split; [done|].
    rewrite lookup_take_lt in Hj by done. split; [done|].
    by rewrite take_take, Nat.min_l in Hz by lia.
  - intros (j & Hjk & Hj & Hz).
    assert (releasedToZero 1 (take k ops) = true) as ->; [|done].
    apply releasedToZero_iff. exists j.
    rewrite lookup_take_lt by done. split; [done|].
    by rewrite take_take, Nat.min_l by lia.
Qed.

(** ** Context slots (C8, C9) *)

(** C8, amended. [_context(world)] on a detached frame throws "Execution
    Context is not available in detached frame" with the frame's url, and on
    an attached frame returns the slot's [contextPromise].  Detaching the
    frame, by [_onDetached] or by the [frameDetached] event, settles no
    context promise: a promise that was pending stays pending. *)
Theorem C8_context_of_detached_frame (w : World) (frame : nat) (fr : Frame)
  (contextType : ContextType) :
  frameStore w !! frame = Some fr →
  (_detached fr = true →
   Frame._context frame contextType w = Throw (DetachedFrameError (_url fr)) w) ∧
  (_detached fr = false →
   Frame._context frame contextType w
     = Ok (contextPromise (_contextData fr contextType)) w) ∧
  contextPromises (world_of (Frame._onDetached frame w)) = contextPromises w ∧
  (∀ frameId,
     contextPromises (world_of (FrameManager.frameDetached frameId w)) = contextPromises w).
Proof.
  intros Hf. unfold Frame._context. msimpl. rewrite Hf. simpl.
  split; [by intros ->|]. split; [by intros ->|].
  split; [apply onDetached_contextPromises|].
  intros frameId. apply frameDetached_contextPromises.
Qed.

Lemma C8_witness :
  Frame._context 0 main detached_page = Throw (DetachedFrameError "") detached_page.
Proof.
  edestruct (C8_context_of_detached_frame detached_page 0) as (H & _);
    [vm_compute; reflexivity|].
  apply H. reflexivity.
Defined.

(** C8 as stated fails: a caller holds the pending context promise of the
    main world; the frame is detached; the promise is still pending. *)
Lemma C8_counterexample :
  Frame._context 0 main attached_page = Ok 2 attached_page ∧
  contextPromises attached_page !! 2 = Some Pending ∧
  FrameManager.frameDetached "main" attached_page = Ok tt detached_page ∧
  contextPromises detached_page !! 2 = Some Pending ∧
  ¬ ∃ e, contextPromises detached_page !! 2 = Some (Rejected e).
Proof.
  split; [vm_compute; reflexivity|]. split; [reflexivity|].
  split; [vm_compute; reflexivity|]. split; [reflexivity|].
  intros [e He]. discriminate.
Qed.

Lemma forM_rerun c tasks : ∀ w,
  ∃ w', forM_ tasks (λ t, async (RerunnableTask.rerun t c)) w = Ok tt w' ∧
    frameStore w' = frameStore w ∧ contextPromises w' = contextPromises w ∧
    effects w' = effects w ++ map (λ t, TaskInvoked t c) tasks.
Proof.
  induction tasks as [|t tasks IH]; intros w.
  - exists w. by rewrite app_nil_r.
  - rewrite forM_cons. unfold async at 1, RerunnableTask.rerun at 1. msimpl.
    destruct (IH (with_effects (λ l, l ++ [TaskInvoked t c]) w)) as (w' & Hrun & H1 & H2 & H3).
    exists w'. split; [done|]. split; [done|]. split; [done|].
    rewrite H3. simpl. by rewrite <- app_assoc.
Qed.

Lemma setContext_null w frame fr contextType :
  frameStore w !! frame = Some fr →
  ∃ w' fr',
    Frame._setContext frame contextType None w = Ok tt w' ∧
    frameStore w' !! frame = Some fr' ∧
    _contextData fr' contextType =
      {| contextPromise := length (contextPromises w);
         contextResolveCallback := Some (length (contextPromises w));
         context := None;
         rerunnableTasks := rerunnableTasks (_contextData fr contextType) |} ∧
    _detached fr' = _detached fr ∧
    contextPromises w' = contextPromises w ++ [Pending] ∧
    effects w' = effects w.
Proof.
  intros Hf. assert (Hlt : frame < length (frameStore w)) by by eapply lookup_lt_Some.
  unfold Frame._setContext, Frame.updateContextData. msimpl. rewrite Hf. simpl.
  rewrite list_lookup_insert_eq by done. simpl.
  rewrite list_lookup_insert_eq by done. simpl.
  eexists _, _. split; [reflexivity|]. simpl.
  rewrite list_lookup_insert_eq by (by rewrite length_insert).
  split; [reflexivity|]. by destruct contextType.
Qed.

Lemma setContext_some w frame fr contextType c p :
  frameStore w !! frame = Some fr →
  contextResolveCallback (_contextData fr contextType) = Some p →
  ∃ w' fr',
    Frame._setContext frame contextType (Some c) w = Ok tt w' ∧
    frameStore w' !! frame = Some fr' ∧
    _contextData fr' contextType =
      {| contextPromise := contextPromise (_contextData fr contextType);
         contextResolveCallback := Some p;
         context := Some c;
         rerunnableTasks := rerunnableTasks (_contextData fr contextType) |} ∧
    _detached fr' = _detached fr ∧
    contextPromises w' = Promise.settle p (Fulfilled c) (contextPromises w) ∧
    effects w' = effects w
      ++ map (λ t, TaskInvoked t c) (rerunnableTasks (_contextData fr contextType)).
Proof.
  intros Hf Hcb. assert (Hlt : frame < length (frameStore w)) by by eapply lookup_lt_Some.
  unfold Frame._setContext, Frame.updateContextData.
  destruct contextType; msimpl; rewrite Hf; simpl;
    (rewrite list_lookup_insert_eq by done); simpl; rewrite Hcb; simpl.
  - edestruct (forM_rerun c (rerunnableTasks (_contextData fr main)))
      as (w' & Hrun & H1 & H2 & H3).
    rewrite Hrun. exists w'. eexists. split; [reflexivity|].
    rewrite H1, H2, H3. simpl. rewrite list_lookup_insert_eq by done.
    split; [reflexivity|]. simpl. by rewrite ?Hcb.
  - edestruct (forM_rerun c (rerunnableTasks (_contextData fr utility)))
      as (w' & Hrun & H1 & H2 & H3).
    rewrite Hrun. exists w'. eexists. split; [reflexivity|].
    rewrite H1, H2, H3. simpl. rewrite list_lookup_insert_eq by done.
    split; [reflexivity|]. simpl. by rewrite ?Hcb.
Qed.

(** C9. When the slot of a world already holds [ctx],
    [_contextCreated(world, ctx)] leaves the slot holding [ctx] with one
    [contextPromise], a fresh one, resolved with [ctx]; promises handed out
    before keep their state; and on a frame that is not detached
    [_context(world)] afterwards returns that resolved promise.  Every task
    registered in the world is rerun once more with [ctx]. *)
Theorem C9_contextCreated_idempotent (w : World) (frame : nat) (fr : Frame)
  (contextType : ContextType) (ctx : Context) :
  frameStore w !! frame = Some fr →
  context (_contextData fr contextType) = Some ctx →
  ∃ w' fr',
    Frame._contextCreated frame contextType ctx w = Ok tt w' ∧
    frameStore w' !! frame = Some fr' ∧
    context (_contextData fr' contextType) = Some ctx ∧
    contextPromise (_contextData fr' contextType) = length (contextPromises w) ∧
    contextPromises w' !! contextPromise (_contextData fr' contextType)
      = Some (Fulfilled ctx) ∧
    (∀ q, q < length (contextPromises w) →
          contextPromises w' !! q = contextPromises w !! q) ∧
    (_detached fr = false →
     Frame._context frame contextType w'
       = Ok (contextPromise (_contextData fr' contextType)) w') ∧
    effects w' = effects w
      ++ map (λ t, TaskInvoked t ctx) (rerunnableTasks (_contextData fr contextType)).
Proof.
  intros Hf Hctx.
  destruct (setContext_null w frame fr contextType Hf)
    as (w1 & fr1 & Hrun1 & Hf1 & Hd1 & Hdet1 & Hc1 & He1).
  destruct (setContext_some w1 frame fr1 contextType ctx (length (contextPromises w)) Hf1)
    as (w2 & fr2 & Hrun2 & Hf2 & Hd2 & Hdet2 & Hc2 & He2); [by rewrite Hd1|].
  exists w2, fr2.
  split.
  { unfold Frame._contextCreated. unfold mbind at 1 2, M_bind, getFrame.
    rewrite Hf, Hctx, Hrun1. exact Hrun2. }
  split; [done|]. rewrite Hd2, Hd1. simpl.
  split; [done|]. split; [done|].
  split; [rewrite Hc2, Hc1; apply settle_lookup_pending; by apply list_lookup_middle|].
  split.
  { intros q Hq. rewrite Hc2, Hc1, settle_lookup_ne by lia. by apply lookup_app_l. }
  split.
  { intros Hdet. unfold Frame._context. msimpl. rewrite Hf2. simpl.
    rewrite Hdet2, Hdet1, Hdet. simpl. by rewrite Hd2, Hd1. }
  by rewrite He2, He1, Hd1.
Qed.

Lemma C9_witness :
  ∃ w' fr',
    Frame._contextCreated 0 main 7 context_page = Ok tt w' ∧
    frameStore w' !! 0 = Some fr' ∧
    context (_contextData fr' main) = Some 7 ∧
    contextPromises w' !! contextPromise (_contextData fr' main) = Some (Fulfilled 7).
Proof.
  edestruct (C9_contextCreated_idempotent context_page 0) with (contextType := main) (ctx := 7)
    as (w' & fr' & H1 & H2 & H3 & _ & H4 & _);
    [vm_compute; reflexivity | reflexivity |].
  exists w', fr'. split; [exact H1|]. split; [exact H2|]. split; [exact H3 | exact H4].
Defined.

(** ** Events for an unknown frame id (C10) *)

(** C10. For a frame id that is not in the frame map, the handlers
    [frameRequestedNavigation], [frameUpdatedDocumentIdForNavigation],
    [frameCommittedSameDocumentNavigation], [frameDetached],
    [frameLifecycleEvent] and [frameStoppedLoading] return with the world
    unchanged: no frame, barrier, timer or promise is touched and nothing is
    emitted.  [frameCommittedNewDocumentNavigation] throws instead. *)
Theorem C10_unknown_frame_id (w : World) (frameId : string) :
  _frames w !! frameId = None →
  (∀ documentId,
     FrameManager.frameRequestedNavigation frameId documentId w = Ok tt w) ∧
  (∀ documentId,
     FrameManager.frameUpdatedDocumentIdForNavigation frameId documentId w = Ok tt w) ∧
  (∀ url, FrameManager.frameCommittedSameDocumentNavigation frameId url w = Ok tt w) ∧
  FrameManager.frameDetached frameId w = Ok tt w ∧
  (∀ event, FrameManager.frameLifecycleEvent frameId event w = Ok tt w) ∧
  FrameManager.frameStoppedLoading frameId w = Ok tt w ∧
  (∀ url name documentId initial,
     FrameManager.frameCommittedNewDocumentNavigation frameId url name documentId initial w
       = Throw TypeError w).
Proof.
  intros Hnone.
  assert (Hev : ∀ event, FrameManager.frameLifecycleEvent frameId event w = Ok tt w).
  { intros event. unfold FrameManager.frameLifecycleEvent. msimpl. by rewrite Hnone. }
  repeat split; try done; intros;
    try (unfold FrameManager.frameRequestedNavigation,
           FrameManager.frameUpdatedDocumentIdForNavigation,
           FrameManager.frameCommittedSameDocumentNavigation,
           FrameManager.frameDetached,
           FrameManager.frameCommittedNewDocumentNavigation;
         msimpl; by rewrite Hnone).
  unfold FrameManager.frameStoppedLoading, mbind, M_bind. by rewrite !Hev.
Qed.

Lemma C10_witness :
  FrameManager.frameDetached "gone" attached_page = Ok tt attached_page ∧
  FrameManager.frameCommittedNewDocumentNavigation "gone" "about:blank" "" "D1" false attached_page
    = Throw TypeError attached_page.
Proof.
  edestruct (C10_unknown_frame_id attached_page "gone") as (_ & _ & _ & H1 & _ & _ & H2);
    [vm_compute; reflexivity|].
  split; [exact H1 | apply H2].
Defined.

(** ** The scenarios of the spec, run on the embedding *)

(** New-document navigation, success: D1 commits, its request finishes, the
    document loads; the specific-document promise and the load promise are
    resolved. *)
Example scenario_navigation_succeeds :
  let w := exec (FrameManager.frameStoppedLoading "main")
             (exec (FrameManager.requestFinished R1)
               (exec (FrameManager.frameCommittedNewDocumentNavigation
                        "main" "https://a/" "" "D1" false) navigating)) in
  voidPromises navigating !! 3 = Some Pending ∧
  voidPromises w !! 3 = Some (Fulfilled tt) ∧
  (∃ p w', FrameTask.waitForLifecycle 0 "load" w = Ok p w' ∧
           voidPromises w' !! p = Some (Fulfilled tt)) ∧
  FrameTask.request 0 "D1" w = Ok (Some R1) w.
Proof.
  split; [reflexivity|]. split; [vm_compute; reflexivity|].
  split; [eexists _, _; split; vm_compute; reflexivity|]. vm_compute; reflexivity.
Qed.

(** New-document navigation, interrupted: D2 is requested and commits. *)
Example scenario_navigation_interrupted :
  let w := exec (FrameManager.frameCommittedNewDocumentNavigation
                   "main" "https://b/" "" "D2" false)
             (exec (FrameManager.frameRequestedNavigation "main" "D2") navigating) in
  voidPromises w !! 3 = Some (Rejected NavigationInterrupted).
Proof. vm_compute; reflexivity. Qed.

Example scenario_network_idle_fires :
  let w := exec (EventLoop.advance 500) idle_pending in
  EventLoop.fireTimer 1 (exec (EventLoop.advance 499) idle_pending) = None ∧
  ∃ w' fr, EventLoop.fireTimer 1 w = Some (Ok tt w') ∧
           frameStore w' !! 0 = Some fr ∧ networkIdleFired fr = true.
Proof.
  split; [vm_compute; reflexivity|].
  eexists _, _. split; [vm_compute; reflexivity|]. split; vm_compute; reflexivity.
Qed.

Example scenario_network_idle_cancelled :
  let w := exec (EventLoop.advance 100)
             (exec (FrameManager.requestStarted R1)
               (exec (EventLoop.advance 400) idle_pending)) in
  EventLoop.fireTimer 1 w = None ∧
  ∃ fr, frameStore w !! 0 = Some fr ∧ networkIdleFired fr = false ∧
        timerActive w fr = false.
Proof.
  split; [vm_compute; reflexivity|].
  eexists. split; [vm_compute; reflexivity|]. split; reflexivity.
Qed.

(** * Further properties of the frame manager *)

(** ** The constructor of a frame *)

Lemma alter_insert_lookup {A} (f : A → A) (l : list A) i x :
  l !! i = Some x → alter f i l = <[i := f x]> l.
Proof.
  revert i. induction l as [|y l IH]; intros [|i] H; simpl in *; try done.
  - by injection H as ->.
  - f_equal. by apply IH.
Qed.

Lemma Frame_new_run w id parent :
  (∀ p, parent = Some p → is_Some (frameStore w !! p)) →
  ∃ w',
    Frame.new id parent w = Ok (length (frameStore w)) w' ∧
    frameStore w' =
      match parent with
      | Some p =>
          alter (set_childFrames (set_add (length (frameStore w)))) p
            (frameStore w ++ [freshFrame w id parent])
      | None => frameStore w ++ [freshFrame w id parent]
      end ∧
    voidPromises w' = voidPromises w ++ [Pending] ∧
    contextPromises w' = contextPromises w ++ [Pending; Pending; Pending; Pending] ∧
    _frames w' = _frames w ∧ _mainFrame w' = _mainFrame w ∧
    effects w' = effects w ∧ timers w' = timers w ∧ taskStore w' = taskStore w ∧
    rerunnableStore w' = rerunnableStore w ∧ handlePromises w' = handlePromises w ∧
    documentPromises w' = documentPromises w ∧ barrierStore w' = barrierStore w ∧
    _signalBarriers w' = _signalBarriers w.
Proof.
  intros Hparent. unfold Frame.new, Frame._setContext, Frame.updateContextData. msimpl.
  rewrite !list_lookup_middle by done. simpl.
  repeat (rewrite list_lookup_insert_eq by (rewrite ?length_insert, length_app; simpl; lia);
          simpl).
  rewrite !length_app. simpl.
  assert (Hfresh : ∀ fr0 : Frame,
    <[length (frameStore w) := fr0]> (frameStore w ++ [freshFrame w id parent])
    = frameStore w ++ [fr0]).
  { intros fr0. rewrite insert_app_r_alt by lia. by rewrite Nat.sub_diag. }
  destruct parent as [p|]; simpl.
  - destruct (Hparent p eq_refl) as [pf Hpf]. apply lookup_lt_Some in Hpf as Hlt.
    repeat (rewrite list_lookup_insert_ne by lia).
    rewrite lookup_app_l by done. rewrite Hpf. simpl.
    eexists. split; [reflexivity|]. simpl.
    rewrite <- !(assoc_L (++)). simpl.
    repeat split; try done.
    rewrite !list_insert_insert_eq.
    rewrite (alter_insert_lookup _ _ _ pf) by (by rewrite lookup_app_l).
    f_equal. rewrite insert_app_r_alt by lia. rewrite Nat.sub_diag. simpl.
    do 2 f_equal. unfold freshFrame, set_contextData. simpl.
    rewrite <- !Nat.add_assoc. simpl. reflexivity.
  - eexists. split; [reflexivity|]. simpl.
    rewrite <- !(assoc_L (++)). simpl.
    repeat split; try done.
    rewrite !list_insert_insert_eq.
    rewrite insert_app_r_alt by lia. rewrite Nat.sub_diag. simpl.
    do 2 f_equal. unfold freshFrame, set_contextData. simpl.
    rewrite <- !Nat.add_assoc. simpl. reflexivity.
Qed.

(** ** Attaching and detaching frames *)

Lemma truthy_Some s : s ≠ ""%string → truthy (Some s) = true.
Proof. intros H. simpl. apply negb_true_iff. by apply String.eqb_neq. Qed.

Lemma set_delete_set_add `{EqDecision A} (x : A) l :
  x ∉ l → set_delete x (set_add x l) = l.
Proof.
  intros Hx. unfold set_add, set_delete. rewrite decide_False by done.
  rewrite filter_app, filter_cons_False by (intros H; by apply H).
  rewrite filter_nil, app_nil_r.
  induction l as [|y l IH]; [done|].
  apply not_elem_of_cons in Hx as [Hne Hx].
  rewrite filter_cons_True by done. f_equal. by apply IH.
Qed.

Lemma frameAttached_child_run w frameId parentId parent pfr :
  parentId ≠ ""%string →
  _frames w !! parentId = Some parent →
  frameStore w !! parent = Some pfr →
  _frames w !! frameId = None →
  ∃ w',
    FrameManager.frameAttached frameId (Some parentId) w = Ok (length (frameStore w)) w' ∧
    _frames w' = <[frameId := length (frameStore w)]> (_frames w) ∧
    _mainFrame w' = _mainFrame w ∧
    frameStore w' =
      <[parent := set_childFrames (set_add (length (frameStore w))) pfr]> (frameStore w)
      ++ [freshFrame w frameId (Some parent)] ∧
    voidPromises w' = voidPromises w ++ [Pending] ∧
    contextPromises w' = contextPromises w ++ [Pending; Pending; Pending; Pending] ∧
    effects w' = effects w ++ [Emit (Events.FrameAttached (length (frameStore w)))] ∧
    timers w' = timers w ∧ taskStore w' = taskStore w ∧
    rerunnableStore w' = rerunnableStore w ∧ handlePromises w' = handlePromises w ∧
    documentPromises w' = documentPromises w ∧ barrierStore w' = barrierStore w ∧
    _signalBarriers w' = _signalBarriers w.
Proof.
  intros Hne Hp Hpf Hfresh.
  destruct (Frame_new_run w frameId (Some parent))
    as (w1 & Hnew & Hs & Hv & Hc & Hfm & Hm & He & Ht & Hts & Hrs & Hh & Hd & Hb & Hsb).
  { intros p [= <-]. eauto. }
  unfold FrameManager.frameAttached. unfold mbind at 1, M_bind at 1, get.
  rewrite (truthy_Some _ Hne), Hp, Hfresh.
  unfold mbind, M_bind. simpl. rewrite Hnew. simpl.
  eexists. split; [reflexivity|]. simpl.
  rewrite Hfm, Hm, Hs, Hv, Hc, He, Ht, Hts, Hrs, Hh, Hd, Hb, Hsb.
  repeat split; try done.
  apply lookup_lt_Some in Hpf as Hlt.
  rewrite (alter_insert_lookup _ _ _ pfr) by (by rewrite lookup_app_l).
  by rewrite insert_app_l.
Qed.

Lemma forM_terminate_run e tasks : ∀ w,
  (∀ t, t ∈ tasks → is_Some (rerunnableStore w !! t)) →
  forM_ tasks (λ t, RerunnableTask.terminate t e) w =
  Ok tt (with_handlePromises (terminateAll (rerunnableStore w) tasks e (handlePromises w)) w).
Proof.
  induction tasks as [|t tasks IH]; intros w Hall; [by destruct w|].
  destruct (Hall t) as [r Hr]; [by left|].
  rewrite forM_cons, (terminate_run w t r e Hr).
  rewrite IH by (intros t' Ht'; apply Hall; by right).
  simpl. by rewrite Hr.
Qed.

Lemma onDetached_run w frame fr :
  frameStore w !! frame = Some fr →
  (∀ ty t, t ∈ rerunnableTasks (_contextData fr ty) → is_Some (rerunnableStore w !! t)) →
  (∀ parent, _parentFrame fr = Some parent → is_Some (frameStore w !! parent)) →
  Frame._onDetached frame w =
  Ok tt
    (with_frameStore (detachedStore frame (_parentFrame fr))
      (with_handlePromises
        (terminateAll (rerunnableStore w) (rerunnableTasks (_contextData fr utility))
           FrameDetachedError
           (terminateAll (rerunnableStore w) (rerunnableTasks (_contextData fr main))
              FrameDetachedError (handlePromises w)))
        (with_voidPromises
           (Promise.settle (_detachedPromise fr) (Fulfilled tt) (voidPromises w)) w))).
Proof.
  intros Hf Htasks Hparent.
  assert (Hlt : frame < length (frameStore w)) by by eapply lookup_lt_Some.
  unfold Frame._onDetached. msimpl. rewrite Hf. simpl.
  rewrite list_lookup_insert_eq by done. simpl.
  rewrite forM_terminate_run by (intros t Ht; simpl; by eapply Htasks).
  rewrite forM_terminate_run by (intros t Ht; simpl; by eapply Htasks).
  unfold detachedStore, with_frameStore, with_handlePromises, with_voidPromises. simpl.
  rewrite (alter_insert_lookup _ _ _ fr Hf).
  destruct (_parentFrame fr) as [parent|] eqn:Hp.
  - destruct (lookup_insert_is_Some (frameStore w) parent frame (set_detached true fr))
      as [pf Hpf]; [by apply Hparent|].
    simpl. rewrite Hpf. simpl.
    destruct (lookup_insert_is_Some
      (<[frame:=set_detached true fr]> (frameStore w)) frame parent
      (set_childFrames (set_delete frame) pf)) as [fr1 Hfr1];
      [rewrite list_lookup_insert_eq by done; eauto|].
    rewrite Hfr1.
    rewrite (alter_insert_lookup _ _ _ pf Hpf).
    by rewrite (alter_insert_lookup _ _ _ fr1 Hfr1).
  - simpl. rewrite list_lookup_insert_eq by done.
    rewrite (alter_insert_lookup _ _ _ (set_detached true fr))
      by (by apply list_lookup_insert_eq).
    done.
Qed.

Lemma bind_Ok {A B} (m : M A) (k : A → M B) w a w1 :
  m w = Ok a w1 → (m ≫= k) w = k a w1.
Proof. unfold mbind, M_bind. by intros ->. Qed.

Lemma lookup_alter_decide {A} (h : A → A) (l : list A) i g :
  alter h i l !! g = (if decide (g = i) then h else λ x, x) <$> l !! g.
Proof.
  destruct (decide (g = i)) as [->|Hne].
  - apply list_lookup_alter_eq.
  - rewrite list_lookup_alter_ne by done. by destruct (l !! g).
Qed.

(** What [_onDetached] does to each frame object. *)
Lemma detachedStore_lookup frame parent s g :
  detachedStore frame parent s !! g =
  (λ fr,
     (if decide (g = frame) then set_parentFrame None else λ x, x)
       ((if decide (Some g = parent) then set_childFrames (set_delete frame) else λ x, x)
          ((if decide (g = frame) then set_detached true else λ x, x) fr)))
  <$> s !! g.
Proof.
  unfold detachedStore. rewrite lookup_alter_decide.
  destruct parent as [p|].
  - rewrite !lookup_alter_decide. destruct (s !! g) as [fr|]; simpl; [|done].
    destruct (decide (g = p)) as [->|Hne].
    + by rewrite (decide_True (P := Some p = Some p)) by done.
    + by rewrite (decide_False (P := Some g = Some p)) by congruence.
  - rewrite lookup_alter_decide. destruct (s !! g) as [fr|]; simpl; [|done].
    done.
Qed.

Lemma detachedStore_length frame parent s :
  length (detachedStore frame parent s) = length s.
Proof. unfold detachedStore. destruct parent; by rewrite !length_alter. Qed.

Lemma detachedStore_fields frame parent s g fr' :
  detachedStore frame parent s !! g = Some fr' →
  ∃ fr, s !! g = Some fr ∧ _id fr' = _id fr ∧ _contextData fr' = _contextData fr ∧
    _detached fr' = (if decide (g = frame) then true else _detached fr) ∧
    _parentFrame fr' = (if decide (g = frame) then None else _parentFrame fr) ∧
    _childFrames fr' =
      (if decide (Some g = parent) then set_delete frame (_childFrames fr)
       else _childFrames fr).
Proof.
  rewrite detachedStore_lookup. destruct (s !! g) as [fr|]; simpl; [|done].
  intros [= <-]. exists fr. split; [done|]. by repeat case_decide.
Qed.

Lemma detachedStore_is_Some frame parent s g fr :
  s !! g = Some fr → is_Some (detachedStore frame parent s !! g).
Proof. intros H. rewrite detachedStore_lookup, H. simpl. eauto. Qed.

Lemma detachedStore_isDetached frame parent s g fr :
  s !! frame = Some fr →
  isDetachedIn (detachedStore frame parent s) g =
  if decide (g = frame) then true else isDetachedIn s g.
Proof.
  intros Hf. unfold isDetachedIn. rewrite detachedStore_lookup.
  destruct (decide (g = frame)) as [->|Hne].
  - rewrite Hf. simpl. by case_decide.
  - destruct (s !! g) as [frg|]; simpl; [|done]. by case_decide.
Qed.

(** One frame is visited: the part of [_removeFramesRecursively] after the
    loop over the children. *)
Lemma visit_run w frame fr :
  frameStore w !! frame = Some fr →
  (∀ ty t, t ∈ rerunnableTasks (_contextData fr ty) → is_Some (rerunnableStore w !! t)) →
  (∀ parent, _parentFrame fr = Some parent → is_Some (frameStore w !! parent)) →
  (Frame._onDetached frame;;
   fr ← getFrame frame;
   modify (with_frames (delete (_id fr)));;
   emit (Events.FrameDetached frame)) w = Ok tt (visited w frame fr).
Proof.
  intros Hf Htasks Hparent.
  unfold mbind at 1, M_bind at 1. rewrite (onDetached_run w frame fr Hf Htasks Hparent).
  msimpl.
  destruct (detachedStore_is_Some frame (_parentFrame fr) _ _ _ Hf) as [fr' Hfr'].
  rewrite Hfr'.
  destruct (detachedStore_fields _ _ _ _ _ Hfr') as (fr0 & Hfr0 & Hid & _).
  assert (fr0 = fr) as -> by congruence. simpl. by rewrite Hid.
Qed.

(** Detaching a frame without children. *)
Lemma removeFramesRecursively_leaf_run w frame fr :
  frameStore w !! frame = Some fr →
  _childFrames fr = [] →
  (∀ ty t, t ∈ rerunnableTasks (_contextData fr ty) → is_Some (rerunnableStore w !! t)) →
  (∀ parent, _parentFrame fr = Some parent → is_Some (frameStore w !! parent)) →
  FrameManager._removeFramesRecursively frame w = Ok tt (visited w frame fr).
Proof.
  intros Hf Hleaf Htasks Hparent.
  unfold FrameManager._removeFramesRecursively. unfold mbind at 1, M_bind at 1, get.
  apply lookup_lt_Some in Hf as Hlt.
  destruct (length (frameStore w)) as [|fuel] eqn:Hlen; [lia|].
  simpl. unfold Frame.childFrames.
  rewrite (bind_Ok _ _ w (_childFrames fr) w)
    by (unfold mbind, M_bind, getFrame, mret, M_ret; by rewrite Hf).
  rewrite Hleaf. simpl. rewrite (bind_Ok _ _ w tt w) by done.
  by apply visit_run.
Qed.

(** X1. [frameAttached] with the id of a known parent frame and a frame id
    that is not yet in the frame map constructs a frame: afterwards
    [frame(frameId)] is the new frame, it is not detached, its parent is the
    given frame, it has no children and has joined the children of its
    parent.  The frame map changes at the new id only, no other frame object
    changes, and the page gets exactly one FrameAttached event. *)
Theorem X1_frameAttached_child (w : World) (frameId parentId : string) (parent : nat)
  (pfr : Frame) :
  parentId ≠ ""%string →
  _frames w !! parentId = Some parent →
  frameStore w !! parent = Some pfr →
  _frames w !! frameId = None →
  ∃ f w',
    FrameManager.frameAttached frameId (Some parentId) w = Ok f w' ∧
    FrameManager.frame frameId w' = Ok (Some f) w' ∧
    Frame.isDetached f w' = Ok false w' ∧
    Frame.parentFrame f w' = Ok (Some parent) w' ∧
    Frame.childFrames f w' = Ok [] w' ∧
    Frame.childFrames parent w' = Ok (set_add f (_childFrames pfr)) w' ∧
    frameStore w !! f = None ∧
    (∀ id, id ≠ frameId → _frames w' !! id = _frames w !! id) ∧
    (∀ g, g ≠ parent → g ≠ f → frameStore w' !! g = frameStore w !! g) ∧
    _mainFrame w' = _mainFrame w ∧
    effects w' = effects w ++ [Emit (Events.FrameAttached f)].
Proof.
  intros Hne Hp Hpf Hfresh.
  destruct (frameAttached_child_run w frameId parentId parent pfr Hne Hp Hpf Hfresh)
    as (w' & Hrun & Hfm & Hm & Hs & _ & _ & He & _).
  apply lookup_lt_Some in Hpf as Hlt.
  assert (Hnew : frameStore w' !! length (frameStore w)
                 = Some (freshFrame w frameId (Some parent))).
  { rewrite Hs. rewrite lookup_app_r by (by rewrite length_insert).
    by rewrite length_insert, Nat.sub_diag. }
  assert (Hpar : frameStore w' !! parent
                 = Some (set_childFrames (set_add (length (frameStore w))) pfr)).
  { rewrite Hs. rewrite lookup_app_l by (by rewrite length_insert).
    by apply list_lookup_insert_eq. }
  exists (length (frameStore w)), w'. split; [done|].
  unfold FrameManager.frame, Frame.isDetached, Frame.parentFrame, Frame.childFrames.
  msimpl. rewrite Hfm, Hnew, Hpar, lookup_insert_eq. simpl.
  do 5 (split; [done|]).
  split; [by apply lookup_ge_None|].
  split; [intros id Hid; by rewrite lookup_insert_ne|].
  split; [|done].
  intros g Hg Hgf. rewrite Hs.
  destruct (decide (g < length (frameStore w))) as [Hlt'|Hge].
  - rewrite lookup_app_l by (by rewrite length_insert).
    by rewrite list_lookup_insert_ne.
  - rewrite !lookup_ge_None_2; [done | lia |].
    rewrite length_app, length_insert. simpl. lia.
Qed.

Lemma X1_witness :
  ∃ f w',
    FrameManager.frameAttached "child" (Some "main"%string) attached_page = Ok f w' ∧
    effects w' = effects attached_page ++ [Emit (Events.FrameAttached f)].
Proof.
  edestruct (X1_frameAttached_child attached_page "child" "main" 0) as (f & w' & H1 & H2);
    [done | reflexivity | reflexivity | reflexivity |].
  exists f, w'. split; [exact H1 | apply H2].
Defined.

Lemma frameAttached_no_parent w parentFrameId :
  (∀ parentId, parentFrameId = Some parentId →
     parentId = ""%string ∨ _frames w !! parentId = None) →
  match parentFrameId with
  | Some id => if truthy parentFrameId then _frames w !! id else None
  | None => None
  end = None.
Proof.
  intros H. destruct parentFrameId as [id|]; [|done].
  destruct (H id eq_refl) as [->|Hnone]; [done|].
  by destruct (truthy (Some id)).
Qed.

(** X2. The first [frameAttached] of a page that names no known parent (no
    parent id, an empty one, or one that is not in the frame map) constructs
    the main frame: [mainFrame()] and [frame(frameId)] are the new frame, it
    has no parent and is not detached.  Unlike for a child frame, the page
    gets no FrameAttached event. *)
Theorem X2_frameAttached_first_main (w : World) (frameId : string)
  (parentFrameId : option string) :
  _mainFrame w = None →
  _frames w !! frameId = None →
  (∀ parentId, parentFrameId = Some parentId →
     parentId = ""%string ∨ _frames w !! parentId = None) →
  ∃ f w',
    FrameManager.frameAttached frameId parentFrameId w = Ok f w' ∧
    FrameManager.mainFrame w' = Ok (Some f) w' ∧
    FrameManager.frame frameId w' = Ok (Some f) w' ∧
    Frame.parentFrame f w' = Ok None w' ∧
    Frame.isDetached f w' = Ok false w' ∧
    frameStore w' = frameStore w ++ [freshFrame w frameId None] ∧
    effects w' = effects w.
Proof.
  intros Hmain Hfresh Hparent.
  destruct (Frame_new_run w frameId None)
    as (w1 & Hnew & Hs & _ & _ & Hfm & Hm & He & _); [done|].
  unfold FrameManager.frameAttached. unfold mbind at 1, M_bind at 1, get.
  rewrite (frameAttached_no_parent w parentFrameId Hparent), Hmain, Hfresh.
  unfold mbind, M_bind. simpl. rewrite Hnew. simpl.
  eexists _, _. split; [reflexivity|].
  unfold FrameManager.mainFrame, FrameManager.frame, Frame.parentFrame, Frame.isDetached.
  msimpl. rewrite lookup_insert_eq, Hs, He.
  rewrite lookup_app_r, Nat.sub_diag by done. done.
Qed.

Lemma X2_witness :
  ∃ f w',
    FrameManager.frameAttached "main" (Some ""%string) FrameManager.new = Ok f w' ∧
    FrameManager.mainFrame w' = Ok (Some f) w' ∧
    effects w' = [].
Proof.
  edestruct (X2_frameAttached_first_main FrameManager.new "main" (Some ""%string))
    as (f & w' & H1 & H2 & _ & _ & _ & _ & H3);
    [reflexivity | reflexivity | intros ? [= <-]; by left |].
  exists f, w'. split; [exact H1|]. split; [exact H2 | exact H3].
Defined.

(** X3. A later [frameAttached] that names no known parent constructs
    nothing: it returns the main frame that exists, whose id becomes the new
    frame id.  The old id leaves the frame map and the new id leads to the
    main frame, also when it led to another frame before; no other field of
    any frame changes and the page gets no event. *)
Theorem X3_frameAttached_main_again (w : World) (frameId : string)
  (parentFrameId : option string) (mainFrame : nat) (fr : Frame) :
  _mainFrame w = Some mainFrame →
  frameStore w !! mainFrame = Some fr →
  (∀ parentId, parentFrameId = Some parentId →
     parentId = ""%string ∨ _frames w !! parentId = None) →
  FrameManager.frameAttached frameId parentFrameId w =
  Ok mainFrame
    (with_frames (λ m, <[frameId := mainFrame]> (delete (_id fr) m))
       (with_frameStore (λ s, <[mainFrame := set_id frameId fr]> s) w)).
Proof.
  intros Hmain Hf Hparent.
  unfold FrameManager.frameAttached. unfold mbind at 1, M_bind at 1, get.
  rewrite (frameAttached_no_parent w parentFrameId Hparent), Hmain.
  msimpl. rewrite Hf. simpl. rewrite Hf. simpl. by rewrite Hmain.
Qed.

Lemma X3_witness :
  FrameManager.frameAttached "main2" None attached_page =
  Ok 0 (with_frames (λ m, <["main2"%string := 0]> (delete "main"%string m))
         (with_frameStore
            (λ s, <[0 := set_id "main2" (freshFrame FrameManager.new "main" None)]> s)
            attached_page)).
Proof.
  apply (X3_frameAttached_main_again attached_page "main2" None 0
           (freshFrame FrameManager.new "main" None));
    [reflexivity | reflexivity | done].
Defined.

(** X4. A frame id that is already in the frame map is refused: for a child
    of a known parent, and for the first main frame of the page,
    [frameAttached] fails its assertion and changes nothing. *)
Theorem X4_frameAttached_duplicate_id (w : World) (frameId : string)
  (parentFrameId : option string) :
  is_Some (_frames w !! frameId) →
  _mainFrame w = None ∨
  (∃ parentId, parentFrameId = Some parentId ∧ parentId ≠ ""%string ∧
               is_Some (_frames w !! parentId)) →
  FrameManager.frameAttached frameId parentFrameId w = Throw AssertionError w.
Proof.
  intros [f Hid] Hcase.
  unfold FrameManager.frameAttached. unfold mbind at 1, M_bind at 1, get.
  destruct (match parentFrameId with
            | Some id => if truthy parentFrameId then _frames w !! id else None
            | None => None
            end) as [parent|] eqn:Hparent.
  - msimpl. by rewrite Hid.
  - destruct Hcase as [Hmain | (parentId & -> & Hne & [p Hp])].
    + rewrite Hmain. msimpl. by rewrite Hid.
    + by rewrite (truthy_Some _ Hne), Hp in Hparent.
Qed.

Lemma X4_witness :
  FrameManager.frameAttached "main" (Some "main"%string) attached_page
  = Throw AssertionError attached_page.
Proof.
  apply X4_frameAttached_duplicate_id; [by exists 0|].
  right. exists "main"%string. split; [done|]. split; [done | by exists 0].
Defined.

(** X5. Attaching a child frame and detaching it again is a round trip for
    the frame tree: the frame map and every frame object that existed are
    as before, the parent has the children it had, and the new frame object
    is left detached without a parent, its detached promise fulfilled.  The
    page gets FrameAttached and then FrameDetached for it. *)
Theorem X5_attach_detach_round_trip (w : World) (frameId parentId : string) (parent : nat)
  (pfr : Frame) :
  parentId ≠ ""%string →
  _frames w !! parentId = Some parent →
  frameStore w !! parent = Some pfr →
  _frames w !! frameId = None →
  (∀ c, c ∈ _childFrames pfr → c < length (frameStore w)) →
  ∃ f w1 w2,
    FrameManager.frameAttached frameId (Some parentId) w = Ok f w1 ∧
    FrameManager.frameDetached frameId w1 = Ok tt w2 ∧
    _frames w2 = _frames w ∧
    frameStore w2 =
      frameStore w
      ++ [set_parentFrame None (set_detached true (freshFrame w frameId (Some parent)))] ∧
    voidPromises w2 = voidPromises w ++ [Fulfilled tt] ∧
    handlePromises w2 = handlePromises w ∧
    timers w2 = timers w ∧
    effects w2 = effects w
      ++ [Emit (Events.FrameAttached f); Emit (Events.FrameDetached f)].
Proof.
  intros Hne Hp Hpf Hfresh Hchildren.
  destruct (frameAttached_child_run w frameId parentId parent pfr Hne Hp Hpf Hfresh)
    as (w1 & Hrun & Hfm & Hm & Hs & Hv & Hc & He & Ht & Hts & Hrs & Hh & Hd & Hb & Hsb).
  apply lookup_lt_Some in Hpf as Hlt.
  assert (Hnew : frameStore w1 !! length (frameStore w)
                 = Some (freshFrame w frameId (Some parent))).
  { rewrite Hs. rewrite lookup_app_r by (by rewrite length_insert).
    by rewrite length_insert, Nat.sub_diag. }
  exists (length (frameStore w)), w1. eexists. split; [done|].
  unfold FrameManager.frameDetached. unfold mbind at 1, M_bind at 1, get.
  rewrite Hfm, lookup_insert_eq.
  rewrite (removeFramesRecursively_leaf_run w1 _ _ Hnew); [|done| |].
  2: { intros [] t Hel; by apply elem_of_nil in Hel. }
  2: { intros p [= <-]. rewrite Hs, lookup_app_l by (by rewrite length_insert).
       apply lookup_insert_is_Some. eauto. }
  split; [reflexivity|]. unfold visited. simpl.
  rewrite Hfm, Hs, Hv, Hh, Ht, He.
  split; [by rewrite delete_insert_id|].
  split; [|split; [|split; [done|split; [done|]]]].
  - assert (Hnotin : length (frameStore w) ∉ _childFrames pfr).
    { intros Hel. apply Hchildren in Hel. lia. }
    apply list_eq. intros g. rewrite detachedStore_lookup.
    destruct (decide (g < length (frameStore w))) as [Hg|Hg].
    + rewrite !lookup_app_l by (by rewrite ?length_insert).
      destruct (decide (g = length (frameStore w))) as [?|_]; [lia|].
      destruct (decide (g = parent)) as [->|Hgp].
      * rewrite list_lookup_insert_eq, Hpf by done. simpl.
        rewrite decide_True by done. f_equal.
        pose proof (set_delete_set_add _ _ Hnotin) as Heq.
        destruct pfr. unfold set_childFrames. simpl in *. by rewrite Heq.
      * rewrite list_lookup_insert_ne by done.
        rewrite (decide_False (P := Some g = Some parent)) by congruence.
        by destruct (frameStore w !! g).
    + destruct (decide (g = length (frameStore w))) as [->|Hgl].
      * rewrite !lookup_app_r by (by rewrite ?length_insert).
        rewrite length_insert, Nat.sub_diag. simpl.
        rewrite (decide_False (P := Some (length (frameStore w)) = Some parent))
          by (intros [= ?]; lia).
        done.
      * rewrite !lookup_ge_None_2; [done | |];
          rewrite length_app, ?length_insert; simpl; lia.
  - unfold Promise.settle. rewrite lookup_app_r, Nat.sub_diag by done. simpl.
    rewrite insert_app_r_alt, Nat.sub_diag by done. done.
  - by rewrite <- (assoc_L (++)).
Qed.

Lemma X5_witness :
  ∃ f w1 w2,
    FrameManager.frameAttached "child" (Some "main"%string) attached_page = Ok f w1 ∧
    FrameManager.frameDetached "child" w1 = Ok tt w2 ∧
    _frames w2 = _frames attached_page.
Proof.
  edestruct (X5_attach_detach_round_trip attached_page "child" "main" 0)
    as (f & w1 & w2 & H1 & H2 & H3 & _);
    [done | reflexivity | reflexivity | reflexivity
    | intros c Hc; by apply elem_of_nil in Hc |].
  exists f, w1, w2. split; [exact H1|]. split; [exact H2 | exact H3].
Defined.

(** ** The frames of a page *)

Lemma inSubtree_unfold store f fr g :
  store !! f = Some fr →
  inSubtree store f g ↔ g = f ∨ ∃ c, c ∈ _childFrames fr ∧ inSubtree store c g.
Proof.
  intros Hf. split.
  - intros H. inversion H as [|? fr' c ? Hf' Hc Hsub]; subst; [by left|].
    right. exists c. split; [congruence | done].
  - intros [->|(c & Hc & Hsub)]; [constructor | by eapply inSubtree_child].
Qed.

Lemma collect_spec store : childrenLater store →
  ∀ fuel f frames, f < length store → length store - f ≤ fuel →
  ∃ l, FrameManager.collect fuel store f frames = inr (frames ++ f :: l) ∧
       ∀ g, g ∈ f :: l ↔ inSubtree store f g.
Proof.
  intros Hwf fuel. induction fuel as [|fuel IH]; intros f frames Hlt Hfuel; [lia|].
  destruct (lookup_lt_is_Some_2 store f Hlt) as [fr Hf].
  simpl. rewrite Hf.
  assert (Hcs : ∀ c, c ∈ _childFrames fr → f < c ∧ c < length store)
    by (intros c Hc; by apply (Hwf f fr c)).
  setoid_rewrite (inSubtree_unfold store f fr _ Hf).
  setoid_rewrite elem_of_cons.
  enough (Hloop : ∀ cs acc, (∀ c, c ∈ cs → f < c ∧ c < length store) →
    ∃ l, (fix loop (children frames0 : list nat) {struct children} : Error + list nat :=
            match children with
            | [] => inr frames0
            | subframe :: children0 =>
                match FrameManager.collect fuel store subframe frames0 with
                | inl e => inl e
                | inr frames1 => loop children0 frames1
                end
            end) cs acc = inr (acc ++ l) ∧
         ∀ g, g ∈ l ↔ ∃ c, c ∈ cs ∧ inSubtree store c g).
  { destruct (Hloop (_childFrames fr) (frames ++ [f]) Hcs) as (l & Hl & Hspec).
    exists l. rewrite Hl, <- (assoc_L (++)). split; [done|].
    intros g. by rewrite Hspec. }
  clear Hcs. induction cs as [|c cs IHcs]; intros acc Hcs.
  - exists []. rewrite app_nil_r. split; [done|]. intros g. split.
    + intros Hg. by apply elem_of_nil in Hg.
    + intros (c & Hc & _). by apply elem_of_nil in Hc.
  - destruct (Hcs c) as [Hfc Hcl]; [by left|].
    destruct (IH c acc Hcl) as (l1 & Hl1 & Hspec1); [lia|]. rewrite Hl1.
    destruct (IHcs (acc ++ c :: l1)) as (l2 & Hl2 & Hspec2); [intros; apply Hcs; by right|].
    exists (c :: l1 ++ l2). rewrite Hl2, <- (assoc_L (++)). split; [done|].
    intros g. rewrite app_comm_cons, elem_of_app, Hspec1, Hspec2. split.
    + intros [Hg|(c' & Hc' & Hg)]; [exists c; split; [by left | done]|].
      exists c'. split; [by right | done].
    + intros (c' & Hc' & Hg). apply elem_of_cons in Hc' as [->|Hc']; [by left|].
      right. by exists c'.
Qed.

(** X6. [frames()] lists the frames of the page: on a frame tree in which
    children were constructed after their parents it returns a list that
    starts with the main frame and holds exactly the frames of its subtree,
    and it leaves the page as it is.  Before the first frame is attached there is
    no main frame and the call throws. *)
Theorem X6_frames (w : World) :
  (_mainFrame w = None → FrameManager.frames w = Throw TypeError w) ∧
  (∀ mainFrame,
     _mainFrame w = Some mainFrame →
     mainFrame < length (frameStore w) →
     childrenLater (frameStore w) →
     ∃ l, FrameManager.frames w = Ok (mainFrame :: l) w ∧
          ∀ g, g ∈ mainFrame :: l ↔ inSubtree (frameStore w) mainFrame g).
Proof.
  split.
  - intros Hmain. unfold FrameManager.frames. by rewrite Hmain.
  - intros mainFrame Hmain Hlt Hwf.
    destruct (collect_spec (frameStore w) Hwf (length (frameStore w)) mainFrame [] Hlt)
      as (l & Hl & Hspec); [lia|].
    exists l. unfold FrameManager.frames. rewrite Hmain, Hl. done.
Qed.

(** ** Removing a subtree of frames *)

Lemma filter_ext_in {A} (P Q : A → Prop) `{∀ x, Decision (P x)} `{∀ x, Decision (Q x)}
  (l : list A) :
  (∀ x, x ∈ l → P x ↔ Q x) → filter P l = filter Q l.
Proof.
  induction l as [|x l IH]; intros Hext; [done|].
  rewrite !filter_cons.
  destruct (decide (P x)) as [HP|HP], (decide (Q x)) as [HQ|HQ].
  - f_equal. apply IH. intros y Hy. apply Hext. by right.
  - destruct HQ. apply Hext; [by left | done].
  - destruct HP. apply Hext; [by left | done].
  - apply IH. intros y Hy. apply Hext. by right.
Qed.

Lemma filter_all {A} (P : A → Prop) `{∀ x, Decision (P x)} (l : list A) :
  (∀ x, x ∈ l → P x) → filter P l = l.
Proof.
  induction l as [|x l IH]; intros Hall; [done|].
  rewrite filter_cons_True by (apply Hall; by left).
  f_equal. apply IH. intros y Hy. apply Hall. by right.
Qed.

Lemma filter_none {A} (P : A → Prop) `{∀ x, Decision (P x)} (l : list A) :
  (∀ x, x ∈ l → ¬ P x) → filter P l = [].
Proof.
  induction l as [|x l IH]; intros Hall; [done|].
  rewrite filter_cons_False by (apply Hall; by left).
  apply IH. intros y Hy. apply Hall. by right.
Qed.

Lemma isDetachedIn_lookup s g fr : s !! g = Some fr → isDetachedIn s g = _detached fr.
Proof. intros H. unfold isDetachedIn. by rewrite H. Qed.

Lemma treeOk_child_attached w f fr c :
  treeOk w → frameStore w !! f = Some fr → c ∈ _childFrames fr →
  isDetachedIn (frameStore w) c = false.
Proof.
  intros Hwf Hf Hc. destruct (Hwf f fr Hf) as (Hch & _).
  destruct (Hch c Hc) as (_ & cfr & Hcfr & Hpar).
  rewrite (isDetachedIn_lookup _ _ _ Hcfr).
  destruct (_detached cfr) eqn:Hd; [|done].
  destruct (Hwf c cfr Hcfr) as (_ & _ & _ & Hdet).
  destruct (Hdet Hd) as [_ Hnone]. congruence.
Qed.

Lemma treeOk_childrenLater w : treeOk w → childrenLater (frameStore w).
Proof.
  intros Hwf f fr c Hf Hc. destruct (Hwf f fr Hf) as (Hch & _).
  destruct (Hch c Hc) as (Hlt & cfr & Hcfr & _). split; [done|].
  by eapply lookup_lt_Some.
Qed.

Lemma inSubtree_ge s f g : childrenLater s → inSubtree s f g → f ≤ g.
Proof.
  intros Hwf H. induction H as [|f fr c g Hf Hc _ IH]; [done|].
  destruct (Hwf f fr c Hf Hc). lia.
Qed.

Lemma afterDetach_same w g fr :
  treeOk w → frameStore w !! g = Some fr → afterDetach (frameStore w) g fr = fr.
Proof.
  intros Hwf Hg. unfold afterDetach.
  rewrite (isDetachedIn_lookup _ _ _ Hg).
  assert (Hch : filter (λ c, isDetachedIn (frameStore w) c = false) (_childFrames fr)
                = _childFrames fr).
  { apply filter_all. intros c Hc. by eapply treeOk_child_attached. }
  destruct (Hwf g fr Hg) as (_ & _ & _ & Hdet).
  destruct fr as [? ? ? ? ? ? ? det ? ? ? ? ? ?]. unfold set_childFrames, set_parentFrame, set_detached. simpl in *.
  rewrite Hch. destruct det; [|done].
  destruct (Hdet eq_refl) as [_ ->]. done.
Qed.

Lemma detachedMore_refl w : treeOk w → detachedMore w w.
Proof.
  intros Hwf. split; [done|]. split; [done|].
  intros g. destruct (frameStore w !! g) as [fr|] eqn:Hg; simpl; [|done].
  by rewrite afterDetach_same.
Qed.

Lemma set_childFrames_twice fr (g1 g2 : list nat → list nat) :
  set_childFrames g2 (set_childFrames g1 fr) = set_childFrames (λ l, g2 (g1 l)) fr.
Proof. by destruct fr. Qed.

Lemma set_childFrames_detached fr (g1 g2 : list nat → list nat) :
  set_childFrames g2 (set_parentFrame None (set_detached true (set_childFrames g1 fr)))
  = set_parentFrame None (set_detached true (set_childFrames (λ l, g2 (g1 l)) fr)).
Proof. by destruct fr. Qed.

Lemma detached_twice fr :
  set_parentFrame None (set_detached true (set_parentFrame None (set_detached true fr)))
  = set_parentFrame None (set_detached true fr).
Proof. by destruct fr. Qed.

Lemma set_childFrames_eq fr (g1 g2 : list nat → list nat) :
  g1 (_childFrames fr) = g2 (_childFrames fr) →
  set_childFrames g1 fr = set_childFrames g2 fr.
Proof. destruct fr. unfold set_childFrames. simpl. by intros ->. Qed.

Lemma afterDetach_afterDetach s1 s2 g fr :
  (∀ c, isDetachedIn s1 c = true → isDetachedIn s2 c = true) →
  afterDetach s2 g (afterDetach s1 g fr) = afterDetach s2 g fr.
Proof.
  intros Hmono. unfold afterDetach.
  assert (Hch : filter (λ c, isDetachedIn s2 c = false)
                  (filter (λ c, isDetachedIn s1 c = false) (_childFrames fr))
                = filter (λ c, isDetachedIn s2 c = false) (_childFrames fr)).
  { induction (_childFrames fr) as [|c l IH]; [done|].
    rewrite !(filter_cons _ c).
    destruct (decide (isDetachedIn s1 c = false)) as [H1|H1].
    - rewrite filter_cons. by rewrite IH.
    - rewrite IH. rewrite decide_False; [done|].
      apply not_false_iff_true in H1. apply Hmono in H1. by rewrite H1. }
  destruct (isDetachedIn s1 g) eqn:H1.
  - rewrite (Hmono g H1). rewrite set_childFrames_detached, detached_twice.
    do 2 f_equal. by apply set_childFrames_eq.
  - rewrite set_childFrames_twice.
    rewrite (set_childFrames_eq fr _ (filter (λ c, isDetachedIn s2 c = false))) by done.
    done.
Qed.

Lemma detachedMore_trans w1 w2 w3 :
  detachedMore w1 w2 → detachedMore w2 w3 → detachedMore w1 w3.
Proof.
  intros (Hr1 & Hm1 & Hs1) (Hr2 & Hm2 & Hs2).
  split; [congruence|]. split; [auto|].
  intros g. rewrite Hs2, Hs1. destruct (frameStore w1 !! g) as [fr|]; simpl; [|done].
  by rewrite afterDetach_afterDetach.
Qed.

Lemma detachedMore_length w w' :
  detachedMore w w' → length (frameStore w') = length (frameStore w).
Proof.
  intros (_ & _ & Hs).
  destruct (decide (length (frameStore w') = length (frameStore w))) as [|Hne]; [done|].
  exfalso.
  destruct (decide (length (frameStore w') < length (frameStore w))) as [Hlt|Hge].
  - specialize (Hs (length (frameStore w'))).
    rewrite lookup_ge_None_2 in Hs by done.
    destruct (lookup_lt_is_Some_2 _ _ Hlt) as [fr Hfr]. by rewrite Hfr in Hs.
  - specialize (Hs (length (frameStore w))).
    rewrite (lookup_ge_None_2 (frameStore w)) in Hs by done.
    assert (Hlt : length (frameStore w) < length (frameStore w')) by lia.
    destruct (lookup_lt_is_Some_2 _ _ Hlt) as [fr Hfr]. by rewrite Hfr in Hs.
Qed.

Lemma detachedMore_lookup w w' g fr' :
  detachedMore w w' → frameStore w' !! g = Some fr' →
  ∃ fr, frameStore w !! g = Some fr ∧ fr' = afterDetach (frameStore w') g fr.
Proof.
  intros (_ & _ & Hs) Hg. rewrite Hs in Hg.
  destruct (frameStore w !! g) as [fr|]; [|done]. injection Hg as <-. by exists fr.
Qed.

Lemma afterDetach_id s g fr : _id (afterDetach s g fr) = _id fr.
Proof. unfold afterDetach. by destruct (isDetachedIn s g). Qed.

Lemma afterDetach_children s g fr c :
  c ∈ _childFrames (afterDetach s g fr) → c ∈ _childFrames fr.
Proof.
  unfold afterDetach. destruct (isDetachedIn s g); simpl;
    intros H; by apply list_elem_of_filter in H as [_ H].
Qed.

Lemma detachedMore_idOf w w' g :
  detachedMore w w' → idOf (frameStore w') g = idOf (frameStore w) g.
Proof.
  intros (_ & _ & Hs). unfold idOf. rewrite Hs.
  destruct (frameStore w !! g) as [fr|]; simpl; [|done]. apply afterDetach_id.
Qed.

Lemma detachedMore_inSubtree w w' f g :
  detachedMore w w' → inSubtree (frameStore w') f g → inSubtree (frameStore w) f g.
Proof.
  intros Hmore H. induction H as [|f fr' c g Hf Hc _ IH]; [constructor|].
  destruct (detachedMore_lookup w w' f fr' Hmore Hf) as (fr & Hfr & ->).
  eapply inSubtree_child; [done | by eapply afterDetach_children | done].
Qed.

Lemma treeOk_refs w f fr :
  treeOk w → frameStore w !! f = Some fr →
  (∀ ty t, t ∈ rerunnableTasks (_contextData fr ty) → is_Some (rerunnableStore w !! t)) ∧
  (∀ parent, _parentFrame fr = Some parent → is_Some (frameStore w !! parent)).
Proof.
  intros Hwf Hf. destruct (Hwf f fr Hf) as (_ & Hp & Ht & _). split.
  - intros ty t Hel. apply lookup_lt_is_Some. by eapply Ht.
  - intros p Hpar. apply lookup_lt_is_Some. apply Hp in Hpar.
    apply lookup_lt_Some in Hf. lia.
Qed.

Lemma set_childFrames_ext fr (g1 g2 : list nat → list nat) :
  g1 (_childFrames fr) = g2 (_childFrames fr) →
  set_childFrames g1 fr = set_childFrames g2 fr.
Proof. destruct fr. unfold set_childFrames. simpl. by intros ->. Qed.

Lemma set_childFrames_same fr (g : list nat → list nat) :
  g (_childFrames fr) = _childFrames fr → set_childFrames g fr = fr.
Proof. destruct fr. unfold set_childFrames. simpl. by intros ->. Qed.

Lemma afterDetach_childFrames s g fr :
  _childFrames (afterDetach s g fr)
  = filter (λ c, isDetachedIn s c = false) (_childFrames fr).
Proof. unfold afterDetach. by destruct (isDetachedIn s g). Qed.

Lemma visited_treeOk w frame fr :
  treeOk w → frameStore w !! frame = Some fr → _childFrames fr = [] →
  treeOk (visited w frame fr).
Proof.
  intros Hwf Hf Hleaf g fr' Hg. simpl in Hg.
  destruct (detachedStore_fields _ _ _ _ _ Hg) as (frg & Hfrg & _ & Hctx & Hdet & Hpar & Hch).
  destruct (Hwf g frg Hfrg) as (Hc & Hp & Ht & Hd).
  split; [|split; [|split]].
  - intros c Hel.
    assert (Hel' : c ∈ _childFrames frg ∧ (Some g = _parentFrame fr → c ≠ frame)).
    { rewrite Hch in Hel. case_decide as Hgp.
      - apply list_elem_of_filter in Hel as [Hne Hel]. done.
      - done. }
    destruct Hel' as [Hel' Hne].
    destruct (Hc c Hel') as (Hlt & cfr & Hcfr & Hcpar). split; [done|].
    assert (Hcf : c ≠ frame).
    { intros ->. assert (cfr = fr) as -> by congruence. by apply Hne. }
    destruct (detachedStore_is_Some frame (_parentFrame fr) _ _ _ Hcfr) as [cfr' Hcfr'].
    exists cfr'. split; [done|].
    destruct (detachedStore_fields _ _ _ _ _ Hcfr') as (cfr0 & Hcfr0 & _ & _ & _ & Hpar' & _).
    assert (cfr0 = cfr) as -> by (simpl in Hcfr0; congruence).
    rewrite Hpar'. by rewrite decide_False.
  - intros p Hp'. rewrite Hpar in Hp'. case_decide; [done|]. by apply Hp.
  - intros ty t Hel. simpl. rewrite Hctx in Hel. by eapply Ht.
  - intros Hd'. rewrite Hdet in Hd'. rewrite Hch, Hpar.
    destruct (decide (g = frame)) as [->|Hne].
    + assert (frg = fr) as -> by congruence. rewrite Hleaf. split; [|done].
      by case_decide.
    + destruct (Hd Hd') as [-> ->]. split; [|done]. by case_decide.
Qed.

Lemma visited_detachedMore w frame fr :
  treeOk w → frameStore w !! frame = Some fr → _childFrames fr = [] →
  detachedMore w (visited w frame fr).
Proof.
  intros Hwf Hf Hleaf. split; [done|]. split.
  - intros g Hg. simpl. rewrite (detachedStore_isDetached _ _ _ _ fr Hf).
    by case_decide.
  - intros g. simpl. rewrite detachedStore_lookup.
    destruct (frameStore w !! g) as [frg|] eqn:Hfrg; simpl; [|done]. f_equal.
    unfold afterDetach. rewrite (detachedStore_isDetached _ _ _ _ fr Hf).
    destruct (Hwf g frg Hfrg) as (Hc & _ & _ & Hd).
    assert (Hch : filter (λ c, isDetachedIn
                    (detachedStore frame (_parentFrame fr) (frameStore w)) c = false)
                    (_childFrames frg)
                  = if decide (Some g = _parentFrame fr)
                    then set_delete frame (_childFrames frg) else _childFrames frg).
    { assert (Hext : filter (λ c, isDetachedIn
                       (detachedStore frame (_parentFrame fr) (frameStore w)) c = false)
                       (_childFrames frg)
                     = set_delete frame (_childFrames frg)).
      { apply filter_ext_in. intros c Hel.
        rewrite (detachedStore_isDetached _ _ _ _ fr Hf).
        rewrite (treeOk_child_attached w g frg c Hwf Hfrg Hel).
        case_decide; split; done. }
      rewrite Hext. case_decide as Hgp; [done|].
      apply filter_all. intros c Hel ->. apply Hgp.
      destruct (Hc frame Hel) as (_ & cfr & Hcfr & Hpar). congruence. }
    destruct (decide (g = frame)) as [->|Hne].
    + assert (frg = fr) as -> by congruence.
      clear Hch. destruct fr.
      unfold set_childFrames, set_parentFrame, set_detached. simpl in *.
      subst. by repeat case_decide.
    + unfold isDetachedIn. rewrite Hfrg.
      destruct (_detached frg) eqn:Hdet.
      * destruct (Hd eq_refl) as [Hnil Hnone]. clear Hch. destruct frg.
        unfold set_childFrames, set_parentFrame, set_detached. simpl in *.
        subst. by repeat case_decide.
      * case_decide.
        -- by apply set_childFrames_ext.
        -- symmetry. by apply set_childFrames_same.
Qed.

Lemma visited_removed w frame fr :
  treeOk w → frameStore w !! frame = Some fr → _childFrames fr = [] →
  removedSubtrees [frame] w (visited w frame fr) [frame].
Proof.
  intros Hwf Hf Hleaf. split.
  - by apply visited_treeOk.
  - by apply visited_detachedMore.
  - done.
  - simpl. unfold idOf. by rewrite Hf.
  - intros g Hg. apply list_elem_of_singleton in Hg as ->. split.
    + exists frame. split; [by left | constructor].
    + simpl. rewrite (detachedStore_isDetached _ _ _ _ fr Hf). by case_decide.
  - intros g Hold Hnew. simpl in Hnew.
    rewrite (detachedStore_isDetached _ _ _ _ fr Hf) in Hnew.
    case_decide; [subst; by left | congruence].
  - intros r Hr. apply list_elem_of_singleton in Hr as ->. split; [|by left].
    simpl. rewrite (detachedStore_isDetached _ _ _ _ fr Hf). by case_decide.
  - done.
Qed.

Lemma removedSubtrees_nil w : treeOk w → removedSubtrees [] w w [].
Proof.
  intros Hwf. split; try done.
  - by apply detachedMore_refl.
  - simpl. by rewrite app_nil_r.
  - intros g Hg. by apply elem_of_nil in Hg.
  - intros g H1 H2. congruence.
  - intros r Hr. by apply elem_of_nil in Hr.
Qed.

Lemma foldl_delete_ext (f g : nat → string) (l : list nat) (m : gmap string nat) :
  (∀ x, f x = g x) →
  foldl (λ m x, delete (f x) m) m l = foldl (λ m x, delete (g x) m) m l.
Proof.
  intros Hfg. revert m. induction l as [|x l IH]; intros m; [done|].
  simpl. by rewrite Hfg, IH.
Qed.

Lemma removedSubtrees_app roots1 roots2 w1 w2 w3 order1 order2 :
  removedSubtrees roots1 w1 w2 order1 →
  removedSubtrees roots2 w2 w3 order2 →
  removedSubtrees (roots1 ++ roots2) w1 w3 (order1 ++ order2).
Proof.
  intros [Ht1 Hm1 He1 Hf1 Ho1 Hn1 Hr1 Hrest1] [Ht2 Hm2 He2 Hf2 Ho2 Hn2 Hr2 Hrest2].
  pose proof Hm2 as (_ & Hmono2 & _).
  split.
  - done.
  - by eapply detachedMore_trans.
  - rewrite He2, He1, map_app. by rewrite (assoc_L (++)).
  - rewrite Hf2, Hf1, foldl_app. apply foldl_delete_ext.
    intros g. by apply detachedMore_idOf.
  - intros g Hg. apply elem_of_app in Hg as [Hg|Hg].
    + destruct (Ho1 g Hg) as [(r & Hr & Hsub) Hdet]. split; [|by apply Hmono2].
      exists r. split; [apply elem_of_app; by left | done].
    + destruct (Ho2 g Hg) as [(r & Hr & Hsub) Hdet]. split; [|done].
      exists r. split; [apply elem_of_app; by right|].
      by eapply detachedMore_inSubtree.
  - intros g Hold Hnew. apply elem_of_app.
    destruct (isDetachedIn (frameStore w2) g) eqn:Hmid; [left; by apply Hn1|].
    right. by apply Hn2.
  - intros r Hr. apply elem_of_app in Hr as [Hr|Hr].
    + destruct (Hr1 r Hr) as [Hdet Hin]. split; [by apply Hmono2|].
      apply elem_of_app. by left.
    + destruct (Hr2 r Hr) as [Hdet Hin]. split; [done|]. apply elem_of_app. by right.
  - congruence.
Qed.

Lemma removedSubtrees_roots roots roots' w w' order :
  removedSubtrees roots w w' order →
  (∀ r g, r ∈ roots → inSubtree (frameStore w) r g →
          ∃ r', r' ∈ roots' ∧ inSubtree (frameStore w) r' g) →
  (∀ r', r' ∈ roots' → r' ∈ roots) →
  removedSubtrees roots' w w' order.
Proof.
  intros [Ht Hm He Hf Ho Hn Hr Hrest] Hcover Hsub. split; try done.
  - intros g Hg. destruct (Ho g Hg) as [(r & Hrin & Hs) Hdet]. split; [|done].
    by eapply Hcover.
  - intros r' Hr'. apply Hr. by apply Hsub.
Qed.

(** The loop over the children. *)
Lemma forM_removed (run : nat → M unit) cs n :
  (∀ c w, c ∈ cs → treeOk w → length (frameStore w) = n →
     ∃ w' order, run c w = Ok tt w' ∧ removedSubtrees [c] w w' order) →
  ∀ w, treeOk w → length (frameStore w) = n →
  ∃ w' order, forM_ cs run w = Ok tt w' ∧ removedSubtrees cs w w' order.
Proof.
  induction cs as [|c cs IH]; intros Hrun w Hwf Hlen.
  - exists w, []. split; [done|]. by apply removedSubtrees_nil.
  - destruct (Hrun c w) as (w1 & order1 & Hrun1 & Hrem1); [by left | done | done|].
    destruct (IH (λ c' w' Hc', Hrun c' w' (list_elem_of_further _ _ _ Hc')) w1)
      as (w2 & order2 & Hrun2 & Hrem2).
    + apply Hrem1.
    + rewrite (detachedMore_length w w1) by apply Hrem1. done.
    + exists w2, (order1 ++ order2). rewrite forM_cons, Hrun1. split; [done|].
      by apply (removedSubtrees_app [c] cs w w1 w2).
Qed.

Lemma removeFramesRecursively_fuel_run fuel : ∀ frame w,
  treeOk w → frame < length (frameStore w) → length (frameStore w) - frame ≤ fuel →
  ∃ w' order,
    FrameManager._removeFramesRecursively_fuel fuel frame w = Ok tt w' ∧
    removedSubtrees [frame] w w' order ∧ last order = Some frame.
Proof.
  induction fuel as [|fuel IH]; intros frame w Hwf Hlt Hfuel; [lia|].
  destruct (lookup_lt_is_Some_2 _ _ Hlt) as [fr Hf].
  destruct (Hwf frame fr Hf) as (Hch & _).
  simpl. unfold Frame.childFrames.
  rewrite (bind_Ok _ _ w (_childFrames fr) w)
    by (unfold mbind, M_bind, getFrame, mret, M_ret; by rewrite Hf).
  destruct (forM_removed (FrameManager._removeFramesRecursively_fuel fuel) (_childFrames fr)
              (length (frameStore w)))
    with (w := w) as (w1 & order1 & Hrun1 & Hrem1); [|done|done|].
  { intros c w0 Hc Hwf0 Hlen0.
    destruct (Hch c Hc) as (Hfc & cfr & Hcfr & _). apply lookup_lt_Some in Hcfr.
    destruct (IH c w0 Hwf0) as (w' & order & Hrun & Hrem & _); [lia | lia|].
    by exists w', order. }
  rewrite (bind_Ok _ _ w tt w1) by done.
  pose proof (rs_tree _ _ _ _ Hrem1) as Hwf1.
  pose proof (rs_more _ _ _ _ Hrem1) as Hmore1.
  assert (Hf1 : frameStore w1 !! frame = Some (afterDetach (frameStore w1) frame fr)).
  { destruct Hmore1 as (_ & _ & Hs). by rewrite Hs, Hf. }
  assert (Hleaf : _childFrames (afterDetach (frameStore w1) frame fr) = []).
  { rewrite afterDetach_childFrames. apply filter_none. intros c Hc.
    destruct (rs_roots _ _ _ _ Hrem1 c Hc) as [Hdet _]. by rewrite Hdet. }
  destruct (treeOk_refs w1 frame _ Hwf1 Hf1) as [Htasks Hparent].
  exists (visited w1 frame (afterDetach (frameStore w1) frame fr)), (order1 ++ [frame]).
  split; [by apply visit_run|]. split; [|by rewrite last_snoc].
  apply (removedSubtrees_roots (_childFrames fr ++ [frame])).
  - eapply removedSubtrees_app; [done|]. by apply visited_removed.
  - intros r g Hr Hsub. exists frame. split; [by left|].
    apply elem_of_app in Hr as [Hr|Hr].
    + by eapply inSubtree_child.
    + by apply list_elem_of_singleton in Hr as ->.
  - intros r Hr. apply elem_of_app. by right.
Qed.

Lemma removeFramesRecursively_run frame w :
  treeOk w → frame < length (frameStore w) →
  ∃ w' order,
    FrameManager._removeFramesRecursively frame w = Ok tt w' ∧
    removedSubtrees [frame] w w' order ∧ last order = Some frame.
Proof.
  intros Hwf Hlt. unfold FrameManager._removeFramesRecursively.
  rewrite (bind_Ok _ _ w w w) by done.
  apply removeFramesRecursively_fuel_run; [done | done | lia].
Qed.

Lemma removeChildFramesRecursively_run frame fr w :
  treeOk w → frameStore w !! frame = Some fr →
  ∃ w' order,
    FrameManager.removeChildFramesRecursively frame w = Ok tt w' ∧
    removedSubtrees (_childFrames fr) w w' order.
Proof.
  intros Hwf Hf. unfold FrameManager.removeChildFramesRecursively, Frame.childFrames.
  rewrite (bind_Ok _ _ w (_childFrames fr) w)
    by (unfold mbind, M_bind, getFrame, mret, M_ret; by rewrite Hf).
  apply (forM_removed _ _ (length (frameStore w))); [|done|done].
  intros c w0 Hc Hwf0 Hlen0.
  destruct (Hwf frame fr Hf) as (Hch & _).
  destruct (Hch c Hc) as (_ & cfr & Hcfr & _). apply lookup_lt_Some in Hcfr.
  destruct (removeFramesRecursively_run c w0 Hwf0) as (w' & order & Hrun & Hrem & _); [lia|].
  by exists w', order.
Qed.

(** Once a frame is detached, so is every frame that was below it. *)
Lemma detached_subtree w w' f g :
  treeOk w' → detachedMore w w' →
  inSubtree (frameStore w) f g →
  isDetachedIn (frameStore w') f = true → isDetachedIn (frameStore w') g = true.
Proof.
  intros Hwf' Hmore Hsub. induction Hsub as [|f fr c g Hf Hc _ IH]; [done|].
  intros Hdet. apply IH.
  destruct Hmore as (_ & _ & Hs).
  destruct (isDetachedIn (frameStore w') c) eqn:Hc'; [done|]. exfalso.
  assert (Hf' : frameStore w' !! f = Some (afterDetach (frameStore w') f fr))
    by (by rewrite Hs, Hf).
  destruct (Hwf' f _ Hf') as (_ & _ & _ & Hd).
  rewrite (isDetachedIn_lookup _ _ _ Hf') in Hdet.
  destruct (Hd Hdet) as [Hnil _]. rewrite afterDetach_childFrames in Hnil.
  assert (Hin : c ∈ filter (λ c, isDetachedIn (frameStore w') c = false) (_childFrames fr))
    by (by apply list_elem_of_filter).
  rewrite Hnil in Hin. by apply elem_of_nil in Hin.
Qed.


Lemma inSubtree_last s f g :
  inSubtree s f g → g ≠ f →
  ∃ h frh, inSubtree s f h ∧ s !! h = Some frh ∧ g ∈ _childFrames frh.
Proof.
  intros H. induction H as [|f fr c g Hf Hc Hsub IH]; [done|]. intros _.
  destruct (decide (g = c)) as [->|Hne].
  - exists f, fr. split; [constructor | done].
  - destruct (IH Hne) as (h & frh & Hh & Hfrh & Hg).
    exists h, frh. split; [by eapply inSubtree_child | done].
Qed.

Lemma foldl_delete_lookup_in (f : nat → string) l : ∀ (m : gmap string nat) g,
  g ∈ l → foldl (λ m x, delete (f x) m) m l !! f g = None.
Proof.
  induction l as [|x l IH] using rev_ind; intros m g Hg; [by apply elem_of_nil in Hg|].
  rewrite foldl_app. simpl.
  destruct (decide (f x = f g)) as [Heq|Hne].
  - rewrite Heq. apply lookup_delete_eq.
  - rewrite lookup_delete_ne by done. apply IH.
    apply elem_of_app in Hg as [Hg|Hg]; [done|].
    apply list_elem_of_singleton in Hg. congruence.
Qed.

Lemma foldl_delete_lookup_out (f : nat → string) l : ∀ (m : gmap string nat) id,
  (∀ g, g ∈ l → f g ≠ id) → foldl (λ m x, delete (f x) m) m l !! id = m !! id.
Proof.
  induction l as [|x l IH]; intros m id Hout; [done|].
  simpl. rewrite IH by (intros g Hg; apply Hout; by right).
  apply lookup_delete_ne. apply Hout. by left.
Qed.

(** What a removal leaves of a frame below a root, and of any other frame. *)
Lemma removedSubtrees_inside w w' order root g fr :
  treeOk w → removedSubtrees [root] w w' order →
  inSubtree (frameStore w) root g → frameStore w !! g = Some fr →
  g ∈ order ∧
  frameStore w' !! g
  = Some (set_parentFrame None (set_detached true (set_childFrames (λ _, []) fr))) ∧
  _frames w' !! _id fr = None.
Proof.
  intros Hwf Hrem Hsub Hg.
  destruct (rs_roots _ _ _ _ Hrem root) as [Hrdet Hrin]; [by left|].
  assert (Hdet : isDetachedIn (frameStore w') g = true).
  { eapply detached_subtree; [apply Hrem | apply Hrem | done | done]. }
  assert (Hin : g ∈ order).
  { destruct (decide (g = root)) as [->|Hne]; [done|].
    destruct (inSubtree_last _ _ _ Hsub Hne) as (h & frh & _ & Hfrh & Hgh).
    apply (rs_new _ _ _ _ Hrem); [|done]. by eapply treeOk_child_attached. }
  split; [done|]. split.
  - destruct (rs_more _ _ _ _ Hrem) as (_ & _ & Hs).
    assert (Hg' : frameStore w' !! g = Some (afterDetach (frameStore w') g fr))
      by (by rewrite Hs, Hg).
    rewrite Hg'. f_equal. unfold afterDetach. rewrite Hdet. do 2 f_equal.
    apply set_childFrames_ext.
    destruct (rs_tree _ _ _ _ Hrem g _ Hg') as (_ & _ & _ & Hd).
    rewrite (isDetachedIn_lookup _ _ _ Hg') in Hdet.
    destruct (Hd Hdet) as [Hnil _]. by rewrite afterDetach_childFrames in Hnil.
  - rewrite (rs_frames _ _ _ _ Hrem).
    replace (_id fr) with (idOf (frameStore w) g) by (unfold idOf; by rewrite Hg).
    by apply foldl_delete_lookup_in.
Qed.

Lemma removedSubtrees_outside w w' order root g fr :
  treeOk w → removedSubtrees [root] w w' order →
  ¬ inSubtree (frameStore w) root g → frameStore w !! g = Some fr →
  frameStore w' !! g = Some (set_childFrames (set_delete root) fr).
Proof.
  intros Hwf Hrem Hout Hg.
  destruct (rs_more _ _ _ _ Hrem) as (_ & Hmono & Hs).
  rewrite Hs, Hg. simpl. f_equal.
  assert (Hnew : ∀ c, isDetachedIn (frameStore w) c = false →
                      isDetachedIn (frameStore w') c = true → inSubtree (frameStore w) root c).
  { intros c H1 H2. destruct (rs_order _ _ _ _ Hrem c) as [(r & Hr & Hsub) _].
    - by apply (rs_new _ _ _ _ Hrem).
    - by apply list_elem_of_singleton in Hr as ->. }
  destruct (Hwf g fr Hg) as (Hch & _ & _ & Hd).
  assert (Hsame : isDetachedIn (frameStore w') g = _detached fr).
  { rewrite <- (isDetachedIn_lookup _ _ _ Hg).
    destruct (isDetachedIn (frameStore w) g) eqn:H1; [by apply Hmono|].
    destruct (isDetachedIn (frameStore w') g) eqn:H2; [|done].
    destruct Hout. by apply Hnew. }
  unfold afterDetach. rewrite Hsame.
  assert (Hfilter : filter (λ c, isDetachedIn (frameStore w') c = false) (_childFrames fr)
                    = set_delete root (_childFrames fr)).
  { apply filter_ext_in. intros c Hc.
    pose proof (treeOk_child_attached w g fr c Hwf Hg Hc) as Hatt. split.
    - intros Hc' ->.
      destruct (rs_roots _ _ _ _ Hrem root) as [Hrdet _]; [by left|]. congruence.
    - intros Hne. destruct (isDetachedIn (frameStore w') c) eqn:Hc'; [|done].
      exfalso. pose proof (Hnew c Hatt Hc') as Hsub.
      destruct (inSubtree_last _ _ _ Hsub Hne) as (h & frh & Hh & Hfrh & Hch').
      destruct (Hwf h frh Hfrh) as (Hchh & _).
      destruct (Hchh c Hch') as (_ & cfr & Hcfr & Hpar).
      destruct (Hch c Hc) as (_ & cfr' & Hcfr' & Hpar').
      assert (h = g) as -> by congruence. done. }
  destruct (_detached fr) eqn:Hdet.
  - destruct (Hd eq_refl) as [Hnil Hnone].
    rewrite (set_childFrames_same fr (set_delete root)) by (by rewrite Hnil).
    destruct fr. unfold set_childFrames, set_parentFrame, set_detached. simpl in *.
    by subst.
  - by apply set_childFrames_ext.
Qed.

(** X7. On a frame tree, [frameDetached] of a known frame returns, and it
    removes the whole subtree of the frame.  Every frame of the subtree is
    detached afterwards, without a parent and without children, and its id
    has left the frame map; the page gets FrameDetached for exactly these
    frames, the frame itself last.  A frame outside the subtree changes in
    nothing but that the removed frame has left its children, the frame
    map is unchanged at every id that belongs to no removed frame, and the
    tree is one again. *)
Theorem X7_frameDetached_subtree (w : World) (frameId : string) (frame : nat) :
  treeOk w →
  _frames w !! frameId = Some frame →
  frame < length (frameStore w) →
  ∃ w' order,
    FrameManager.frameDetached frameId w = Ok tt w' ∧
    treeOk w' ∧
    (∀ g, g ∈ order ↔ inSubtree (frameStore w) frame g) ∧
    last order = Some frame ∧
    effects w' = effects w ++ map (λ g, Emit (Events.FrameDetached g)) order ∧
    (∀ g fr, inSubtree (frameStore w) frame g → frameStore w !! g = Some fr →
       frameStore w' !! g
       = Some (set_parentFrame None (set_detached true (set_childFrames (λ _, []) fr))) ∧
       _frames w' !! _id fr = None) ∧
    (∀ g fr, ¬ inSubtree (frameStore w) frame g → frameStore w !! g = Some fr →
       frameStore w' !! g = Some (set_childFrames (set_delete frame) fr)) ∧
    (∀ id,
       (∀ g fr, inSubtree (frameStore w) frame g → frameStore w !! g = Some fr →
                _id fr ≠ id) →
       _frames w' !! id = _frames w !! id).
Proof.
  intros Hwf Hid Hlt.
  destruct (removeFramesRecursively_run frame w Hwf Hlt) as (w' & order & Hrun & Hrem & Hlast).
  exists w', order. split.
  { unfold FrameManager.frameDetached. rewrite (bind_Ok _ _ w w w) by done.
    by rewrite Hid. }
  split; [apply Hrem|].
  assert (Hsubs : ∀ g, inSubtree (frameStore w) frame g → g < length (frameStore w)).
  { intros g Hsub. destruct (decide (g = frame)) as [->|Hne]; [done|].
    destruct (inSubtree_last _ _ _ Hsub Hne) as (h & frh & _ & Hfrh & Hgh).
    destruct (Hwf h frh Hfrh) as (Hch & _).
    destruct (Hch g Hgh) as (_ & cfr & Hcfr & _). by eapply lookup_lt_Some. }
  split; [|split; [done|split; [apply Hrem|split; [|split]]]].
  - intros g. split.
    + intros Hg. destruct (rs_order _ _ _ _ Hrem g Hg) as [(r & Hr & Hsub) _].
      by apply list_elem_of_singleton in Hr as ->.
    + intros Hsub. destruct (lookup_lt_is_Some_2 _ _ (Hsubs g Hsub)) as [fr Hg].
      by destruct (removedSubtrees_inside w w' order frame g fr Hwf Hrem Hsub Hg).
  - intros g fr Hsub Hg.
    by destruct (removedSubtrees_inside w w' order frame g fr Hwf Hrem Hsub Hg) as (_ & ? & ?).
  - intros g fr Hout Hg. by eapply removedSubtrees_outside.
  - intros id Hout. rewrite (rs_frames _ _ _ _ Hrem).
    apply foldl_delete_lookup_out. intros g Hg.
    destruct (rs_order _ _ _ _ Hrem g Hg) as [(r & Hr & Hsub) _].
    apply list_elem_of_singleton in Hr as ->.
    destruct (lookup_lt_is_Some_2 _ _ (Hsubs g Hsub)) as [fr Hfr].
    unfold idOf. rewrite Hfr. by eapply Hout.
Qed.

(** The frame objects of a concrete page form a tree. *)
Ltac tree_ok_frame :=
  (split; [|split; [|split]]);
  [ intros c Hc; simpl in Hc;
    repeat (apply elem_of_cons in Hc as [->|Hc]; [split; [lia|eexists; split; reflexivity]|]);
    by apply elem_of_nil in Hc
  | intros p Hp; simpl in Hp; try discriminate; injection Hp as <-; simpl; lia
  | intros [] t Ht; simpl in Ht;
    repeat (apply elem_of_cons in Ht as [->|Ht]; [simpl; lia|]);
    by apply elem_of_nil in Ht
  | simpl; intros Hd; try discriminate; by split ].

Ltac tree_ok :=
  intros f fr Hf;
  repeat (destruct f as [|f]; [injection Hf as <-; tree_ok_frame|]);
  done.

Lemma treeOk_tree_page : treeOk tree_page.
Proof. tree_ok. Qed.

Lemma treeOk_attached_page : treeOk attached_page.
Proof. tree_ok. Qed.

Lemma X7_witness :
  ∃ w', FrameManager.frameDetached "main" tree_page = Ok tt w' ∧
        isDetachedIn (frameStore w') 1 = true.
Proof.
  destruct (X7_frameDetached_subtree tree_page "main" 0)
    as (w' & order & Hrun & _ & _ & _ & _ & Hin & _);
    [exact treeOk_tree_page | reflexivity | simpl; lia|].
  exists w'. split; [exact Hrun|].
  edestruct (Hin 1) as [H1 _];
    [eapply inSubtree_child; [reflexivity | by left | constructor] | reflexivity |].
  unfold isDetachedIn. by rewrite H1.
Defined.

Lemma X6_witness :
  ∃ l, FrameManager.frames tree_page = Ok (0 :: l) tree_page ∧ 1 ∈ 0 :: l.
Proof.
  destruct (X6_frames tree_page) as [_ H].
  destruct (H 0) as (l & Hl & Hspec);
    [reflexivity | simpl; lia | apply treeOk_childrenLater, treeOk_tree_page |].
  exists l. split; [exact Hl|]. apply Hspec.
  eapply inSubtree_child; [reflexivity | by left | constructor].
Defined.

(** ** Notifying the tasks of a frame *)

Lemma settled_app {T} (a1 a2 : list (nat * PromiseState T)) h :
  settled (a1 ++ a2) h = settled a2 (settled a1 h).
Proof. apply foldl_app. Qed.

Lemma settled_length {T} (acts : list (nat * PromiseState T)) : ∀ h,
  length (settled acts h) = length h.
Proof.
  induction acts as [|a acts IH]; intros h; [done|].
  simpl. by rewrite IH, settle_length.
Qed.

Lemma settled_kept {T} (acts : list (nat * PromiseState T)) : ∀ h p s0,
  h !! p = Some s0 → s0 ≠ Pending → settled acts h !! p = Some s0.
Proof.
  induction acts as [|[q s] acts IH]; intros h p s0 Hp Hs0; [done|].
  simpl. apply IH; [|done].
  destruct (decide (q = p)) as [->|Hne].
  - by rewrite (settle_settled h p s s0).
  - by rewrite settle_lookup_ne.
Qed.

Lemma settled_other {T} (acts : list (nat * PromiseState T)) : ∀ h p,
  (∀ s, (p, s) ∉ acts) → settled acts h !! p = h !! p.
Proof.
  induction acts as [|[q s] acts IH]; intros h p Hout; [done|].
  simpl. rewrite IH by (intros s' Hs'; apply (Hout s'); by right).
  apply settle_lookup_ne. intros ->. apply (Hout s). by left.
Qed.

(** A pending promise on which every call agrees ends in that state. *)
Lemma settled_uniform {T} (acts : list (nat * PromiseState T)) : ∀ h p s,
  h !! p = Some Pending → s ≠ Pending →
  (∃ s', (p, s') ∈ acts) → (∀ s', (p, s') ∈ acts → s' = s) →
  settled acts h !! p = Some s.
Proof.
  induction acts as [|[q s1] acts IH]; intros h p s Hp Hs [s' Hin] Hall.
  { by apply elem_of_nil in Hin. }
  simpl. destruct (decide (q = p)) as [->|Hne].
  - assert (s1 = s) as -> by (apply Hall; by left).
    apply settled_kept; [|done]. by apply settle_lookup_pending.
  - apply IH; [by rewrite settle_lookup_ne | done | |].
    + exists s'. apply elem_of_cons in Hin as [[= ? ?]|Hin]; [congruence | done].
    + intros s2 Hs2. apply Hall. by right.
Qed.

Lemma tasksOf_cons w t tasks tk :
  taskStore w !! t = Some tk → tasksOf w (t :: tasks) = tk :: tasksOf w tasks.
Proof. intros H. unfold tasksOf. simpl. by rewrite H. Qed.

Lemma tasksOf_elem w tasks tk :
  tk ∈ tasksOf w tasks ↔ ∃ t, t ∈ tasks ∧ taskStore w !! t = Some tk.
Proof. unfold tasksOf. apply list_elem_of_omap. Qed.

Lemma onNewDocument_run w task tk documentId error :
  taskStore w !! task = Some tk →
  _frame tk < length (frameStore w) →
  FrameTask.onNewDocument task documentId error w
  = Ok tt (newDocumentNotified [task] documentId error w).
Proof.
  intros Ht Hlt. destruct (lookup_lt_is_Some_2 _ _ Hlt) as [fr Hf].
  unfold newDocumentNotified. rewrite (tasksOf_cons w task [] tk Ht).
  unfold tasksOf, specificActs, newDocumentActs, navigatedLog, frameUrl, settled.
  simpl. msimpl. rewrite Ht. simpl. rewrite Hf.
  destruct (_progress tk) as [pr|], error as [e|], (_onSpecificDocument tk) as [[ex p]|],
    (_onNewDocument tk) as [[u q]|]; simpl; rewrite ?Hf; simpl;
    repeat case_decide; simpl; rewrite ?Hf; simpl;
    try destruct (urlMatches _ _); simpl; rewrite ?app_nil_r;
    unfold with_effects, with_documentPromises, with_voidPromises; simpl;
    rewrite ?app_nil_r; try reflexivity; by destruct w.
Qed.

Lemma tasksValid_cons w t tasks :
  tasksValid w (t :: tasks) →
  (∃ tk, taskStore w !! t = Some tk ∧ _frame tk < length (frameStore w)) ∧
  tasksValid w tasks.
Proof.
  intros H. split; [apply H; by left|]. intros t' Ht'. apply H. by right.
Qed.

Lemma newDocumentNotified_nil documentId error w :
  newDocumentNotified [] documentId error w = w.
Proof.
  unfold newDocumentNotified, tasksOf, settled. simpl.
  destruct w, error; unfold with_effects; simpl; by rewrite app_nil_r.
Qed.

Lemma World_ext (w1 w2 : World) :
  _frames w1 = _frames w2 → _mainFrame w1 = _mainFrame w2 →
  _signalBarriers w1 = _signalBarriers w2 → frameStore w1 = frameStore w2 →
  taskStore w1 = taskStore w2 → rerunnableStore w1 = rerunnableStore w2 →
  barrierStore w1 = barrierStore w2 → voidPromises w1 = voidPromises w2 →
  documentPromises w1 = documentPromises w2 → contextPromises w1 = contextPromises w2 →
  handlePromises w1 = handlePromises w2 → timers w1 = timers w2 → now w1 = now w2 →
  _disconnectedPromise w1 = _disconnectedPromise w2 → effects w1 = effects w2 →
  w1 = w2.
Proof. destruct w1, w2. simpl. by intros -> -> -> -> -> -> -> -> -> -> -> -> -> -> ->. Qed.

Lemma newDocumentNotified_cons t tasks tk documentId error w :
  taskStore w !! t = Some tk →
  newDocumentNotified tasks documentId error (newDocumentNotified [t] documentId error w)
  = newDocumentNotified (t :: tasks) documentId error w.
Proof.
  intros Ht.
  assert (Hts : ∀ l, tasksOf (newDocumentNotified [t] documentId error w) l = tasksOf w l)
    by done.
  apply World_ext; try reflexivity.
  - cbn [voidPromises newDocumentNotified with_effects with_documentPromises with_voidPromises].
    rewrite Hts, (tasksOf_cons w t tasks tk Ht), (tasksOf_cons w t [] tk Ht).
    cbn [flat_map]. by rewrite app_nil_r, settled_app.
  - cbn [documentPromises newDocumentNotified with_effects with_documentPromises
         with_voidPromises].
    rewrite Hts, (tasksOf_cons w t tasks tk Ht), (tasksOf_cons w t [] tk Ht).
    cbn [flat_map]. by rewrite app_nil_r, settled_app.
  - cbn [effects newDocumentNotified with_effects with_documentPromises with_voidPromises].
    rewrite Hts, (tasksOf_cons w t tasks tk Ht), (tasksOf_cons w t [] tk Ht).
    destruct error; cbn [flat_map]; by rewrite ?app_nil_r, <- ?(assoc_L (++)).
Qed.

Lemma forM_onNewDocument_run documentId error tasks : ∀ w,
  tasksValid w tasks →
  forM_ tasks (λ task, FrameTask.onNewDocument task documentId error) w
  = Ok tt (newDocumentNotified tasks documentId error w).
Proof.
  induction tasks as [|t tasks IH]; intros w Hvalid.
  - by rewrite newDocumentNotified_nil.
  - apply tasksValid_cons in Hvalid as [(tk & Ht & Hlt) Hvalid].
    rewrite forM_cons, (onNewDocument_run w t tk documentId error Ht Hlt).
    rewrite IH by done. by rewrite (newDocumentNotified_cons t tasks tk).
Qed.

Lemma onSameDocument_run w task tk :
  taskStore w !! task = Some tk →
  _frame tk < length (frameStore w) →
  FrameTask.onSameDocument task w = Ok tt (sameDocumentNotified [task] w).
Proof.
  intros Ht Hlt. destruct (lookup_lt_is_Some_2 _ _ Hlt) as [fr Hf].
  unfold sameDocumentNotified. rewrite (tasksOf_cons w task [] tk Ht).
  unfold FrameTask.onSameDocument, tasksOf, sameDocumentActs, navigatedLog, frameUrl, settled.
  simpl. msimpl. rewrite Ht. simpl. rewrite Hf.
  destruct (_progress tk) as [pr|], (_onSameDocument tk) as [[u q]|]; simpl;
    unfold with_effects, with_voidPromises; simpl;
    rewrite ?Hf; simpl; rewrite ?Hf; simpl; try destruct (urlMatches _ _); simpl;
    rewrite ?app_nil_r; try reflexivity; by destruct w.
Qed.

Lemma sameDocumentNotified_nil w : sameDocumentNotified [] w = w.
Proof.
  unfold sameDocumentNotified, tasksOf, settled. simpl.
  destruct w; unfold with_effects; simpl; by rewrite app_nil_r.
Qed.

Lemma sameDocumentNotified_cons t tasks tk w :
  taskStore w !! t = Some tk →
  sameDocumentNotified tasks (sameDocumentNotified [t] w)
  = sameDocumentNotified (t :: tasks) w.
Proof.
  intros Ht.
  assert (Hts : ∀ l, tasksOf (sameDocumentNotified [t] w) l = tasksOf w l) by done.
  apply World_ext; try reflexivity.
  - cbn [voidPromises sameDocumentNotified with_effects with_voidPromises].
    rewrite Hts, (tasksOf_cons w t tasks tk Ht), (tasksOf_cons w t [] tk Ht).
    cbn [flat_map]. by rewrite app_nil_r, settled_app.
  - cbn [effects sameDocumentNotified with_effects with_voidPromises].
    rewrite Hts, (tasksOf_cons w t tasks tk Ht), (tasksOf_cons w t [] tk Ht).
    cbn [flat_map]. by rewrite ?app_nil_r, <- ?(assoc_L (++)).
Qed.

Lemma forM_onSameDocument_run tasks : ∀ w,
  tasksValid w tasks →
  forM_ tasks FrameTask.onSameDocument w = Ok tt (sameDocumentNotified tasks w).
Proof.
  induction tasks as [|t tasks IH]; intros w Hvalid.
  - by rewrite sameDocumentNotified_nil.
  - apply tasksValid_cons in Hvalid as [(tk & Ht & Hlt) Hvalid].
    rewrite forM_cons, (onSameDocument_run w t tk Ht Hlt).
    rewrite IH by done. by rewrite (sameDocumentNotified_cons t tasks tk).
Qed.

(** ** Requests and timers leave navigation alone *)

Lemma updateFrame_navView frame g :
  (∀ fr, navFields (g fr) = navFields fr) → preserves navView (updateFrame frame g).
Proof.
  intros Hg w. unfold updateFrame.
  destruct (frameStore w !! frame) as [fr|] eqn:Hf; [|done].
  unfold navView. simpl. rewrite list_fmap_insert, Hg.
  rewrite list_insert_id; [done|]. by rewrite list_lookup_fmap, Hf.
Qed.

Lemma stopNetworkIdleTimer_navView frame :
  preserves navView (Frame._stopNetworkIdleTimer frame).
Proof.
  unfold Frame._stopNetworkIdleTimer, clearTimeout. preserves_auto.
  by apply updateFrame_navView.
Qed.

Lemma startNetworkIdleTimer_navView frame :
  preserves navView (Frame._startNetworkIdleTimer frame).
Proof.
  unfold Frame._startNetworkIdleTimer, assert. preserves_auto.
  by apply updateFrame_navView.
Qed.

Lemma inflightRequestStarted_navView request :
  preserves navView (FrameManager._inflightRequestStarted request).
Proof.
  unfold FrameManager._inflightRequestStarted. preserves_auto.
  - by apply updateFrame_navView.
  - apply stopNetworkIdleTimer_navView.
Qed.

Lemma inflightRequestFinished_navView request :
  preserves navView (FrameManager._inflightRequestFinished request).
Proof.
  unfold FrameManager._inflightRequestFinished. preserves_auto.
  - by apply updateFrame_navView.
  - apply startNetworkIdleTimer_navView.
Qed.

Lemma clearFrameLifecycle_navView frame :
  preserves navView (FrameManager.clearFrameLifecycle frame).
Proof.
  unfold FrameManager.clearFrameLifecycle. preserves_auto.
  - by apply updateFrame_navView.
  - by apply updateFrame_navView.
  - apply stopNetworkIdleTimer_navView.
  - apply startNetworkIdleTimer_navView.
Qed.

Lemma navView_lookup w w' frame fr :
  navView w' = navView w → frameStore w !! frame = Some fr →
  ∃ fr', frameStore w' !! frame = Some fr' ∧ navFields fr' = navFields fr.
Proof.
  intros Hv Hf. unfold navView in Hv.
  assert (Hfm : navFields <$> frameStore w' = navFields <$> frameStore w) by congruence.
  assert (Hl : (navFields <$> frameStore w') !! frame = Some (navFields fr))
    by (by rewrite Hfm, list_lookup_fmap, Hf).
  rewrite list_lookup_fmap in Hl.
  destruct (frameStore w' !! frame) as [fr'|]; [|done].
  exists fr'. split; [done|]. simpl in Hl. by apply (inj Some) in Hl.
Qed.

Lemma navView_length w w' :
  navView w' = navView w → length (frameStore w') = length (frameStore w).
Proof.
  intros Hv. unfold navView in Hv.
  assert (Hfm : navFields <$> frameStore w' = navFields <$> frameStore w) by congruence.
  apply (f_equal length) in Hfm. by rewrite !length_fmap in Hfm.
Qed.

Lemma elem_of_flat_map {A B} (f : A → list B) (l : list A) (y : B) :
  y ∈ flat_map f l ↔ ∃ x, x ∈ l ∧ y ∈ f x.
Proof.
  rewrite list_elem_of_In, in_flat_map. split.
  - intros (x & Hx & Hy). exists x. by rewrite !list_elem_of_In.
  - intros (x & Hx & Hy). exists x. by rewrite <- !list_elem_of_In.
Qed.

Lemma settled_inv {T} (acts : list (nat * PromiseState T)) : ∀ h p,
  settled acts h !! p = h !! p ∨ ∃ s, (p, s) ∈ acts.
Proof.
  induction acts as [|[q s] acts IH]; intros h p; [by left|].
  destruct (decide (q = p)) as [->|Hne]; [right; exists s; by left|].
  simpl. destruct (IH (Promise.settle q s h) p) as [Heq|[s' Hs']].
  - left. by rewrite Heq, settle_lookup_ne.
  - right. exists s'. by right.
Qed.

Lemma ownTasks_valid w frame fr :
  frameStore w !! frame = Some fr → ownTasks w frame fr → tasksValid w (_frameTasks fr).
Proof.
  intros Hf Hown t Ht. destruct (Hown t Ht) as (tk & Htk & <-).
  exists tk. split; [done|]. by eapply lookup_lt_Some.
Qed.

(** ** Navigation within a document *)

(** X8. [frameCommittedSameDocumentNavigation] for a known frame changes
    the url of the frame and nothing else of any frame: lifecycle events,
    document ids, requests in flight and timers are as before.  A pending
    promise is fulfilled by it exactly if it is the same-document promise of
    a task of the frame whose url matcher accepts the new url; promises for
    a new document are left alone.  The page gets FrameNavigated, after the
    log entries of the tasks. *)
Theorem X8_same_document_navigation (w : World) (frameId url : string) (frame : nat)
  (fr : Frame) :
  _frames w !! frameId = Some frame →
  frameStore w !! frame = Some fr →
  ownTasks w frame fr →
  ∃ w',
    FrameManager.frameCommittedSameDocumentNavigation frameId url w = Ok tt w' ∧
    frameStore w' = <[frame := set_url url fr]> (frameStore w) ∧
    timers w' = timers w ∧ _frames w' = _frames w ∧ taskStore w' = taskStore w ∧
    documentPromises w' = documentPromises w ∧
    last (effects w') = Some (Emit (Events.FrameNavigated frame)) ∧
    ∀ p, voidPromises w !! p = Some Pending →
      (voidPromises w' !! p = Some (Fulfilled tt) ∨ voidPromises w' !! p = Some Pending) ∧
      (voidPromises w' !! p = Some (Fulfilled tt) ↔
       ∃ t tk u, t ∈ _frameTasks fr ∧ taskStore w !! t = Some tk ∧
                 _onSameDocument tk = Some (u, p) ∧ urlMatches url u = true).
Proof.
  intros Hid Hf Hown.
  apply lookup_lt_Some in Hf as Hlt.
  set (w1 := with_frameStore (λ s, <[frame := set_url url fr]> s) w).
  assert (Hf1 : frameStore w1 !! frame = Some (set_url url fr))
    by (by apply list_lookup_insert_eq).
  assert (Hvalid : tasksValid w1 (_frameTasks fr)).
  { intros t Ht. destruct (Hown t Ht) as (tk & Htk & <-).
    exists tk. split; [done|]. simpl. by rewrite length_insert. }
  exists (with_effects (λ l, l ++ [Emit (Events.FrameNavigated frame)])
            (sameDocumentNotified (_frameTasks fr) w1)).
  split.
  { unfold FrameManager.frameCommittedSameDocumentNavigation.
    rewrite (bind_Ok _ _ w w w) by done. rewrite Hid.
    rewrite (bind_Ok _ _ w tt w1) by (unfold updateFrame; by rewrite Hf).
    rewrite (bind_Ok _ _ w1 (set_url url fr) w1) by (unfold getFrame; by rewrite Hf1).
    simpl. by rewrite (bind_Ok _ _ _ _ _ (forM_onSameDocument_run _ w1 Hvalid)). }
  do 5 (split; [done|]).
  split; [simpl; by rewrite last_snoc|].
  intros p Hp. simpl.
  set (acts := flat_map (sameDocumentActs w1) (tasksOf w1 (_frameTasks fr))).
  assert (Hacts : ∀ s, (p, s) ∈ acts ↔
    s = Fulfilled tt ∧
    ∃ t tk u, t ∈ _frameTasks fr ∧ taskStore w !! t = Some tk ∧
              _onSameDocument tk = Some (u, p) ∧ urlMatches url u = true).
  { intros s. unfold acts. rewrite elem_of_flat_map. split.
    - intros (tk & Htk & Hact). apply tasksOf_elem in Htk as (t & Ht & Htk).
      destruct (Hown t Ht) as (tk' & Htk' & Hfr). simpl in Htk.
      assert (tk' = tk) as -> by congruence.
      unfold sameDocumentActs, frameUrl in Hact. rewrite Hfr, Hf1 in Hact. simpl in Hact.
      destruct (_onSameDocument tk) as [[u q]|] eqn:Hw; [|by apply elem_of_nil in Hact].
      destruct (urlMatches url u) eqn:Hm; [|by apply elem_of_nil in Hact].
      apply list_elem_of_singleton in Hact. injection Hact as <- ->.
      split; [done|]. by exists t, tk, u.
    - intros (-> & t & tk & u & Ht & Htk & Hw & Hm).
      exists tk. split; [apply tasksOf_elem; by exists t|].
      destruct (Hown t Ht) as (tk' & Htk' & Hfr).
      assert (tk' = tk) as -> by congruence.
      unfold sameDocumentActs, frameUrl. rewrite Hfr, Hf1, Hw. simpl. rewrite Hm.
      by left. }
  destruct (settled_inv acts (voidPromises w) p) as [Hsame|[s Hs]].
  - split; [right; congruence|]. split.
    + intros Hfull. rewrite Hsame, Hp in Hfull. done.
    + intros Hex. rewrite (settled_uniform acts (voidPromises w) p (Fulfilled tt)); try done.
      * exists (Fulfilled tt). by apply Hacts.
      * intros s Hs. by apply Hacts in Hs as [-> _].
  - assert (Hfull : settled acts (voidPromises w) !! p = Some (Fulfilled tt)).
    { apply settled_uniform; try done; [by exists s|].
      intros s' Hs'. by apply Hacts in Hs' as [-> _]. }
    split; [by left|]. split; [|done]. intros _. by apply Hacts in Hs as [_ ?].
Qed.

Lemma settled_char {T} (acts : list (nat * PromiseState T)) h p s :
  h !! p = Some Pending → s ≠ Pending →
  (∀ s', (p, s') ∈ acts → s' = s) →
  (settled acts h !! p = Some s ∨ settled acts h !! p = Some Pending) ∧
  (settled acts h !! p = Some s ↔ ∃ s', (p, s') ∈ acts).
Proof.
  intros Hp Hs Hall.
  destruct (settled_inv acts h p) as [Hsame|Hex].
  - split; [right; congruence|]. split.
    + intros Hfull. rewrite Hsame, Hp in Hfull. congruence.
    + intros Hex. by apply settled_uniform.
  - assert (Hfull : settled acts h !! p = Some s) by (by apply settled_uniform).
    split; [by left|]. by split.
Qed.

(** ** A request fails *)

Lemma requestFailed_run w request canceled fr documentId errorText :
  frameStore w !! request_frame request = Some fr →
  (_inflightRequests fr ≠ [] → _networkIdleTimer fr = None) →
  _documentId request = Some documentId → documentId ≠ ""%string →
  _pendingDocumentId fr = documentId →
  failure_errorText request = Some errorText →
  tasksValid w (_frameTasks fr) →
  ∃ w1 fr1,
    FrameManager._inflightRequestFinished request w = Ok tt w1 ∧
    navView w1 = navView w ∧
    frameStore w1 !! request_frame request = Some fr1 ∧
    navFields fr1 = navFields fr ∧
    FrameManager.requestFailed request canceled w =
    Ok tt
      ((if _isFavicon request then λ w, w
        else with_effects (λ l, l ++ [Emit (Events.RequestFailed request)]))
         (newDocumentNotified (_frameTasks fr) documentId
            (Some {| message := if canceled
                                then errorText +:+ "; maybe frame was detached?"
                                else errorText |})
            (with_frameStore
               (λ s, <[request_frame request := set_pendingDocumentId "" fr1]> s) w1))).
Proof.
  intros Hf Hbook Hdoc Hne Hpending Htext Hvalid.
  destruct (inflightRequestFinished_spec w request fr Hf Hbook) as (w1 & fr0 & Hrun1 & _).
  pose proof (preserves_Ok navView _ w tt w1 (inflightRequestFinished_navView request) Hrun1)
    as Hview.
  destruct (navView_lookup w w1 _ fr Hview Hf) as (fr1 & Hf1 & Hnav).
  exists w1, fr1. do 4 (split; [done|]).
  assert (Htasks : _frameTasks fr1 = _frameTasks fr) by (unfold navFields in Hnav; congruence).
  assert (Hpend : _pendingDocumentId fr1 = documentId)
    by (unfold navFields in Hnav; congruence).
  set (w2 := with_frameStore
               (λ s, <[request_frame request := set_pendingDocumentId "" fr1]> s) w1).
  assert (Hvalid2 : tasksValid w2 (_frameTasks fr)).
  { intros t Ht. destruct (Hvalid t Ht) as (tk & Htk & Hlt).
    exists tk. unfold navView in Hview. split; [simpl; congruence|].
    simpl. rewrite length_insert, (navView_length w w1) by done. done. }
  unfold FrameManager.requestFailed.
  rewrite (bind_Ok _ _ w tt w1) by done.
  rewrite Hdoc, (truthy_Some _ Hne).
  erewrite (bind_Ok _ _ w1 tt).
  2: { rewrite (bind_Ok _ _ w1 fr1 w1) by (unfold getFrame; by rewrite Hf1).
       rewrite decide_True by done.
       rewrite (bind_Ok _ _ w1 tt w2) by (unfold updateFrame; by rewrite Hf1).
       rewrite Htext, Htasks.
       by apply forM_onNewDocument_run. }
  by destruct (_isFavicon request).
Qed.

Lemma specificActs_elem w tasks documentId e p s :
  (p, s) ∈ flat_map (specificActs documentId (Some e)) (tasksOf w tasks) ↔
  s = Rejected e ∧
  ∃ t tk, t ∈ tasks ∧ taskStore w !! t = Some tk ∧
          _onSpecificDocument tk = Some (documentId, p).
Proof.
  rewrite elem_of_flat_map. split.
  - intros (tk & Htk & Hact). apply tasksOf_elem in Htk as (t & Ht & Htk).
    unfold specificActs in Hact.
    destruct (_onSpecificDocument tk) as [[ex q]|] eqn:Hw; [|by apply elem_of_nil in Hact].
    case_decide as Hd; [|by apply elem_of_nil in Hact].
    apply list_elem_of_singleton in Hact. injection Hact as <- ->.
    split; [done|]. exists t, tk. by rewrite Hd.
  - intros (-> & t & tk & Ht & Htk & Hw).
    exists tk. split; [apply tasksOf_elem; by exists t|].
    unfold specificActs. rewrite Hw, decide_True by done. by left.
Qed.

Lemma newDocumentActs_error_elem w0 w tasks documentId e q s :
  (q, s) ∈ flat_map (newDocumentActs w0 documentId (Some e)) (tasksOf w tasks) ↔
  s = Rejected e ∧
  ∃ t tk u, t ∈ tasks ∧ taskStore w !! t = Some tk ∧ _onNewDocument tk = Some (u, q).
Proof.
  rewrite elem_of_flat_map. split.
  - intros (tk & Htk & Hact). apply tasksOf_elem in Htk as (t & Ht & Htk).
    unfold newDocumentActs in Hact.
    destruct (_onNewDocument tk) as [[u q']|] eqn:Hw; [|by apply elem_of_nil in Hact].
    apply list_elem_of_singleton in Hact. injection Hact as <- ->.
    split; [done|]. by exists t, tk, u.
  - intros (-> & t & tk & u & Ht & Htk & Hw).
    exists tk. split; [apply tasksOf_elem; by exists t|].
    unfold newDocumentActs. rewrite Hw. by left.
Qed.

(** X9. When the request of the pending document of a frame fails, on a
    frame that has no timer while requests are in flight, [requestFailed]
    returns with the pending document id of the frame cleared, and the tasks of the frame are told: a pending promise of
    [waitForSpecificDocument] for that document, and every pending promise
    of [waitForNewDocument], is rejected with the error text of the failure,
    followed by "; maybe frame was detached?" when the request was
    canceled.  No other pending promise is settled, and the page gets
    RequestFailed unless the request is for a favicon. *)
Theorem X9_requestFailed_pending_document (w : World) (request : Request)
  (canceled : bool) (fr : Frame) (documentId errorText : string) :
  frameStore w !! request_frame request = Some fr →
  (_inflightRequests fr ≠ [] → _networkIdleTimer fr = None) →
  _documentId request = Some documentId → documentId ≠ ""%string →
  _pendingDocumentId fr = documentId →
  failure_errorText request = Some errorText →
  tasksValid w (_frameTasks fr) →
  let e := {| message := if canceled then errorText +:+ "; maybe frame was detached?"
                         else errorText |} in
  ∃ w' fr',
    FrameManager.requestFailed request canceled w = Ok tt w' ∧
    frameStore w' !! request_frame request = Some fr' ∧
    _pendingDocumentId fr' = ""%string ∧
    _lastDocumentId fr' = _lastDocumentId fr ∧ _url fr' = _url fr ∧
    taskStore w' = taskStore w ∧
    (∀ p, voidPromises w !! p = Some Pending →
       (voidPromises w' !! p = Some (Rejected e) ∨ voidPromises w' !! p = Some Pending) ∧
       (voidPromises w' !! p = Some (Rejected e) ↔
        ∃ t tk, t ∈ _frameTasks fr ∧ taskStore w !! t = Some tk ∧
                _onSpecificDocument tk = Some (documentId, p))) ∧
    (∀ q, documentPromises w !! q = Some Pending →
       (documentPromises w' !! q = Some (Rejected e) ∨
        documentPromises w' !! q = Some Pending) ∧
       (documentPromises w' !! q = Some (Rejected e) ↔
        ∃ t tk u, t ∈ _frameTasks fr ∧ taskStore w !! t = Some tk ∧
                  _onNewDocument tk = Some (u, q))) ∧
    effects w' = effects w
      ++ (if _isFavicon request then [] else [Emit (Events.RequestFailed request)]).
Proof.
  intros Hf Hbook Hdoc Hne Hpending Htext Hvalid e.
  destruct (requestFailed_run w request canceled fr documentId errorText
              Hf Hbook Hdoc Hne Hpending Htext Hvalid)
    as (w1 & fr1 & _ & Hview & Hf1 & Hnav & Hrun).
  fold e in Hrun. rewrite Hrun. clear Hrun.
  apply lookup_lt_Some in Hf1 as Hlt1.
  unfold navView in Hview. unfold navFields in Hnav.
  set (w2 := with_frameStore
               (λ s, <[request_frame request := set_pendingDocumentId "" fr1]> s) w1).
  assert (Htasks2 : tasksOf w2 (_frameTasks fr) = tasksOf w (_frameTasks fr)).
  { unfold tasksOf. simpl. by replace (taskStore w1) with (taskStore w) by congruence. }
  eexists _, (set_pendingDocumentId "" fr1). split; [reflexivity|].
  split; [destruct (_isFavicon request); simpl; by apply list_lookup_insert_eq|].
  split; [done|]. split; [simpl; congruence|]. split; [simpl; congruence|].
  split; [destruct (_isFavicon request); simpl; congruence|].
  split; [|split].
  - intros p Hp.
    assert (Hvoid : voidPromises
              ((if _isFavicon request then λ w, w
                else with_effects (λ l, l ++ [Emit (Events.RequestFailed request)]))
                 (newDocumentNotified (_frameTasks fr) documentId (Some e) w2))
            = settled (flat_map (specificActs documentId (Some e))
                         (tasksOf w (_frameTasks fr))) (voidPromises w)).
    { destruct (_isFavicon request); simpl; rewrite Htasks2; f_equal; congruence. }
    rewrite Hvoid.
    destruct (settled_char (flat_map (specificActs documentId (Some e))
                 (tasksOf w (_frameTasks fr))) (voidPromises w) p (Rejected e) Hp)
      as [Hor Hiff]; [done | intros s' Hs'; by apply specificActs_elem in Hs' as [-> _] |].
    split; [done|]. rewrite Hiff. split.
    + intros [s' Hs']. by apply specificActs_elem in Hs' as [_ ?].
    + intros Hex. exists (Rejected e). by apply specificActs_elem.
  - intros q Hq.
    assert (Hdocs : documentPromises
              ((if _isFavicon request then λ w, w
                else with_effects (λ l, l ++ [Emit (Events.RequestFailed request)]))
                 (newDocumentNotified (_frameTasks fr) documentId (Some e) w2))
            = settled (flat_map (newDocumentActs w2 documentId (Some e))
                         (tasksOf w (_frameTasks fr))) (documentPromises w)).
    { destruct (_isFavicon request); simpl; rewrite Htasks2; f_equal; congruence. }
    rewrite Hdocs.
    destruct (settled_char (flat_map (newDocumentActs w2 documentId (Some e))
                 (tasksOf w (_frameTasks fr))) (documentPromises w) q (Rejected e) Hq)
      as [Hor Hiff];
      [done | intros s' Hs'; by apply newDocumentActs_error_elem in Hs' as [-> _] |].
    split; [done|]. rewrite Hiff. split.
    + intros [s' Hs']. by apply newDocumentActs_error_elem in Hs' as [_ ?].
    + intros Hex. exists (Rejected e). by apply newDocumentActs_error_elem.
  - assert (He : effects w1 = effects w) by congruence.
    destruct (_isFavicon request); simpl; by rewrite ?app_nil_r, He.
Qed.

(** X10. A failed request that is not the request of the pending document
    of its frame (it has no document id, or another one) notifies no task:
    on a frame that has no timer while requests are in flight,
    [requestFailed] leaves every promise, every task and the pending
    document id as they are, and the page gets RequestFailed unless the
    request is for a favicon. *)
Theorem X10_requestFailed_other_request (w : World) (request : Request) (canceled : bool)
  (fr : Frame) :
  frameStore w !! request_frame request = Some fr →
  (_inflightRequests fr ≠ [] → _networkIdleTimer fr = None) →
  (∀ documentId, _documentId request = Some documentId →
     documentId = ""%string ∨ _pendingDocumentId fr ≠ documentId) →
  ∃ w' fr',
    FrameManager.requestFailed request canceled w = Ok tt w' ∧
    frameStore w' !! request_frame request = Some fr' ∧
    _pendingDocumentId fr' = _pendingDocumentId fr ∧
    taskStore w' = taskStore w ∧
    voidPromises w' = voidPromises w ∧
    documentPromises w' = documentPromises w ∧
    effects w' = effects w
      ++ (if _isFavicon request then [] else [Emit (Events.RequestFailed request)]).
Proof.
  intros Hf Hbook Hother.
  destruct (inflightRequestFinished_spec w request fr Hf Hbook) as (w1 & fr0 & Hrun1 & _).
  pose proof (preserves_Ok navView _ w tt w1 (inflightRequestFinished_navView request) Hrun1)
    as Hview.
  destruct (navView_lookup w w1 _ fr Hview Hf) as (fr1 & Hf1 & Hnav).
  unfold navView in Hview. unfold navFields in Hnav.
  assert (Hpend : _pendingDocumentId fr1 = _pendingDocumentId fr) by congruence.
  assert (Hrun : FrameManager.requestFailed request canceled w =
                 Ok tt ((if _isFavicon request then λ w, w
                         else with_effects
                                (λ l, l ++ [Emit (Events.RequestFailed request)])) w1)).
  { unfold FrameManager.requestFailed.
    rewrite (bind_Ok _ _ w tt w1) by done.
    destruct (_documentId request) as [documentId|] eqn:Hdoc.
    - destruct (Hother documentId eq_refl) as [->|Hne].
      + by destruct (_isFavicon request).
      + destruct (truthy (Some documentId)); [|by destruct (_isFavicon request)].
        unfold mbind, M_bind, getFrame. rewrite Hf1.
        rewrite decide_False by congruence. by destruct (_isFavicon request).
    - by destruct (_isFavicon request). }
  rewrite Hrun. eexists _, fr1. split; [reflexivity|].
  assert (He : effects w1 = effects w) by congruence.
  destruct (_isFavicon request); simpl; rewrite ?app_nil_r;
    repeat split; congruence.
Qed.

(** ** A new document is committed *)

Lemma afterDetach_navigation s g fr :
  _id (afterDetach s g fr) = _id fr ∧
  _url (afterDetach s g fr) = _url fr ∧ _name (afterDetach s g fr) = _name fr ∧
  _lastDocumentId (afterDetach s g fr) = _lastDocumentId fr ∧
  _pendingDocumentId (afterDetach s g fr) = _pendingDocumentId fr ∧
  _frameTasks (afterDetach s g fr) = _frameTasks fr ∧
  _firedLifecycleEvents (afterDetach s g fr) = _firedLifecycleEvents fr ∧
  _inflightRequests (afterDetach s g fr) = _inflightRequests fr ∧
  _networkIdleTimer (afterDetach s g fr) = _networkIdleTimer fr.
Proof. unfold afterDetach. by destruct (isDetachedIn s g). Qed.

(** The frame whose children are removed is not removed itself. *)
Lemma removedSubtrees_parent w w1 order frame fr :
  treeOk w → frameStore w !! frame = Some fr →
  removedSubtrees (_childFrames fr) w w1 order →
  frameStore w1 !! frame = Some (afterDetach (frameStore w1) frame fr) ∧
  _childFrames (afterDetach (frameStore w1) frame fr) = [] ∧
  _detached (afterDetach (frameStore w1) frame fr) = _detached fr ∧
  _parentFrame (afterDetach (frameStore w1) frame fr) = _parentFrame fr ∧
  frame ∉ order.
Proof.
  intros Hwf Hf Hrem.
  destruct (rs_more _ _ _ _ Hrem) as (_ & Hmono & Hs).
  assert (Hnotin : frame ∉ order).
  { intros Hin. destruct (rs_order _ _ _ _ Hrem frame Hin) as [(r & Hr & Hsub) _].
    destruct (Hwf frame fr Hf) as (Hch & _). destruct (Hch r Hr) as (Hlt & _).
    pose proof (inSubtree_ge _ _ _ (treeOk_childrenLater w Hwf) Hsub). lia. }
  assert (Hdet : isDetachedIn (frameStore w1) frame = _detached fr).
  { rewrite <- (isDetachedIn_lookup _ _ _ Hf).
    destruct (isDetachedIn (frameStore w) frame) eqn:H0; [by apply Hmono|].
    destruct (isDetachedIn (frameStore w1) frame) eqn:H1; [|done].
    destruct Hnotin. by apply (rs_new _ _ _ _ Hrem). }
  split; [by rewrite Hs, Hf|]. split; [|split; [|split; [|done]]].
  - rewrite afterDetach_childFrames. apply filter_none. intros c Hc.
    destruct (rs_roots _ _ _ _ Hrem c Hc) as [Hcd _]. by rewrite Hcd.
  - unfold afterDetach. rewrite Hdet. by destruct (_detached fr) eqn:Hd.
  - unfold afterDetach. rewrite Hdet. destruct (_detached fr) eqn:Hd; [|done].
    destruct (Hwf frame fr Hf) as (_ & _ & _ & Hdd). by destruct (Hdd Hd) as [_ ->].
Qed.

Lemma updateFrame_run w frame fr g :
  frameStore w !! frame = Some fr →
  updateFrame frame g w = Ok tt (with_frameStore (λ s, <[frame := g fr]> s) w).
Proof. intros Hf. unfold updateFrame. by rewrite Hf. Qed.

Lemma getFrame_run w frame fr :
  frameStore w !! frame = Some fr → getFrame frame w = Ok fr w.
Proof. intros Hf. unfold getFrame. by rewrite Hf. Qed.

Lemma updateFrame_again w frame x g :
  frame < length (frameStore w) →
  updateFrame frame g (with_frameStore (λ s, <[frame := x]> s) w)
  = Ok tt (with_frameStore (λ s, <[frame := g x]> s) w).
Proof.
  intros Hlt. unfold updateFrame. simpl. rewrite list_lookup_insert_eq by done.
  unfold with_frameStore. simpl. by rewrite list_insert_insert_eq.
Qed.

Lemma getFrame_updated w frame x :
  frame < length (frameStore w) →
  getFrame frame (with_frameStore (λ s, <[frame := x]> s) w)
  = Ok x (with_frameStore (λ s, <[frame := x]> s) w).
Proof. intros Hlt. apply getFrame_run. simpl. by apply list_lookup_insert_eq. Qed.

Lemma commit_run w frameId url name documentId initial frame fr :
  treeOk w → _frames w !! frameId = Some frame → frameStore w !! frame = Some fr →
  ownTasks w frame fr →
  ∃ w1 order w4 fr4,
    removedSubtrees (_childFrames fr) w w1 order ∧
    let fr3 := set_pendingDocumentId ""
                 (set_lastDocumentId documentId
                    (set_name name (set_url url (afterDetach (frameStore w1) frame fr)))) in
    let w3 := newDocumentNotified (_frameTasks fr) documentId None
                (with_frameStore (λ s, <[frame := fr3]> s) w1) in
    FrameManager.clearFrameLifecycle frame w3 = Ok tt w4 ∧
    navView w4 = navView w3 ∧
    frameStore w4 = <[frame := fr4]> (frameStore w3) ∧
    _firedLifecycleEvents fr4 = [] ∧ _inflightRequests fr4 = keptRequests fr3 ∧
    timers w3 = timers w ∧
    FrameManager.frameCommittedNewDocumentNavigation frameId url name documentId initial w =
    Ok tt ((if initial then λ w, w
            else with_effects (λ l, l ++ [Emit (Events.FrameNavigated frame)])) w4).
Proof.
  intros Hwf Hid Hf Hown.
  destruct (removeChildFramesRecursively_run frame fr w Hwf Hf) as (w1 & order & Hrun1 & Hrem).
  destruct (removedSubtrees_parent w w1 order frame fr Hwf Hf Hrem) as (Hf1 & _).
  apply lookup_lt_Some in Hf1 as Hlt1.
  set (fr1 := afterDetach (frameStore w1) frame fr) in *.
  set (fr3 := set_pendingDocumentId ""
                (set_lastDocumentId documentId (set_name name (set_url url fr1)))).
  set (w2 := with_frameStore (λ s, <[frame := fr3]> s) w1).
  set (w3 := newDocumentNotified (_frameTasks fr) documentId None w2).
  assert (Hf3 : frameStore w3 !! frame = Some fr3) by (by apply list_lookup_insert_eq).
  destruct (clearFrameLifecycle_spec w3 frame fr3 Hf3)
    as (w4 & fr4 & Hrun4 & Hs4 & _ & _ & _ & _ & Hfired4 & Hin4 & _).
  pose proof (preserves_Ok navView _ w3 tt w4 (clearFrameLifecycle_navView frame) Hrun4)
    as Hview4.
  assert (Hrest : removalRest w1 = removalRest w) by apply Hrem.
  unfold removalRest in Hrest.
  assert (Hvalid : tasksValid w2 (_frameTasks fr)).
  { intros t Ht. destruct (Hown t Ht) as (tk & Htk & <-).
    exists tk. split; [simpl; congruence|]. simpl. by rewrite length_insert. }
  exists w1, order, w4, fr4. split; [done|]. simpl. fold fr1 fr3 w2 w3.
  do 5 (split; [done|]). split; [simpl; congruence|].
  unfold FrameManager.frameCommittedNewDocumentNavigation.
  rewrite (bind_Ok _ _ w w w) by done. rewrite Hid.
  rewrite (bind_Ok _ _ w tt w1) by done.
  rewrite (bind_Ok _ _ w1 tt _ (updateFrame_run w1 frame fr1 _ Hf1)).
  rewrite (bind_Ok _ _ _ tt _ (updateFrame_again w1 frame _ _ Hlt1)).
  rewrite (bind_Ok _ _ _ _ _ (getFrame_updated w1 frame _ Hlt1)).
  unfold FrameManager.debugAssert. rewrite (bind_Ok _ _ _ tt _ eq_refl).
  rewrite (bind_Ok _ _ _ tt _ (updateFrame_again w1 frame _ _ Hlt1)).
  rewrite (bind_Ok _ _ _ tt _ (updateFrame_again w1 frame _ _ Hlt1)).
  fold fr3 w2. simpl (_frameTasks _).
  assert (Htasks : _frameTasks fr1 = _frameTasks fr) by apply afterDetach_navigation.
  rewrite Htasks.
  rewrite (bind_Ok _ _ _ tt _ (forM_onNewDocument_run documentId None _ w2 Hvalid)).
  fold w3. rewrite (bind_Ok _ _ _ tt _ Hrun4).
  by destruct initial.
Qed.

Lemma removedSubtrees_untouched roots w w' order g frg :
  treeOk w → removedSubtrees roots w w' order →
  (∀ r, r ∈ roots → ¬ inSubtree (frameStore w) r g) →
  (∀ r, r ∈ roots → r ∉ _childFrames frg) →
  frameStore w !! g = Some frg →
  frameStore w' !! g = Some frg.
Proof.
  intros Hwf Hrem Hout Hnoroot Hg.
  destruct (rs_more _ _ _ _ Hrem) as (_ & Hmono & Hs).
  rewrite Hs, Hg. simpl. f_equal.
  assert (Hnew : ∀ c, isDetachedIn (frameStore w) c = false →
                      isDetachedIn (frameStore w') c = true →
                      ∃ r, r ∈ roots ∧ inSubtree (frameStore w) r c).
  { intros c H1 H2. by destruct (rs_order _ _ _ _ Hrem c (rs_new _ _ _ _ Hrem c H1 H2)). }
  destruct (Hwf g frg Hg) as (Hch & _ & _ & Hd).
  assert (Hsame : isDetachedIn (frameStore w') g = _detached frg).
  { rewrite <- (isDetachedIn_lookup _ _ _ Hg).
    destruct (isDetachedIn (frameStore w) g) eqn:H1; [by apply Hmono|].
    destruct (isDetachedIn (frameStore w') g) eqn:H2; [|done].
    destruct (Hnew g H1 H2) as (r & Hr & Hsub). by destruct (Hout r Hr). }
  unfold afterDetach. rewrite Hsame.
  assert (Hfilter : filter (λ c, isDetachedIn (frameStore w') c = false) (_childFrames frg)
                    = _childFrames frg).
  { apply filter_all. intros c Hc.
    pose proof (treeOk_child_attached w g frg c Hwf Hg Hc) as Hatt.
    destruct (isDetachedIn (frameStore w') c) eqn:Hc'; [|done]. exfalso.
    destruct (Hnew c Hatt Hc') as (r & Hr & Hsub).
    destruct (decide (c = r)) as [->|Hne]; [by apply (Hnoroot r Hr)|].
    destruct (inSubtree_last _ _ _ Hsub Hne) as (h & frh & Hh & Hfrh & Hch').
    destruct (Hwf h frh Hfrh) as (Hchh & _).
    destruct (Hchh c Hch') as (_ & cfr & Hcfr & Hpar).
    destruct (Hch c Hc) as (_ & cfr' & Hcfr' & Hpar').
    assert (h = g) as -> by congruence. by apply (Hout r Hr). }
  rewrite (set_childFrames_same frg) by done.
  destruct (_detached frg) eqn:Hdet; [|done].
  destruct (Hd eq_refl) as [Hnil Hnone].
  destruct frg. unfold set_parentFrame, set_detached. simpl in *. by subst.
Qed.

Lemma navigatedLog_is_log w tasks e :
  e ∈ flat_map (navigatedLog w) tasks → ∃ p text, e = ProgressLog p text.
Proof.
  rewrite elem_of_flat_map. intros (tk & _ & He). unfold navigatedLog in He.
  destruct (_progress tk) as [p|]; [|by apply elem_of_nil in He].
  apply list_elem_of_singleton in He. eauto.
Qed.

(** X11. On a frame tree, [frameCommittedNewDocumentNavigation] for a known
    frame returns, and the frame starts over with the new document: it has
    the new url and name, the committed document id as its last document
    id, no pending document id, no lifecycle event fired, no children, and
    of its requests in flight only those of the committed document.  Its
    identity, parent and tasks stay.  Every frame that was below it is
    detached, every other frame is untouched.  The page gets FrameDetached
    for the frames below, then the log entries of the tasks and, unless the
    commit is the initial one, FrameNavigated last. *)
Theorem X11_commit_new_document (w : World) (frameId url name documentId : string)
  (initial : bool) (frame : nat) (fr : Frame) :
  treeOk w →
  _frames w !! frameId = Some frame →
  frameStore w !! frame = Some fr →
  ownTasks w frame fr →
  ∃ w' fr' order logs,
    FrameManager.frameCommittedNewDocumentNavigation frameId url name documentId initial w
      = Ok tt w' ∧
    frameStore w' !! frame = Some fr' ∧
    _url fr' = url ∧ _name fr' = name ∧
    _lastDocumentId fr' = documentId ∧ _pendingDocumentId fr' = ""%string ∧
    _firedLifecycleEvents fr' = [] ∧
    _inflightRequests fr'
      = filter (λ request, _documentId request = Some documentId) (_inflightRequests fr) ∧
    _childFrames fr' = [] ∧
    _id fr' = _id fr ∧ _frameTasks fr' = _frameTasks fr ∧
    _parentFrame fr' = _parentFrame fr ∧ _detached fr' = _detached fr ∧
    (∀ g, g ≠ frame → inSubtree (frameStore w) frame g →
          isDetachedIn (frameStore w') g = true) ∧
    (∀ g frg, ¬ inSubtree (frameStore w) frame g → frameStore w !! g = Some frg →
              frameStore w' !! g = Some frg) ∧
    (∀ g, g ∈ order ↔ g ≠ frame ∧ inSubtree (frameStore w) frame g) ∧
    (∀ e, e ∈ logs → ∃ p text, e = ProgressLog p text) ∧
    effects w' = effects w ++ map (λ g, Emit (Events.FrameDetached g)) order ++ logs
      ++ (if initial then [] else [Emit (Events.FrameNavigated frame)]).
Proof.
  intros Hwf Hid Hf Hown.
  destruct (commit_run w frameId url name documentId initial frame fr Hwf Hid Hf Hown)
    as (w1 & order & w4 & fr4 & Hrem & Hrun4 & Hview4 & Hs4 & Hfired4 & Hin4 & _ & Hrun).
  simpl in *.
  destruct (removedSubtrees_parent w w1 order frame fr Hwf Hf Hrem)
    as (Hf1 & Hleaf1 & Hdet1 & Hpar1 & Hnotin).
  apply lookup_lt_Some in Hf1 as Hlt1.
  set (fr1 := afterDetach (frameStore w1) frame fr) in *.
  set (fr3 := set_pendingDocumentId ""
                (set_lastDocumentId documentId (set_name name (set_url url fr1)))) in *.
  set (w2 := with_frameStore (λ s, <[frame := fr3]> s) w1) in *.
  set (w3 := newDocumentNotified (_frameTasks fr) documentId None w2) in *.
  assert (Hf3 : frameStore w3 !! frame = Some fr3) by (by apply list_lookup_insert_eq).
  destruct (navView_lookup w3 w4 frame fr3 Hview4 Hf3) as (fr4' & Hf4 & Hnav).
  assert (fr4' = fr4) as ->.
  { rewrite Hs4 in Hf4. rewrite list_lookup_insert_eq in Hf4; [congruence|].
    simpl. by rewrite length_insert. }
  unfold navFields in Hnav.
  injection Hnav as E_id E_last E_pend E_tasks E_par E_url E_det E_ch E_name E_dp.
  destruct (afterDetach_navigation (frameStore w1) frame fr)
    as (Hid1 & Hurl1 & Hname1 & Hlast1 & Hpend1 & Htasks1 & Hfired1 & Hinfl1 & Htimer1).
  fold fr1 in Hid1, Htasks1, Hinfl1.
  assert (Hother : ∀ g, g ≠ frame → frameStore w4 !! g = frameStore w1 !! g).
  { intros g Hg. rewrite Hs4. rewrite list_lookup_insert_ne by done.
    simpl. by rewrite list_lookup_insert_ne. }
  assert (Hcl : childrenLater (frameStore w)) by (by apply treeOk_childrenLater).
  assert (Hbelow : ∀ g, g ≠ frame → inSubtree (frameStore w) frame g →
            ∃ c, c ∈ _childFrames fr ∧ inSubtree (frameStore w) c g).
  { intros g Hg Hsub. apply (inSubtree_unfold _ _ fr _ Hf) in Hsub as [?|?]; done. }
  assert (Hdetached : ∀ g, g ≠ frame → inSubtree (frameStore w) frame g →
            isDetachedIn (frameStore w1) g = true).
  { intros g Hg Hsub. destruct (Hbelow g Hg Hsub) as (c & Hc & Hsubc).
    eapply detached_subtree; [apply Hrem | apply Hrem | exact Hsubc |].
    by destruct (rs_roots _ _ _ _ Hrem c Hc). }
  exists ((if initial then λ w, w
           else with_effects (λ l, l ++ [Emit (Events.FrameNavigated frame)])) w4),
    fr4, order, (flat_map (navigatedLog w2) (tasksOf w2 (_frameTasks fr))).
  split; [done|].
  split; [by destruct initial|].
  split; [by rewrite E_url|]. split; [by rewrite E_name|].
  split; [by rewrite E_last|]. split; [by rewrite E_pend|].
  split; [done|].
  split; [rewrite Hin4; unfold keptRequests; simpl; by rewrite Hinfl1|].
  split; [by rewrite E_ch|]. split; [by rewrite E_id|]. split; [by rewrite E_tasks|].
  split; [by rewrite E_par|]. split; [by rewrite E_det|].
  split; [|split; [|split; [|split]]].
  - intros g Hg Hsub.
    assert (Hs : frameStore
              ((if initial then λ w, w
                else with_effects (λ l, l ++ [Emit (Events.FrameNavigated frame)])) w4)
            = frameStore w4) by (by destruct initial).
    unfold isDetachedIn. rewrite Hs, (Hother g Hg). by apply Hdetached.
  - intros g frg Hout Hg.
    assert (Hgf : g ≠ frame) by (intros ->; apply Hout; constructor).
    assert (Hs : frameStore
              ((if initial then λ w, w
                else with_effects (λ l, l ++ [Emit (Events.FrameNavigated frame)])) w4)
            = frameStore w4) by (by destruct initial).
    rewrite Hs, (Hother g Hgf).
    apply (removedSubtrees_untouched (_childFrames fr) w w1 order); try done.
    + intros r Hr Hsub. apply Hout. by eapply inSubtree_child.
    + intros r Hr Hr'. destruct (Hwf frame fr Hf) as (Hch & _).
      destruct (Hch r Hr) as (_ & cfr & Hcfr & Hpar).
      destruct (Hwf g frg Hg) as (Hch' & _).
      destruct (Hch' r Hr') as (_ & cfr' & Hcfr' & Hpar').
      apply Hgf. congruence.
  - intros g. split.
    + intros Hin. destruct (rs_order _ _ _ _ Hrem g Hin) as [(r & Hr & Hsub) _].
      split; [by intros ->|]. by eapply inSubtree_child.
    + intros [Hg Hsub]. destruct (Hbelow g Hg Hsub) as (c & Hc & Hsubc).
      destruct (decide (g = c)) as [->|Hne]; [by destruct (rs_roots _ _ _ _ Hrem c Hc)|].
      destruct (inSubtree_last _ _ _ Hsubc Hne) as (h & frh & _ & Hfrh & Hgh).
      apply (rs_new _ _ _ _ Hrem); [by eapply treeOk_child_attached | by apply Hdetached].
  - apply navigatedLog_is_log.
  - assert (He4 : effects w4 = effects w3) by (unfold navView in Hview4; congruence).
    assert (He : effects w4 = effects w ++ map (λ g, Emit (Events.FrameDetached g)) order
                   ++ flat_map (navigatedLog w2) (tasksOf w2 (_frameTasks fr))).
    { rewrite He4. simpl. rewrite (rs_effects _ _ _ _ Hrem). by rewrite <- (assoc_L (++)). }
    destruct initial; simpl; rewrite He, <- ?(assoc_L (++)), ?app_nil_r; done.
Qed.

(** X12. A commit of a new document tells the tasks of the frame after the
    frame has taken the new url: a pending promise of [waitForNewDocument]
    is fulfilled by it exactly if it belongs to a task of the frame whose
    url matcher accepts the committed url, and then with the committed
    document id; no promise for a new document is rejected, and the tasks
    stay as they are. *)
Theorem X12_commit_resolves_new_document (w : World) (frameId url name documentId : string)
  (initial : bool) (frame : nat) (fr : Frame) :
  treeOk w →
  _frames w !! frameId = Some frame →
  frameStore w !! frame = Some fr →
  ownTasks w frame fr →
  ∃ w',
    FrameManager.frameCommittedNewDocumentNavigation frameId url name documentId initial w
      = Ok tt w' ∧
    taskStore w' = taskStore w ∧
    ∀ q, documentPromises w !! q = Some Pending →
      (documentPromises w' !! q = Some (Fulfilled documentId) ∨
       documentPromises w' !! q = Some Pending) ∧
      (documentPromises w' !! q = Some (Fulfilled documentId) ↔
       ∃ t tk u, t ∈ _frameTasks fr ∧ taskStore w !! t = Some tk ∧
                 _onNewDocument tk = Some (u, q) ∧ urlMatches url u = true).
Proof.
  intros Hwf Hid Hf Hown.
  destruct (commit_run w frameId url name documentId initial frame fr Hwf Hid Hf Hown)
    as (w1 & order & w4 & fr4 & Hrem & Hrun4 & Hview4 & Hs4 & Hfired4 & Hin4 & _ & Hrun).
  simpl in *.
  destruct (removedSubtrees_parent w w1 order frame fr Hwf Hf Hrem) as (Hf1 & _).
  apply lookup_lt_Some in Hf1 as Hlt1.
  set (fr1 := afterDetach (frameStore w1) frame fr) in *.
  set (fr3 := set_pendingDocumentId ""
                (set_lastDocumentId documentId (set_name name (set_url url fr1)))) in *.
  set (w2 := with_frameStore (λ s, <[frame := fr3]> s) w1) in *.
  set (w3 := newDocumentNotified (_frameTasks fr) documentId None w2) in *.
  assert (Hrest : removalRest w1 = removalRest w) by apply Hrem.
  unfold removalRest in Hrest. unfold navView in Hview4.
  assert (Hts : taskStore w1 = taskStore w) by congruence.
  assert (Hdp : documentPromises w1 = documentPromises w) by congruence.
  set (acts := flat_map (newDocumentActs w2 documentId None) (tasksOf w2 (_frameTasks fr))).
  assert (Hdocs : documentPromises w4 = settled acts (documentPromises w)).
  { replace (documentPromises w4) with (documentPromises w3) by congruence.
    simpl. by rewrite Hdp. }
  assert (Hts4 : taskStore w4 = taskStore w).
  { replace (taskStore w4) with (taskStore w3) by congruence. exact Hts. }
  rewrite Hrun.
  eexists. split; [reflexivity|].
  split; [by destruct initial|].
  intros q Hq.
  assert (Hq' : documentPromises
            ((if initial then λ w, w
              else with_effects (λ l, l ++ [Emit (Events.FrameNavigated frame)])) w4)
          = settled acts (documentPromises w)) by (by destruct initial).
  rewrite Hq'.
  assert (Hel : ∀ s, (q, s) ∈ acts ↔
    s = Fulfilled documentId ∧
    ∃ t tk u, t ∈ _frameTasks fr ∧ taskStore w !! t = Some tk ∧
              _onNewDocument tk = Some (u, q) ∧ urlMatches url u = true).
  { intros s. unfold acts. rewrite elem_of_flat_map. split.
    - intros (tk & Htk & Hact). apply tasksOf_elem in Htk as (t & Ht & Htk).
      simpl in Htk. rewrite Hts in Htk.
      destruct (Hown t Ht) as (tk' & Htk' & Hfr).
      assert (tk' = tk) as -> by congruence.
      unfold newDocumentActs, frameUrl in Hact. rewrite Hfr in Hact. simpl in Hact.
      rewrite list_lookup_insert_eq in Hact by done. simpl in Hact.
      destruct (_onNewDocument tk) as [[u q']|] eqn:Hw; [|by apply elem_of_nil in Hact].
      destruct (urlMatches url u) eqn:Hm; [|by apply elem_of_nil in Hact].
      apply list_elem_of_singleton in Hact. injection Hact as <- ->.
      split; [done|]. by exists t, tk, u.
    - intros (-> & t & tk & u & Ht & Htk & Hw & Hm).
      exists tk. split; [apply tasksOf_elem; exists t; simpl; by rewrite Hts|].
      destruct (Hown t Ht) as (tk' & Htk' & Hfr).
      assert (tk' = tk) as -> by congruence.
      unfold newDocumentActs, frameUrl. rewrite Hfr, Hw. simpl.
      rewrite list_lookup_insert_eq by done. simpl. rewrite Hm. by left. }
  destruct (settled_char acts (documentPromises w) q (Fulfilled documentId) Hq)
    as [Hor Hiff]; [done | intros s' Hs'; by apply Hel in Hs' as [-> _] |].
  split; [done|]. rewrite Hiff. split.
  - intros [s' Hs']. by apply Hel in Hs' as [_ ?].
  - intros Hex. exists (Fulfilled documentId). by apply Hel.
Qed.

(** ** Lifecycle events *)

Lemma lifecycleNotified_nil frame event w : lifecycleNotified [] frame event w = w.
Proof.
  apply World_ext; try reflexivity. simpl. apply app_nil_r.
Qed.

Lemma lifecycleNotified_app l1 l2 frame event w :
  lifecycleNotified l2 frame event (lifecycleNotified l1 frame event w)
  = lifecycleNotified (l1 ++ l2) frame event w.
Proof.
  assert (Hts : ∀ l, tasksOf (lifecycleNotified l1 frame event w) l = tasksOf w l) by done.
  assert (Happ : tasksOf w (l1 ++ l2) = tasksOf w l1 ++ tasksOf w l2).
  { unfold tasksOf. apply omap_app. }
  apply World_ext; try reflexivity.
  - cbn [voidPromises lifecycleNotified with_effects with_voidPromises].
    rewrite Hts, Happ, flat_map_app, settled_app. done.
  - cbn [effects lifecycleNotified with_effects with_voidPromises].
    rewrite Hts, Happ, flat_map_app, <- (assoc_L (++)). done.
Qed.

Lemma onLifecycle_run w task tk frame event :
  taskStore w !! task = Some tk →
  _frame tk < length (frameStore w) →
  childrenLater (frameStore w) →
  FrameTask.onLifecycle task frame event w = Ok tt (lifecycleNotified [task] frame event w).
Proof.
  intros Ht Hlt Hcl. destruct (lookup_lt_is_Some_2 _ _ Hlt) as [fr Hf].
  destruct (checkLifecycleRecursively_spec w (_frame tk) fr) with (event := event)
    as (b0 & _ & _); [done | done |].
  unfold FrameTask.onLifecycle.
  rewrite (bind_Ok _ _ w tk w) by (unfold getTask; by rewrite Ht).
  assert (Hlog : (match _progress tk with
                  | Some p =>
                      if decide (frame = _frame tk) then
                        fr ← getFrame frame;
                        when (negb (String.eqb (_url fr) "about:blank"))
                          (effect (ProgressLog p (dq +:+ event +:+ dq +:+ " event fired")))
                      else mret tt
                  | None => mret tt
                  end) w
                 = Ok tt (with_effects (λ l, l ++ lifecycleLog w frame event tk) w)).
  { unfold lifecycleLog, frameUrl.
    destruct (_progress tk) as [p|].
    - case_decide as Hfr.
      + subst frame. rewrite (bind_Ok _ _ w fr w) by (unfold getFrame; by rewrite Hf).
        rewrite Hf. by destruct (negb _); [|apply f_equal, World_ext; try done; simpl;
                                               by rewrite app_nil_r].
      + apply f_equal, World_ext; try done. simpl. by rewrite app_nil_r.
    - apply f_equal, World_ext; try done. simpl. by rewrite app_nil_r. }
  rewrite (bind_Ok _ _ _ _ _ Hlog).
  unfold lifecycleNotified. rewrite (tasksOf_cons w task [] tk Ht).
  unfold lifecycleActs. cbn [flat_map]. rewrite !app_nil_r.
  destruct (_onLifecycle tk) as [[waitUntil p]|]; [|by apply f_equal, World_ext].
  destruct (checkLifecycleRecursively_spec w (_frame tk) fr waitUntil Hcl Hf)
    as (b & Hb & _).
  unfold FrameTask._checkLifecycleRecursively in Hb.
  destruct (FrameTask.checkLifecycle _ _ _ _) as [e|b'] eqn:Hc; [done|].
  unfold mbind, M_bind, FrameTask._checkLifecycleRecursively. simpl. rewrite Hc.
  destruct b'; unfold when, resolve, modify, mret, M_ret; by apply f_equal, World_ext.
Qed.

Lemma forM_onLifecycle_run frame event tasks : ∀ w,
  tasksValid w tasks → childrenLater (frameStore w) →
  forM_ tasks (λ task, FrameTask.onLifecycle task frame event) w
  = Ok tt (lifecycleNotified tasks frame event w).
Proof.
  induction tasks as [|t tasks IH]; intros w Hvalid Hcl.
  - by rewrite lifecycleNotified_nil.
  - apply tasksValid_cons in Hvalid as [(tk & Ht & Hlt) Hvalid].
    rewrite forM_cons, (onLifecycle_run w t tk frame event Ht Hlt Hcl).
    rewrite IH by done. by rewrite (lifecycleNotified_app [t] tasks).
Qed.

Lemma notifyLifecycle_loop_run frame event fuel : ∀ parent w,
  treeOk w → allTasksValid w →
  (∀ p, parent = Some p → p < length (frameStore w) ∧ p < fuel) →
  FrameManager.notifyLifecycle_loop fuel parent frame event w
  = Ok tt (lifecycleNotified (ancestorTasks fuel (frameStore w) parent) frame event w).
Proof.
  induction fuel as [|fuel IH]; intros parent w Hwf Hvalid Hp.
  - destruct parent as [p|]; [destruct (Hp p eq_refl); lia|].
    simpl. by rewrite lifecycleNotified_nil.
  - destruct parent as [p|]; [|simpl; by rewrite lifecycleNotified_nil].
    destruct (Hp p eq_refl) as [Hlt Hfuel].
    destruct (lookup_lt_is_Some_2 _ _ Hlt) as [fr Hf].
    simpl. rewrite Hf.
    rewrite (bind_Ok _ _ w fr w) by (by apply getFrame_run).
    rewrite (bind_Ok _ _ _ tt _ (forM_onLifecycle_run frame event _ w (Hvalid p fr Hf)
                                   (treeOk_childrenLater w Hwf))).
    set (w1 := lifecycleNotified (_frameTasks fr) frame event w).
    unfold Frame.parentFrame.
    rewrite (bind_Ok _ _ w1 (_parentFrame fr) w1)
      by (unfold mbind, M_bind, mret, M_ret; by rewrite (getFrame_run w1 p fr Hf)).
    rewrite (IH (_parentFrame fr) w1); [|done|done|].
    + change (frameStore w1) with (frameStore w). unfold w1.
      by rewrite (lifecycleNotified_app (_frameTasks fr)).
    + intros p' Hp'. destruct (Hwf p fr Hf) as (_ & Hpar & _).
      apply Hpar in Hp'. simpl. lia.
Qed.

Lemma ancestorTasks_elem store t : ∀ fuel g,
  (∀ f fr p, store !! f = Some fr → _parentFrame fr = Some p → p < f) →
  g < fuel → g < length store →
  t ∈ ancestorTasks fuel store (Some g) ↔
  ∃ a fra, ancestorOf store a g ∧ store !! a = Some fra ∧ t ∈ _frameTasks fra.
Proof.
  intros fuel g Hpar. revert g.
  induction fuel as [|fuel IH]; intros g Hfuel Hlt; [lia|].
  destruct (lookup_lt_is_Some_2 _ _ Hlt) as [fr Hf].
  simpl. rewrite Hf, elem_of_app. split.
  - intros [Ht|Ht].
    + exists g, fr. split; [constructor | done].
    + destruct (_parentFrame fr) as [p|] eqn:Hp.
      * pose proof (Hpar g fr p Hf Hp) as Hpg.
        apply IH in Ht as (a & fra & Hanc & Hfra & Hta); [|lia|lia].
        exists a, fra. split; [by eapply ancestorOf_parent | done].
      * destruct fuel; by apply elem_of_nil in Ht.
  - intros (a & fra & Hanc & Hfra & Hta).
    inversion Hanc as [|? fr' p ? Hf' Hp Hanc']; subst.
    + left. congruence.
    + right. assert (fr' = fr) as -> by congruence. rewrite Hp.
      pose proof (Hpar g fr p Hf Hp) as Hpg.
      apply IH; [lia | lia|]. by exists a, fra.
Qed.

Lemma treeOk_insert w frame fr fr' :
  treeOk w → frameStore w !! frame = Some fr →
  _childFrames fr' = _childFrames fr → _parentFrame fr' = _parentFrame fr →
  _detached fr' = _detached fr →
  (∀ ty, rerunnableTasks (_contextData fr' ty) = rerunnableTasks (_contextData fr ty)) →
  treeOk (with_frameStore (λ s, <[frame := fr']> s) w).
Proof.
  intros Hwf Hf Hch Hpar Hdet Hctx f frf Hfrf. simpl in Hfrf.
  apply lookup_lt_Some in Hf as Hlt.
  assert (Hold : ∃ fr0, frameStore w !! f = Some fr0 ∧
            _childFrames frf = _childFrames fr0 ∧ _parentFrame frf = _parentFrame fr0 ∧
            _detached frf = _detached fr0 ∧
            ∀ ty, rerunnableTasks (_contextData frf ty)
                  = rerunnableTasks (_contextData fr0 ty)).
  { destruct (decide (f = frame)) as [->|Hne].
    - rewrite list_lookup_insert_eq in Hfrf by done. injection Hfrf as <-. by exists fr.
    - rewrite list_lookup_insert_ne in Hfrf by done. by exists frf. }
  destruct Hold as (fr0 & Hf0 & Hch0 & Hpar0 & Hdet0 & Hctx0).
  destruct (Hwf f fr0 Hf0) as (Hc & Hp & Ht & Hd).
  rewrite Hch0, Hpar0, Hdet0.
  split; [|split; [done|split; [|done]]].
  - intros c Hel. destruct (Hc c Hel) as (Hfc & cfr & Hcfr & Hcpar). split; [done|].
    simpl. destruct (decide (c = frame)) as [->|Hne].
    + exists fr'. rewrite list_lookup_insert_eq by done. split; [done|]. congruence.
    + exists cfr. by rewrite list_lookup_insert_ne.
  - intros ty t Hel. rewrite Hctx0 in Hel. by eapply Ht.
Qed.

Lemma lifecycleActs_elem w tasks p s :
  childrenLater (frameStore w) → tasksValid w tasks →
  (p, s) ∈ flat_map (lifecycleActs w) (tasksOf w tasks) ↔
  s = Fulfilled tt ∧
  ∃ t tk waitUntil, t ∈ tasks ∧ taskStore w !! t = Some tk ∧
    _onLifecycle tk = Some (waitUntil, p) ∧
    subtreeFired (frameStore w) (_frame tk) waitUntil.
Proof.
  intros Hcl Hvalid. rewrite elem_of_flat_map. split.
  - intros (tk & Htk & Hact). apply tasksOf_elem in Htk as (t & Ht & Htk).
    destruct (Hvalid t Ht) as (tk' & Htk' & Hlt).
    assert (tk' = tk) as -> by congruence.
    unfold lifecycleActs in Hact.
    destruct (_onLifecycle tk) as [[waitUntil q]|] eqn:Hw; [|by apply elem_of_nil in Hact].
    destruct (checkLifecycle_spec (frameStore w) waitUntil Hcl (length (frameStore w))
                (_frame tk) Hlt) as (b & Hb & Hspec); [lia|].
    rewrite Hb in Hact. destruct b; [|by apply elem_of_nil in Hact].
    apply list_elem_of_singleton in Hact. injection Hact as <- ->.
    split; [done|]. exists t, tk, waitUntil. repeat split; try done. by apply Hspec.
  - intros (-> & t & tk & waitUntil & Ht & Htk & Hw & Hfired).
    exists tk. split; [apply tasksOf_elem; by exists t|].
    destruct (Hvalid t Ht) as (tk' & Htk' & Hlt).
    assert (tk' = tk) as -> by congruence.
    unfold lifecycleActs. rewrite Hw.
    destruct (checkLifecycle_spec (frameStore w) waitUntil Hcl (length (frameStore w))
                (_frame tk) Hlt) as (b & Hb & Hspec); [lia|].
    rewrite Hb. apply Hspec in Hfired as ->. by left.
Qed.

Lemma lifecycleLog_is_log w frame event tasks e :
  e ∈ flat_map (lifecycleLog w frame event) tasks → ∃ p text, e = ProgressLog p text.
Proof.
  rewrite elem_of_flat_map. intros (tk & _ & He). unfold lifecycleLog in He.
  destruct (_progress tk) as [p|]; [|by apply elem_of_nil in He].
  case_decide; [|by apply elem_of_nil in He].
  destruct (negb _); [|by apply elem_of_nil in He].
  apply list_elem_of_singleton in He. eauto.
Qed.

Lemma frameLifecycleEvent_run w frameId event frame fr :
  treeOk w → allTasksValid w →
  _frames w !! frameId = Some frame →
  frameStore w !! frame = Some fr →
  set_has event (_firedLifecycleEvents fr) = false →
  let w1 := with_frameStore
              (λ s, <[frame := set_firedLifecycleEvents (set_add event) fr]> s) w in
  treeOk w1 ∧ allTasksValid w1 ∧
  FrameManager.frameLifecycleEvent frameId event w =
  Ok tt
    ((if bool_decide (Some frame = _mainFrame w ∧ event = "domcontentloaded"%string)
      then with_effects (λ l, l ++ [Emit Events.DOMContentLoaded]) else λ w, w)
       ((if bool_decide (Some frame = _mainFrame w ∧ event = "load"%string)
         then with_effects (λ l, l ++ [Emit Events.Load]) else λ w, w)
          (lifecycleNotified
             (ancestorTasks (length (frameStore w1)) (frameStore w1) (Some frame))
             frame event w1))).
Proof.
  intros Hwf Hvalid Hid Hf Hnew w1.
  apply lookup_lt_Some in Hf as Hlt.
  assert (Hwf1 : treeOk w1) by (by apply (treeOk_insert w frame fr)).
  assert (Hvalid1 : allTasksValid w1).
  { intros f frf Hfrf t Ht. simpl in Hfrf.
    assert (Hold : ∃ fr0, frameStore w !! f = Some fr0 ∧ _frameTasks frf = _frameTasks fr0).
    { destruct (decide (f = frame)) as [->|Hne].
      - rewrite list_lookup_insert_eq in Hfrf by done. injection Hfrf as <-. by exists fr.
      - rewrite list_lookup_insert_ne in Hfrf by done. by exists frf. }
    destruct Hold as (fr0 & Hf0 & Htasks). rewrite Htasks in Ht.
    destruct (Hvalid f fr0 Hf0 t Ht) as (tk & Htk & Hltk).
    exists tk. split; [done|]. simpl. by rewrite length_insert. }
  split; [done|]. split; [done|].
  unfold FrameManager.frameLifecycleEvent.
  rewrite (bind_Ok _ _ w w w) by done. rewrite Hid.
  rewrite (bind_Ok _ _ w fr w) by (by apply getFrame_run).
  rewrite Hnew.
  rewrite (bind_Ok _ _ w tt w1) by (by apply updateFrame_run).
  unfold FrameManager._notifyLifecycle.
  rewrite (bind_Ok _ _ w1 tt
             (lifecycleNotified
                (ancestorTasks (length (frameStore w1)) (frameStore w1) (Some frame))
                frame event w1)).
  2: { rewrite (bind_Ok _ _ w1 w1 w1) by done.
       apply notifyLifecycle_loop_run; [done | done|].
       intros p [= <-]. simpl. rewrite length_insert. lia. }
  destruct (bool_decide (Some frame = _mainFrame w ∧ event = "load"%string));
    destruct (bool_decide (Some frame = _mainFrame w ∧ event = "domcontentloaded"%string));
    reflexivity.
Qed.

(** X13. The first delivery of a lifecycle event for a frame records it on
    the frame and tells the tasks of the frame and of every ancestor: a
    pending promise is fulfilled by it exactly if it is the lifecycle
    promise of such a task and, with the event recorded, every frame of the
    subtree of the task's frame has fired what the task waits for.  No
    promise for a document is settled, and no task, timer or other frame
    changes. *)
Theorem X13_lifecycle_event_reaches_ancestors (w : World) (frameId event : string)
  (frame : nat) (fr : Frame) :
  treeOk w → allTasksValid w →
  _frames w !! frameId = Some frame →
  frameStore w !! frame = Some fr →
  set_has event (_firedLifecycleEvents fr) = false →
  ∃ w',
    FrameManager.frameLifecycleEvent frameId event w = Ok tt w' ∧
    frameStore w' = <[frame := set_firedLifecycleEvents (set_add event) fr]> (frameStore w) ∧
    taskStore w' = taskStore w ∧ documentPromises w' = documentPromises w ∧
    timers w' = timers w ∧
    ∀ p, voidPromises w !! p = Some Pending →
      (voidPromises w' !! p = Some (Fulfilled tt) ∨ voidPromises w' !! p = Some Pending) ∧
      (voidPromises w' !! p = Some (Fulfilled tt) ↔
       ∃ a fra t tk waitUntil,
         ancestorOf (frameStore w') a frame ∧ frameStore w' !! a = Some fra ∧
         t ∈ _frameTasks fra ∧ taskStore w !! t = Some tk ∧
         _onLifecycle tk = Some (waitUntil, p) ∧
         subtreeFired (frameStore w') (_frame tk) waitUntil).
Proof.
  intros Hwf Hvalid Hid Hf Hnew.
  destruct (frameLifecycleEvent_run w frameId event frame fr Hwf Hvalid Hid Hf Hnew)
    as (Hwf1 & Hvalid1 & Hrun).
  set (w1 := with_frameStore
               (λ s, <[frame := set_firedLifecycleEvents (set_add event) fr]> s) w) in *.
  set (tasks := ancestorTasks (length (frameStore w1)) (frameStore w1) (Some frame)) in *.
  set (acts := flat_map (lifecycleActs w1) (tasksOf w1 tasks)).
  apply lookup_lt_Some in Hf as Hlt.
  assert (Hlt1 : frame < length (frameStore w1)) by (simpl; by rewrite length_insert).
  assert (Hcl1 : childrenLater (frameStore w1)) by (by apply treeOk_childrenLater).
  assert (Hpar1 : ∀ f frf p, frameStore w1 !! f = Some frf → _parentFrame frf = Some p → p < f).
  { intros f frf p Hfrf Hp. destruct (Hwf1 f frf Hfrf) as (_ & Hpar & _). by apply Hpar. }
  assert (Htasks : tasksValid w1 tasks).
  { intros t Ht. apply ancestorTasks_elem in Ht as (a & fra & _ & Hfra & Hta);
      [|done|done|done]. by apply (Hvalid1 a fra Hfra). }
  rewrite Hrun. eexists. split; [reflexivity|].
  assert (Hproj : ∀ (X : Type) (proj : World → X) (w0 : World),
    (∀ g w, proj (with_effects g w) = proj w) →
    proj ((if bool_decide (Some frame = _mainFrame w ∧ event = "domcontentloaded"%string)
           then with_effects (λ l, l ++ [Emit Events.DOMContentLoaded]) else λ w, w)
            ((if bool_decide (Some frame = _mainFrame w ∧ event = "load"%string)
              then with_effects (λ l, l ++ [Emit Events.Load]) else λ w, w) w0))
    = proj w0).
  { intros X proj w0 Hp. do 2 destruct (bool_decide _); by rewrite ?Hp. }
  rewrite !Hproj by done.
  do 4 (split; [done|]).
  intros p Hp.
  change (voidPromises (lifecycleNotified tasks frame event w1))
    with (settled acts (voidPromises w)).
  destruct (settled_char acts (voidPromises w) p (Fulfilled tt) Hp) as [Hor Hiff];
    [done | intros s' Hs'; by apply lifecycleActs_elem in Hs' as [-> _] |].
  split; [done|]. rewrite Hiff. split.
  - intros [s' Hs']. apply lifecycleActs_elem in Hs' as [_ Hs']; [|done|done].
    destruct Hs' as (t & tk & waitUntil & Ht & Htk & Hw & Hfired).
    apply ancestorTasks_elem in Ht as (a & fra & Hanc & Hfra & Hta); [|done|done|done].
    by exists a, fra, t, tk, waitUntil.
  - intros (a & fra & t & tk & waitUntil & Hanc & Hfra & Hta & Htk & Hw & Hfired).
    exists (Fulfilled tt). apply lifecycleActs_elem; [done | done|].
    split; [done|]. exists t, tk, waitUntil. repeat split; try done.
    apply ancestorTasks_elem; [done | done | done|]. by exists a, fra.
Qed.

(** X14. The page hears of a lifecycle event of the main frame only: the
    first load of the main frame emits Load and its first domcontentloaded
    emits DOMContentLoaded, after the log entries of the tasks; the same
    events of any other frame, and networkidle of any frame, emit nothing
    to the page. *)
Theorem X14_lifecycle_page_events (w : World) (frameId event : string)
  (frame : nat) (fr : Frame) :
  treeOk w → allTasksValid w →
  _frames w !! frameId = Some frame →
  frameStore w !! frame = Some fr →
  set_has event (_firedLifecycleEvents fr) = false →
  ∃ w' logs,
    FrameManager.frameLifecycleEvent frameId event w = Ok tt w' ∧
    (∀ e, e ∈ logs → ∃ p text, e = ProgressLog p text) ∧
    effects w' = effects w ++ logs
      ++ (if bool_decide (Some frame = _mainFrame w ∧ event = "load"%string)
          then [Emit Events.Load] else [])
      ++ (if bool_decide (Some frame = _mainFrame w ∧ event = "domcontentloaded"%string)
          then [Emit Events.DOMContentLoaded] else []).
Proof.
  intros Hwf Hvalid Hid Hf Hnew.
  destruct (frameLifecycleEvent_run w frameId event frame fr Hwf Hvalid Hid Hf Hnew)
    as (_ & _ & Hrun).
  rewrite Hrun. eexists _, _. split; [reflexivity|].
  split; [apply lifecycleLog_is_log|].
  do 2 destruct (bool_decide _); simpl; by rewrite <- ?(assoc_L (++)), ?app_nil_r.
Qed.

(** X15. A lifecycle event is delivered once: when [frameLifecycleEvent] has
    returned for a frame id and an event, delivering the same event for the
    same id again changes nothing - no task is told and the page gets no
    second Load or DOMContentLoaded. *)
Theorem X15_lifecycle_event_once (w w' : World) (frameId event : string) :
  FrameManager.frameLifecycleEvent frameId event w = Ok tt w' →
  FrameManager.frameLifecycleEvent frameId event w' = Ok tt w'.
Proof.
  intros Hrun.
  destruct (frameLifecycleEvent_spec frameId event w w' Hrun) as (_ & Hfm & _ & Hcase).
  unfold FrameManager.frameLifecycleEvent.
  rewrite (bind_Ok _ _ w' w' w') by done. rewrite Hfm.
  destruct (_frames w !! frameId) as [g|]; [|done].
  destruct Hcase as (frg & Hg & Hs).
  apply lookup_lt_Some in Hg as Hlt.
  destruct (set_has event (_firedLifecycleEvents frg)) eqn:Hfired.
  - rewrite (bind_Ok _ _ w' frg w') by (apply getFrame_run; congruence).
    by rewrite Hfired.
  - rewrite (bind_Ok _ _ w' (set_firedLifecycleEvents (set_add event) frg) w')
      by (apply getFrame_run; rewrite Hs; by apply list_lookup_insert_eq).
    simpl. by rewrite set_has_set_add.
Qed.

(** ** Requests and the tasks of a frame *)

Lemma foldl_alter_lookup {A} (G : A → A) (l : list nat) : ∀ (s : list A) t,
  (∀ x, G (G x) = G x) →
  foldl (λ s t, alter G t s) s l !! t = (if decide (t ∈ l) then G else λ x, x) <$> s !! t.
Proof.
  induction l as [|t0 l IH]; intros s t Hidem.
  - rewrite decide_False by (intros H; by apply elem_of_nil in H).
    simpl. destruct (s !! t); reflexivity.
  - simpl. rewrite IH by done. rewrite lookup_alter_decide.
    destruct (s !! t) as [x|]; simpl; [|done]. f_equal.
    destruct (decide (t = t0)) as [->|Hne].
    + rewrite (decide_True (P := t0 ∈ t0 :: l)) by by left.
      destruct (decide (t0 ∈ l)); [by rewrite Hidem | done].
    + destruct (decide (t ∈ l)) as [Hin|Hout].
      * by rewrite decide_True by by right.
      * rewrite decide_False; [done|]. intros Hin. apply elem_of_cons in Hin as [?|?]; done.
Qed.

Lemma forM_updateTask_run (G : FrameTask → FrameTask) tasks : ∀ w,
  (∀ t, t ∈ tasks → t < length (taskStore w)) →
  forM_ tasks (λ t, updateTask t G) w
  = Ok tt (with_taskStore (λ s, foldl (λ s t, alter G t s) s tasks) w).
Proof.
  induction tasks as [|t tasks IH]; intros w Hall.
  - by apply f_equal, World_ext.
  - destruct (lookup_lt_is_Some_2 (taskStore w) t) as [tk Htk]; [apply Hall; by left|].
    rewrite forM_cons. unfold updateTask at 1. rewrite Htk.
    rewrite IH.
    + apply f_equal, World_ext; try done. simpl.
      by rewrite (alter_insert_lookup _ _ _ tk).
    + intros t' Ht'. simpl. rewrite length_insert. apply Hall. by right.
Qed.

(** Whether [onRequest] records the request: it has a document id and is
    no redirect. *)
Lemma onRequest_recorded task request documentId :
  _documentId request = Some documentId → documentId ≠ ""%string →
  redirectedFrom request = false →
  FrameTask.onRequest task request
  = updateTask task (set_requestMap (λ m, <[documentId := request]> m)).
Proof.
  intros Hd Hne Hr. unfold FrameTask.onRequest. rewrite Hd, (truthy_Some _ Hne), Hr. done.
Qed.

Lemma onRequest_ignored task request :
  (∀ documentId, _documentId request = Some documentId →
     documentId = ""%string ∨ redirectedFrom request = true) →
  FrameTask.onRequest task request = mret tt.
Proof.
  intros H. unfold FrameTask.onRequest.
  destruct (_documentId request) as [d|]; [|done].
  destruct (H d eq_refl) as [-> | ->]; [done|]. by destruct (negb _).
Qed.

Lemma forM_ret {A} (l : list A) w : forM_ l (λ _, mret tt) w = Ok tt w.
Proof. induction l as [|x l IH]; [done|]. by rewrite forM_cons. Qed.

Lemma forM_ext {A} (l : list A) (f g : A → M unit) w :
  (∀ x, f x = g x) → forM_ l f w = forM_ l g w.
Proof.
  intros Hfg. revert w. induction l as [|x l IH]; intros w; [done|].
  rewrite !forM_cons, Hfg. destruct (g x w); [apply IH | done].
Qed.

Lemma foldl_alter_id {A} (l : list nat) : ∀ s : list A,
  foldl (λ s t, alter (λ x, x) t s) s l = s.
Proof.
  induction l as [|t l IH]; intros s; [done|].
  simpl. rewrite IH. apply list_eq. intros i. rewrite lookup_alter_decide.
  destruct (s !! i); simpl; [|done]. by case_decide.
Qed.

Lemma requestStarted_run w request fr :
  frameStore w !! request_frame request = Some fr →
  (∀ t, t ∈ _frameTasks fr → t < length (taskStore w)) →
  ∃ w1 G,
    FrameManager._inflightRequestStarted request w = Ok tt w1 ∧
    navView w1 = navView w ∧
    (∀ documentId, _documentId request = Some documentId → documentId ≠ ""%string →
       redirectedFrom request = false →
       G = set_requestMap (λ m, <[documentId := request]> m)) ∧
    ((∀ documentId, _documentId request = Some documentId →
        documentId = ""%string ∨ redirectedFrom request = true) → G = λ tk, tk) ∧
    (∀ tk, G (G tk) = G tk) ∧
    FrameManager.requestStarted request w =
    Ok tt
      (with_effects
         (λ l, l ++ if _isFavicon request
                    then if _route request then [RouteContinue request] else []
                    else [PageRequestStarted request])
         (with_taskStore (λ s, foldl (λ s t, alter G t s) s (_frameTasks fr)) w1)).
Proof.
  intros Hf Hall.
  destruct (inflightRequestStarted_spec w request fr Hf) as (w1 & fr0 & Hrun1 & _).
  pose proof (preserves_Ok navView _ w tt w1 (inflightRequestStarted_navView request) Hrun1)
    as Hview.
  destruct (navView_lookup w w1 _ fr Hview Hf) as (fr1 & Hf1 & Hnav).
  assert (Htasks : _frameTasks fr1 = _frameTasks fr) by (unfold navFields in Hnav; congruence).
  assert (Hts : taskStore w1 = taskStore w) by (unfold navView in Hview; congruence).
  assert (Hdec : (∃ documentId, _documentId request = Some documentId ∧
                    documentId ≠ ""%string ∧ redirectedFrom request = false) ∨
                 (∀ documentId, _documentId request = Some documentId →
                    documentId = ""%string ∨ redirectedFrom request = true)).
  { destruct (_documentId request) as [d|]; [|right; by intros].
    destruct (decide (d = ""%string)) as [->|Hne]; [right; intros ? [= <-]; by left|].
    destruct (redirectedFrom request); [right; intros ? [= <-]; by right|].
    left. by exists d. }
  assert (Hfinal : ∀ w2,
    (if _isFavicon request then when (_route request) (effect (RouteContinue request))
     else effect (PageRequestStarted request)) w2
    = Ok tt (with_effects
               (λ l, l ++ if _isFavicon request
                          then if _route request then [RouteContinue request] else []
                          else [PageRequestStarted request]) w2)).
  { intros w2. destruct (_isFavicon request); [|done].
    destruct (_route request); [done|]. apply f_equal, World_ext; try done.
    simpl. by rewrite app_nil_r. }
  destruct Hdec as [(d & Hd & Hne & Hr)|Hign].
  - exists w1, (set_requestMap (λ m, <[d := request]> m)).
    split; [done|]. split; [done|].
    split; [intros d' Hd' _ _; rewrite Hd in Hd'; by injection Hd' as ->|].
    split; [intros Hign; destruct (Hign d Hd); congruence|].
    split; [intros tk; destruct tk; unfold set_requestMap; simpl;
            by rewrite insert_insert_eq|].
    unfold FrameManager.requestStarted.
    rewrite (bind_Ok _ _ w tt w1) by done.
    rewrite (bind_Ok _ _ w1 fr1 w1) by (by apply getFrame_run).
    rewrite Htasks.
    erewrite (bind_Ok _ _ w1 tt).
    + apply Hfinal.
    + erewrite (forM_ext _ _ (λ t, updateTask t (set_requestMap (λ m, <[d := request]> m)))).
      * apply forM_updateTask_run. intros t Ht. rewrite Hts. by apply Hall.
      * intros t. by apply onRequest_recorded.
  - exists w1, (λ tk, tk).
    split; [done|]. split; [done|].
    split; [intros d Hd Hne Hr; destruct (Hign d Hd); congruence|].
    split; [done|]. split; [done|].
    unfold FrameManager.requestStarted.
    rewrite (bind_Ok _ _ w tt w1) by done.
    rewrite (bind_Ok _ _ w1 fr1 w1) by (by apply getFrame_run).
    rewrite Htasks.
    rewrite (bind_Ok _ _ w1 tt w1).
    + rewrite Hfinal. apply f_equal, World_ext; try done.
      simpl. by rewrite foldl_alter_id.
    + rewrite (forM_ext _ _ (λ _, mret tt)); [apply forM_ret|].
      intros t. by apply onRequest_ignored.
Qed.

(** X16. [requestStarted] hands a request that has a document id and is no
    redirect to every task of its frame: afterwards [request(documentId)] of
    each of these tasks is that request, whatever was recorded for the id
    before.  What is recorded for other document ids, and every task of
    another frame, stays as it is. *)
Theorem X16_requestStarted_records_request (w : World) (request : Request) (fr : Frame)
  (documentId : string) :
  frameStore w !! request_frame request = Some fr →
  (∀ t, t ∈ _frameTasks fr → t < length (taskStore w)) →
  _documentId request = Some documentId → documentId ≠ ""%string →
  redirectedFrom request = false →
  ∃ w',
    FrameManager.requestStarted request w = Ok tt w' ∧
    (∀ t, t ∈ _frameTasks fr → FrameTask.request t documentId w' = Ok (Some request) w') ∧
    (∀ t d r, d ≠ documentId →
       FrameTask.request t d w = Ok r w → FrameTask.request t d w' = Ok r w') ∧
    (∀ t, t ∉ _frameTasks fr → taskStore w' !! t = taskStore w !! t).
Proof.
  intros Hf Hall Hd Hne Hr.
  destruct (requestStarted_run w request fr Hf Hall)
    as (w1 & G & _ & Hview & HG & _ & Hidem & Hrun).
  rewrite (HG documentId Hd Hne Hr) in *. clear HG.
  assert (Hts : taskStore w1 = taskStore w) by (unfold navView in Hview; congruence).
  rewrite Hrun. eexists. split; [reflexivity|].
  assert (Hlookup : ∀ t,
    taskStore
      (with_effects
         (λ l, l ++ if _isFavicon request
                    then if _route request then [RouteContinue request] else []
                    else [PageRequestStarted request])
         (with_taskStore
            (λ s, foldl (λ s t, alter (set_requestMap (λ m, <[documentId := request]> m)) t s)
                    s (_frameTasks fr)) w1)) !! t
    = (if decide (t ∈ _frameTasks fr)
       then set_requestMap (λ m, <[documentId := request]> m) else λ x, x)
      <$> taskStore w !! t).
  { intros t. simpl. rewrite foldl_alter_lookup by done. by rewrite Hts. }
  split; [|split].
  - intros t Ht. unfold FrameTask.request, mbind, M_bind, getTask. rewrite Hlookup.
    destruct (lookup_lt_is_Some_2 _ _ (Hall t Ht)) as [tk Htk]. rewrite Htk.
    rewrite decide_True by done. simpl. by rewrite lookup_insert_eq.
  - intros t d r Hdne. unfold FrameTask.request, mbind, M_bind, getTask. rewrite Hlookup.
    destruct (taskStore w !! t) as [tk|]; simpl; [|done].
    intros [= <-]. unfold mret, M_ret.
    case_decide; [|done]. simpl. by rewrite lookup_insert_ne.
  - intros t Ht. rewrite Hlookup. rewrite decide_False by done.
    by destruct (taskStore w !! t).
Qed.

(** X17. A request without a document id, and a redirect, is recorded by no
    task: [requestStarted] leaves every task as it is, so that
    [request(documentId)] keeps the request that started the navigation. *)
Theorem X17_requestStarted_ignores_redirect (w : World) (request : Request) (fr : Frame) :
  frameStore w !! request_frame request = Some fr →
  (∀ t, t ∈ _frameTasks fr → t < length (taskStore w)) →
  (∀ documentId, _documentId request = Some documentId →
     documentId = ""%string ∨ redirectedFrom request = true) →
  ∃ w',
    FrameManager.requestStarted request w = Ok tt w' ∧
    taskStore w' = taskStore w.
Proof.
  intros Hf Hall Hign.
  destruct (requestStarted_run w request fr Hf Hall)
    as (w1 & G & _ & Hview & _ & HG & _ & Hrun).
  rewrite (HG Hign) in *.
  assert (Hts : taskStore w1 = taskStore w) by (unfold navView in Hview; congruence).
  rewrite Hrun. eexists. split; [reflexivity|].
  simpl. by rewrite foldl_alter_id.
Qed.

(** X18. A favicon request is invisible to the page: [requestStarted] does
    not count it among the requests in flight, touches no timer and does
    not call the page, it only continues the route of the request if there
    is one; [requestReceivedResponse] and [requestFinished] do nothing at
    all. *)
Theorem X18_favicon_requests (w : World) (request : Request) (fr : Frame) :
  _isFavicon request = true →
  frameStore w !! request_frame request = Some fr →
  (∀ t, t ∈ _frameTasks fr → t < length (taskStore w)) →
  (∃ w',
     FrameManager.requestStarted request w = Ok tt w' ∧
     frameStore w' = frameStore w ∧ timers w' = timers w ∧
     effects w' = effects w ++ (if _route request then [RouteContinue request] else [])) ∧
  FrameManager.requestReceivedResponse request w = Ok tt w ∧
  FrameManager.requestFinished request w = Ok tt w.
Proof.
  intros Hfav Hf Hall. split; [|split].
  - destruct (requestStarted_run w request fr Hf Hall)
      as (w1 & G & Hrun1 & _ & _ & _ & _ & Hrun).
    unfold FrameManager._inflightRequestStarted in Hrun1. rewrite Hfav in Hrun1.
    injection Hrun1 as <-.
    rewrite Hrun, Hfav. eexists. split; [reflexivity|]. done.
  - unfold FrameManager.requestReceivedResponse. by rewrite Hfav.
  - unfold FrameManager.requestFinished, FrameManager._inflightRequestFinished.
    by rewrite Hfav.
Qed.

(** ** Waiting on a frame task *)

Lemma newPromise_run {T} (H : PromiseHeap T) (s : PromiseState T) w :
  newPromise H s w = Ok (length (heap_get H w)) (heap_set H (heap_get H w ++ [s]) w).
Proof. reflexivity. Qed.

Lemma settle_fresh {T} (h : list (PromiseState T)) (s : PromiseState T) :
  Promise.settle (length h) s (h ++ [Pending]) = h ++ [s].
Proof.
  unfold Promise.settle. rewrite list_lookup_middle by done.
  rewrite insert_app_r_alt by done. by rewrite Nat.sub_diag.
Qed.

(** X19. A frame task holds one waiter of each kind.  A second call of
    [waitForSameDocumentNavigation], [waitForSpecificDocument] or
    [waitForNewDocument] on a task that already has such a waiter fails its
    assertion inside the promise: the call returns a new promise that is
    already rejected, and the waiter that was registered first stays in
    place, with the world otherwise unchanged. *)
Theorem X19_second_waiter_is_rejected (w : World) (task : nat) (tk : FrameTask) :
  taskStore w !! task = Some tk →
  (is_Some (_onSameDocument tk) →
   ∀ url, FrameTask.waitForSameDocumentNavigation task url w
          = Ok (length (voidPromises w))
              (with_voidPromises (voidPromises w ++ [Rejected AssertionError]) w)) ∧
  (is_Some (_onSpecificDocument tk) →
   ∀ expectedDocumentId, FrameTask.waitForSpecificDocument task expectedDocumentId w
          = Ok (length (voidPromises w))
              (with_voidPromises (voidPromises w ++ [Rejected AssertionError]) w)) ∧
  (is_Some (_onNewDocument tk) →
   ∀ url, FrameTask.waitForNewDocument task url w
          = Ok (length (documentPromises w))
              (with_documentPromises (documentPromises w ++ [Rejected AssertionError]) w)).
Proof.
  intros Ht. split; [|split].
  - intros [x Hx] url. unfold FrameTask.waitForSameDocumentNavigation.
    rewrite (bind_Ok _ _ _ _ _ (newPromise_run Void Pending w)).
    rewrite (bind_Ok _ _ _ tk _) by (unfold getTask; simpl; by rewrite Ht).
    rewrite Hx. unfold reject, modify, mbind, M_bind, mret, M_ret.
    apply f_equal, World_ext; try done. simpl. apply settle_fresh.
  - intros [x Hx] d. unfold FrameTask.waitForSpecificDocument.
    rewrite (bind_Ok _ _ _ _ _ (newPromise_run Void Pending w)).
    rewrite (bind_Ok _ _ _ tk _) by (unfold getTask; simpl; by rewrite Ht).
    rewrite Hx. unfold reject, modify, mbind, M_bind, mret, M_ret.
    apply f_equal, World_ext; try done. simpl. apply settle_fresh.
  - intros [x Hx] url. unfold FrameTask.waitForNewDocument.
    rewrite (bind_Ok _ _ _ _ _ (newPromise_run Document Pending w)).
    rewrite (bind_Ok _ _ _ tk _) by (unfold getTask; simpl; by rewrite Ht).
    rewrite Hx. unfold reject, modify, mbind, M_bind, mret, M_ret.
    apply f_equal, World_ext; try done. simpl. apply settle_fresh.
Qed.

Lemma FrameTask_new_run w frame fr progress :
  frameStore w !! frame = Some fr →
  FrameTask.new frame progress w
  = Ok (length (taskStore w)) (taskCreated frame fr progress w).
Proof.
  intros Hf. unfold FrameTask.new.
  rewrite (bind_Ok _ _ w (length (taskStore w))
             (with_taskStore (λ s, s ++ [freshTask frame progress]) w)) by done.
  rewrite (bind_Ok _ _ _ tt _
             (updateFrame_run (with_taskStore (λ s, s ++ [freshTask frame progress]) w)
                frame fr _ Hf)).
  destruct progress as [p|]; unfold mbind, M_bind, effect, modify, mret, M_ret;
    apply f_equal, World_ext; try done.
  simpl. by rewrite app_nil_r.
Qed.

(** Lifecycle checks read the children and the fired events only. *)
Lemma inSubtree_same (s s' : list Frame) f g :
  (∀ i, _childFrames <$> s' !! i = _childFrames <$> s !! i) →
  inSubtree s f g → inSubtree s' f g.
Proof.
  intros Hsame H. induction H as [|f fr c g Hf Hc _ IH]; [constructor|].
  specialize (Hsame f). rewrite Hf in Hsame.
  destruct (s' !! f) as [fr'|] eqn:Hf'; simpl in Hsame; [|discriminate].
  injection Hsame as Hch.
  eapply inSubtree_child; [done | by rewrite Hch | done].
Qed.

Lemma subtreeFired_same (s s' : list Frame) f event :
  (∀ i, _childFrames <$> s' !! i = _childFrames <$> s !! i) →
  (∀ i, _firedLifecycleEvents <$> s' !! i = _firedLifecycleEvents <$> s !! i) →
  subtreeFired s f event → subtreeFired s' f event.
Proof.
  intros Hch Hfired H g Hg.
  destruct (H g) as (fr & Hfr & He).
  { eapply inSubtree_same; [|done]. intros i. by rewrite Hch. }
  specialize (Hfired g). rewrite Hfr in Hfired.
  destruct (s' !! g) as [fr'|] eqn:Hfr'; simpl in Hfired; [|discriminate].
  injection Hfired as Hf.
  exists fr'. split; [done|]. by rewrite Hf.
Qed.

Lemma childrenLater_same (s s' : list Frame) :
  length s' = length s →
  (∀ i, _childFrames <$> s' !! i = _childFrames <$> s !! i) →
  childrenLater s → childrenLater s'.
Proof.
  intros Hlen Hch Hcl f fr' c Hf Hc.
  specialize (Hch f). rewrite Hf in Hch.
  destruct (s !! f) as [fr|] eqn:Hfr; simpl in Hch; [|discriminate].
  injection Hch as Hch.
  rewrite Hlen. apply (Hcl f fr c Hfr). by rewrite <- Hch.
Qed.

Lemma insert_same_field {X} (proj : Frame → X) (s : list Frame) frame fr fr' i :
  s !! frame = Some fr → proj fr' = proj fr →
  proj <$> <[frame := fr']> s !! i = proj <$> s !! i.
Proof.
  intros Hf Hp. apply lookup_lt_Some in Hf as Hlt.
  destruct (decide (i = frame)) as [->|Hne].
  - rewrite list_lookup_insert_eq by done. rewrite Hf. simpl. by rewrite Hp.
  - by rewrite list_lookup_insert_ne.
Qed.

Lemma kLifecycleEvents_valid state :
  state ∈ kLifecycleEvents →
  (if decide (state = "networkidle0"%string) then "networkidle"%string else state) = state ∧
  set_has state kLifecycleEvents = true.
Proof.
  intros Hin. split.
  - case_decide as Heq; [|done]. subst. unfold kLifecycleEvents in Hin.
    repeat (apply elem_of_cons in Hin as [Hin|Hin]; [done|]). by apply elem_of_nil in Hin.
  - by apply bool_decide_eq_true.
Qed.

Lemma set_frameTasks_round fr (g1 g2 : list nat → list nat) :
  g2 (g1 (_frameTasks fr)) = _frameTasks fr →
  set_frameTasks g2 (set_frameTasks g1 fr) = fr.
Proof. destruct fr. unfold set_frameTasks. simpl. by intros ->. Qed.

(** X20. [_waitForLoadState] for a state that every frame of the subtree
    has fired already resolves at once, and it leaves nothing behind: the
    promise it awaits is fulfilled when it is made, and when the wait is
    over the task has left the frame again, so that the frames are as they
    were.  The progress was told how to clean up the task. *)
Theorem X20_waitForLoadState_fired (w : World) (frame : nat) (fr : Frame) (progress : nat)
  (state : string) :
  frameStore w !! frame = Some fr →
  childrenLater (frameStore w) →
  (∀ t, t ∈ _frameTasks fr → t < length (taskStore w)) →
  state ∈ kLifecycleEvents →
  subtreeFired (frameStore w) frame state →
  ∃ task p w1 w2,
    Frame._waitForLoadState frame progress state w = Ok (task, p) w1 ∧
    voidPromises w1 !! p = Some (Fulfilled tt) ∧
    effects w1 = effects w ++ [CleanupWhenAborted progress (CleanupTaskDone task)] ∧
    Frame._waitForLoadState_settled task w1 = Ok tt w2 ∧
    frameStore w2 = frameStore w ∧ effects w2 = effects w1.
Proof.
  intros Hf Hcl Hfresh Hstate Hfired.
  apply lookup_lt_Some in Hf as Hlt.
  destruct (kLifecycleEvents_valid state Hstate) as [Hnorm Hvalid].
  set (task := length (taskStore w)).
  set (wa := taskCreated frame fr (Some progress) w).
  assert (Hta : taskStore wa !! task = Some (freshTask frame (Some progress)))
    by (simpl; by apply list_lookup_middle).
  assert (Hsame : ∀ X (proj : Frame → X),
            proj (set_frameTasks (set_add task) fr) = proj fr →
            ∀ i, proj <$> frameStore wa !! i = proj <$> frameStore w !! i).
  { intros X proj Hp i. simpl. by apply (insert_same_field proj _ frame fr). }
  assert (Hcla : childrenLater (frameStore wa)).
  { eapply childrenLater_same; [|by apply Hsame|done]. simpl. by rewrite length_insert. }
  assert (Hfireda : subtreeFired (frameStore wa) frame state).
  { eapply subtreeFired_same; [by apply Hsame | by apply Hsame | done]. }
  assert (Hfa : frameStore wa !! frame = Some (set_frameTasks (set_add task) fr))
    by (simpl; by apply list_lookup_insert_eq).
  destruct (checkLifecycleRecursively_spec wa frame _ state Hcla Hfa) as (b & Hb & Hspec).
  assert (b = true) as -> by (by apply Hspec).
  exists task, (length (voidPromises w)),
    (with_voidPromises (voidPromises w ++ [Fulfilled tt]) wa).
  assert (Hwait : FrameTask.waitForLifecycle task state wa
                  = Ok (length (voidPromises w))
                      (with_voidPromises (voidPromises w ++ [Fulfilled tt]) wa)).
  { unfold FrameTask.waitForLifecycle. rewrite Hnorm, Hvalid. simpl.
    rewrite (bind_Ok _ _ wa (freshTask frame (Some progress)) wa)
      by (unfold getTask; by rewrite Hta).
    simpl. by rewrite (bind_Ok _ _ _ _ _ Hb). }
  eexists. split.
  { unfold Frame._waitForLoadState.
    rewrite (bind_Ok _ _ _ _ _ (FrameTask_new_run w frame fr (Some progress) Hf)).
    fold task wa. by rewrite (bind_Ok _ _ _ _ _ Hwait). }
  split; [simpl; by apply list_lookup_middle|]. split; [done|].
  split.
  { unfold Frame._waitForLoadState_settled, FrameTask.done.
    rewrite (bind_Ok _ _ _ (freshTask frame (Some progress)) _)
      by (unfold getTask; simpl; by rewrite list_lookup_middle).
    simpl. apply updateFrame_run. simpl. by apply list_lookup_insert_eq. }
  split; [|done]. simpl. rewrite list_insert_insert_eq.
  apply list_insert_id. rewrite Hf. f_equal.
  assert (Hnotin : task ∉ _frameTasks fr).
  { intros Hin. apply Hfresh in Hin. unfold task in Hin. lia. }
  symmetry. apply set_frameTasks_round. by apply set_delete_set_add.
Qed.

(** ** Setting the content of a frame *)

Lemma checkLifecycleRecursively_not_fired (w : World) (frame : nat) (fr : Frame)
  (event : string) :
  frameStore w !! frame = Some fr →
  set_has event (_firedLifecycleEvents fr) = false →
  FrameTask._checkLifecycleRecursively frame event w = Ok false w.
Proof.
  intros Hf Hfired. unfold FrameTask._checkLifecycleRecursively.
  apply lookup_lt_Some in Hf as Hlt.
  destruct (length (frameStore w)) as [|n]; [lia|].
  simpl. by rewrite Hf, Hfired.
Qed.

(** X21. The handler that [setContent] registers for its console tag clears
    the lifecycle of the frame before it waits: whatever the frame had
    fired for the document before, afterwards nothing is fired, and the
    wait is a new task of the frame whose promise is pending, also for a
    state that the frame had fired before.  Of the requests in flight those
    of the last document stay. *)
Theorem X21_setContent_waits_for_new_events (w : World) (frame : nat) (fr : Frame)
  (progress : nat) (waitUntil : string) :
  frameStore w !! frame = Some fr →
  waitUntil ∈ kLifecycleEvents →
  ∃ w' fr',
    setContent_handler frame progress waitUntil w = Ok tt w' ∧
    frameStore w' !! frame = Some fr' ∧
    _firedLifecycleEvents fr' = [] ∧
    _inflightRequests fr' = keptRequests fr ∧
    _frameTasks fr' = set_add (length (taskStore w)) (_frameTasks fr) ∧
    taskStore w' =
      taskStore w
      ++ [set_onLifecycle (Some (waitUntil, length (voidPromises w)))
            (freshTask frame (Some progress))] ∧
    voidPromises w' = voidPromises w ++ [Pending] ∧
    effects w' = effects w
      ++ [ProgressLog progress "content written";
          CleanupWhenAborted progress (CleanupTaskDone (length (taskStore w)))].
Proof.
  intros Hf Hstate.
  destruct (kLifecycleEvents_valid waitUntil Hstate) as [Hnorm Hvalid].
  set (w0 := with_effects (λ l, l ++ [ProgressLog progress "content written"]) w).
  destruct (clearFrameLifecycle_spec w0 frame fr Hf)
    as (w1 & fr1 & Hrun1 & Hs1 & _ & _ & _ & _ & Hfired1 & Hin1 & _).
  pose proof (preserves_Ok navView _ w0 tt w1 (clearFrameLifecycle_navView frame) Hrun1)
    as Hview.
  destruct (navView_lookup w0 w1 frame fr Hview Hf) as (fr1' & Hf1 & Hnav).
  apply lookup_lt_Some in Hf as Hlt.
  assert (fr1' = fr1) as ->.
  { rewrite Hs1 in Hf1. rewrite list_lookup_insert_eq in Hf1 by done. congruence. }
  unfold navView in Hview. unfold navFields in Hnav.
  assert (Htasks : _frameTasks fr1 = _frameTasks fr) by congruence.
  assert (Hts : taskStore w1 = taskStore w) by (simpl in Hview; congruence).
  assert (Hvp : voidPromises w1 = voidPromises w) by (simpl in Hview; congruence).
  assert (He1 : effects w1 = effects w ++ [ProgressLog progress "content written"])
    by (simpl in Hview; congruence).
  set (task := length (taskStore w)).
  set (wa := taskCreated frame fr1 (Some progress) w1).
  set (tk := set_onLifecycle (Some (waitUntil, length (voidPromises w)))
               (freshTask frame (Some progress))).
  set (wb := with_taskStore (λ s, <[task := tk]> s)
               (with_voidPromises (voidPromises w ++ [Pending]) wa)).
  assert (Hta : taskStore wa !! task = Some (freshTask frame (Some progress))).
  { simpl. rewrite Hts. by apply list_lookup_middle. }
  assert (Hfa : frameStore wa !! frame
                = Some (set_frameTasks (set_add (length (taskStore w1))) fr1)).
  { simpl. apply list_lookup_insert_eq. by apply lookup_lt_Some in Hf1. }
  assert (Hcheck : FrameTask._checkLifecycleRecursively frame waitUntil wa = Ok false wa).
  { apply (checkLifecycleRecursively_not_fired wa frame _ waitUntil Hfa).
    simpl. by rewrite Hfired1. }
  assert (Hwait : FrameTask.waitForLifecycle task waitUntil wa
                  = Ok (length (voidPromises w)) wb).
  { unfold FrameTask.waitForLifecycle. rewrite Hnorm, Hvalid. simpl.
    rewrite (bind_Ok _ _ wa (freshTask frame (Some progress)) wa)
      by (unfold getTask; by rewrite Hta).
    simpl. rewrite (bind_Ok _ _ _ _ _ Hcheck).
    rewrite (bind_Ok _ _ wa (length (voidPromises w))
               (with_voidPromises (voidPromises w ++ [Pending]) wa)).
    2: { unfold newPromise. simpl. by rewrite Hvp. }
    rewrite (bind_Ok _ _ _ tt wb); [done|].
    unfold updateTask. simpl. simpl in Hta. by rewrite Hta. }
  exists wb, (set_frameTasks (set_add (length (taskStore w1))) fr1). split.
  { unfold setContent_handler.
    rewrite (bind_Ok _ _ w tt w0) by done.
    rewrite (bind_Ok _ _ w0 tt w1) by done.
    unfold async, Frame._waitForLoadState.
    rewrite (bind_Ok _ _ _ (task, length (voidPromises w)) wb); [done|].
    rewrite (bind_Ok _ _ _ _ _ (FrameTask_new_run w1 frame fr1 (Some progress) Hf1)).
    rewrite Hts. fold task wa. by rewrite (bind_Ok _ _ _ _ _ Hwait). }
  split; [done|]. split; [done|]. split; [done|].
  split; [simpl; by rewrite Hts, Htasks|].
  split; [|split].
  - simpl. rewrite Hts. unfold task.
    rewrite insert_app_r_alt by done. by rewrite Nat.sub_diag.
  - done.
  - simpl. rewrite He1, Hts. by rewrite <- (assoc_L (++)).
Qed.

(** ** The properties on concrete pages *)

(** The tasks of a concrete frame exist and belong to it. *)
Ltac concrete_tasks :=
  let t := fresh "t" in
  let Ht := fresh "Ht" in
  intros t Ht; simpl in Ht;
  repeat (apply elem_of_cons in Ht as [-> | Ht];
          [first [ eexists; split; [reflexivity | first [reflexivity | simpl; lia]]
                 | simpl; lia ]|]);
  by apply elem_of_nil in Ht.

Lemma allTasksValid_tree_page : allTasksValid tree_page.
Proof.
  intros f fr Hf.
  repeat (destruct f as [|f]; [injection Hf as <-; concrete_tasks|]).
  done.
Qed.

Lemma X8_witness :
  ∃ w',
    FrameManager.frameCommittedSameDocumentNavigation "main" "https://a/#top" navigating
      = Ok tt w' ∧
    voidPromises w' !! 2 = Some (Fulfilled tt).
Proof.
  edestruct (X8_same_document_navigation navigating "main" "https://a/#top" 0)
    as (w' & Hrun & _ & _ & _ & _ & _ & _ & Hp);
    [reflexivity | reflexivity | concrete_tasks |].
  exists w'. split; [exact Hrun|].
  destruct (Hp 2) as [_ Hiff]; [reflexivity|].
  apply Hiff. exists 0. eexists. exists None.
  split; [by left|]. split; [reflexivity|]. split; reflexivity.
Defined.

Lemma X9_witness :
  ∃ w',
    FrameManager.requestFailed R1_failed true navigating = Ok tt w' ∧
    voidPromises w' !! 3
      = Some (Rejected {| message := "net::ERR_ABORTED; maybe frame was detached?" |}).
Proof.
  edestruct (X9_requestFailed_pending_document navigating R1_failed true)
    as (w' & fr' & Hrun & _ & _ & _ & _ & _ & Hp & _);
    [reflexivity | intros _; reflexivity | reflexivity | done | reflexivity | reflexivity
    | concrete_tasks |].
  exists w'. split; [exact Hrun|].
  destruct (Hp 3) as [_ Hiff]; [reflexivity|].
  apply Hiff. exists 0. eexists. split; [by left|]. split; reflexivity.
Defined.

Lemma X10_witness :
  ∃ w',
    FrameManager.requestFailed R2 false navigating = Ok tt w' ∧
    voidPromises w' = voidPromises navigating.
Proof.
  edestruct (X10_requestFailed_other_request navigating R2 false)
    as (w' & fr' & Hrun & _ & _ & _ & Hp & _);
    [reflexivity | intros _; reflexivity | intros documentId [=] |].
  exists w'. split; [exact Hrun | exact Hp].
Defined.

Lemma X11_witness :
  ∃ w' fr',
    FrameManager.frameCommittedNewDocumentNavigation "main" "https://a/" "" "D1" false
      tree_page = Ok tt w' ∧
    frameStore w' !! 0 = Some fr' ∧ _childFrames fr' = [] ∧
    isDetachedIn (frameStore w') 1 = true.
Proof.
  edestruct (X11_commit_new_document tree_page "main" "https://a/" "" "D1" false 0)
    as (w' & fr' & order & logs & Hrun & Hf & _ & _ & _ & _ & _ & _ & Hc & _ & _ & _ & _
        & Hdet & _);
    [exact treeOk_tree_page | reflexivity | reflexivity | concrete_tasks |].
  exists w', fr'. split; [exact Hrun|]. split; [exact Hf|]. split; [exact Hc|].
  apply Hdet; [done|].
  eapply inSubtree_child; [reflexivity | by left | constructor].
Defined.

Lemma X12_witness :
  ∃ w',
    FrameManager.frameCommittedNewDocumentNavigation "main" "https://a/" "" "D1" false
      tree_page = Ok tt w' ∧
    taskStore w' = taskStore tree_page.
Proof.
  edestruct (X12_commit_resolves_new_document tree_page "main" "https://a/" "" "D1" false 0)
    as (w' & Hrun & Ht & _);
    [exact treeOk_tree_page | reflexivity | reflexivity | concrete_tasks |].
  exists w'. split; [exact Hrun | exact Ht].
Defined.

Lemma X13_witness :
  ∃ w',
    FrameManager.frameLifecycleEvent "child" "load" tree_page = Ok tt w' ∧
    timers w' = timers tree_page.
Proof.
  edestruct (X13_lifecycle_event_reaches_ancestors tree_page "child" "load" 1)
    as (w' & Hrun & _ & _ & _ & Ht & _);
    [exact treeOk_tree_page | exact allTasksValid_tree_page | reflexivity | reflexivity
    | reflexivity |].
  exists w'. split; [exact Hrun | exact Ht].
Defined.

Lemma X14_witness :
  ∃ w' logs,
    FrameManager.frameLifecycleEvent "main" "domcontentloaded" tree_page = Ok tt w' ∧
    effects w' = effects tree_page ++ logs ++ [Emit Events.DOMContentLoaded].
Proof.
  edestruct (X14_lifecycle_page_events tree_page "main" "domcontentloaded" 0)
    as (w' & logs & Hrun & _ & He);
    [exact treeOk_tree_page | exact allTasksValid_tree_page | reflexivity | reflexivity
    | reflexivity |].
  exists w', logs. split; [exact Hrun | exact He].
Defined.

Lemma X15_witness :
  FrameManager.frameLifecycleEvent "main" "load" loaded_page = Ok tt loaded_page.
Proof.
  apply (X15_lifecycle_event_once attached_page loaded_page "main" "load").
  vm_compute. reflexivity.
Defined.

Lemma X16_witness :
  ∃ w',
    FrameManager.requestStarted R1 navigating = Ok tt w' ∧
    FrameTask.request 0 "D1" w' = Ok (Some R1) w'.
Proof.
  edestruct (X16_requestStarted_records_request navigating R1)
    as (w' & Hrun & Hreq & _);
    [reflexivity | concrete_tasks | reflexivity | done | reflexivity |].
  exists w'. split; [exact Hrun|]. apply Hreq. by left.
Defined.

Lemma X17_witness :
  ∃ w',
    FrameManager.requestStarted R2 navigating = Ok tt w' ∧
    taskStore w' = taskStore navigating.
Proof.
  edestruct (X17_requestStarted_ignores_redirect navigating R2) as (w' & Hrun & Ht);
    [reflexivity | concrete_tasks | intros documentId [=] |].
  exists w'. split; [exact Hrun | exact Ht].
Defined.

Lemma X18_witness :
  FrameManager.requestReceivedResponse R3_favicon navigating = Ok tt navigating ∧
  FrameManager.requestFinished R3_favicon navigating = Ok tt navigating.
Proof.
  edestruct (X18_favicon_requests navigating R3_favicon) as (_ & H1 & H2);
    [reflexivity | reflexivity | concrete_tasks |].
  split; [exact H1 | exact H2].
Defined.

Lemma X19_witness :
  FrameTask.waitForSpecificDocument 0 "D2" waiting_page
  = Ok (length (voidPromises waiting_page))
      (with_voidPromises (voidPromises waiting_page ++ [Rejected AssertionError])
         waiting_page).
Proof.
  edestruct (X19_second_waiter_is_rejected waiting_page 0) as (_ & H & _);
    [reflexivity|].
  apply H. by eexists.
Defined.

Lemma X20_witness :
  ∃ task p w1,
    Frame._waitForLoadState 0 5 "load" loaded_page = Ok (task, p) w1 ∧
    voidPromises w1 !! p = Some (Fulfilled tt).
Proof.
  edestruct (X20_waitForLoadState_fired loaded_page 0)
    as (task & p & w1 & w2 & Hrun & Hp & _);
    [reflexivity | apply childrenLater_check; vm_compute; reflexivity | concrete_tasks
    | by left | |].
  - intros g Hg. inversion Hg as [|f fr c g' Hf Hc Hsub]; subst.
    + eexists. split; [reflexivity | by left].
    + injection Hf as <-. by apply elem_of_nil in Hc.
  - exists task, p, w1. split; [exact Hrun | exact Hp].
Defined.

Lemma X21_witness :
  ∃ w' fr',
    setContent_handler 0 5 "load" loaded_page = Ok tt w' ∧
    frameStore w' !! 0 = Some fr' ∧ _firedLifecycleEvents fr' = [].
Proof.
  edestruct (X21_setContent_waits_for_new_events loaded_page 0)
    as (w' & fr' & Hrun & Hf & Hfired & _); [reflexivity | by left |].
  exists w', fr'. split; [exact Hrun|]. split; [exact Hf | exact Hfired].
Defined.

(** ** Context slots: creation and destruction *)

Lemma set_contextData_twice ty d1 d2 fr :
  set_contextData ty d2 (set_contextData ty d1 fr) = set_contextData ty d2 fr.
Proof. by destruct ty. Qed.

Lemma set_contextData_same ty d fr : _contextData (set_contextData ty d fr) ty = d.
Proof. by destruct ty. Qed.

Lemma set_contextData_other ty ty' d fr :
  ty' ≠ ty → _contextData (set_contextData ty d fr) ty' = _contextData fr ty'.
Proof. by destruct ty, ty'. Qed.

Lemma setContext_null_run w frame fr contextType :
  frameStore w !! frame = Some fr →
  Frame._setContext frame contextType None w
  = Ok tt
      (with_frameStore
         (λ s, <[frame := set_contextData contextType
                   {| contextPromise := length (contextPromises w);
                      contextResolveCallback := Some (length (contextPromises w));
                      context := None;
                      rerunnableTasks := rerunnableTasks (_contextData fr contextType) |}
                   fr]> s)
         (with_contextPromises (contextPromises w ++ [Pending]) w)).
Proof.
  intros Hf. assert (Hlt : frame < length (frameStore w)) by by eapply lookup_lt_Some.
  unfold Frame._setContext, Frame.updateContextData. msimpl. rewrite Hf. simpl.
  rewrite list_lookup_insert_eq by done. simpl.
  rewrite list_lookup_insert_eq by done. simpl.
  apply f_equal, World_ext; try done. simpl.
  rewrite list_insert_insert_eq. f_equal.
  rewrite set_contextData_twice. by destruct contextType.
Qed.

Lemma forM_rerun_run c tasks : ∀ w,
  forM_ tasks (λ t, async (RerunnableTask.rerun t c)) w
  = Ok tt (with_effects (λ l, l ++ map (λ t, TaskInvoked t c) tasks) w).
Proof.
  induction tasks as [|t tasks IH]; intros w.
  - simpl. apply f_equal, World_ext; try done. simpl. by rewrite app_nil_r.
  - rewrite forM_cons. unfold async at 1, RerunnableTask.rerun at 1, effect, modify. simpl.
    rewrite IH. apply f_equal, World_ext; try done. simpl. by rewrite <- (assoc_L (++)).
Qed.

Lemma setContext_some_run w frame fr contextType c p :
  frameStore w !! frame = Some fr →
  contextResolveCallback (_contextData fr contextType) = Some p →
  Frame._setContext frame contextType (Some c) w
  = Ok tt
      (with_effects
         (λ l, l ++ map (λ t, TaskInvoked t c) (rerunnableTasks (_contextData fr contextType)))
         (with_contextPromises (Promise.settle p (Fulfilled c) (contextPromises w))
            (with_frameStore
               (λ s, <[frame := set_contextData contextType
                         {| contextPromise := contextPromise (_contextData fr contextType);
                            contextResolveCallback := Some p;
                            context := Some c;
                            rerunnableTasks := rerunnableTasks (_contextData fr contextType) |}
                         fr]> s) w))).
Proof.
  intros Hf Hcb. assert (Hlt : frame < length (frameStore w)) by by eapply lookup_lt_Some.
  unfold Frame._setContext, Frame.updateContextData.
  rewrite (bind_Ok _ _ w tt
             (with_frameStore
                (λ s, <[frame := set_contextData contextType
                          {| contextPromise := contextPromise (_contextData fr contextType);
                             contextResolveCallback := Some p;
                             context := Some c;
                             rerunnableTasks := rerunnableTasks (_contextData fr contextType) |}
                          fr]> s) w)).
  2: { unfold updateFrame. rewrite Hf. by rewrite Hcb. }
  rewrite (bind_Ok _ _ _ _ _ (getFrame_updated _ _ _ Hlt)).
  rewrite set_contextData_same. cbn [contextResolveCallback rerunnableTasks].
  rewrite (bind_Ok (resolve Contexts p c) _ _ tt _ eq_refl).
  by rewrite forM_rerun_run.
Qed.

(** X22. The first execution context of a world fulfils the promise that
    [_context] handed out before the context existed: [_contextCreated] on
    an empty slot creates no promise, keeps the [contextPromise] of the
    slot and fulfils it with the context, and it reruns every task that
    waits in the slot, in their order.  The slot of the other world is left
    alone. *)
Theorem X22_contextCreated_empty_slot (w : World) (frame : nat) (fr : Frame)
  (contextType : ContextType) (ctx : Context) :
  frameStore w !! frame = Some fr →
  context (_contextData fr contextType) = None →
  contextResolveCallback (_contextData fr contextType)
    = Some (contextPromise (_contextData fr contextType)) →
  ∃ w' fr',
    Frame._contextCreated frame contextType ctx w = Ok tt w' ∧
    frameStore w' !! frame = Some fr' ∧
    context (_contextData fr' contextType) = Some ctx ∧
    contextPromise (_contextData fr' contextType)
      = contextPromise (_contextData fr contextType) ∧
    (∀ ty, ty ≠ contextType → _contextData fr' ty = _contextData fr ty) ∧
    length (contextPromises w') = length (contextPromises w) ∧
    (contextPromises w !! contextPromise (_contextData fr contextType) = Some Pending →
     contextPromises w' !! contextPromise (_contextData fr contextType)
       = Some (Fulfilled ctx)) ∧
    (∀ q, q ≠ contextPromise (_contextData fr contextType) →
          contextPromises w' !! q = contextPromises w !! q) ∧
    effects w' = effects w
      ++ map (λ t, TaskInvoked t ctx) (rerunnableTasks (_contextData fr contextType)).
Proof.
  intros Hf Hctx Hcb.
  assert (Hlt : frame < length (frameStore w)) by by eapply lookup_lt_Some.
  eexists _, _. split.
  { unfold Frame._contextCreated.
    rewrite (bind_Ok _ _ w fr w) by (by apply getFrame_run).
    rewrite Hctx. rewrite (bind_Ok (mret tt) _ w tt w eq_refl).
    by apply setContext_some_run. }
  cbn [frameStore with_effects with_contextPromises with_frameStore contextPromises effects].
  split; [by apply list_lookup_insert_eq|].
  rewrite set_contextData_same. cbn [context contextPromise].
  split; [done|]. split; [done|].
  split; [intros ty Hty; by apply set_contextData_other|].
  split; [apply settle_length|].
  split; [apply settle_lookup_pending|].
  split; [|done]. intros q Hq. by apply settle_lookup_ne.
Qed.

Lemma X22_witness :
  ∃ w',
    Frame._contextCreated 0 main 7 attached_page = Ok tt w' ∧
    contextPromises w' !! 2 = Some (Fulfilled 7).
Proof.
  destruct (X22_contextCreated_empty_slot attached_page 0 _ main 7 eq_refl eq_refl eq_refl)
    as (w' & fr' & Hrun & _ & _ & _ & _ & _ & Hp & _).
  exists w'. split; [exact Hrun|]. apply Hp. reflexivity.
Defined.

Lemma contextDestroyed_step w frame fr ctx ty :
  frameStore w !! frame = Some fr →
  (fr0 ← getFrame frame;
   if decide (context (_contextData fr0 ty) = Some ctx)
   then Frame._setContext frame ty None
   else mret tt) w
  = Ok tt
      (if decide (context (_contextData fr ty) = Some ctx) then
         with_frameStore
           (λ s, <[frame := set_contextData ty
                     {| contextPromise := length (contextPromises w);
                        contextResolveCallback := Some (length (contextPromises w));
                        context := None;
                        rerunnableTasks := rerunnableTasks (_contextData fr ty) |}
                     fr]> s)
           (with_contextPromises (contextPromises w ++ [Pending]) w)
       else w).
Proof.
  intros Hf. rewrite (bind_Ok _ _ w fr w) by (by apply getFrame_run).
  destruct (decide _); [by apply setContext_null_run | done].
Qed.

(** X23. [_contextDestroyed] resets exactly the slots that hold the
    destroyed context: such a slot becomes empty and gets a new pending
    promise of its own, with its waiting tasks kept; a slot that holds
    another context, or none, is left as it is.  No promise that exists is
    settled - a promise fulfilled with the destroyed context stays so - and
    no task is rerun or terminated. *)
Theorem X23_contextDestroyed (w : World) (frame : nat) (fr : Frame) (ctx : Context) :
  frameStore w !! frame = Some fr →
  ∃ w' fr',
    Frame._contextDestroyed frame ctx w = Ok tt w' ∧
    frameStore w' !! frame = Some fr' ∧
    (∀ ty, context (_contextData fr ty) = Some ctx →
       context (_contextData fr' ty) = None ∧
       length (contextPromises w) ≤ contextPromise (_contextData fr' ty) ∧
       contextPromises w' !! contextPromise (_contextData fr' ty) = Some Pending ∧
       contextResolveCallback (_contextData fr' ty)
         = Some (contextPromise (_contextData fr' ty)) ∧
       rerunnableTasks (_contextData fr' ty) = rerunnableTasks (_contextData fr ty)) ∧
    (∀ ty, context (_contextData fr ty) ≠ Some ctx →
       _contextData fr' ty = _contextData fr ty) ∧
    (context (_contextData fr main) = Some ctx →
     context (_contextData fr utility) = Some ctx →
     contextPromise (_contextData fr' main) ≠ contextPromise (_contextData fr' utility)) ∧
    (∀ q, q < length (contextPromises w) →
          contextPromises w' !! q = contextPromises w !! q) ∧
    handlePromises w' = handlePromises w ∧
    effects w' = effects w.
Proof.
  intros Hf.
  assert (Hlt : frame < length (frameStore w)) by by eapply lookup_lt_Some.
  unfold Frame._contextDestroyed.
  rewrite forM_cons, (contextDestroyed_step w frame fr ctx main Hf).
  destruct (decide (context (_contextData fr main) = Some ctx)) as [Hm|Hm].
  - set (fr1 := set_contextData main _ fr).
    set (w1 := with_frameStore _ _).
    assert (Hf1 : frameStore w1 !! frame = Some fr1) by (by apply list_lookup_insert_eq).
    rewrite forM_cons, (contextDestroyed_step w1 frame fr1 ctx utility Hf1).
    change (context (_contextData fr1 utility)) with (context (_contextData fr utility)).
    destruct (decide (context (_contextData fr utility) = Some ctx)) as [Hu|Hu].
    + eexists _, _. split; [reflexivity|].
      split; [simpl; rewrite list_insert_insert_eq; by apply list_lookup_insert_eq|].
      split.
      { intros [] _; simpl; rewrite ?length_app; simpl.
        - split; [done|]. split; [lia|]. split; [|done].
          rewrite lookup_app_l by (rewrite length_app; simpl; lia).
          by apply list_lookup_middle.
        - split; [done|]. split; [lia|]. split; [|done].
          apply list_lookup_middle. rewrite length_app. simpl. lia. }
      split; [intros [] Hne; done|].
      split; [intros _ _; simpl; rewrite length_app; simpl; lia|].
      split; [|done]. intros q Hq. simpl.
      rewrite lookup_app_l by (rewrite length_app; lia). by apply lookup_app_l.
    + eexists _, _. split; [reflexivity|].
      split; [done|].
      split.
      { intros [] Hty; [|done]. simpl.
        split; [done|]. split; [lia|]. split; [|done]. by apply list_lookup_middle. }
      split; [intros [] Hne; done|].
      split; [done|].
      split; [|done]. intros q Hq. simpl. by apply lookup_app_l.
  - rewrite forM_cons, (contextDestroyed_step w frame fr ctx utility Hf).
    destruct (decide (context (_contextData fr utility) = Some ctx)) as [Hu|Hu].
    + eexists _, _. split; [reflexivity|].
      split; [simpl; by apply list_lookup_insert_eq|].
      split.
      { intros [] Hty; [done|]. simpl.
        split; [done|]. split; [lia|]. split; [|done]. by apply list_lookup_middle. }
      split; [intros [] Hne; done|].
      split; [done|].
      split; [|done]. intros q Hq. simpl. by apply lookup_app_l.
    + exists w, fr. split; [reflexivity|]. split; [done|].
      split; [intros [] Hty; done|]. done.
Qed.

Lemma X23_witness :
  ∃ w' fr',
    Frame._contextDestroyed 0 7 context_page = Ok tt w' ∧
    frameStore w' !! 0 = Some fr' ∧ context (_contextData fr' main) = None.
Proof.
  destruct (X23_contextDestroyed context_page 0 _ 7 eq_refl)
    as (w' & fr' & Hrun & Hf & Hreset & _).
  exists w', fr'. split; [exact Hrun|]. split; [exact Hf|].
  by destruct (Hreset main) as [H _].
Defined.

(** ** A provisional load that failed *)

(** X24. [provisionalLoadFailed] tells the tasks of the frame and does
    nothing else: the frame keeps its pending document id, and the page
    hears nothing.  A pending promise of [waitForSpecificDocument] is
    rejected with the error exactly if it waits for the failed document,
    and a pending promise of [waitForNewDocument] exactly if it belongs to
    a task of the frame; a waiter for another document is not
    interrupted. *)
Theorem X24_provisionalLoadFailed (w : World) (frame : nat) (fr : Frame)
  (documentId error : string) :
  frameStore w !! frame = Some fr →
  tasksValid w (_frameTasks fr) →
  let e := {| message := error |} in
  ∃ w',
    FrameManager.provisionalLoadFailed frame documentId error w = Ok tt w' ∧
    frameStore w' = frameStore w ∧ taskStore w' = taskStore w ∧
    effects w' = effects w ∧
    (∀ p, voidPromises w !! p = Some Pending →
       (voidPromises w' !! p = Some (Rejected e) ∨ voidPromises w' !! p = Some Pending) ∧
       (voidPromises w' !! p = Some (Rejected e) ↔
        ∃ t tk, t ∈ _frameTasks fr ∧ taskStore w !! t = Some tk ∧
                _onSpecificDocument tk = Some (documentId, p))) ∧
    (∀ q, documentPromises w !! q = Some Pending →
       (documentPromises w' !! q = Some (Rejected e) ∨
        documentPromises w' !! q = Some Pending) ∧
       (documentPromises w' !! q = Some (Rejected e) ↔
        ∃ t tk u, t ∈ _frameTasks fr ∧ taskStore w !! t = Some tk ∧
                  _onNewDocument tk = Some (u, q))).
Proof.
  intros Hf Hvalid e.
  exists (newDocumentNotified (_frameTasks fr) documentId (Some e) w). split.
  { unfold FrameManager.provisionalLoadFailed.
    rewrite (bind_Ok _ _ w fr w) by (by apply getFrame_run).
    by apply forM_onNewDocument_run. }
  split; [done|]. split; [done|].
  split; [simpl; by rewrite app_nil_r|].
  split.
  - intros p Hp. simpl.
    destruct (settled_char (flat_map (specificActs documentId (Some e))
                 (tasksOf w (_frameTasks fr))) (voidPromises w) p (Rejected e) Hp)
      as [Hor Hiff]; [done | intros s' Hs'; by apply specificActs_elem in Hs' as [-> _] |].
    split; [done|]. rewrite Hiff. split.
    + intros [s' Hs']. by apply specificActs_elem in Hs' as [_ ?].
    + intros Hex. exists (Rejected e). by apply specificActs_elem.
  - intros q Hq. simpl.
    destruct (settled_char (flat_map (newDocumentActs w documentId (Some e))
                 (tasksOf w (_frameTasks fr))) (documentPromises w) q (Rejected e) Hq)
      as [Hor Hiff];
      [done | intros s' Hs'; by apply newDocumentActs_error_elem in Hs' as [-> _] |].
    split; [done|]. rewrite Hiff. split.
    + intros [s' Hs']. by apply newDocumentActs_error_elem in Hs' as [_ ?].
    + intros Hex. exists (Rejected e). by apply newDocumentActs_error_elem.
Qed.

Lemma X24_witness :
  ∃ w',
    FrameManager.provisionalLoadFailed 0 "D1" "net::ERR_FAILED" navigating = Ok tt w' ∧
    voidPromises w' !! 3 = Some (Rejected {| message := "net::ERR_FAILED" |}).
Proof.
  edestruct (X24_provisionalLoadFailed navigating 0 _ "D1" "net::ERR_FAILED" eq_refl)
    as (w' & Hrun & _ & _ & _ & Hp & _); [concrete_tasks|].
  exists w'. split; [exact Hrun|].
  destruct (Hp 3) as [_ Hiff]; [reflexivity|].
  apply Hiff. exists 0. eexists. split; [by left|]. split; reflexivity.
Defined.

(** ** Navigations requested while a signal barrier is open *)

Lemma addFrameNavigation_run w barrier frame b fr :
  barrierStore w !! barrier = Some b →
  frameStore w !! frame = Some fr →
  async (SignalBarrier.addFrameNavigation barrier frame) w
  = Ok tt (navigationAdded barrier frame b fr w).
Proof.
  intros Hb Hf.
  apply lookup_lt_Some in Hb as Hltb.
  set (w1 := with_barrierStore
               (λ s, <[barrier := set_protectCount (_protectCount b + 1)%Z b]> s) w).
  set (b1 := set_protectCount (_protectCount b + 1)%Z b).
  set (w2 := taskCreated frame fr (barrier_progress b) w1).
  set (task := length (taskStore w)).
  set (w3 := with_taskStore
               (λ s, <[task := set_onNewDocument (Some (None, length (documentPromises w)))
                                 (freshTask frame (barrier_progress b))]> s)
               (with_documentPromises (documentPromises w ++ [Pending]) w2)).
  assert (Hnew : FrameTask.waitForNewDocument task None w2
                 = Ok (length (documentPromises w)) w3).
  { unfold FrameTask.waitForNewDocument.
    rewrite (bind_Ok _ _ w2 (length (documentPromises w))
               (with_documentPromises (documentPromises w ++ [Pending]) w2)) by done.
    rewrite (bind_Ok _ _ (with_documentPromises (documentPromises w ++ [Pending]) w2)
               (freshTask frame (barrier_progress b))
               (with_documentPromises (documentPromises w ++ [Pending]) w2)).
    2: { unfold getTask. simpl. by rewrite list_lookup_middle. }
    cbn [_onNewDocument freshTask].
    rewrite (bind_Ok _ _ (with_documentPromises (documentPromises w ++ [Pending]) w2)
               tt w3); [done|].
    unfold updateTask. simpl. by rewrite list_lookup_middle. }
  assert (Hsame : FrameTask.waitForSameDocumentNavigation task None w3
                  = Ok (length (voidPromises w))
                      (with_taskStore
                         (λ s, <[task := set_onSameDocument
                                           (Some (None, length (voidPromises w)))
                                           (set_onNewDocument
                                              (Some (None, length (documentPromises w)))
                                              (freshTask frame (barrier_progress b)))]> s)
                         (with_voidPromises (voidPromises w ++ [Pending]) w3))).
  { unfold FrameTask.waitForSameDocumentNavigation.
    rewrite (bind_Ok _ _ w3 (length (voidPromises w))
               (with_voidPromises (voidPromises w ++ [Pending]) w3)) by done.
    rewrite (bind_Ok _ _ (with_voidPromises (voidPromises w ++ [Pending]) w3)
               (set_onNewDocument (Some (None, length (documentPromises w)))
                  (freshTask frame (barrier_progress b)))
               (with_voidPromises (voidPromises w ++ [Pending]) w3)).
    2: { unfold getTask. simpl. rewrite list_lookup_insert_eq; [done|].
         rewrite length_app. simpl. unfold task. lia. }
    cbn [_onSameDocument set_onNewDocument freshTask].
    rewrite (bind_Ok _ _ (with_voidPromises (voidPromises w ++ [Pending]) w3) tt
               (with_taskStore
                  (λ s, <[task := set_onSameDocument
                                    (Some (None, length (voidPromises w)))
                                    (set_onNewDocument
                                       (Some (None, length (documentPromises w)))
                                       (freshTask frame (barrier_progress b)))]> s)
                  (with_voidPromises (voidPromises w ++ [Pending]) w3))); [done|].
    unfold updateTask. simpl. rewrite list_lookup_insert_eq.
    2: { rewrite length_app. simpl. unfold task. lia. }
    done. }
  unfold async, SignalBarrier.addFrameNavigation.
  rewrite (bind_Ok _ _ w tt w1).
  2: { unfold SignalBarrier.retain, updateBarrier. by rewrite Hb. }
  rewrite (bind_Ok _ _ w1 b1 w1).
  2: { unfold getBarrier. simpl. by rewrite list_lookup_insert_eq. }
  rewrite (bind_Ok _ _ w1 task w2).
  2: { by apply (FrameTask_new_run w1 frame fr). }
  rewrite (bind_Ok _ _ _ _ _ Hnew).
  rewrite (bind_Ok _ _ _ _ _ Hsame).
  unfold effect, modify. unfold navigationAdded. fold task.
  apply f_equal, World_ext; try done. simpl. by rewrite list_insert_insert_eq.
Qed.

Lemma elem_of_set_add `{EqDecision A} (x y : A) l : y ∈ set_add x l ↔ y = x ∨ y ∈ l.
Proof.
  unfold set_add. destruct (decide (x ∈ l)) as [Hin|Hout].
  - split; [by right | by intros [-> | ?]].
  - rewrite elem_of_app, list_elem_of_singleton. tauto.
Qed.

Lemma set_frameTasks_id fr : set_frameTasks (λ _, _frameTasks fr) fr = fr.
Proof. by destruct fr. Qed.

Lemma set_protectCount_zero b : set_protectCount (_protectCount b + 0)%Z b = b.
Proof. destruct b. unfold set_protectCount. simpl. f_equal. lia. Qed.

Lemma occurrences_cons b b0 bs :
  occurrences b (b0 :: bs) = (if decide (b0 = b) then 1 else 0) + occurrences b bs.
Proof.
  unfold occurrences. destruct (decide (b0 = b)) as [Heq|Hne].
  - by rewrite filter_cons_True.
  - by rewrite filter_cons_False.
Qed.

Lemma occurrences_NoDup b bs :
  NoDup bs → occurrences b bs = if decide (b ∈ bs) then 1 else 0.
Proof.
  induction 1 as [|b0 bs Hout _ IH].
  - by rewrite decide_False by apply not_elem_of_nil.
  - rewrite occurrences_cons, IH.
    destruct (decide (b0 = b)) as [->|Hne].
    + rewrite (decide_False (P := b ∈ bs)) by done.
      by rewrite decide_True by (by left).
    + destruct (decide (b ∈ bs)) as [Hin|Hnin].
      * by rewrite decide_True by (by right).
      * rewrite decide_False; [done|]. intros [?|?]%elem_of_cons; congruence.
Qed.

(** What a loop of [addFrameNavigation] over barriers leaves alone. *)
Lemma forM_addFrameNavigation frame : ∀ bs w fr,
  frameStore w !! frame = Some fr →
  (∀ b, b ∈ bs → b < length (barrierStore w)) →
  ∃ w' tasks' new evs,
    forM_ bs (λ barrier, async (SignalBarrier.addFrameNavigation barrier frame)) w
      = Ok tt w' ∧
    frameStore w' = <[frame := set_frameTasks (λ _, tasks') fr]> (frameStore w) ∧
    (∀ t, t ∈ tasks' ↔
          t ∈ _frameTasks fr ∨
          length (taskStore w) ≤ t < length (taskStore w) + length bs) ∧
    taskStore w' = taskStore w ++ new ∧ length new = length bs ∧
    (∀ tk, tk ∈ new →
       _frame tk = frame ∧ _onSpecificDocument tk = None ∧ _onLifecycle tk = None ∧
       (∃ q, _onNewDocument tk = Some (None, q) ∧
             length (documentPromises w) ≤ q < length (documentPromises w) + length bs) ∧
       (∃ p, _onSameDocument tk = Some (None, p) ∧
             length (voidPromises w) ≤ p < length (voidPromises w) + length bs)) ∧
    voidPromises w' = voidPromises w ++ replicate (length bs) Pending ∧
    documentPromises w' = documentPromises w ++ replicate (length bs) Pending ∧
    (∀ b, barrierStore w' !! b
          = (λ x, set_protectCount (_protectCount x + Z.of_nat (occurrences b bs))%Z x)
              <$> barrierStore w !! b) ∧
    (_frames w', _mainFrame w', _signalBarriers w', rerunnableStore w', contextPromises w',
     handlePromises w', timers w', now w', _disconnectedPromise w')
    = (_frames w, _mainFrame w, _signalBarriers w, rerunnableStore w, contextPromises w,
       handlePromises w, timers w, now w, _disconnectedPromise w) ∧
    effects w' = effects w ++ evs ∧
    (∀ e, e ∈ evs →
       (∃ b t, e = AwaitNavigation b t ∧ b ∈ bs ∧
               length (taskStore w) ≤ t < length (taskStore w) + length bs) ∨
       (∃ p c, e = CleanupWhenAborted p c)) ∧
    (∀ b, b ∈ bs → ∃ t, AwaitNavigation b t ∈ evs).
Proof.
  induction bs as [|b0 bs IH]; intros w fr Hf Hbs.
  - exists w, (_frameTasks fr), [], []. split; [done|].
    split; [by rewrite set_frameTasks_id, list_insert_id|].
    split; [intros t; simpl; split; [by left | intros [?|?]; [done | lia]]|].
    split; [by rewrite app_nil_r|]. split; [done|].
    split; [intros tk Htk; by apply elem_of_nil in Htk|].
    split; [simpl; by rewrite app_nil_r|].
    split; [simpl; by rewrite app_nil_r|].
    split.
    { intros b. destruct (barrierStore w !! b) as [x|]; [|done]. simpl.
      by rewrite set_protectCount_zero. }
    split; [done|]. split; [by rewrite app_nil_r|].
    split; [intros e He; by apply elem_of_nil in He|].
    intros b Hb. by apply elem_of_nil in Hb.
  - destruct (lookup_lt_is_Some_2 (barrierStore w) b0) as [bo Hbo]; [apply Hbs; by left|].
    apply lookup_lt_Some in Hf as Hlt.
    set (w1 := navigationAdded b0 frame bo fr w).
    set (fr1 := set_frameTasks (set_add (length (taskStore w))) fr).
    set (tk1 := set_onSameDocument (Some (None, length (voidPromises w)))
                  (set_onNewDocument (Some (None, length (documentPromises w)))
                     (freshTask frame (barrier_progress bo)))).
    assert (Hf1 : frameStore w1 !! frame = Some fr1).
    { simpl. by apply list_lookup_insert_eq. }
    assert (Hts1 : taskStore w1 = taskStore w ++ [tk1]).
    { simpl. rewrite insert_app_r_alt by done. by rewrite Nat.sub_diag. }
    destruct (IH w1 fr1 Hf1) as (w' & tasks' & new & evs & Hrun & Hfs & Htasks & Hts & Hlen
                                 & Hnew & Hvoid & Hdoc & Hbar & Hrest & Heff & Hevs & Hall).
    { intros b Hb. simpl. rewrite length_insert. apply Hbs. by right. }
    exists w', tasks', (tk1 :: new),
      (match barrier_progress bo with
       | Some p => [CleanupWhenAborted p (CleanupTaskDone (length (taskStore w)))]
       | None => []
       end ++ [AwaitNavigation b0 (length (taskStore w))] ++ evs).
    split; [by rewrite forM_cons, (addFrameNavigation_run w b0 frame bo fr Hbo Hf)|].
    split.
    { rewrite Hfs. simpl. by rewrite list_insert_insert_eq. }
    split.
    { intros t. rewrite Htasks, Hts1, length_app. simpl.
      unfold fr1. cbn [_frameTasks set_frameTasks]. rewrite elem_of_set_add.
      intuition lia. }
    split; [rewrite Hts, Hts1; by rewrite <- (assoc_L (++))|].
    split; [simpl; by rewrite Hlen|].
    split.
    { intros tk [->|Htk]%elem_of_cons.
      - simpl. do 3 (split; [done|]).
        split; eexists; (split; [reflexivity | lia]).
      - destruct (Hnew tk Htk) as (H1 & H2 & H3 & (q & Hq & Hqr) & (p & Hp & Hpr)).
        do 3 (split; [done|]).
        simpl in Hqr, Hpr. rewrite length_app in Hqr, Hpr. simpl in Hqr, Hpr.
        split; [exists q | exists p]; (split; [done | simpl; lia]). }
    split; [rewrite Hvoid; simpl; by rewrite <- (assoc_L (++))|].
    split; [rewrite Hdoc; simpl; by rewrite <- (assoc_L (++))|].
    split.
    { intros b. rewrite Hbar, occurrences_cons. simpl.
      destruct (decide (b0 = b)) as [<-|Hne].
      - rewrite list_lookup_insert_eq by (by eapply lookup_lt_Some).
        rewrite Hbo. simpl. unfold set_protectCount. simpl. do 2 f_equal. lia.
      - by rewrite list_lookup_insert_ne. }
    split; [by rewrite Hrest|].
    split.
    { rewrite Heff. simpl. rewrite <- !(assoc_L (++)).
      by destruct (barrier_progress bo). }
    split.
    { intros e He. rewrite !elem_of_app in He. destruct He as [He|[He|He]].
      - right. destruct (barrier_progress bo) as [p|]; [|by apply elem_of_nil in He].
        apply list_elem_of_singleton in He. by eexists _, _.
      - apply list_elem_of_singleton in He. left. exists b0, (length (taskStore w)).
        split; [done|]. split; [by left | simpl; lia].
      - destruct (Hevs e He) as [(b & t & -> & Hb & Ht)|Hc]; [|by right].
        left. exists b, t. split; [done|]. split; [by right|].
        rewrite Hts1, length_app in Ht. simpl in Ht. simpl. lia. }
    intros b [->|Hb]%elem_of_cons.
    + exists (length (taskStore w)). rewrite !elem_of_app. right. left.
      by apply list_elem_of_singleton.
    + destruct (Hall b Hb) as [t Ht]. exists t. rewrite !elem_of_app. by do 2 right.
Qed.

Lemma frameRequestedNavigation_run w frameId documentId frame fr :
  _frames w !! frameId = Some frame →
  frameStore w !! frame = Some fr →
  (∀ b, b ∈ _signalBarriers w → b < length (barrierStore w)) →
  ∃ w0 w' tasks' new evs,
    forM_ (_signalBarriers w)
      (λ barrier, async (SignalBarrier.addFrameNavigation barrier frame)) w = Ok tt w0 ∧
    w' = with_frameStore
           (λ s, <[frame := set_pendingDocumentId documentId
                              (set_frameTasks (λ _, tasks') fr)]> s) w0 ∧
    FrameManager.frameRequestedNavigation frameId documentId w = Ok tt w' ∧
    frameStore w0 = <[frame := set_frameTasks (λ _, tasks') fr]> (frameStore w) ∧
    (∀ t, t ∈ tasks' ↔
          t ∈ _frameTasks fr ∨
          length (taskStore w) ≤ t < length (taskStore w) + length (_signalBarriers w)) ∧
    taskStore w0 = taskStore w ++ new ∧ length new = length (_signalBarriers w) ∧
    (∀ tk, tk ∈ new →
       _frame tk = frame ∧ _onSpecificDocument tk = None ∧ _onLifecycle tk = None ∧
       (∃ q, _onNewDocument tk = Some (None, q) ∧
             length (documentPromises w) ≤ q
             < length (documentPromises w) + length (_signalBarriers w)) ∧
       (∃ p, _onSameDocument tk = Some (None, p) ∧
             length (voidPromises w) ≤ p
             < length (voidPromises w) + length (_signalBarriers w))) ∧
    voidPromises w0 = voidPromises w ++ replicate (length (_signalBarriers w)) Pending ∧
    documentPromises w0
      = documentPromises w ++ replicate (length (_signalBarriers w)) Pending ∧
    (∀ b, barrierStore w0 !! b
          = (λ x, set_protectCount
                    (_protectCount x + Z.of_nat (occurrences b (_signalBarriers w)))%Z x)
              <$> barrierStore w !! b) ∧
    (_frames w0, _mainFrame w0, _signalBarriers w0, rerunnableStore w0, contextPromises w0,
     handlePromises w0, timers w0, now w0, _disconnectedPromise w0)
    = (_frames w, _mainFrame w, _signalBarriers w, rerunnableStore w, contextPromises w,
       handlePromises w, timers w, now w, _disconnectedPromise w) ∧
    effects w0 = effects w ++ evs ∧
    (∀ e, e ∈ evs →
       (∃ b t, e = AwaitNavigation b t ∧ b ∈ _signalBarriers w ∧
               length (taskStore w) ≤ t
               < length (taskStore w) + length (_signalBarriers w)) ∨
       (∃ p c, e = CleanupWhenAborted p c)) ∧
    (∀ b, b ∈ _signalBarriers w → ∃ t, AwaitNavigation b t ∈ evs).
Proof.
  intros Hid Hf Hbs.
  apply lookup_lt_Some in Hf as Hlt.
  destruct (forM_addFrameNavigation frame (_signalBarriers w) w fr Hf Hbs)
    as (w0 & tasks' & new & evs & Hrun & Hfs & Hrest).
  exists w0, (with_frameStore
                (λ s, <[frame := set_pendingDocumentId documentId
                                   (set_frameTasks (λ _, tasks') fr)]> s) w0),
    tasks', new, evs.
  split; [done|]. split; [reflexivity|].
  split; [|done].
  unfold FrameManager.frameRequestedNavigation.
  rewrite (bind_Ok get _ w w w eq_refl). rewrite Hid.
  rewrite (bind_Ok _ _ w tt w0 Hrun).
  unfold updateFrame. rewrite Hfs. by rewrite list_lookup_insert_eq by done.
Qed.

(** X25. [frameRequestedNavigation] for a known frame retains every signal
    barrier that is open, once, and gives each a new task on the frame that
    waits for a new document and for a navigation within the document, on
    two fresh pending promises.  The frame takes the document id as its
    pending one.  No promise that existed is settled - no barrier is
    released - and barriers outside the open set, the open set itself and
    the frame map are as before. *)
Theorem X25_requested_navigation_retains_barriers (w : World) (frameId documentId : string)
  (frame : nat) (fr : Frame) :
  _frames w !! frameId = Some frame →
  frameStore w !! frame = Some fr →
  NoDup (_signalBarriers w) →
  (∀ b, b ∈ _signalBarriers w → b < length (barrierStore w)) →
  ∃ w' fr' new,
    FrameManager.frameRequestedNavigation frameId documentId w = Ok tt w' ∧
    frameStore w' = <[frame := fr']> (frameStore w) ∧
    fr' = set_pendingDocumentId documentId (set_frameTasks (λ _, _frameTasks fr') fr) ∧
    (∀ t, t ∈ _frameTasks fr' ↔
          t ∈ _frameTasks fr ∨ length (taskStore w) ≤ t < length (taskStore w')) ∧
    taskStore w' = taskStore w ++ new ∧ length new = length (_signalBarriers w) ∧
    (∀ tk, tk ∈ new →
       _frame tk = frame ∧
       ∃ q p, _onNewDocument tk = Some (None, q) ∧ _onSameDocument tk = Some (None, p) ∧
              documentPromises w !! q = None ∧ documentPromises w' !! q = Some Pending ∧
              voidPromises w !! p = None ∧ voidPromises w' !! p = Some Pending) ∧
    (∀ p, p < length (voidPromises w) → voidPromises w' !! p = voidPromises w !! p) ∧
    (∀ q, q < length (documentPromises w) →
          documentPromises w' !! q = documentPromises w !! q) ∧
    (∀ b bo, barrierStore w !! b = Some bo →
       barrierStore w' !! b
       = Some (if decide (b ∈ _signalBarriers w)
               then set_protectCount (_protectCount bo + 1)%Z bo else bo)) ∧
    length (barrierStore w') = length (barrierStore w) ∧
    _signalBarriers w' = _signalBarriers w ∧ _frames w' = _frames w ∧
    timers w' = timers w.
Proof.
  intros Hid Hf Hnd Hbs.
  apply lookup_lt_Some in Hf as Hlt.
  destruct (frameRequestedNavigation_run w frameId documentId frame fr Hid Hf Hbs)
    as (w0 & w' & tasks' & new & evs & Hloop & -> & Hrun & Hfs & Htasks & Hts & Hlen
        & Hnew & Hvoid & Hdoc & Hbar & Hrest & _).
  injection Hrest as Hfr _ Hsb _ _ _ Htm _ _.
  eexists _, _, new. split; [exact Hrun|].
  split.
  { simpl. rewrite Hfs. by rewrite list_insert_insert_eq. }
  split; [done|].
  split.
  { intros t. cbn [_frameTasks set_pendingDocumentId set_frameTasks taskStore with_frameStore].
    rewrite Htasks, Hts, length_app, Hlen. done. }
  split; [done|]. split; [done|].
  split.
  { intros tk Htk.
    destruct (Hnew tk Htk) as (H1 & _ & _ & (q & Hq & Hqr) & (p & Hp & Hpr)).
    split; [done|]. exists q, p. split; [done|]. split; [done|].
    cbn [documentPromises voidPromises with_frameStore]. rewrite Hdoc, Hvoid.
    split; [apply lookup_ge_None; lia|].
    split.
    { rewrite lookup_app_r by lia. apply lookup_replicate. split; [done | lia]. }
    split; [apply lookup_ge_None; lia|].
    rewrite lookup_app_r by lia. apply lookup_replicate. split; [done | lia]. }
  split.
  { intros p Hp. cbn [voidPromises with_frameStore]. rewrite Hvoid. by apply lookup_app_l. }
  split.
  { intros q Hq. cbn [documentPromises with_frameStore]. rewrite Hdoc.
    by apply lookup_app_l. }
  split.
  { intros b bo Hbo. cbn [barrierStore with_frameStore]. rewrite Hbar, Hbo. simpl.
    rewrite (occurrences_NoDup b _ Hnd).
    destruct (decide (b ∈ _signalBarriers w)); [done|].
    by rewrite set_protectCount_zero. }
  split.
  { cbn [barrierStore with_frameStore].
    apply Nat.le_antisymm.
    - apply Nat.nlt_ge. intros Hgt.
      destruct (lookup_lt_is_Some_2 (barrierStore w0) (length (barrierStore w)))
        as [x Hx]; [lia|].
      rewrite Hbar in Hx. rewrite lookup_ge_None_2 in Hx by lia. done.
    - apply Nat.nlt_ge. intros Hgt.
      destruct (lookup_lt_is_Some_2 (barrierStore w) (length (barrierStore w0)))
        as [x Hx]; [lia|].
      specialize (Hbar (length (barrierStore w0))). rewrite Hx in Hbar.
      rewrite lookup_ge_None_2 in Hbar by lia. done. }
  done.
Qed.

Lemma release_run w barrier bo :
  barrierStore w !! barrier = Some bo →
  SignalBarrier.release barrier w
  = Ok tt
      (let w1 := with_barrierStore
                   (λ s, <[barrier := set_protectCount (_protectCount bo - 1)%Z bo]> s) w in
       if bool_decide ((_protectCount bo - 1)%Z = 0%Z)
       then with_voidPromises
              (Promise.settle (_promise bo) (Fulfilled tt) (voidPromises w)) w1
       else w1).
Proof.
  intros Hb. apply lookup_lt_Some in Hb as Hlt.
  unfold SignalBarrier.release.
  rewrite (bind_Ok _ _ w tt
             (with_barrierStore
                (λ s, <[barrier := set_protectCount (_protectCount bo - 1)%Z bo]> s) w)).
  2: { unfold updateBarrier. by rewrite Hb. }
  rewrite (bind_Ok _ _
             (with_barrierStore
                (λ s, <[barrier := set_protectCount (_protectCount bo - 1)%Z bo]> s) w)
             (set_protectCount (_protectCount bo - 1)%Z bo)
             (with_barrierStore
                (λ s, <[barrier := set_protectCount (_protectCount bo - 1)%Z bo]> s) w)).
  2: { unfold getBarrier. simpl. by rewrite list_lookup_insert_eq. }
  cbn [_protectCount set_protectCount _promise]. cbv zeta.
  by destruct (bool_decide _).
Qed.

Lemma retain_run w barrier bo :
  barrierStore w !! barrier = Some bo →
  SignalBarrier.retain barrier w
  = Ok tt (with_barrierStore
             (λ s, <[barrier := set_protectCount (_protectCount bo + 1)%Z bo]> s) w).
Proof. intros Hb. unfold SignalBarrier.retain, updateBarrier. by rewrite Hb. Qed.

(** X26. A navigation that is requested while an action is in flight holds
    the barrier of the action: when the action has returned, [waitFor]
    hands out a promise that is still pending, and it is the end of
    [addFrameNavigation] - when the navigation has settled - that removes
    the task from the frame, releases the barrier and fulfils the
    promise. *)
Theorem X26_barrier_waits_for_navigation (w : World) (frameId documentId : string)
  (frame : nat) (fr : Frame) (barrier : nat) (bo : SignalBarrier) :
  _frames w !! frameId = Some frame →
  frameStore w !! frame = Some fr →
  NoDup (_signalBarriers w) →
  (∀ b, b ∈ _signalBarriers w → b < length (barrierStore w)) →
  barrier ∈ _signalBarriers w →
  barrierStore w !! barrier = Some bo →
  _protectCount bo = 1%Z →
  voidPromises w !! _promise bo = Some Pending →
  ∃ w1 task w2 w3 fr3,
    FrameManager.frameRequestedNavigation frameId documentId w = Ok tt w1 ∧
    AwaitNavigation barrier task ∈ effects w1 ∧
    length (taskStore w) ≤ task ∧
    SignalBarrier.waitFor barrier w1 = Ok (_promise bo) w2 ∧
    voidPromises w2 !! _promise bo = Some Pending ∧
    protectCount w2 barrier = Some 1%Z ∧
    SignalBarrier.addFrameNavigation_settled barrier task w2 = Ok tt w3 ∧
    voidPromises w3 !! _promise bo = Some (Fulfilled tt) ∧
    protectCount w3 barrier = Some 0%Z ∧
    frameStore w3 !! frame = Some fr3 ∧ task ∉ _frameTasks fr3.
Proof.
  intros Hid Hf Hnd Hbs Hin Hbo Hcount Hlatch.
  apply lookup_lt_Some in Hf as Hlt.
  apply lookup_lt_Some in Hbo as Hltb.
  apply lookup_lt_Some in Hlatch as Hltp.
  destruct (frameRequestedNavigation_run w frameId documentId frame fr Hid Hf Hbs)
    as (w0 & w1 & tasks' & new & evs & Hloop & -> & Hrun & Hfs & Htasks & Hts & Hlen
        & Hnew & Hvoid & Hdoc & Hbar & Hrest & Heff & Hevs & Hall).
  set (fr1 := set_pendingDocumentId documentId (set_frameTasks (λ _, tasks') fr)).
  set (w1 := with_frameStore (λ s, <[frame := fr1]> s) w0).
  destruct (Hall barrier Hin) as [task Htask].
  destruct (Hevs _ Htask) as [(b & t & [= <- <-] & _ & Hrange)|(p & c & [=])].
  assert (Hb1 : barrierStore w1 !! barrier = Some (set_protectCount 2%Z bo)).
  { cbn [barrierStore w1 with_frameStore]. rewrite Hbar, Hbo. simpl.
    rewrite (occurrences_NoDup barrier _ Hnd), decide_True by done.
    by rewrite Hcount. }
  set (w2 := with_barrierStore (λ s, <[barrier := set_protectCount 1%Z bo]> s) w1).
  assert (Hrel : SignalBarrier.release barrier w1 = Ok tt w2).
  { by rewrite (release_run w1 barrier _ Hb1). }
  assert (Hb2 : barrierStore w2 !! barrier = Some (set_protectCount 1%Z bo)).
  { simpl. apply list_lookup_insert_eq. by eapply lookup_lt_Some. }
  assert (Hp2 : voidPromises w2 !! _promise bo = Some Pending).
  { cbn [voidPromises w2 w1 with_frameStore with_barrierStore].
    rewrite Hvoid. by rewrite lookup_app_l. }
  destruct (lookup_lt_is_Some_2 new (task - length (taskStore w))) as [tk Htk]; [lia|].
  assert (Htk2 : taskStore w2 !! task = Some tk).
  { cbn [taskStore w2 w1 with_frameStore with_barrierStore]. rewrite Hts.
    rewrite lookup_app_r by lia. done. }
  destruct (Hnew tk) as (Hframe & _); [by eapply list_elem_of_lookup_2|].
  set (fr3 := set_frameTasks (set_delete task) fr1).
  set (w2' := with_frameStore (λ s, <[frame := fr3]> s) w2).
  assert (Hdone : FrameTask.done task w2 = Ok tt w2').
  { unfold FrameTask.done. rewrite (bind_Ok _ _ w2 tk w2) by (unfold getTask; by rewrite Htk2).
    rewrite Hframe. unfold updateFrame.
    cbn [frameStore w2 w1 with_frameStore with_barrierStore].
    by rewrite list_lookup_insert_eq by (rewrite Hfs, length_insert; lia). }
  set (w3 := with_voidPromises
               (Promise.settle (_promise bo) (Fulfilled tt) (voidPromises w2'))
               (with_barrierStore (λ s, <[barrier := set_protectCount 0%Z bo]> s) w2')).
  assert (Hrel3 : SignalBarrier.release barrier w2' = Ok tt w3).
  { rewrite (release_run w2' barrier _ Hb2). cbn [_protectCount set_protectCount _promise].
    cbv zeta. rewrite bool_decide_eq_true_2 by done.
    by apply f_equal, World_ext. }
  exists w1, task, w2, w3, fr3.
  split; [exact Hrun|].
  split; [cbn [effects w1 with_frameStore]; rewrite Heff; apply elem_of_app; by right|].
  split; [lia|].
  split.
  { unfold SignalBarrier.waitFor. rewrite (bind_Ok _ _ _ _ _ Hrel).
    rewrite (bind_Ok _ _ w2 (set_protectCount 1%Z bo) w2); [done|].
    unfold getBarrier. by rewrite Hb2. }
  split; [done|].
  split; [unfold protectCount; by rewrite Hb2|].
  split.
  { unfold SignalBarrier.addFrameNavigation_settled. by rewrite (bind_Ok _ _ _ _ _ Hdone). }
  split.
  { cbn [voidPromises w3 with_voidPromises]. by apply settle_lookup_pending. }
  split.
  { unfold protectCount. cbn [barrierStore w3 with_voidPromises with_barrierStore].
    rewrite list_lookup_insert_eq; [done|].
    cbn [barrierStore w2' w2 with_frameStore with_barrierStore].
    rewrite length_insert. by eapply lookup_lt_Some. }
  split.
  { cbn [frameStore w3 w2' with_voidPromises with_barrierStore with_frameStore].
    apply list_lookup_insert_eq.
    cbn [frameStore w2 w1 with_frameStore with_barrierStore].
    rewrite length_insert, Hfs, length_insert. lia. }
  cbn [_frameTasks fr3 set_frameTasks]. unfold set_delete.
  rewrite list_elem_of_filter. by intros [? _].
Qed.

Lemma barriers_barrier_page :
  NoDup (_signalBarriers barrier_page) ∧
  ∀ b, b ∈ _signalBarriers barrier_page → b < length (barrierStore barrier_page).
Proof.
  split; [apply NoDup_singleton|].
  intros b Hb. apply list_elem_of_singleton in Hb as ->. simpl. lia.
Qed.

Lemma X25_witness :
  ∃ w',
    FrameManager.frameRequestedNavigation "main" "D1" barrier_page = Ok tt w' ∧
    protectCount w' 0 = Some 2%Z.
Proof.
  destruct barriers_barrier_page as [Hnd Hbs].
  destruct (X25_requested_navigation_retains_barriers barrier_page "main" "D1" 0 _
              eq_refl eq_refl Hnd Hbs)
    as (w' & fr' & new & Hrun & _ & _ & _ & _ & _ & _ & _ & _ & Hbar & _).
  exists w'. split; [exact Hrun|].
  unfold protectCount. by erewrite Hbar by reflexivity.
Defined.

Lemma X26_witness :
  ∃ w1 task w2 w3,
    FrameManager.frameRequestedNavigation "main" "D1" barrier_page = Ok tt w1 ∧
    SignalBarrier.waitFor 0 w1 = Ok 2 w2 ∧
    voidPromises w2 !! 2 = Some Pending ∧
    SignalBarrier.addFrameNavigation_settled 0 task w2 = Ok tt w3 ∧
    voidPromises w3 !! 2 = Some (Fulfilled tt).
Proof.
  destruct barriers_barrier_page as [Hnd Hbs].
  destruct (X26_barrier_waits_for_navigation barrier_page "main" "D1" 0 _ 0
              {| barrier_progress := None; _protectCount := 1; _promise := 2 |}
              eq_refl eq_refl Hnd Hbs)
    as (w1 & task & w2 & w3 & fr3 & Hrun & _ & _ & Hwait & Hp & _ & Hset & Hq & _);
    [by left | reflexivity | reflexivity | reflexivity |].
  exists w1, task, w2, w3. split; [exact Hrun|]. split; [exact Hwait|].
  split; [exact Hp|]. split; [exact Hset | exact Hq].
Defined.

(** ** The timer that a detached frame leaves behind *)

(** X27. A network-idle timer that is scheduled for a frame when the frame
    is detached is left behind, and with nothing else happening to the
    page it fires into nothing: on a frame tree [frameDetached] returns,
    the timer cannot fire before its delay has passed, and once the delay
    has passed the timer fires, finds the id of its frame gone from the
    frame map, and is spent without any other change to the page. *)
Theorem X27_leftover_timer_fires_into_nothing (w : World) (frameId : string) (frame : nat)
  (fr : Frame) (t : nat) (tm : Timer) (dt : Z) :
  treeOk w →
  _frames w !! frameId = Some frame →
  frameStore w !! frame = Some fr → _id fr = frameId →
  timers w !! t = Some tm → callback tm = NetworkIdleCallback frame →
  status tm = Scheduled →
  (due tm ≤ now w + Z.max 0 dt)%Z →
  ∃ w1,
    FrameManager.frameDetached frameId w = Ok tt w1 ∧
    ((now w < due tm)%Z → EventLoop.fireTimer t w1 = None) ∧
    EventLoop.fireTimer t (exec (EventLoop.advance dt) w1)
    = Some (Ok tt (with_timers (<[t := set_status Fired tm]>)
                     (exec (EventLoop.advance dt) w1))).
Proof.
  intros Hwf Hid Hf Hfid Htm Hcb Hst Hdue.
  apply lookup_lt_Some in Hf as Hlt.
  destruct (removeFramesRecursively_run frame w Hwf Hlt) as (w1 & order & Hrun & Hrem & _).
  assert (Hdet : FrameManager.frameDetached frameId w = Ok tt w1).
  { unfold FrameManager.frameDetached. rewrite (bind_Ok _ _ w w w) by done.
    by rewrite Hid. }
  destruct (frameDetached_unmaps w w1 frameId frame fr Hid Hf Hfid Hdet)
    as (Hnone & Ht & fr' & Hf' & Hid' & _).
  pose proof (rs_rest _ _ _ _ Hrem) as Hrest. unfold removalRest in Hrest.
  injection Hrest as _ _ _ _ _ _ _ Hnow _.
  exists w1. split; [done|]. split.
  { intros Hearly. unfold EventLoop.fireTimer, EventLoop.timerDue. rewrite Ht, Htm, Hnow.
    rewrite (proj2 (Z.leb_gt _ _) Hearly). by rewrite andb_false_r. }
  unfold EventLoop.fireTimer, EventLoop.timerDue, exec, EventLoop.advance, modify.
  cbn [world_of timers with_now now]. rewrite Ht, Htm, Hst, Hnow.
  rewrite bool_decide_eq_true_2 by done.
  rewrite (proj2 (Z.leb_le _ _) Hdue). cbn [andb]. rewrite Hcb.
  unfold FrameManager.frameLifecycleEvent. msimpl. rewrite Hf'. simpl.
  by rewrite Hid', Hnone.
Qed.

Lemma treeOk_committed_page : treeOk committed_page.
Proof. tree_ok. Qed.

Lemma X27_witness :
  ∃ w1,
    FrameManager.frameDetached "main" committed_page = Ok tt w1 ∧
    EventLoop.fireTimer 0 w1 = None ∧
    is_Some (EventLoop.fireTimer 0 (exec (EventLoop.advance 500) w1)).
Proof.
  destruct (X27_leftover_timer_fires_into_nothing committed_page "main" 0 _ 0 _ 500
              treeOk_committed_page eq_refl eq_refl eq_refl eq_refl eq_refl eq_refl)
    as (w1 & Hrun & Hearly & Hfire); [vm_compute; discriminate|].
  exists w1. split; [exact Hrun|]. split; [by apply Hearly|]. by rewrite Hfire.
Defined.

(** ** An action behind a signal barrier *)

Lemma SignalBarrier_new_run progress w :
  SignalBarrier.new progress w
  = Ok (length (barrierStore w))
      (with_barrierStore
         (λ s, s ++ [{| barrier_progress := progress; _protectCount := 1%Z;
                        _promise := length (voidPromises w) |}])
         (with_voidPromises (voidPromises w ++ [Pending]) w)).
Proof.
  unfold SignalBarrier.new.
  rewrite (bind_Ok _ _ w (length (voidPromises w))
             (with_voidPromises (voidPromises w ++ [Pending]) w)) by done.
  set (b0 := {| barrier_progress := progress; _protectCount := 0%Z;
                _promise := length (voidPromises w) |}).
  rewrite (bind_Ok _ _ (with_voidPromises (voidPromises w ++ [Pending]) w)
             (length (barrierStore w))
             (with_barrierStore (λ s, s ++ [b0])
                (with_voidPromises (voidPromises w ++ [Pending]) w))) by done.
  rewrite (bind_Ok _ _ _ tt _
             (retain_run (with_barrierStore (λ s, s ++ [b0])
                            (with_voidPromises (voidPromises w ++ [Pending]) w))
                (length (barrierStore w)) b0 (list_lookup_middle _ [] _ _ eq_refl))).
  unfold mret, M_ret. apply f_equal, World_ext; try done. simpl.
  rewrite insert_app_r_alt by done. by rewrite Nat.sub_diag.
Qed.

(** X28. An action that requests no navigation is not held up by its
    barrier.  [waitForSignalsCreatedBy] opens a new barrier with a pending
    promise and puts it among the open ones; when the action has returned,
    [waitFor] releases the barrier and its promise is fulfilled at once;
    and after that the open barriers are the ones there were before, with
    no frame or task changed.  With noWaitAfter nothing of this happens: no
    barrier is made and the world stays as it is. *)
Theorem X28_action_without_navigation (w : World) (progress : option nat) :
  (∀ b, b ∈ _signalBarriers w → b < length (barrierStore w)) →
  FrameManager.waitForSignalsCreatedBy progress true w = Ok None w ∧
  ∃ w1 w2 w3,
    let barrier := length (barrierStore w) in
    let p := length (voidPromises w) in
    FrameManager.waitForSignalsCreatedBy progress false w = Ok (Some barrier) w1 ∧
    barrier ∈ _signalBarriers w1 ∧
    protectCount w1 barrier = Some 1%Z ∧ voidPromises w1 !! p = Some Pending ∧
    FrameManager.waitForSignalsCreatedBy_acted barrier w1 = Ok p w2 ∧
    voidPromises w2 !! p = Some (Fulfilled tt) ∧
    FrameManager.waitForSignalsCreatedBy_settled barrier w2 = Ok tt w3 ∧
    _signalBarriers w3 = _signalBarriers w ∧
    frameStore w3 = frameStore w ∧ taskStore w3 = taskStore w ∧
    (∀ q, q < length (voidPromises w) → voidPromises w3 !! q = voidPromises w !! q) ∧
    effects w3 = effects w
      ++ match progress with
         | Some pr => [CleanupWhenAborted pr (CleanupBarrierDelete (length (barrierStore w)))]
         | None => []
         end.
Proof.
  intros Hbs. split; [done|].
  set (barrier := length (barrierStore w)).
  set (p := length (voidPromises w)).
  set (bo := {| barrier_progress := progress; _protectCount := 1%Z; _promise := p |}).
  set (w0 := with_barrierStore (λ s, s ++ [bo])
               (with_voidPromises (voidPromises w ++ [Pending]) w)).
  set (w1 := with_effects
               (λ l, l ++ match progress with
                          | Some pr => [CleanupWhenAborted pr (CleanupBarrierDelete barrier)]
                          | None => []
                          end)
               (with_signalBarriers (set_add barrier) w0)).
  assert (Hb1 : barrierStore w1 !! barrier = Some bo) by (by apply list_lookup_middle).
  set (w2 := with_voidPromises (Promise.settle p (Fulfilled tt) (voidPromises w1))
               (with_barrierStore (λ s, <[barrier := set_protectCount 0%Z bo]> s) w1)).
  assert (Hrel : SignalBarrier.release barrier w1 = Ok tt w2).
  { rewrite (release_run w1 barrier bo Hb1). by apply f_equal, World_ext. }
  assert (Hfresh : barrier ∉ _signalBarriers w).
  { intros Hin. apply Hbs in Hin. unfold barrier in Hin. lia. }
  exists w1, w2, (with_signalBarriers (set_delete barrier) w2).
  split.
  { unfold FrameManager.waitForSignalsCreatedBy.
    rewrite (bind_Ok _ _ w barrier w0) by apply SignalBarrier_new_run.
    rewrite (bind_Ok _ _ w0 tt (with_signalBarriers (set_add barrier) w0)) by done.
    destruct progress as [pr|]; unfold mbind, M_bind, effect, modify, mret, M_ret;
      apply f_equal, World_ext; try done.
    simpl. by rewrite app_nil_r. }
  split.
  { cbn [_signalBarriers w1 with_effects with_signalBarriers].
    apply elem_of_set_add. by left. }
  split; [unfold protectCount; by rewrite Hb1|].
  split; [by apply list_lookup_middle|].
  split.
  { unfold FrameManager.waitForSignalsCreatedBy_acted, SignalBarrier.waitFor.
    rewrite (bind_Ok _ _ _ _ _ Hrel).
    rewrite (bind_Ok _ _ w2 (set_protectCount 0%Z bo) w2); [done|].
    unfold getBarrier. simpl. rewrite list_lookup_insert_eq; [done|].
    rewrite length_app. simpl. unfold barrier. lia. }
  split.
  { cbn [voidPromises w2 with_voidPromises]. apply settle_lookup_pending.
    by apply list_lookup_middle. }
  split; [done|].
  split.
  { cbn [_signalBarriers w2 w1 w0 with_signalBarriers with_voidPromises with_barrierStore
           with_effects].
    by apply set_delete_set_add. }
  split; [done|]. split; [done|].
  split; [|done].
  intros q Hq. cbn [voidPromises w2 w1 w0 with_signalBarriers with_voidPromises
                      with_barrierStore with_effects].
  rewrite settle_lookup_ne by (unfold p; lia). by apply lookup_app_l.
Qed.

Lemma X28_witness :
  ∃ w1 w2 w3,
    FrameManager.waitForSignalsCreatedBy None false attached_page = Ok (Some 0) w1 ∧
    FrameManager.waitForSignalsCreatedBy_acted 0 w1 = Ok 2 w2 ∧
    voidPromises w2 !! 2 = Some (Fulfilled tt) ∧
    FrameManager.waitForSignalsCreatedBy_settled 0 w2 = Ok tt w3 ∧
    _signalBarriers w3 = [].
Proof.
  destruct (X28_action_without_navigation attached_page None) as [_ H].
  { intros b Hb. by apply elem_of_nil in Hb. }
  destruct H as (w1 & w2 & w3 & H1 & _ & _ & _ & H2 & H3 & H4 & H5 & _).
  exists w1, w2, w3. split; [exact H1|]. split; [exact H2|]. split; [exact H3|].
  split; [exact H4 | exact H5].
Defined.

(** ** Console messages that carry a tag *)

(** X29. A tag in [_consoleMessageTags] is used once.  A debug message
    whose text is a registered tag is intercepted: the tag leaves the map,
    whether its handler returns or throws, the handler runs on the page,
    and the call returns true when the handler has returned.  The same
    message again is not intercepted and runs nothing, and neither is a
    message that is not a debug message or whose text is no tag; the other
    tags stay registered. *)
Theorem X29_console_tag_is_used_once (w : World) (message : ConsoleMessage)
  (tags : gmap string ConsoleTagHandler) (handler : ConsoleTagHandler) :
  message_type message = "debug"%string →
  tags !! message_text message = Some handler →
  ∃ r tags',
    FrameManager.interceptConsoleMessage message tags w = (r, tags') ∧
    tags' !! message_text message = None ∧
    (∀ tag, tag ≠ message_text message → tags' !! tag = tags !! tag) ∧
    (∀ w1, handler w = Ok tt w1 → r = Ok true w1) ∧
    (∀ e w1, handler w = Throw e w1 → r = Throw e w1) ∧
    (∀ u, FrameManager.interceptConsoleMessage message tags' u = (Ok false u, tags')) ∧
    (∀ u other,
       message_type other ≠ "debug"%string ∨ tags' !! message_text other = None →
       FrameManager.interceptConsoleMessage other tags' u = (Ok false u, tags')).
Proof.
  intros Hty Htag.
  assert (Hno : ∀ u other,
            message_type other ≠ "debug"%string ∨
            delete (message_text message) tags !! message_text other = None →
            FrameManager.interceptConsoleMessage other (delete (message_text message) tags) u
            = (Ok false u, delete (message_text message) tags)).
  { intros u other Hother. unfold FrameManager.interceptConsoleMessage.
    destruct (String.eqb (message_type other) "debug") eqn:Heq; [|done].
    apply String.eqb_eq in Heq. destruct Hother as [Hne|Hnone]; [done|].
    cbn [negb]. cbv zeta. case_match eqn:Hl; [|done].
    by pose proof (eq_trans (eq_sym Hl) Hnone). }
  eexists _, (delete (message_text message) tags). split.
  { unfold FrameManager.interceptConsoleMessage.
    rewrite Hty. rewrite String.eqb_refl. cbn [negb]. cbv zeta. case_match eqn:Hl.
    - pose proof (eq_trans (eq_sym Hl) Htag) as [= ->]. reflexivity.
    - by pose proof (eq_trans (eq_sym Hl) Htag). }
  split; [apply lookup_delete_eq|].
  split; [intros tag Hne; by apply lookup_delete_ne|].
  split; [intros w1 Hrun; unfold mbind, M_bind; by rewrite Hrun|].
  split; [intros e w1 Hrun; unfold mbind, M_bind; by rewrite Hrun|].
  split; [intros u; apply Hno; right; apply lookup_delete_eq|].
  exact Hno.
Qed.

Lemma X29_witness :
  ∃ r tags',
    FrameManager.interceptConsoleMessage
      {| message_type := "debug"; message_text := "tag-1" |}
      {[ "tag-1"%string := setContent_handler 0 5 "load" ]} loaded_page = (r, tags') ∧
    tags' !! "tag-1"%string = None.
Proof.
  destruct (X29_console_tag_is_used_once loaded_page
              {| message_type := "debug"; message_text := "tag-1" |}
              {[ "tag-1"%string := setContent_handler 0 5 "load" ]}
              (setContent_handler 0 5 "load") eq_refl)
    as (r & tags' & Hrun & Hnone & _); [apply lookup_singleton_eq|].
  exists r, tags'. split; [exact Hrun | exact Hnone].
Defined.

(** ** A potential navigation *)

Lemma foldl_alter_lookup_NoDup {A} (G : A → A) (l : list nat) : ∀ (s : list A) t,
  NoDup l →
  foldl (λ s t, alter G t s) s l !! t = (if decide (t ∈ l) then G else λ x, x) <$> s !! t.
Proof.
  induction l as [|t0 l IH]; intros s t Hnd.
  - rewrite decide_False by (intros H; by apply elem_of_nil in H).
    simpl. destruct (s !! t); reflexivity.
  - apply NoDup_cons in Hnd as [Hout Hnd].
    simpl. rewrite IH by done. rewrite lookup_alter_decide.
    destruct (s !! t) as [x|]; simpl; [|done]. f_equal.
    destruct (decide (t = t0)) as [->|Hne].
    + rewrite (decide_True (P := t0 ∈ t0 :: l)) by by left.
      by rewrite decide_False by done.
    + destruct (decide (t ∈ l)) as [Hin|Hnin].
      * by rewrite decide_True by by right.
      * rewrite decide_False; [done|]. intros Hin. apply elem_of_cons in Hin as [?|?]; done.
Qed.

Lemma forM_retain_run bs : ∀ w,
  (∀ b, b ∈ bs → b < length (barrierStore w)) →
  forM_ bs SignalBarrier.retain w
  = Ok tt (with_barrierStore
             (λ s, foldl (λ s b, alter (λ x, set_protectCount (_protectCount x + 1)%Z x) b s)
                     s bs) w).
Proof.
  induction bs as [|b bs IH]; intros w Hall.
  - by apply f_equal, World_ext.
  - destruct (lookup_lt_is_Some_2 (barrierStore w) b) as [bo Hbo]; [apply Hall; by left|].
    rewrite forM_cons, (retain_run w b bo Hbo). rewrite IH.
    + apply f_equal, World_ext; try done. simpl.
      by rewrite (alter_insert_lookup _ _ _ bo).
    + intros b' Hb'. simpl. rewrite length_insert. apply Hall. by right.
Qed.

Lemma settle_not_pending {T} (h : list (PromiseState T)) p s :
  h !! p ≠ Some Pending → Promise.settle p s h = h.
Proof. intros H. unfold Promise.settle. by destruct (h !! p) as [[]|]. Qed.

Lemma forM_release_run bs : ∀ w,
  NoDup bs →
  (∀ b, b ∈ bs → ∃ bo, barrierStore w !! b = Some bo ∧
     ((_protectCount bo - 1)%Z ≠ 0%Z ∨ voidPromises w !! _promise bo ≠ Some Pending)) →
  forM_ bs SignalBarrier.release w
  = Ok tt (with_barrierStore
             (λ s, foldl (λ s b, alter (λ x, set_protectCount (_protectCount x - 1)%Z x) b s)
                     s bs) w).
Proof.
  induction bs as [|b bs IH]; intros w Hnd Hall.
  - by apply f_equal, World_ext.
  - apply NoDup_cons in Hnd as [Hout Hnd].
    destruct (Hall b) as (bo & Hbo & Hcase); [by left|].
    rewrite forM_cons, (release_run w b bo Hbo). cbv zeta.
    set (w1 := with_barrierStore
                 (λ s, <[b := set_protectCount (_protectCount bo - 1)%Z bo]> s) w).
    assert (Hstep : (if bool_decide ((_protectCount bo - 1)%Z = 0%Z)
                     then with_voidPromises
                            (Promise.settle (_promise bo) (Fulfilled tt) (voidPromises w)) w1
                     else w1) = w1).
    { case_bool_decide as Hz; [|done].
      destruct Hcase as [Hc|Hp]; [done|].
      rewrite (settle_not_pending _ _ _ Hp). by apply World_ext. }
    rewrite Hstep. rewrite IH; [|done|].
    + apply f_equal, World_ext; try done. simpl.
      by rewrite (alter_insert_lookup _ _ _ bo).
    + intros b' Hb'. destruct (Hall b') as (bo' & Hbo' & Hcase'); [by right|].
      exists bo'. split; [|done]. simpl. rewrite list_lookup_insert_ne; [done|].
      intros ->. done.
Qed.

(** X30. A potential navigation that requests none is a round trip for the
    open barriers.  [frameWillPotentiallyRequestNavigation] retains every
    open barrier once and settles nothing, and
    [frameDidPotentiallyRequestNavigation] after it leaves the page exactly
    as it was before the two calls: no count has changed and no barrier
    has been let go - as long as no open barrier with a pending promise has
    the count zero. *)
Theorem X30_potential_navigation_round_trip (w : World) :
  NoDup (_signalBarriers w) →
  (∀ b, b ∈ _signalBarriers w → ∃ bo, barrierStore w !! b = Some bo ∧
     (_protectCount bo ≠ 0%Z ∨ voidPromises w !! _promise bo ≠ Some Pending)) →
  ∃ w1,
    FrameManager.frameWillPotentiallyRequestNavigation w = Ok tt w1 ∧
    (∀ b bo, barrierStore w !! b = Some bo →
       barrierStore w1 !! b
       = Some (if decide (b ∈ _signalBarriers w)
               then set_protectCount (_protectCount bo + 1)%Z bo else bo)) ∧
    voidPromises w1 = voidPromises w ∧
    FrameManager.frameDidPotentiallyRequestNavigation w1 = Ok tt w.
Proof.
  intros Hnd Hall.
  set (Gp := λ x, set_protectCount (_protectCount x + 1)%Z x).
  set (Gm := λ x, set_protectCount (_protectCount x - 1)%Z x).
  set (w1 := with_barrierStore
               (λ s, foldl (λ s b, alter Gp b s) s (_signalBarriers w)) w).
  assert (Hlook : ∀ b, barrierStore w1 !! b
                       = (if decide (b ∈ _signalBarriers w) then Gp else λ x, x)
                           <$> barrierStore w !! b).
  { intros b. by apply foldl_alter_lookup_NoDup. }
  exists w1. split.
  { unfold FrameManager.frameWillPotentiallyRequestNavigation.
    rewrite (bind_Ok get _ w w w eq_refl). apply forM_retain_run.
    intros b Hb. destruct (Hall b Hb) as (bo & Hbo & _). by eapply lookup_lt_Some. }
  split.
  { intros b bo Hbo. rewrite Hlook, Hbo. simpl. by destruct (decide _). }
  split; [done|].
  unfold FrameManager.frameDidPotentiallyRequestNavigation.
  rewrite (bind_Ok get _ w1 w1 w1 eq_refl).
  change (_signalBarriers w1) with (_signalBarriers w).
  rewrite forM_release_run; [|done|].
  - apply f_equal, World_ext; try done.
    cbn [barrierStore with_barrierStore]. apply list_eq. intros b.
    rewrite (foldl_alter_lookup_NoDup _ _ _ _ Hnd), Hlook.
    destruct (barrierStore w !! b) as [bo|]; [|done]. simpl. f_equal.
    destruct (decide _); [|done].
    destruct bo. unfold set_protectCount. simpl. f_equal. lia.
  - intros b Hb. destruct (Hall b Hb) as (bo & Hbo & Hcase).
    exists (Gp bo). split; [rewrite Hlook, Hbo; simpl; by rewrite decide_True|].
    unfold Gp. cbn [_protectCount _promise set_protectCount].
    destruct Hcase as [Hc|Hp]; [left; lia | by right].
Qed.

Lemma X30_witness :
  ∃ w1,
    FrameManager.frameWillPotentiallyRequestNavigation barrier_page = Ok tt w1 ∧
    protectCount w1 0 = Some 2%Z ∧
    FrameManager.frameDidPotentiallyRequestNavigation w1 = Ok tt barrier_page.
Proof.
  destruct (X30_potential_navigation_round_trip barrier_page) as (w1 & H1 & Hb & _ & H2).
  - apply NoDup_singleton.
  - intros b Hb. apply list_elem_of_singleton in Hb as ->.
    eexists. split; [reflexivity|]. by left.
  - exists w1. split; [exact H1|]. split; [|exact H2].
    unfold protectCount. by erewrite Hb by reflexivity.
Defined.
